(** * SNAP read ingestion: [Read] (Read.h) and the FASTQ readers (FASTQ.cpp)

    A shallow embedding of the record value type [Read] with its clipping and
    orientation operations, and of the FASTQ boundary recovery, the sequential
    record parser and the two paired readers, together with the properties
    the design document states about them; and, beside these, of the FASTQ
    writer, the clipping read from a CIGAR string, [ReadWithOwnMemory] and
    the file specifiers of the command line (AlignerOptions.cpp), with
    properties read off the code. *)

From Stdlib Require Import ZArith NArith Ascii String Bool Lia List.
Import ListNotations.

Open Scope Z_scope.

(** ** Bytes *)

Definition NUL : ascii := Ascii.zero.
Definition LF : ascii := "010"%char.
Definition CR : ascii := "013"%char.
Definition CtrlZ : ascii := "026"%char.

(** [unsigned] is 32 bits wide: arithmetic on it wraps. *)
Definition wrap32 (z : Z) : Z := z mod 2 ^ 32.

(** [size_t] is taken to be 64 bits wide. *)
Definition wrap64 (z : Z) : Z := z mod 2 ^ 64.

(** ** Pointers and memory

    A [char *] held by a [Read] is NULL, an address in memory the caller owns
    (the I/O buffer the reader carved the record from), or an offset into the
    Read's own [localBuffer]. *)

Inductive ptr : Type :=
| Null
| Ext (a : Z)
| Loc (o : Z).

Definition padd (p : ptr) (n : Z) : ptr :=
  match p with
  | Null => Null
  | Ext a => Ext (a + n)
  | Loc o => Loc (o + n)
  end.

Definition isNull (p : ptr) : bool :=
  match p with Null => true | _ => false end.

(** Caller-owned memory, by address.  No operation of [Read] stores to it
    (the parameters are [const char *]). *)
Definition memory : Type := Z -> ascii.

(** [#define MAX_READ_LENGTH 500] (LONG_READS is not defined). *)
Definition MAX_READ_LENGTH : Z := 500.
Definition MaxReadLength : Z := MAX_READ_LENGTH.

(** [char localBuffer[MAX_READ_LENGTH * 3]], by index. *)
Definition localBufferLength : Z := 3 * MAX_READ_LENGTH.

(** [p[i]].  Loads are total in the model; a load through NULL reads NUL. *)
Definition load (ext lb : memory) (p : ptr) (i : Z) : ascii :=
  match p with
  | Null => NUL
  | Ext a => ext (a + i)
  | Loc o => lb (o + i)
  end.

(** [localBuffer[o] = c].  A store outside the array is undefined behaviour
    in the source; the model stops there with [None]. *)
Definition store (lb : memory) (o : Z) (c : ascii) : option memory :=
  if (0 <=? o) && (o <? localBufferLength)
  then Some (fun i => if i =? o then c else lb i)
  else None.

(** The [n] bytes starting at [p]. *)
Definition span (ext lb : memory) (p : ptr) (n : Z) : list ascii :=
  map (fun i => load ext lb p (Z.of_nat i)) (seq 0 (Z.to_nat n)).

(** ** Enumerations *)

Inductive ReadClippingType : Type :=
| NoClipping
| ClipFront
| ClipBack
| ClipFrontAndBack.

Definition ReadClippingType_eqb (a b : ReadClippingType) : bool :=
  match a, b with
  | NoClipping, NoClipping
  | ClipFront, ClipFront
  | ClipBack, ClipBack
  | ClipFrontAndBack, ClipFrontAndBack => true
  | _, _ => false
  end.

(** [Direction] of directions.h, with the two values Read.h uses. *)
Inductive Direction : Type :=
| FORWARD
| RC.

(** ** The [Read] class: its data members

    [batch], [readGroup] and the auxiliary data are left out: neither [init],
    [clip] nor [becomeRC] reads or assigns them. *)

Record Read : Type := mkRead {
  id : ptr;
  data : ptr;
  unclippedData : ptr;
  unclippedQuality : ptr;
  quality : ptr;
  idLength : Z;
  dataLength : Z;
  unclippedLength : Z;
  frontClippedLength : Z;
  clippingState : ReadClippingType;
  originalAlignedLocation : Z;
  originalMAPQ : Z;
  originalSAMFlags : Z;
  originalFrontClipping : Z;
  originalBackClipping : Z;
  originalFrontHardClipping : Z;
  originalBackHardClipping : Z;
  originalRNEXT : ptr;
  originalRNEXTLength : Z;
  originalPNEXT : Z;
  localBuffer : memory;
  localBufferAllocationOffset : Z;
  upcaseForwardRead : ptr;
  rcData : ptr;
  rcQuality : ptr;
  externalData : ptr;
  externalQuality : ptr;
  currentReadDirection : Direction
}.

Definition getFrontClippedLength (r : Read) : Z :=
  match data r, unclippedData r with
  | Ext a, Ext b => wrap32 (a - b)
  | Loc a, Loc b => wrap32 (a - b)
  | _, _ => 0
  end.

(** The bytes a consumer sees through the accessors. *)
Definition getDataBytes (ext : memory) (r : Read) : list ascii :=
  span ext (localBuffer r) (data r) (dataLength r).
Definition getQualityBytes (ext : memory) (r : Read) : list ascii :=
  span ext (localBuffer r) (quality r) (dataLength r).
Definition getUnclippedDataBytes (ext : memory) (r : Read) : list ascii :=
  span ext (localBuffer r) (unclippedData r) (unclippedLength r).
Definition getUnclippedQualityBytes (ext : memory) (r : Read) : list ascii :=
  span ext (localBuffer r) (unclippedQuality r) (unclippedLength r).
Definition getIdBytes (ext : memory) (r : Read) : list ascii :=
  span ext (localBuffer r) (id r) (idLength r).

(** A [Read] as the default constructor leaves it; the members the
    constructor does not initialise are shown as NULL and 0. *)
Definition Read_new : Read :=
  mkRead Null Null Null Null Null 0 0 0 0 NoClipping
         (wrap32 (-1)) (wrap32 (-1)) 0 0 0 0 0 Null 0 0
         (fun _ => NUL) 0 Null Null Null Null Null FORWARD.

(** ** Outcomes of code that may end the process *)

Inductive diagnostic : Type :=
| NoNewlineAtEnd            (* FASTQ file doesn't end with a newline *)
| RecordLargerThanBuffer    (* FASTQ record larger than buffer size *)
| BlankLine                 (* Syntax error in FASTQ file: blank line *)
| InvalidStartingCharacter  (* FASTQ file has invalid starting character *)
| FirstNotSlash1            (* first read of batch doesn't have ID ending with /1 *)
| SecondNotSlash2           (* second read of batch doesn't have ID ending with /2 *)
| NotSlash1OrSlash2         (* read ID doesn't appear to end with /1 or /2 *)
| EndsWithFirstHalf         (* file (or chunk) appears to end with the first half of a read pair *)
| FirstOfPairNotSlash1      (* first read of pair doesn't appear to have an ID that ends in /1 *)
| FilesDontMatch.           (* reads of both ends responded differently *)

Inductive outcome (A : Type) : Type :=
| Returns (a : A)
| SoftExit (d : diagnostic)   (* [fprintf(stderr, ...); soft_exit(1);] *)
| Undefined.                  (* undefined behaviour: a wild store or pointer *)

Arguments Returns {A} a.
Arguments SoftExit {A} d.
Arguments Undefined {A}.

Definition bind {A B : Type} (m : outcome A) (f : A -> outcome B) : outcome B :=
  match m with
  | Returns a => f a
  | SoftExit d => SoftExit d
  | Undefined => Undefined
  end.

Notation "x <- m ;; k" := (bind m (fun x => k))
  (at level 61, m at next level, right associativity).
Notation "' pat <- m ;; k" := (bind m (fun x => match x with pat => k end))
  (at level 61, pat pattern, m at next level, right associativity).

Section Snap.

(** Tables.h is not part of the sources at hand: the three lookup tables are
    parameters of the development. *)
Variable IS_LOWER_CASE : ascii -> N.
Variable TO_UPPER_CASE : ascii -> ascii.
Variable COMPLEMENT : ascii -> ascii.

Section ReadOperations.

(** The memory of the caller, which the operations only load from. *)
Variable ext : memory.

(** *** [Read::init] *)

(** [for (i = 0; i < dataLength; i++) anyLowerCase |= IS_LOWER_CASE[data[i]];]
    with [n] the iterations left. *)
Fixpoint anyLowerCaseLoop (lb : memory) (d : ptr) (n : nat) (i : Z) (anyLowerCase : N) : N :=
  match n with
  | O => anyLowerCase
  | S k =>
      anyLowerCaseLoop lb d k (i + 1)
        (N.lor anyLowerCase (IS_LOWER_CASE (load ext lb d i)))
  end.

(** [for (i = 0; i < dataLength; i++) upcaseForwardRead[i] = TO_UPPER_CASE[data[i]];]
    where [upcaseForwardRead == localBuffer]. *)
Fixpoint upcaseLoop (d : ptr) (n : nat) (i : Z) (lb : memory) : option memory :=
  match n with
  | O => Some lb
  | S k =>
      match store lb i (TO_UPPER_CASE (load ext lb d i)) with
      | Some lb' => upcaseLoop d k (i + 1) lb'
      | None => None
      end
  end.

(** [i_data] and [i_quality] are addresses in the memory of the caller;
    the [unsigned] parameters take their arguments modulo 2^32. *)
Definition init (r : Read)
    (i_id : ptr) (i_idLength : Z) (i_data i_quality : Z) (i_dataLength : Z)
    (i_originalAlignedLocation i_originalMAPQ i_originalSAMFlags
     i_originalFrontClipping i_originalBackClipping
     i_originalFrontHardClipping i_originalBackHardClipping : Z)
    (i_originalRNEXT : ptr) (i_originalRNEXTLength i_originalPNEXT : Z)
  : option Read :=
  let len := wrap32 i_dataLength in
  let r0 :=
    mkRead i_id (Ext i_data) (Ext i_data) (Ext i_quality) (Ext i_quality)
           (wrap32 i_idLength) len len 0 NoClipping
           (wrap32 i_originalAlignedLocation) (wrap32 i_originalMAPQ)
           (wrap32 i_originalSAMFlags)
           (wrap32 i_originalFrontClipping) (wrap32 i_originalBackClipping)
           (wrap32 i_originalFrontHardClipping) (wrap32 i_originalBackHardClipping)
           i_originalRNEXT (wrap32 i_originalRNEXTLength) (wrap32 i_originalPNEXT)
           (localBuffer r) 0 Null Null Null (Ext i_data) (Ext i_quality) FORWARD in
  let anyLowerCase :=
    anyLowerCaseLoop (localBuffer r) (Ext i_data) (Z.to_nat len) 0 0%N in
  if (anyLowerCase =? 0)%N then Some r0
  else
    match upcaseLoop (Ext i_data) (Z.to_nat len) 0 (localBuffer r) with
    | None => None
    | Some lb =>
        Some (mkRead i_id (Loc 0) (Loc 0) (Ext i_quality) (Ext i_quality)
                (wrap32 i_idLength) len len 0 NoClipping
                (wrap32 i_originalAlignedLocation) (wrap32 i_originalMAPQ)
                (wrap32 i_originalSAMFlags)
                (wrap32 i_originalFrontClipping) (wrap32 i_originalBackClipping)
                (wrap32 i_originalFrontHardClipping) (wrap32 i_originalBackHardClipping)
                i_originalRNEXT (wrap32 i_originalRNEXTLength) (wrap32 i_originalPNEXT)
                lb (wrap32 (0 + len)) (Loc 0) Null Null
                (Ext i_data) (Ext i_quality) FORWARD)
    end.

(** The five-argument overload. *)
Definition init5 (r : Read) (i_id : ptr) (i_idLength : Z)
    (i_data i_quality : Z) (i_dataLength : Z) : option Read :=
  init r i_id i_idLength i_data i_quality i_dataLength
       (-1) (-1) 0 0 0 0 0 Null 0 0.

(** *** [Read::clip] *)

(** [while (dataLength > 0 && quality[dataLength - 1] == '#')
       { dataLength--; backClipping++; }]
    by recursion on [dataLength] itself. *)
Fixpoint clipBackLoop (q : Z -> ascii) (dataLength : nat) (backClipping : Z) : nat * Z :=
  match dataLength with
  | O => (O, backClipping)
  | S k =>
      if Ascii.eqb (q (Z.of_nat k)) "#"
      then clipBackLoop q k (backClipping + 1)
      else (S k, backClipping)
  end.

(** [while (frontClippedLength < dataLength && quality[frontClippedLength] == '#')
       frontClippedLength++;]
    with [n] the distance [dataLength - frontClippedLength]. *)
Fixpoint clipFrontLoop (q : Z -> ascii) (n : nat) (frontClippedLength : Z) : Z :=
  match n with
  | O => frontClippedLength
  | S k =>
      if Ascii.eqb (q frontClippedLength) "#"
      then clipFrontLoop q k (frontClippedLength + 1)
      else frontClippedLength
  end.

Definition clipsBack (c : ReadClippingType) : bool :=
  match c with ClipBack | ClipFrontAndBack => true | _ => false end.
Definition clipsFront (c : ReadClippingType) : bool :=
  match c with ClipFront | ClipFrontAndBack => true | _ => false end.

Definition clip (r : Read) (clipping : ReadClippingType)
    (maintainOriginalClipping : bool) : Read :=
  if ReadClippingType_eqb clipping (clippingState r) then r
  else
    let q := load ext (localBuffer r) (unclippedQuality r) in
    let dataLength0 := unclippedLength r in
    let dataLength1 :=
      if clipsBack clipping then
        let '(dl, backClipping) := clipBackLoop q (Z.to_nat dataLength0) 0 in
        if maintainOriginalClipping && (backClipping <? originalBackClipping r)
        then wrap32 (Z.of_nat dl - (originalBackClipping r - backClipping))
        else Z.of_nat dl
      else dataLength0 in
    let front :=
      if clipsFront clipping then
        let f := clipFrontLoop q (Z.to_nat dataLength1) 0 in
        if maintainOriginalClipping then Z.max f (originalFrontClipping r) else f
      else 0 in
    mkRead (id r)
           (padd (unclippedData r) front) (unclippedData r) (unclippedQuality r)
           (padd (unclippedQuality r) front)
           (idLength r) (wrap32 (dataLength1 - front)) (unclippedLength r) front
           clipping
           (originalAlignedLocation r) (originalMAPQ r) (originalSAMFlags r)
           (originalFrontClipping r) (originalBackClipping r)
           (originalFrontHardClipping r) (originalBackHardClipping r)
           (originalRNEXT r) (originalRNEXTLength r) (originalPNEXT r)
           (localBuffer r) (localBufferAllocationOffset r)
           (upcaseForwardRead r) (rcData r) (rcQuality r)
           (externalData r) (externalQuality r) (currentReadDirection r).

(** *** [Read::becomeRC] *)

(** [for (i = 0; i < unclippedLength; i++) {
       rcData[i] = COMPLEMENT[unclippedData[unclippedLength - i - 1]];
       rcQuality[unclippedLength-i-1] = unclippedQuality[i]; }]
    with [rcData = localBuffer + rd] and [rcQuality = localBuffer + rq]. *)
Fixpoint rcLoop (ud uq : ptr) (len rd rq : Z) (n : nat) (i : Z) (lb : memory)
  : option memory :=
  match n with
  | O => Some lb
  | S k =>
      match store lb (rd + i) (COMPLEMENT (load ext lb ud (len - i - 1))) with
      | None => None
      | Some lb1 =>
          match store lb1 (rq + (len - i - 1)) (load ext lb1 uq i) with
          | None => None
          | Some lb2 => rcLoop ud uq len rd rq k (i + 1) lb2
          end
      end
  end.

(** The tail both branches share: the clipping reverses, and the recorded
    front and back (hard) clipping swap. *)
Definition becomeRC_finish (r : Read) (ud uq : ptr) (dir : Direction)
    (lb : memory) (off : Z) (rcd rcq : ptr) : Read :=
  let front :=
    wrap32 (wrap32 (unclippedLength r - dataLength r) - frontClippedLength r) in
  mkRead (id r)
         (padd ud front) ud uq (padd uq front)
         (idLength r) (dataLength r) (unclippedLength r) front
         (clippingState r)
         (originalAlignedLocation r) (originalMAPQ r) (originalSAMFlags r)
         (originalBackClipping r) (originalFrontClipping r)
         (originalBackHardClipping r) (originalFrontHardClipping r)
         (originalRNEXT r) (originalRNEXTLength r) (originalPNEXT r)
         lb off (upcaseForwardRead r) rcd rcq
         (externalData r) (externalQuality r) dir.

Definition becomeRC (r : Read) : option Read :=
  match currentReadDirection r with
  | RC =>
      let ud := if isNull (upcaseForwardRead r) then externalData r
                else upcaseForwardRead r in
      Some (becomeRC_finish r ud (externalQuality r) FORWARD
              (localBuffer r) (localBufferAllocationOffset r)
              (rcData r) (rcQuality r))
  | FORWARD =>
      if isNull (rcData r) then
        let rd := localBufferAllocationOffset r in
        let rq := wrap32 (rd + unclippedLength r) in
        let off := wrap32 (rq + unclippedLength r) in
        match rcLoop (unclippedData r) (unclippedQuality r) (unclippedLength r)
                     rd rq (Z.to_nat (unclippedLength r)) 0 (localBuffer r) with
        | None => None
        | Some lb =>
            Some (becomeRC_finish r (Loc rd) (Loc rq) RC lb off (Loc rd) (Loc rq))
        end
      else
        Some (becomeRC_finish r (rcData r) (rcQuality r) RC
                (localBuffer r) (localBufferAllocationOffset r)
                (rcData r) (rcQuality r))
  end.

(** *** [Read::countOfTrailing2sInQuality] *)

(** [while (count < dataLength && quality[dataLength - 1 - count] == '#') count++;]
    with [n] the distance [dataLength - count]. *)
Fixpoint trailing2sLoop (q : Z -> ascii) (dataLength : Z) (n : nat) (count : Z) : Z :=
  match n with
  | O => count
  | S k =>
      if Ascii.eqb (q (dataLength - 1 - count)) "#"
      then trailing2sLoop q dataLength k (count + 1)
      else count
  end.

Definition countOfTrailing2sInQuality (r : Read) : Z :=
  trailing2sLoop (load ext (localBuffer r) (quality r)) (dataLength r)
                 (Z.to_nat (dataLength r)) 0.

(** *** [Read::computeReverseCompliment]

    [outputBuffer] is memory of the caller, given by its address; the result
    is the memory of the caller after the stores.  Each pass loads from the
    memory the passes before it have left. *)

(** [for (i = 0; i < dataLength; i++)
       outputBuffer[i] = COMPLEMENT[data[dataLength - i - 1]];]
    with [n] the passes left and [m] the memory of the caller. *)
Fixpoint complementLoop (lb : memory) (d : ptr) (dataLength outputBuffer : Z)
    (n : nat) (i : Z) (m : memory) : memory :=
  match n with
  | O => m
  | S k =>
      let c := COMPLEMENT (load m lb d (dataLength - i - 1)) in
      complementLoop lb d dataLength outputBuffer k (i + 1)
        (fun a => if a =? outputBuffer + i then c else m a)
  end.

Definition computeReverseCompliment (r : Read) (outputBuffer : Z) : memory :=
  complementLoop (localBuffer r) (data r) (dataLength r) outputBuffer
                 (Z.to_nat (dataLength r)) 0 ext.

End ReadOperations.

(** ** The clipping a CIGAR string records (Read.h)

    The string lies in memory of the caller, at the address [cigarBuffer];
    an index is an [unsigned] and is added to the pointer as it is. *)

(** [c >= '0' && c <= '9']. *)
Definition isDigit (c : ascii) : bool :=
  ((48 <=? nat_of_ascii c) && (nat_of_ascii c <=? 57))%nat.

(** [atoi] of the C library, on the bytes of the string before its NUL:
    white space, a sign, and the digits up to the first byte that is none;
    a value that is no [int] is undefined, and the model has [None]. *)
Definition isSpace (c : ascii) : bool :=
  Ascii.eqb c " " || ((9 <=? nat_of_ascii c) && (nat_of_ascii c <=? 13))%nat.

Fixpoint digitsValue (s : list ascii) (acc : Z) : Z :=
  match s with
  | c :: t =>
      if isDigit c
      then digitsValue t (10 * acc + (Z.of_nat (nat_of_ascii c) - 48))
      else acc
  | [] => acc
  end.

Fixpoint skipSpace (s : list ascii) : list ascii :=
  match s with
  | c :: t => if isSpace c then skipSpace t else s
  | [] => []
  end.

Definition atoi (s : list ascii) : option Z :=
  let v :=
    match skipSpace s with
    | c :: t =>
        if Ascii.eqb c "-" then - digitsValue t 0
        else if Ascii.eqb c "+" then digitsValue t 0
        else digitsValue (c :: t) 0
    | [] => 0
    end in
  if (- 2 ^ 31 <=? v) && (v <? 2 ^ 31) then Some v else None.

Section Cigar.

Variable m : memory.
Variable cigarBuffer : Z.

(** [cigarBuffer[i]]. *)
Definition cigarAt (i : Z) : ascii := m (cigarBuffer + i).

(** The bytes [buffer] holds when [atoi] is called: the [n] bytes copied
    from index [start] on. *)
Definition copied (start : Z) (n : Z) : list ascii :=
  map (fun k => cigarAt (wrap32 (start + Z.of_nat k))) (seq 0 (Z.to_nat n)).

(** [for (i = 0; i < bufferSize && i < cigarSize && cigarBuffer[i] >= '0'
         && cigarBuffer[i] <= '9'; i++) buffer[i] = cigarBuffer[i];]
    with [fuel] the distance [bufferSize - i]. *)
Fixpoint frontDigits (cigarSize : Z) (fuel : nat) (i : Z) : Z :=
  match fuel with
  | O => i
  | S fuel' =>
      if (i <? cigarSize) && isDigit (cigarAt i)
      then frontDigits cigarSize fuel' (i + 1)
      else i
  end.

(** [for (; i < cigarSize && cigarBuffer[i] != '\t' && cigarBuffer[i] != '\0'; i++)]
    with [fuel] the distance [cigarSize - i]. *)
Fixpoint toEnd (cigarSize : Z) (fuel : nat) (i : Z) : Z :=
  match fuel with
  | O => i
  | S fuel' =>
      if (i <? cigarSize) && negb (Ascii.eqb (cigarAt i) "009")
         && negb (Ascii.eqb (cigarAt i) NUL)
      then toEnd cigarSize fuel' (i + 1)
      else i
  end.

(** [for (...; i >= 0 && cigarBuffer[i] >= '0' && cigarBuffer[i] <= '9'; i--)]
    from the index [i] down: the index the scan stops at, [None] when it
    steps down from index 0.  [i >= 0] holds of every [unsigned]. *)
Fixpoint digitsDown (i : nat) : option nat :=
  if isDigit (cigarAt (Z.of_nat i))
  then match i with
       | O => None
       | S i' => digitsDown i'
       end
  else Some i.

(** The whole of that loop: stepping down from index 0 the index wraps, and
    the scan goes on from [UINT_MAX]; digits all the way round, it has no
    end. *)
Definition backwards (i : Z) : option Z :=
  match digitsDown (Z.to_nat i) with
  | Some j => Some (Z.of_nat j)
  | None =>
      match digitsDown (Z.to_nat (2 ^ 32 - 1)) with
      | Some j => Some (Z.of_nat j)
      | None => None
      end
  end.

(** [for (i = stringStart; cigarBuffer[i] >= '0' && cigarBuffer[i] <= '9'; i++)
       buffer[i - stringStart] = cigarBuffer[i];
     buffer[i - stringStart] = '\0';]
    the number of digits copied, [n] of them so far; [buffer] has 21 bytes,
    and a store behind them is undefined: the model has [None]. *)
Fixpoint backDigits (stringStart : Z) (fuel : nat) (n : Z) : option Z :=
  match fuel with
  | O => None
  | S fuel' =>
      if isDigit (cigarAt (wrap32 (stringStart + n)))
      then backDigits stringStart fuel' (n + 1)
      else Some n
  end.

(** The results are [( *frontClipping, *backClipping, *frontClippingChars,
    *backClippingChars )].  The index is compared with [cigarSize], a
    [size_t]; the one caller passes less than 1000, and the model has
    [None] for a size the index cannot reach. *)
Definition ExtractClipping (cigarSize : Z) (clippingChar : ascii)
  : option (Z * Z * Z * Z) :=
  if 2 ^ 32 <=? cigarSize then None
  else
    let i := frontDigits cigarSize 20 0 in
    match
      (if Ascii.eqb (cigarAt i) clippingChar
       then match atoi (copied 0 i) with
            | Some v => Some (wrap32 v, wrap32 (i + 1))
            | None => None
            end
       else Some (0, 0))
    with
    | None => None
    | Some (frontClipping, frontClippingChars) =>
        let i := toEnd cigarSize (Z.to_nat (cigarSize - i)) i in
        if (1 <? i) && Ascii.eqb (cigarAt (i - 1)) clippingChar then
          match backwards (i - 2) with
          | None => None
          | Some i =>
              if 0 <? i then
                let stringStart := wrap32 (i + 1) in
                match backDigits stringStart 21 0 with
                | None => None
                | Some n =>
                    match atoi (copied stringStart n) with
                    | Some v =>
                        Some (frontClipping, wrap32 v, frontClippingChars,
                              wrap32 (n + 1))
                    | None => None
                    end
                end
              else Some (frontClipping, 0, frontClippingChars, 0)
          end
        else Some (frontClipping, 0, frontClippingChars, 0)
    end.

(** [for (cigarSize = 0; cigarSize < cigarLimit && cigarBuffer[cigarSize] != '\0'
         && cigarBuffer[cigarSize] != '\t'; cigarSize++)]
    with [fuel] the distance [cigarLimit - cigarSize]. *)
Fixpoint cigarLength (fuel : nat) (cigarSize : Z) : Z :=
  match fuel with
  | O => cigarSize
  | S fuel' =>
      if negb (Ascii.eqb (cigarAt cigarSize) NUL)
         && negb (Ascii.eqb (cigarAt cigarSize) "009")
      then cigarLength fuel' (cigarSize + 1)
      else cigarSize
  end.

End Cigar.

Inductive cigarClipping : Type :=
| Clipping (originalFrontClipping originalBackClipping
            originalFrontHardClipping originalBackHardClipping : Z)
| AbsurdlyLongCigar      (* [fprintf(stderr, ...); soft_exit(1);] *)
| ClippingUndefined.

(** The hard clipping is taken off first, then the soft clipping from what
    is left of the string between.  The lengths are [size_t], of 64 bits;
    the [_ASSERT] between the two calls stores nothing and is not shown. *)
Definition computeClippingFromCigar (m : memory) (cigarBuffer : Z) : cigarClipping :=
  let cigarSize := cigarLength m cigarBuffer 1000 0 in
  if cigarSize =? 1000 then AbsurdlyLongCigar
  else
    match ExtractClipping m cigarBuffer cigarSize "H" with
    | None => ClippingUndefined
    | Some (frontHard, backHard, frontHardClippingChars, backHardClippingChars) =>
        match
          ExtractClipping m (cigarBuffer + frontHardClippingChars)
            (wrap64 (wrap64 (cigarSize - frontHardClippingChars)
                     - backHardClippingChars)) "S"
        with
        | None => ClippingUndefined
        | Some (front, back, _, _) => Clipping front back frontHard backHard
        end
    end.

(** ** [ReadWithOwnMemory] (Read.h)

    A [Read] that copies its strings into arrays of its own.  The arrays
    come from [new char[]]; the addresses [new] returns are arguments of
    the model, and the memory the copies are stored to is the memory its
    pointers are read through. *)

(** [memcpy(dst, src, n)].  The source is read as it was before the call:
    the two do not overlap in a program that is defined. *)
Definition memcpy (ext lb : memory) (dst : Z) (src : ptr) (n : Z) : memory :=
  fun a =>
    if (dst <=? a) && (a <? dst + n) then load ext lb src (a - dst) else ext a.

(** [dst[n] = c]. *)
Definition poke (ext : memory) (dst n : Z) (c : ascii) : memory :=
  fun a => if a =? dst + n then c else ext a.

(** [b = new char[n + 1]; memcpy(b, src, n); b[n] = '\0';]
    The sum is one of [unsigned]s, and for the greatest of them the array
    has no bytes: the stores are behind it, and the model has [None]. *)
Definition ownCopy (ext lb : memory) (b : Z) (src : ptr) (n : Z) : option memory :=
  if n <? wrap32 (n + 1)
  then Some (poke (memcpy ext lb b src n) b n NUL)
  else None.

(** The members of [Read] that the record [Read] leaves out and
    [ReadWithOwnMemory::set] reads or assigns, beside the record. *)
Record ReadAndAuxiliaryData : Type := mkReadAndAuxiliaryData {
  theRead : Read;
  readGroup : ptr;
  auxiliaryData : ptr;
  auxiliaryDataLength : Z
}.

(** [auxBuffer] is [None] while nothing was assigned to it: the constructor
    that takes a [Read] has no initializer for it. *)
Record ReadWithOwnMemory : Type := mkReadWithOwnMemory {
  asRead : ReadAndAuxiliaryData;
  idBuffer : Z;
  dataBuffer : Z;
  qualityBuffer : Z;
  auxBuffer : option Z
}.

(** [ReadWithOwnMemory(const Read &baseRead) { set(baseRead); }]: the base
    is a [Read] as its default constructor leaves it.  [newId], [newData],
    [newQuality] and [newAux] are what the four [new char[]] return.  Of
    [getAuxiliaryData] the pointer and the length are used; the flag it
    computes beside them is not. *)
Definition set (ext : memory) (baseRead : ReadAndAuxiliaryData)
    (newId newData newQuality newAux : Z) : option (memory * ReadWithOwnMemory) :=
  let b := theRead baseRead in
  let lb := localBuffer b in
  match ownCopy ext lb newId (id b) (idLength b) with
  | None => None
  | Some m1 =>
      match ownCopy m1 lb newData (unclippedData b) (unclippedLength b) with
      | None => None
      | Some m2 =>
          match ownCopy m2 lb newQuality (unclippedQuality b) (unclippedLength b) with
          | None => None
          | Some m3 =>
              match init5 m3 Read_new (Ext newId) (idLength b)
                          newData newQuality (unclippedLength b) with
              | None => None
              | Some r =>
                  let r := clip m3 r (clippingState b) false in
                  let auxlen := auxiliaryDataLength baseRead in
                  let aux := auxiliaryData baseRead in
                  if negb (isNull aux) && (0 <? auxlen)
                  then
                    Some (memcpy m3 lb newAux aux auxlen,
                          mkReadWithOwnMemory
                            (mkReadAndAuxiliaryData r (readGroup baseRead)
                                                    (Ext newAux) auxlen)
                            newId newData newQuality (Some newAux))
                  else
                    Some (m3,
                          mkReadWithOwnMemory
                            (mkReadAndAuxiliaryData r (readGroup baseRead) Null 0)
                            newId newData newQuality None)
              end
          end
      end
  end.

(** ** FASTQ.cpp

    A [char *] into the I/O buffer is an offset into the list of the bytes of
    the buffer; past its end the memory reads NUL (the null the source counts
    on behind the data). *)

Definition byteAt (buf : list ascii) (p : nat) : ascii := nth p buf NUL.

(** The buffer as the memory a [Read] points into. *)
Definition bufferMemory (buf : list ascii) : memory :=
  fun a => if a <? 0 then NUL else byteAt buf (Z.to_nat a).

(** Modelled from the spec: [strnchr] of Util.h, which is not part of the
    sources at hand; by its name and its use in FASTQ.cpp, the first of the
    [n] bytes from [scan] on that equals [c], NULL ([None]) when none does. *)
Fixpoint strnchr (buf : list ascii) (scan : nat) (c : ascii) (n : nat) : option nat :=
  match n with
  | O => None
  | S k =>
      if Ascii.eqb (byteAt buf scan) c then Some scan
      else strnchr buf (S scan) c k
  end.

(** *** [FASTQReader::skipPartialRecord] *)

(** The bases the scan of the second line steps over. *)
Definition isRecoveryBase (c : ascii) : bool :=
  Ascii.eqb c "A" || Ascii.eqb c "C" || Ascii.eqb c "T" || Ascii.eqb c "G" ||
  Ascii.eqb c "N" || Ascii.eqb c "a" || Ascii.eqb c "c" || Ascii.eqb c "t" ||
  Ascii.eqb c "g".

(** [while (thirdLineCandidate[0] == 'A' || ...) thirdLineCandidate++;]
    the number of steps, from the bytes at [thirdLineCandidate] on.  The
    scan has no bound of its own: it stops at the latest at the NUL behind
    the buffer. *)
Fixpoint basesRun (l : list ascii) : nat :=
  match l with
  | c :: t => if isRecoveryBase c then S (basesRun t) else O
  | [] => O
  end.

Inductive skipResult : Type :=
| Advance (n : nat)   (* [data->advance(n); return true] *)
| NoBoundary          (* [return false] *)
| WildPointer.        (* NULL + 1 is used as a pointer into the buffer *)

(** The [for (;;)] loop; every pass that does not leave it moves
    [firstLineCandidate] to the line after, so [fuel] counts passes. *)
Fixpoint skipLoop (fuel : nat) (buf : list ascii) (buffer validBytes : nat)
    (firstLineCandidate : nat) : option skipResult :=
  match fuel with
  | O => None
  | S fuel' =>
      if (validBytes <=? firstLineCandidate - buffer)%nat then Some NoBoundary
      else
        match strnchr buf firstLineCandidate LF
                (validBytes - (firstLineCandidate - buffer)) with
        | None => Some NoBoundary
        | Some newLine =>
            let secondLineCandidate := S newLine in
            if negb (Ascii.eqb (byteAt buf firstLineCandidate) "@")
            then skipLoop fuel' buf buffer validBytes secondLineCandidate
            else
              let thirdLineCandidate :=
                (secondLineCandidate + basesRun (skipn secondLineCandidate buf))%nat in
              let thirdLineCandidate :=
                if Ascii.eqb (byteAt buf thirdLineCandidate) CR
                then S thirdLineCandidate else thirdLineCandidate in
              if negb (Ascii.eqb (byteAt buf thirdLineCandidate) LF)
              then skipLoop fuel' buf buffer validBytes secondLineCandidate
              else
                let thirdLineCandidate := S thirdLineCandidate in
                if negb (Ascii.eqb (byteAt buf thirdLineCandidate) "+")
                then skipLoop fuel' buf buffer validBytes secondLineCandidate
                else Some (Advance (firstLineCandidate - buffer))
        end
  end.

(** [buffer] and [validBytes] are what [data->getData] hands out. *)
Definition skipPartialRecord (buf : list ascii) (buffer validBytes : nat)
  : option skipResult :=
  if Ascii.eqb (byteAt buf buffer) "@"
  then skipLoop (S validBytes) buf buffer validBytes buffer
  else
    match strnchr buf buffer LF validBytes with
    | None => Some WildPointer
    | Some newLine => skipLoop (S validBytes) buf buffer validBytes (S newLine)
    end.

(** *** [FASTQReader::_init::_init]: the table of starting characters *)

Definition tolower (c : ascii) : ascii :=
  let n := nat_of_ascii c in
  if ((65 <=? n) && (n <=? 90))%nat then ascii_of_nat (n + 32) else c.

(** The table is indexed by the byte; bytes of 128 and more, which index
    it from below zero where [char] is signed, read false. *)
Definition isValidStartingCharacterForNextLine (row : nat) (c : ascii) : bool :=
  match row with
  | 3%nat => Ascii.eqb c "@"
  | 0%nat =>
      existsb (fun p => Ascii.eqb c p || Ascii.eqb c (tolower p))
              (list_ascii_of_string "ACTGNURYKMSWBDHVNX")
  | 1%nat => Ascii.eqb c "+"
  | 2%nat => ((33 <=? nat_of_ascii c) && (nat_of_ascii c <=? 126))%nat
  | _ => false
  end.

(** *** [FASTQReader::getReadFromBuffer] *)

Definition nLinesPerFastqQuery : nat := 4.

Inductive lineResult : Type :=
| Line (start lineLength next : nat)
| CtrlZAtEnd.     (* [return false] *)

(** One pass of the loop over the four lines: line [i] starts at [scan].
    The count handed to [strnchr], [validBytes - (scan - buffer)], is below
    zero only when [scan] has stepped over a carriage return behind the last
    newline of the valid bytes; what [strnchr] makes of such a count is in
    Util.h, and the model takes it for no bytes to search. *)
Definition scanLine (buf : list ascii) (buffer validBytes : nat) (isEOF : bool)
    (i scan : nat) : outcome lineResult :=
  match strnchr buf scan LF (validBytes - (scan - buffer)) with
  | None =>
      if ((validBytes - (scan - buffer) =? 1)%nat
          && Ascii.eqb (byteAt buf scan) CtrlZ && isEOF)%bool
      then Returns CtrlZAtEnd
      else if isEOF then SoftExit NoNewlineAtEnd
      else SoftExit RecordLargerThanBuffer
  | Some newLine =>
      let lineLen := (newLine - scan)%nat in
      if (lineLen =? 0)%nat then SoftExit BlankLine
      else if negb (isValidStartingCharacterForNextLine ((i + 3) mod 4) (byteAt buf scan))
      then SoftExit InvalidStartingCharacter
      else
        Returns (Line scan
                   (lineLen - (if Ascii.eqb (byteAt buf (scan + lineLen - 1)) CR
                               then 1 else 0))%nat
                   (newLine + (if Ascii.eqb (byteAt buf (S newLine)) CR
                               then 2 else 1))%nat)
  end.

(** [for (unsigned i = 0; i < nLinesPerFastqQuery; i++)] with [n] the passes
    left; the result is [lines], [lineLengths] and the final [scan], or
    [None] for the [return false]. *)
Fixpoint scanLines (buf : list ascii) (buffer validBytes : nat) (isEOF : bool)
    (n i scan : nat) : outcome (option (list (nat * nat) * nat)) :=
  match n with
  | O => Returns (Some ([], scan))
  | S n' =>
      l <- scanLine buf buffer validBytes isEOF i scan ;;
      match l with
      | CtrlZAtEnd => Returns None
      | Line start lineLength next =>
          rest <- scanLines buf buffer validBytes isEOF n' (S i) next ;;
          match rest with
          | None => Returns None
          | Some (ls, scan') => Returns (Some ((start, lineLength) :: ls, scan'))
          end
      end
  end.

Definition liftRead (r : option Read) : outcome Read :=
  match r with Some r' => Returns r' | None => Undefined end.

(** The result is the number of bytes consumed ([0] for [return false]) and
    the [Read] behind [readToUpdate]; [setBatch] and [setReadGroup] assign
    members the model of [Read] leaves out. *)
Definition getReadFromBuffer (buf : list ascii) (buffer validBytes : nat)
    (readToUpdate : Read) (isEOF : bool) (clipping : ReadClippingType)
  : outcome (nat * Read) :=
  ls <- scanLines buf buffer validBytes isEOF nLinesPerFastqQuery 0 buffer ;;
  match ls with
  | None => Returns (O, readToUpdate)
  | Some (lines, scan) =>
      let l0 := nth 0 lines (O, O) in
      let l1 := nth 1 lines (O, O) in
      let l3 := nth 3 lines (O, O) in
      r <- liftRead
             (init (bufferMemory buf) readToUpdate
                   (Ext (Z.of_nat (fst l0) + 1)) (Z.of_nat (snd l0) - 1)
                   (Z.of_nat (fst l1)) (Z.of_nat (fst l3)) (Z.of_nat (snd l1))
                   (-1) (-1) 0 0 0 0 0 Null 0 0) ;;
      Returns ((scan - buffer)%nat, clip (bufferMemory buf) r clipping false)
  end.

(** *** The byte source

    Modelled from the spec: the [DataReader] behind the readers, whose
    header is not part of the sources at hand.  Of the interface the design
    document lists, the readers use [getData], [advance], [nextBatch] and
    [isEOF]: a reader is the batch in use, with the cursor in it, and the
    batches still to come. *)

Record DataBatch : Type := mkBatch {
  batchBytes : list ascii;   (* the memory of the batch *)
  batchOffset : nat;         (* the cursor *)
  batchValid : nat;          (* the end of the valid bytes *)
  batchEOF : bool            (* the batch reaches the end of the input *)
}.

Definition DataReader : Type := list DataBatch.

(** [getData(&buffer, &validBytes)]: [None] for [false]. *)
Definition getData (d : DataReader) : option (list ascii * nat * nat) :=
  match d with
  | b :: _ =>
      if (batchOffset b <? batchValid b)%nat
      then Some (batchBytes b, batchOffset b, (batchValid b - batchOffset b)%nat)
      else None
  | [] => None
  end.

Definition advance (n : nat) (d : DataReader) : DataReader :=
  match d with
  | b :: later =>
      mkBatch (batchBytes b) (batchOffset b + n) (batchValid b) (batchEOF b) :: later
  | [] => []
  end.

Definition nextBatch (d : DataReader) : DataReader :=
  match d with
  | _ :: (_ :: _) as later => later
  | _ => d
  end.

Definition isEOF (d : DataReader) : bool :=
  match d with
  | b :: _ => batchEOF b
  | [] => true
  end.

(** *** [FASTQReader::getNextRead] *)

Definition getNextRead (clipping : ReadClippingType) (d : DataReader)
    (readToUpdate : Read) : outcome (bool * Read * DataReader) :=
  let parse d' buf buffer validBytes :=
    '(bytesConsumed, r) <-
       getReadFromBuffer buf buffer validBytes readToUpdate (isEOF d') clipping ;;
    Returns (true, r, advance bytesConsumed d') in
  match getData d with
  | Some (buf, buffer, validBytes) => parse d buf buffer validBytes
  | None =>
      let d' := nextBatch d in
      match getData d' with
      | Some (buf, buffer, validBytes) => parse d' buf buffer validBytes
      | None => Returns (false, readToUpdate, d')
      end
  end.

(** *** [FASTQReader::reinit]

    [d] is the byte source as [data->reinit(startingOffset,
    amountOfFileToProcess)] leaves it.  [skipPartialRecord] does not test
    what its own [getData] returns: without data it works on a pointer and
    a count that were never set. *)

Definition skipPartialRecordIn (d : DataReader) : outcome (bool * DataReader) :=
  match getData d with
  | None => Undefined
  | Some (buf, buffer, validBytes) =>
      match skipPartialRecord buf buffer validBytes with
      | Some (Advance n) => Returns (true, advance n d)
      | Some NoBoundary => Returns (false, d)
      | Some WildPointer | None => Undefined
      end
  end.

Definition FASTQReader_reinit (startingOffset : Z) (d : DataReader)
  : outcome DataReader :=
  match getData d with
  | None => Returns d
  | Some _ =>
      if negb (startingOffset =? 0) then
        '(_, d') <- skipPartialRecordIn d ;;
        Returns d'
      else Returns d
  end.

(** *** [PairedInterleavedFASTQReader] *)

(** [read.getId()[i]]. *)
Definition idByte (ext : memory) (r : Read) (i : Z) : ascii :=
  load ext (localBuffer r) (id r) i.

(** [!(idLength < 2 || memcmp(id + idLength - 2, {c1, c2}, 2))]. *)
Definition idEndsWith (ext : memory) (r : Read) (c1 c2 : ascii) : bool :=
  negb (idLength r <? 2) &&
  Ascii.eqb (idByte ext r (idLength r - 2)) c1 &&
  Ascii.eqb (idByte ext r (idLength r - 1)) c2.

(** The second record is read from [buffer + bytesConsumed] with the count
    [validBytes - bytesConsumed]. *)
Definition PairedInterleaved_getNextReadPair (clipping : ReadClippingType)
    (d : DataReader) (read0 read1 : Read)
  : outcome (bool * Read * Read * DataReader) :=
  let parse d' buf buffer validBytes :=
    '(bytesConsumed, r0) <-
       getReadFromBuffer buf buffer validBytes read0 (isEOF d') clipping ;;
    if (bytesConsumed =? validBytes)%nat
    then (* Input file seems to have an odd number of reads.  Ignoring the last one. *)
      Returns (false, r0, read1, d')
    else
      '(bytesConsumed1, r1) <-
         getReadFromBuffer buf (buffer + bytesConsumed) (validBytes - bytesConsumed)
                           read1 (isEOF d') clipping ;;
      if negb (idEndsWith (bufferMemory buf) r0 "/" "1") then SoftExit FirstNotSlash1
      else if negb (idEndsWith (bufferMemory buf) r1 "/" "2") then SoftExit SecondNotSlash2
      else Returns (true, r0, r1, advance (bytesConsumed + bytesConsumed1) d') in
  match getData d with
  | Some (buf, buffer, validBytes) => parse d buf buffer validBytes
  | None =>
      let d' := nextBatch d in
      match getData d' with
      | Some (buf, buffer, validBytes) => parse d' buf buffer validBytes
      | None => Returns (false, read0, read1, d')
      end
  end.

(** [d] is the byte source as [data->reinit] leaves it. *)
Definition PairedInterleaved_reinit (clipping : ReadClippingType)
    (startingOffset : Z) (d : DataReader) : outcome DataReader :=
  match getData d with
  | None => Returns d
  | Some _ =>
      '(found, d1) <-
         (if negb (startingOffset =? 0) then skipPartialRecordIn d
          else Returns (true, d)) ;;
      if negb found then Returns d1
      else
        match getData d1 with
        | None => Returns d1
        | Some (buf, buffer, bytes) =>
            '(bytesForFirstRead, read) <-
               getReadFromBuffer buf buffer bytes Read_new (isEOF d1) clipping ;;
            if (idLength read <? 2)
               || negb (Ascii.eqb (idByte (bufferMemory buf) read (idLength read - 2)) "/")
               || (negb (Ascii.eqb (idByte (bufferMemory buf) read (idLength read - 1)) "1")
                   && negb (Ascii.eqb (idByte (bufferMemory buf) read (idLength read - 1)) "2"))
            then SoftExit NotSlash1OrSlash2
            else if Ascii.eqb (idByte (bufferMemory buf) read (idLength read - 1)) "2"
            then
              let d2 := advance bytesForFirstRead d1 in
              match getData d2 with
              | None => SoftExit EndsWithFirstHalf
              | Some (buf2, buffer2, bytes2) =>
                  '(_, read') <-
                     getReadFromBuffer buf2 buffer2 bytes2 read (isEOF d2) clipping ;;
                  if negb (idEndsWith (bufferMemory buf2) read' "/" "1")
                  then SoftExit FirstOfPairNotSlash1
                  else Returns d2
              end
            else Returns d1
        end
  end.

(** *** [PairedFASTQReader::getNextReadPair] *)

Definition PairedFASTQReader_getNextReadPair (clipping : ReadClippingType)
    (readers0 readers1 : DataReader) (read0 read1 : Read)
  : outcome (bool * Read * Read * DataReader * DataReader) :=
  '(worked, r0, d0) <- getNextRead clipping readers0 read0 ;;
  '(worked1, r1, d1) <- getNextRead clipping readers1 read1 ;;
  if negb (Bool.eqb worked1 worked) then SoftExit FilesDontMatch
  else Returns (worked, r0, r1, d0, d1).

(** *** [FASTQWriter::writeRead]

    The writer collects the text of the records in a buffer.  Its members
    [buffer], [bufferSize] and [bufferOffset] are declared in FASTQ.h, which
    is not part of the sources at hand; FASTQ.cpp uses them as an array of
    bytes, its size and the offset of the first free byte, both counted
    like [len] in [size_t], which the model takes to be 64 bits wide.  The
    array is apart from the memory the [Read] points into. *)

Record FASTQWriter : Type := mkFASTQWriter {
  buffer : list ascii;
  bufferSize : Z;
  bufferOffset : Z
}.

(** What [%.*s] prints of an array: its bytes up to the first NUL, and no
    more of them than the precision says. *)
Fixpoint upToNUL (l : list ascii) : list ascii :=
  match l with
  | c :: t => if Ascii.eqb c NUL then [] else c :: upToNUL t
  | [] => []
  end.

(** The text ["@%.*s\n%.*s\n+\n%.*s\n"] stands for.  The precisions are
    passed as [unsigned] where [int] is expected; the model stops, with
    [None], at a length that is no [int]. *)
Definition recordText (ext : memory) (r : Read) : option (list ascii) :=
  if (idLength r <? 2 ^ 31) && (dataLength r <? 2 ^ 31) then
    Some ("@"%char :: upToNUL (getIdBytes ext r) ++
          LF :: upToNUL (getDataBytes ext r) ++
          LF :: "+"%char :: LF :: upToNUL (getQualityBytes ext r) ++ [LF])
  else None.

(** [snprintf(buffer + offset, size, ...)] for the text [text]: of the text
    and the NUL behind it, what fits [size] bytes is stored, and the length
    of the text is returned.  A store behind the end of the array is
    undefined, and a length that is no [int] cannot be returned: the model
    stops at both. *)
Definition snprintf (array : list ascii) (offset size : Z) (text : list ascii)
  : option (list ascii * Z) :=
  if negb (Z.of_nat (List.length text) <? 2 ^ 31) then None
  else if size =? 0 then Some (array, Z.of_nat (List.length text))
  else
    let stored := firstn (Z.to_nat (size - 1)) text ++ [NUL] in
    if (0 <=? offset) &&
       (offset + Z.of_nat (List.length stored) <=? Z.of_nat (List.length array))
    then Some (firstn (Z.to_nat offset) array ++ stored ++
               skipn (Z.to_nat offset + List.length stored) array,
               Z.of_nat (List.length text))
    else None.

Section Writer.

(** [flushBuffer] is defined in FASTQ.h as well: a parameter here. *)
Variable flushBuffer : FASTQWriter -> FASTQWriter.

Definition writeRead (ext : memory) (w : FASTQWriter) (read : Read)
  : option (bool * FASTQWriter) :=
  let len :=
    wrap32 (wrap32 (idLength read + wrap32 (2 * wrap32 (dataLength read + 2))) + 10) in
  let w1 :=
    if wrap64 (bufferSize w - bufferOffset w) <=? len then flushBuffer w else w in
  match recordText ext read with
  | None => None
  | Some text =>
      match snprintf (buffer w1) (bufferOffset w1)
                     (wrap64 (bufferSize w1 - bufferOffset w1)) text with
      | None => None
      | Some (array, bytesUsed) =>
          Some (true,
                mkFASTQWriter array (bufferSize w1)
                              (wrap64 (bufferOffset w1 + bytesUsed)))
      end
  end.

End Writer.

(** ** [SNAPFile::generateFromCommandLine] (AlignerOptions.cpp)

    The arguments are C strings; [args] is the array as it lies in memory,
    which may go on behind the [nArgs] arguments the caller hands over. *)

(** [enum FileType] of AlignerOptions.h. *)
Inductive FileType : Type :=
| UnknownFileType
| SAMFile
| FASTQFile
| BAMFile
| InterleavedFASTQFile
| CRAMFile.

(** [struct SNAPFile]; a name that is NULL is [None]. *)
Record SNAPFile : Type := mkSNAPFile {
  fileName : option string;
  secondFileName : option string;
  fileType : FileType;
  isCompressed : bool;
  isStdio : bool
}.

(** The messages [generateFromCommandLine] ends the process with. *)
Inductive fileSpecifierError : Type :=
| NotAValidOutputFileType     (* %s is not a valid output file type. *)
| ExpectedAPairOfFastQFiles   (* Expected a pair of fastQ files, but instead just got one *)
| BothHalvesStdin             (* Can't have both halves of paired FASTQ files be stdin *)
| InterleavedForSingleEnd     (* Specified %s for a single-end alignment. *)
| NoDefaultOutputFileType     (* There is no default output file type. *)
| StdioNeedsExplicitFileType  (* Stdio IO always requires an explicit file type. *)
| UnknownFileTypePleaseSpecify. (* Unknown file type, please specify file type *)

(** What a call comes to: it returns, with the value returned,
    [*argsConsumed] and [*snapFile]; or it ends the process; or it loads
    behind the last element of [args]. *)
Inductive fromCommandLine : Type :=
| Done (returned : bool) (argsConsumed : Z) (file : SNAPFile)
| Exits (e : fileSpecifierError)   (* [fprintf(stderr, ...); soft_exit(1);] *)
| BehindTheArray.

(** [s[i]], the NUL that ends the string at its length. *)
Definition charAt (s : string) (i : nat) : ascii :=
  match String.get i s with
  | Some c => c
  | None => NUL
  end.

(** Modelled from the spec: [util::stringEndsWith] of Util.h, which is not
    part of the sources at hand; by its name and its use here, whether the
    last bytes of [s] are those of [suffix]. *)
Definition stringEndsWith (s suffix : string) : bool :=
  (String.length suffix <=? String.length s)%nat &&
  String.eqb (substring (String.length s - String.length suffix)
                        (String.length suffix) s) suffix.

Definition generateFromCommandLine (args : list string) (nArgs : Z)
    (snapFile : SNAPFile) (paired isInput : bool)
  : fromCommandLine :=
  let f0 := mkSNAPFile None None (fileType snapFile) false false in
  if nArgs =? 0 then Done false 0 f0
  else
    match nth_error args 0 with
    | None => BehindTheArray
    | Some a0 =>
        if Ascii.eqb "-" (charAt a0 0) && negb (Ascii.eqb NUL (charAt a0 1)) then
          (* an explicit file type *)
          if 1 =? nArgs then Done false 0 f0
          else
            match nth_error args 1 with
            | None => BehindTheArray
            | Some a1 =>
                let stdio1 := if String.eqb a1 "-" then true else isStdio f0 in
                if String.eqb a0 "-fastq" || String.eqb a0 "-compressedFastq" then
                  if negb isInput then Exits NotAValidOutputFileType
                  else if paired && (nArgs <? 3) then Exits ExpectedAPairOfFastQFiles
                  else
                    let compressed := String.eqb a0 "-compressedFastq" in
                    if paired then
                      match nth_error args 2 with
                      | None => BehindTheArray
                      | Some a2 =>
                          if String.eqb "-" a2 then
                            if stdio1 then Exits BothHalvesStdin
                            else Done true 3
                                       (mkSNAPFile (Some a1) (Some a2) FASTQFile
                                                  compressed true)
                          else Done true 3
                                     (mkSNAPFile (Some a1) (Some a2) FASTQFile
                                                compressed stdio1)
                      end
                    else Done true 2
                               (mkSNAPFile (Some a1) None FASTQFile compressed stdio1)
                else if String.eqb a0 "-sam" then
                  Done true 2 (mkSNAPFile (Some a1) None SAMFile false stdio1)
                else if String.eqb a0 "-bam" then
                  Done true 2 (mkSNAPFile (Some a1) None BAMFile true stdio1)
                else if String.eqb a0 "-pairedInterleavedFastq"
                        || String.eqb a0 "-pairedCompressedInterleavedFastq" then
                  if negb paired then Exits InterleavedForSingleEnd
                  else Done true 2
                             (mkSNAPFile (Some a1) None InterleavedFASTQFile
                               (String.eqb a0 "-pairedCompressedInterleavedFastq")
                               stdio1)
                else
                  (* starts with '-' but is no file type *)
                  Done false 0
                        (mkSNAPFile None None (fileType snapFile) false stdio1)
            end
        else
          (* just a file name: the type is inferred *)
          let stdio0 := Ascii.eqb "-" (charAt a0 0) && Ascii.eqb NUL (charAt a0 1) in
          if stringEndsWith a0 ".sam" then
            Done true 1 (mkSNAPFile (Some a0) None SAMFile false stdio0)
          else if stringEndsWith a0 ".bam" then
            Done true 1 (mkSNAPFile (Some a0) None BAMFile true stdio0)
          else if negb isInput then Exits NoDefaultOutputFileType
          else if stringEndsWith a0 ".fq" || stringEndsWith a0 ".fastq"
                  || stringEndsWith a0 ".fq.gz" || stringEndsWith a0 ".fastq.gz"
                  || stringEndsWith a0 ".fq.gzip" || stringEndsWith a0 ".fastq.gzip" then
            let compressed := stringEndsWith a0 ".gz" || stringEndsWith a0 ".gzip" in
            let stdio := String.eqb a0 "-" in
            if paired then
              match nth_error args 1 with
              | None => BehindTheArray
              | Some a1 =>
                  if String.eqb a1 "-" then
                    if stdio then Exits BothHalvesStdin
                    else Done true 2
                               (mkSNAPFile (Some a0) (Some a1) FASTQFile compressed true)
                  else Done true 2
                             (mkSNAPFile (Some a0) (Some a1) FASTQFile compressed stdio)
              end
            else Done true 1 (mkSNAPFile (Some a0) None FASTQFile compressed stdio)
          else if stdio0 then Exits StdioNeedsExplicitFileType
          else Exits UnknownFileTypePleaseSpecify
    end.

(** ** What the design document states, as definitions *)

(** *** The [Read] invariant *)

Definition unsignedRange (z : Z) : Prop := 0 <= z < 2 ^ 32.

(** [p] lies in the half-open span of [len] bytes from [base]. *)
Definition inHalfOpenSpan (p base : ptr) (len : Z) : bool :=
  match p, base with
  | Ext a, Ext b | Loc a, Loc b => (b <=? a) && (a <? b + len)
  | _, _ => false
  end.

(** The invariant in the words of the design document. *)
Definition HalfOpenInvariant (r : Read) : Prop :=
  frontClippedLength r + dataLength r <= unclippedLength r /\
  inHalfOpenSpan (data r) (unclippedData r) (unclippedLength r) = true /\
  inHalfOpenSpan (quality r) (unclippedQuality r) (unclippedLength r) = true.

(** The invariant the operations keep: the clipped view starts
    [frontClippedLength] bytes into the unclipped spans, and ends in them. *)
Definition ReadInvariant (r : Read) : Prop :=
  unsignedRange (unclippedLength r) /\
  0 <= dataLength r /\
  0 <= frontClippedLength r /\
  frontClippedLength r + dataLength r <= unclippedLength r /\
  data r = padd (unclippedData r) (frontClippedLength r) /\
  quality r = padd (unclippedQuality r) (frontClippedLength r).

(** *** Reads as the three operations make them *)

Inductive initialized (ext : memory) : Read -> Prop :=
| initialized_init :
    forall r0 i_id i_idLength i_data i_quality i_dataLength
           oal omq osf ofc obc ofh obh orn ornl opn r,
      init ext r0 i_id i_idLength i_data i_quality i_dataLength
           oal omq osf ofc obc ofh obh orn ornl opn = Some r ->
      initialized ext r
| initialized_clip :
    forall r clipping,
      initialized ext r -> initialized ext (clip ext r clipping false)
| initialized_becomeRC :
    forall r r',
      initialized ext r -> becomeRC ext r = Some r' -> initialized ext r'.

(** Where the spans of an initialized [Read] live. *)
Definition isExt (p : ptr) : Prop := exists a, p = Ext a.

Definition Layout (r : Read) : Prop :=
  isExt (externalData r) /\ isExt (externalQuality r) /\
  (upcaseForwardRead r = Null \/
   (upcaseForwardRead r = Loc 0 /\
    unclippedLength r <= localBufferAllocationOffset r /\
    unclippedLength r <= localBufferLength)) /\
  (rcData r = Null ->
   localBufferAllocationOffset r =
     if isNull (upcaseForwardRead r) then 0 else unclippedLength r) /\
  match currentReadDirection r with
  | FORWARD =>
      unclippedData r =
        (if isNull (upcaseForwardRead r) then externalData r
         else upcaseForwardRead r) /\
      unclippedQuality r = externalQuality r
  | RC =>
      rcData r <> Null /\
      unclippedData r = rcData r /\ unclippedQuality r = rcQuality r
  end.

(** What a consumer can see of a [Read], and what [becomeRC] keeps books on. *)
Definition sameView (ext : memory) (r r' : Read) : Prop :=
  data r' = data r /\ quality r' = quality r /\
  unclippedData r' = unclippedData r /\
  unclippedQuality r' = unclippedQuality r /\
  getDataBytes ext r' = getDataBytes ext r /\
  getQualityBytes ext r' = getQualityBytes ext r /\
  getUnclippedDataBytes ext r' = getUnclippedDataBytes ext r /\
  getUnclippedQualityBytes ext r' = getUnclippedQualityBytes ext r /\
  dataLength r' = dataLength r /\
  unclippedLength r' = unclippedLength r /\
  frontClippedLength r' = frontClippedLength r /\
  clippingState r' = clippingState r /\
  currentReadDirection r' = currentReadDirection r /\
  originalFrontClipping r' = originalFrontClipping r /\
  originalBackClipping r' = originalBackClipping r /\
  originalFrontHardClipping r' = originalFrontHardClipping r /\
  originalBackHardClipping r' = originalBackHardClipping r.

(** *** Orientation: what the reverse complement of a [Read] is *)

(** The forward bases of a [Read]: the upper-cased copy when [init] made
    one, the bases of the caller otherwise. *)
Definition forwardData (r : Read) : ptr :=
  if isNull (upcaseForwardRead r) then externalData r else upcaseForwardRead r.

Definition reverseComplement (l : list ascii) : list ascii :=
  map COMPLEMENT (rev l).

(** Once the reverse complement has been computed, [rcData] holds the
    reverse complement of the forward bases and [rcQuality] the quality of
    the caller backwards. *)
Definition RCInvariant (ext : memory) (r : Read) : Prop :=
  rcData r <> Null ->
  span ext (localBuffer r) (rcData r) (unclippedLength r) =
    reverseComplement (span ext (localBuffer r) (forwardData r) (unclippedLength r)) /\
  span ext (localBuffer r) (rcQuality r) (unclippedLength r) =
    rev (span ext (localBuffer r) (externalQuality r) (unclippedLength r)).

(** A source [rcLoop] loads from that none of its stores reaches: memory
    of the caller, or the local buffer below [rd]. *)
Definition belowStores (p : ptr) (len rd : Z) : Prop :=
  match p with
  | Loc o => 0 <= o /\ o + len <= rd
  | _ => True
  end.

(** The [len] bytes at [outputBuffer] are none of the [len] bytes at [d]. *)
Definition apartFrom (d : ptr) (len outputBuffer : Z) : Prop :=
  match d with
  | Ext a => outputBuffer + len <= a \/ a + len <= outputBuffer
  | _ => True
  end.

(** *** Clipping, in the words of the design document: the bases trimmed
    are those at the ends whose quality is the sentinel. *)

Fixpoint leadingSentinels (q : list ascii) : nat :=
  match q with
  | c :: t => if Ascii.eqb c "#" then S (leadingSentinels t) else O
  | [] => O
  end.

Definition trailingSentinels (q : list ascii) : nat :=
  leadingSentinels (rev q).

Definition backTrim (clipping : ReadClippingType) (q : list ascii) : nat :=
  if clipsBack clipping then trailingSentinels q else O.

Definition frontTrim (clipping : ReadClippingType) (q : list ascii) : nat :=
  if clipsFront clipping
  then leadingSentinels (firstn (List.length q - backTrim clipping q) q)
  else O.

(** No byte of the [len] at [a] is lower case, by the table. *)
Definition noLowerCase (ext : memory) (a len : Z) : Prop :=
  forall i, 0 <= i < len -> IS_LOWER_CASE (ext (a + i)) = 0%N.

(** The two shapes [init] leaves a [Read] in. *)
Definition freshRead (r : Read) : Prop :=
  unsignedRange (unclippedLength r) /\
  dataLength r = unclippedLength r /\
  frontClippedLength r = 0 /\
  data r = unclippedData r /\
  quality r = unclippedQuality r /\
  clippingState r = NoClipping /\
  currentReadDirection r = FORWARD /\
  rcData r = Null /\
  isExt (unclippedQuality r) /\
  externalQuality r = unclippedQuality r /\
  isExt (externalData r) /\
  ((upcaseForwardRead r = Null /\ unclippedData r = externalData r /\
    localBufferAllocationOffset r = 0) \/
   (upcaseForwardRead r = Loc 0 /\ unclippedData r = Loc 0 /\
    localBufferAllocationOffset r = unclippedLength r /\
    unclippedLength r <= localBufferLength)).

(** *** FASTQ records, in the words of the record grammar

    Four lines: [@] and the identifier, the bases, [+] and an optional
    identifier, the quality; each ended by a newline, a carriage return
    before it when the file has DOS line ends. *)

Record FastqRecord : Type := mkFastqRecord {
  recId : list ascii;
  recBases : list ascii;
  recPlus : list ascii;
  recQuality : list ascii;
  recCRLF : bool
}.

Definition lineEnd (crlf : bool) : list ascii := if crlf then [CR] else [].

Definition recLines (r : FastqRecord) : list (list ascii) :=
  [ "@"%char :: recId r ++ lineEnd (recCRLF r);
    recBases r ++ lineEnd (recCRLF r);
    "+"%char :: recPlus r ++ lineEnd (recCRLF r);
    recQuality r ++ lineEnd (recCRLF r) ].

Definition addLF (l : list ascii) : list ascii := l ++ [LF].

Definition render (r : FastqRecord) : list ascii :=
  concat (map addLF (recLines r)).

Definition renderAll (rs : list FastqRecord) : list ascii :=
  concat (map render rs).

(** The base symbols of the grammar are those the table of the sequential
    parser lets a second line start with. *)
Definition isSupportedBase (c : ascii) : bool :=
  isValidStartingCharacterForNextLine 0 c.

Definition isPrintable (c : ascii) : bool :=
  isValidStartingCharacterForNextLine 2 c.

Definition noLF (l : list ascii) : bool :=
  forallb (fun c => negb (Ascii.eqb c LF)) l.

Definition wellFormedRecord (r : FastqRecord) : bool :=
  noLF (recId r) && noLF (recPlus r) &&
  negb (List.length (recBases r) =? 0)%nat &&
  forallb isSupportedBase (recBases r) &&
  forallb isPrintable (recQuality r) &&
  (List.length (recQuality r) =? List.length (recBases r))%nat.

(** The records whose bases are all among those the recovery scan steps
    over. *)
Definition recoveryBasesOnly (r : FastqRecord) : bool :=
  forallb isRecoveryBase (recBases r).

(** The test boundary recovery is said to put a second line to: every byte
    up to the line end a base symbol, by [isBase], the line end a newline or
    a carriage return and a newline, and a [+] behind it. *)
Definition baseLineAt (isBase : ascii -> bool) (buf : list ascii) (second : nat)
  : Prop :=
  exists m : nat,
    (forall i, (i < m)%nat -> isBase (byteAt buf (second + i)) = true) /\
    ((byteAt buf (second + m) = LF /\ byteAt buf (second + m + 1) = "+"%char) \/
     (byteAt buf (second + m) = CR /\ byteAt buf (second + m + 1) = LF /\
      byteAt buf (second + m + 2) = "+"%char)).

(** The test as [skipPartialRecord] makes it, on the line at [second]. *)
Definition recoveryTest (buf : list ascii) (second : nat) : bool :=
  let third := (second + basesRun (skipn second buf))%nat in
  let third := if Ascii.eqb (byteAt buf third) CR then S third else third in
  Ascii.eqb (byteAt buf third) LF && Ascii.eqb (byteAt buf (S third)) "+".

(** The same test on the bytes from the second line on. *)
Definition acceptsRest (rest : list ascii) : bool :=
  let m := basesRun rest in
  let m := if Ascii.eqb (nth m rest NUL) CR then S m else m in
  Ascii.eqb (nth m rest NUL) LF && Ascii.eqb (nth (S m) rest NUL) "+".

(** Lines boundary recovery passes over: none has a newline inside, and
    each either does not start with [@] or is followed by bytes that fail
    the test. *)
Fixpoint rejecting (ls : list (list ascii)) (post : list ascii) : Prop :=
  match ls with
  | [] => True
  | l :: ls' =>
      noLF l = true /\
      (hd NUL (addLF l) <> "@"%char \/
       acceptsRest (concat (map addLF ls') ++ post) = false) /\
      rejecting ls' post
  end.

Local Open Scope nat_scope.

(** Where boundary recovery from byte [j] of the record [r] is to end, the
    records [after] behind it: at the record itself from its first byte, at
    the next record from any other byte, nowhere when there is no next. *)
Definition nextRecordStart (r : FastqRecord) (after : list FastqRecord)
    (j : nat) : skipResult :=
  if (j =? 0)%nat then Advance 0
  else match after with
       | [] => NoBoundary
       | _ :: _ => Advance (List.length (render r) - j)
       end.

(** The four conditions on a record that boundary recovery rests on. *)
Definition recoverable (r : FastqRecord) : Prop :=
  noLF (recId r) = true /\ noLF (recPlus r) = true /\
  recBases r <> [] /\
  forallb isRecoveryBase (recBases r) = true /\
  forallb isPrintable (recQuality r) = true.

(** *** The checks of the sequential parser, line by line

    What line [i] of a record (counted from 0) has to start with. *)
Definition lineStartOK (i : nat) (c : ascii) : bool :=
  match i with
  | 0 => Ascii.eqb c "@"
  | 1 => isSupportedBase c
  | 2 => Ascii.eqb c "+"
  | 3 => isPrintable c
  | _ => false
  end.

(** Where the line after the one ended by the newline at [newLine] starts. *)
Definition nextScan (buf : list ascii) (newLine : nat) : nat :=
  newLine + (if Ascii.eqb (byteAt buf (S newLine)) CR then 2 else 1).

(** Line [i], starting at [scan], is good: it ends in a newline among the
    valid bytes, is not empty and starts as it has to.  The result is the
    start of the next line. *)
Definition goodLine (buf : list ascii) (buffer validBytes i scan : nat)
  : option nat :=
  match strnchr buf scan LF (validBytes - (scan - buffer)) with
  | Some newLine =>
      if (scan <? newLine) && lineStartOK i (byteAt buf scan)
      then Some (nextScan buf newLine)
      else None
  | None => None
  end.

(** [n] good lines in a row, the first being line [i] at [scan]. *)
Fixpoint goodLines (buf : list ascii) (buffer validBytes n i scan : nat)
  : option nat :=
  match n with
  | O => Some scan
  | S n' =>
      match goodLine buf buffer validBytes i scan with
      | Some next => goodLines buf buffer validBytes n' (S i) next
      | None => None
      end
  end.

(** The batch a call works on: the one in use, or the next when the one in
    use has no data left. *)
Definition batchInUse (d : DataReader) : DataReader :=
  match getData d with
  | Some _ => d
  | None => nextBatch d
  end.

(** *** What the sequential parser makes of a record *)

(** A record the parser hands back as it is: well formed, and, with Unix
    line ends, its identifier not ending in a carriage return, which the
    parser would take for a part of the line end. *)
Definition parsesBack (r : FastqRecord) : bool :=
  wellFormedRecord r &&
  (recCRLF r || negb (Ascii.eqb (last (recId r) NUL) CR)).

(** The bases as [init] keeps them: when one of them is lower case, by the
    table, the capitals of all of them, by the table. *)
Definition anyLowerCase (l : list ascii) : bool :=
  existsb (fun c => negb (IS_LOWER_CASE c =? 0)%N) l.

Definition basesKept (l : list ascii) : list ascii :=
  if anyLowerCase l then map TO_UPPER_CASE l else l.

(** The list ends in the two bytes [c1] and [c2]. *)
Definition endsIn (l : list ascii) (c1 c2 : ascii) : bool :=
  match rev l with
  | b :: a :: _ => Ascii.eqb a c1 && Ascii.eqb b c2
  | _ => false
  end.

(** The [Read] the parser is to make of the record [r], clipped in the mode
    [clipping]: its identifier, its bases as [init] keeps them and its
    quality, forward, and of these the view that the sentinels at the ends
    of the quality leave. *)
Definition readOf (ext : memory) (r : FastqRecord) (clipping : ReadClippingType)
    (rd : Read) : Prop :=
  let q := recQuality r in
  let front := frontTrim clipping q in
  let len := (List.length (recBases r) - backTrim clipping q - front)%nat in
  idLength rd = Z.of_nat (List.length (recId r)) /\
  getIdBytes ext rd = recId r /\
  getUnclippedDataBytes ext rd = basesKept (recBases r) /\
  getUnclippedQualityBytes ext rd = q /\
  clippingState rd = clipping /\
  currentReadDirection rd = FORWARD /\
  frontClippedLength rd = Z.of_nat front /\
  dataLength rd = Z.of_nat len /\
  getDataBytes ext rd = firstn len (skipn front (basesKept (recBases r))) /\
  getQualityBytes ext rd = firstn len (skipn front q).

(** The record a [Read] is written as: its identifier, and the bases and
    the quality of its clipped view, the third line empty, Unix line
    ends. *)
Definition recordOf (ext : memory) (rd : Read) : FastqRecord :=
  mkFastqRecord (getIdBytes ext rd) (getDataBytes ext rd) []
                (getQualityBytes ext rd) false.

Definition noNUL (l : list ascii) : bool :=
  forallb (fun c => negb (Ascii.eqb c NUL)) l.

(** *** CIGAR strings in memory *)

(** The bytes of [s] lie in [m] from the address [a] on. *)
Definition holdsAt (m : memory) (a : Z) (s : list ascii) : Prop :=
  forall k, (k < List.length s)%nat -> m (a + Z.of_nat k)%Z = nth k s NUL.

(** The value of a string of decimal digits. *)
Definition decimal (s : list ascii) : Z := digitsValue s 0.

(** A byte a CIGAR string goes on behind. *)
Definition inCigar (c : ascii) : bool :=
  negb (Ascii.eqb c "009") && negb (Ascii.eqb c NUL).

(** The text of a clip: its length in decimal digits and its letter. *)
Definition clipText (digits : list ascii) (c : ascii) : list ascii :=
  digits ++ [c].

(** *** Arrays of its own *)

(** A block of memory, by its address and its length.  Two blocks that
    share no byte; a byte of a block. *)
Definition apart (b c : Z * Z) : bool :=
  ((fst b + snd b <=? fst c) || (fst c + snd c <=? fst b))%Z.

Definition inBlock (a : Z) (b : Z * Z) : bool :=
  ((fst b <=? a) && (a <? fst b + snd b))%Z.

(** The block a string takes up in the memory of the caller. *)
Definition blockOf (p : ptr) (n : Z) : list (Z * Z) :=
  match p with
  | Ext a => [(a, n)]
  | _ => []
  end.

Definition hasAuxiliaryData (baseRead : ReadAndAuxiliaryData) : bool :=
  negb (isNull (auxiliaryData baseRead)) && (0 <? auxiliaryDataLength baseRead)%Z.

(** The arrays [set] allocates for a copy of [baseRead], and the strings of
    [baseRead] it copies. *)
Definition ownBlocks (baseRead : ReadAndAuxiliaryData)
    (newId newData newQuality newAux : Z) : list (Z * Z) :=
  [(newId, idLength (theRead baseRead) + 1);
   (newData, unclippedLength (theRead baseRead) + 1);
   (newQuality, unclippedLength (theRead baseRead) + 1)]%Z
  ++ (if hasAuxiliaryData baseRead
      then [(newAux, auxiliaryDataLength baseRead)]
      else []).

Definition stringsOf (baseRead : ReadAndAuxiliaryData) : list (Z * Z) :=
  blockOf (id (theRead baseRead)) (idLength (theRead baseRead))
  ++ blockOf (unclippedData (theRead baseRead)) (unclippedLength (theRead baseRead))
  ++ blockOf (unclippedQuality (theRead baseRead)) (unclippedLength (theRead baseRead))
  ++ blockOf (auxiliaryData baseRead) (auxiliaryDataLength baseRead).

(** Arrays as an allocator hands them out: no two of [news] share a byte,
    and none shares one with a block of [olds]. *)
Fixpoint pairwiseApart (l : list (Z * Z)) : bool :=
  match l with
  | [] => true
  | b :: t => forallb (apart b) t && pairwiseApart t
  end.

Definition fresh (news olds : list (Z * Z)) : bool :=
  pairwiseApart news && forallb (fun o => forallb (apart o) news) olds.

(** The auxiliary data of a read, none when the pointer is NULL or the
    length 0. *)
Definition getAuxiliaryBytes (ext : memory) (x : ReadAndAuxiliaryData) : list ascii :=
  if hasAuxiliaryData x
  then span ext (localBuffer (theRead x)) (auxiliaryData x) (auxiliaryDataLength x)
  else [].

(** *** File names on the command line *)

(** A name with one of the endings of a FASTQ file. *)
Definition fastqName (s : string) : bool :=
  stringEndsWith s ".fq" || stringEndsWith s ".fastq"
  || stringEndsWith s ".fq.gz" || stringEndsWith s ".fastq.gz"
  || stringEndsWith s ".fq.gzip" || stringEndsWith s ".fastq.gzip".

(** The arguments that name a file type. *)
Definition fileTypeSpecifiers : list string :=
  ["-fastq"; "-compressedFastq"; "-sam"; "-bam"; "-pairedInterleavedFastq";
   "-pairedCompressedInterleavedFastq"]%string.

(** *** Sample inputs *)

(** The text of a file given by its lines. *)
Definition fastqText (ls : list string) : list ascii :=
  concat (map (fun s => list_ascii_of_string s ++ [LF]) ls).

(** A reader over one batch that holds the whole of [text]. *)
Definition wholeFile (text : list ascii) : DataReader :=
  [mkBatch text 0 (List.length text) true].

(** Modelled from the spec: tables to stand for those of Tables.h where a
    statement is about one concrete input; the lower case letters are the
    bytes [a] to [z], each sent to its capital, and the complement swaps
    [A] with [T] and [C] with [G] and sends every other byte to [N]. *)
Definition isLowerLetter (c : ascii) : bool :=
  ((97 <=? nat_of_ascii c) && (nat_of_ascii c <=? 122))%nat.

Definition sample_IS_LOWER_CASE (c : ascii) : N :=
  if isLowerLetter c then 1%N else 0%N.

Definition sample_TO_UPPER_CASE (c : ascii) : ascii :=
  if isLowerLetter c then ascii_of_nat (nat_of_ascii c - 32) else c.

Definition sample_COMPLEMENT (c : ascii) : ascii :=
  if Ascii.eqb c "A" then "T"%char
  else if Ascii.eqb c "T" then "A"%char
  else if Ascii.eqb c "C" then "G"%char
  else if Ascii.eqb c "G" then "C"%char
  else "N"%char.

(** A record with an empty third line and Unix line ends. *)
Definition sampleRecord (id bases qual : string) : FastqRecord :=
  mkFastqRecord (list_ascii_of_string id) (list_ascii_of_string bases) []
                (list_ascii_of_string qual) false.

(** The two records of the concrete case of the design document. *)
Definition twoRecords : list FastqRecord :=
  [sampleRecord "r1" "ACGT" "!!!!"; sampleRecord "r2" "NNNN" "####"].

(** A record with an [@] inside its identifier, and one behind it. *)
Definition atInIdentifier : list FastqRecord :=
  [sampleRecord "a@b" "ACGT" "!!!!"; sampleRecord "r2" "ACGT" "!!!!"].

(** Three records, the second with a lower case [n] among its bases. *)
Definition lowerCaseN : list FastqRecord :=
  [sampleRecord "r1" "ACGT" "!!!!"; sampleRecord "r2" "ACGn" "!!!!";
   sampleRecord "r3" "ACGT" "!!!!"].

(** A record whose second line goes on with bytes that are no bases and
    whose fourth line is shorter than the second. *)
Definition unevenRecord : list ascii :=
  fastqText ["@r"; "A!!!"; "+"; "!!"]%string.

(** A record with lower case bases. *)
Definition lowerCaseRecord : list ascii :=
  fastqText ["@r3"; "acgt"; "+"; "!#!#"]%string.

(** Three interleaved records: a pair and the first half of another. *)
Definition oddSample : list ascii :=
  fastqText ["@a/1"; "ACGT"; "+"; "!!!!";
             "@a/2"; "ACGT"; "+"; "!!!!";
             "@b/1"; "ACGT"; "+"; "!!!!"]%string.

(** Two files for the reader of a pair of files, of one record and of two,
    each with a Ctrl-Z behind its last line, as DOS tools leave it. *)
Definition oneRecordCtrlZ : list ascii :=
  fastqText ["@a/1"; "ACGT"; "+"; "!!!!"]%string ++ [CtrlZ].

Definition twoRecordsCtrlZ : list ascii :=
  fastqText ["@a/2"; "ACGT"; "+"; "!!!!";
             "@b/2"; "ACGT"; "+"; "!!!!"]%string ++ [CtrlZ].



(** A pair of interleaved records; the bases of the second are lower case
    and its quality ends in two sentinels. *)
Definition samplePair : list FastqRecord :=
  [sampleRecord "a/1" "ACGT" "!!!!"; sampleRecord "a/2" "acgt" "!!##"].

(** A writer with a buffer of 64 bytes, four of them taken. *)
Definition sampleWriter : FASTQWriter :=
  mkFASTQWriter (repeat "."%char 64) 64 4.

Local Close Scope nat_scope.

(** ** Proofs: [Read] *)

Lemma wrap32_small : forall z, 0 <= z < 2 ^ 32 -> wrap32 z = z.
Proof. intros z H. unfold wrap32. apply Z.mod_small. exact H. Qed.

Lemma wrap32_range : forall z, 0 <= wrap32 z < 2 ^ 32.
Proof. intros z. unfold wrap32. apply Z.mod_pos_bound. reflexivity. Qed.

Lemma wrap32_idem : forall z, wrap32 (wrap32 z) = wrap32 z.
Proof. intros z. apply wrap32_small, wrap32_range. Qed.

Lemma padd_0 : forall p, padd p 0 = p.
Proof. intros [|a|o]; simpl; rewrite ?Z.add_0_r; reflexivity. Qed.

Lemma ReadClippingType_eqb_refl : forall c, ReadClippingType_eqb c c = true.
Proof. intros []; reflexivity. Qed.

Lemma ReadClippingType_eqb_eq :
  forall a b, ReadClippingType_eqb a b = true <-> a = b.
Proof. intros [] []; simpl; split; intro H; try reflexivity; discriminate. Qed.

Lemma store_Some :
  forall lb o c, 0 <= o < localBufferLength ->
    store lb o c = Some (fun i => if i =? o then c else lb i).
Proof.
  intros lb o c [H1 H2]. unfold store.
  apply Z.leb_le in H1. apply Z.ltb_lt in H2. rewrite H1, H2. reflexivity.
Qed.

Lemma store_inv :
  forall lb o c lb', store lb o c = Some lb' ->
    0 <= o < localBufferLength /\ lb' = (fun i => if i =? o then c else lb i).
Proof.
  intros lb o c lb'. unfold store.
  destruct (0 <=? o) eqn:H1; destruct (o <? localBufferLength) eqn:H2;
    simpl; intro H; try discriminate.
  apply Z.leb_le in H1. apply Z.ltb_lt in H2.
  injection H as <-. split; [lia | reflexivity].
Qed.

(** *** The loops of [init] *)

Lemma anyLowerCaseLoop_zero :
  forall ext lb a n i acc,
    anyLowerCaseLoop ext lb (Ext a) n i acc = 0%N <->
    acc = 0%N /\
    forall j, i <= j < i + Z.of_nat n -> IS_LOWER_CASE (ext (a + j)) = 0%N.
Proof.
  intros ext lb a n. induction n as [|n IH]; intros i acc.
  - simpl. split.
    + intro H. split; [exact H | intros j Hj; lia].
    + intros [H _]. exact H.
  - cbn [anyLowerCaseLoop]. rewrite IH. simpl load. rewrite N.lor_eq_0_iff.
    split.
    + intros [[Hacc Hi] Hrest]. split; [exact Hacc|].
      intros j Hj. destruct (Z.eq_dec j i) as [->|Hne]; [exact Hi|].
      apply Hrest. lia.
    + intros [Hacc Hall]. split; [split; [exact Hacc|]|].
      * apply Hall. lia.
      * intros j Hj. apply Hall. lia.
Qed.

Lemma anyLowerCase_noLowerCase :
  forall ext lb a len,
    0 <= len ->
    (anyLowerCaseLoop ext lb (Ext a) (Z.to_nat len) 0 0 =? 0)%N = true <->
    noLowerCase ext a len.
Proof.
  intros ext lb a len Hlen. rewrite N.eqb_eq, anyLowerCaseLoop_zero.
  unfold noLowerCase. rewrite Z2Nat.id by exact Hlen. simpl.
  split.
  - intros [_ H]. exact H.
  - intro H. split; [reflexivity | exact H].
Qed.

Lemma upcaseLoop_Some :
  forall ext a n i lb,
    0 <= i -> i + Z.of_nat n <= localBufferLength ->
    exists lb', upcaseLoop ext (Ext a) n i lb = Some lb'.
Proof.
  intros ext a n. induction n as [|n IH]; intros i lb Hi Hn.
  - exists lb. reflexivity.
  - cbn [upcaseLoop]. rewrite store_Some by lia. apply IH; lia.
Qed.

Lemma upcaseLoop_spec :
  forall ext a n i lb lb',
    upcaseLoop ext (Ext a) n i lb = Some lb' ->
    (forall j, i <= j < i + Z.of_nat n -> lb' j = TO_UPPER_CASE (ext (a + j))) /\
    (forall j, j < i -> lb' j = lb j) /\
    (n <> O -> 0 <= i /\ i + Z.of_nat n <= localBufferLength).
Proof.
  intros ext a n. induction n as [|n IH]; intros i lb lb' H.
  - simpl in H. injection H as <-. repeat split; intros; try lia; reflexivity.
  - cbn [upcaseLoop] in H.
    destruct (store lb i (TO_UPPER_CASE (load ext lb (Ext a) i))) as [lb1|] eqn:Hs;
      [|discriminate].
    apply store_inv in Hs. destruct Hs as [Hrange ->].
    apply IH in H. destruct H as (Hin & Hout & Hb).
    split; [|split].
    + intros j Hj. destruct (Z.eq_dec j i) as [->|Hne].
      * rewrite Hout by lia. rewrite Z.eqb_refl. reflexivity.
      * apply Hin. lia.
    + intros j Hj. rewrite Hout by lia.
      destruct (j =? i) eqn:E; [apply Z.eqb_eq in E; lia | reflexivity].
    + intros _. split; [lia|].
      destruct n as [|n']; [simpl; lia|].
      destruct Hb as [_ Hb]; [discriminate|]. lia.
Qed.

Lemma span_length : forall ext lb p n, List.length (span ext lb p n) = Z.to_nat n.
Proof. intros. unfold span. rewrite length_map, length_seq. reflexivity. Qed.

Lemma span_ext_independent :
  forall ext lb lb' a n, span ext lb (Ext a) n = span ext lb' (Ext a) n.
Proof. intros. reflexivity. Qed.

Lemma span_loc_agree :
  forall ext lb lb' o n,
    (forall j, o <= j < o + n -> lb' j = lb j) ->
    span ext lb' (Loc o) n = span ext lb (Loc o) n.
Proof.
  intros ext lb lb' o n H. unfold span. apply map_ext_in.
  intros i Hi. apply in_seq in Hi. simpl. apply H. lia.
Qed.

(** *** [init] *)

(** C10: whatever the [Read] held before, [init] leaves it unclipped and
    forward over the supplied spans, with no reverse complement cached and
    the local allocation starting afresh.  When the table flags no byte of
    the data as lower case the view is the memory of the caller itself;
    otherwise it is a copy at the start of the local buffer, each byte sent
    through [TO_UPPER_CASE].  The call goes through whenever no byte is
    lower case or the data fit the local buffer.  The memory of the caller
    is an argument the operation only loads from. *)
Theorem init_resets_derived_state :
  forall ext r0 i_id i_idLength i_data i_quality i_dataLength
         oal omq osf ofc obc ofh obh orn ornl opn,
    let len := wrap32 i_dataLength in
    let result :=
      init ext r0 i_id i_idLength i_data i_quality i_dataLength
           oal omq osf ofc obc ofh obh orn ornl opn in
    ((noLowerCase ext i_data len \/ len <= localBufferLength) ->
     exists r, result = Some r) /\
    forall r, result = Some r ->
      clippingState r = NoClipping /\
      currentReadDirection r = FORWARD /\
      frontClippedLength r = 0 /\
      dataLength r = len /\
      unclippedLength r = len /\
      rcData r = Null /\
      rcQuality r = Null /\
      quality r = Ext i_quality /\
      unclippedQuality r = Ext i_quality /\
      externalData r = Ext i_data /\
      externalQuality r = Ext i_quality /\
      data r = unclippedData r /\
      (noLowerCase ext i_data len ->
       data r = Ext i_data /\
       upcaseForwardRead r = Null /\
       localBufferAllocationOffset r = 0 /\
       localBuffer r = localBuffer r0) /\
      (~ noLowerCase ext i_data len ->
       data r = Loc 0 /\
       upcaseForwardRead r = Loc 0 /\
       localBufferAllocationOffset r = len /\
       len <= localBufferLength /\
       getDataBytes ext r =
         map TO_UPPER_CASE (span ext (localBuffer r0) (Ext i_data) len)).
Proof.
  intros ext r0 i_id i_idLength i_data i_quality i_dataLength
         oal omq osf ofc obc ofh obh orn ornl opn len result.
  assert (Hlen : 0 <= len < 2 ^ 32) by apply wrap32_range.
  subst result. unfold init. fold len.
  destruct (anyLowerCaseLoop ext (localBuffer r0) (Ext i_data) (Z.to_nat len) 0 0 =? 0)%N
    eqn:E.
  - apply anyLowerCase_noLowerCase in E; [|lia].
    split; [intros _; eexists; reflexivity|].
    intros r Hr. injection Hr as <-. simpl.
    do 12 (split; [reflexivity|]).
    split; [intros _; repeat split | intro H; contradiction].
  - assert (Hlow : ~ noLowerCase ext i_data len).
    { intro H. apply (anyLowerCase_noLowerCase ext (localBuffer r0)) in H; [|lia].
      congruence. }
    split.
    + intros [H|H]; [contradiction|].
      destruct (upcaseLoop_Some ext i_data (Z.to_nat len) 0 (localBuffer r0))
        as [lb' Hlb]; [lia | rewrite Z2Nat.id; lia |].
      rewrite Hlb. eexists; reflexivity.
    + intros r Hr.
      destruct (upcaseLoop ext (Ext i_data) (Z.to_nat len) 0 (localBuffer r0))
        as [lb'|] eqn:Hlb; [|discriminate].
      injection Hr as <-. simpl.
      apply upcaseLoop_spec in Hlb. destruct Hlb as (Hin & _ & Hb).
      rewrite Z2Nat.id in Hin, Hb by lia.
      do 12 (split; [reflexivity|]).
      split; [intro H; contradiction | intros _].
      do 2 (split; [reflexivity|]).
      split; [|split].
      * apply wrap32_small. exact Hlen.
      * destruct (Z.to_nat len) eqn:En;
          [unfold localBufferLength, MAX_READ_LENGTH; lia|].
        destruct Hb as [_ Hb]; [discriminate|]. lia.
      * unfold getDataBytes, span. simpl. rewrite map_map.
        apply map_ext_in. intros i Hi. apply in_seq in Hi.
        apply Hin. lia.
Qed.

Lemma init_freshRead :
  forall ext r0 i_id i_idLength i_data i_quality i_dataLength
         oal omq osf ofc obc ofh obh orn ornl opn r,
    init ext r0 i_id i_idLength i_data i_quality i_dataLength
         oal omq osf ofc obc ofh obh orn ornl opn = Some r ->
    freshRead r.
Proof.
  intros ext r0 i_id i_idLength i_data i_quality i_dataLength
         oal omq osf ofc obc ofh obh orn ornl opn r H.
  pose proof (wrap32_range i_dataLength) as Hlen.
  unfold init in H.
  destruct (anyLowerCaseLoop ext (localBuffer r0) (Ext i_data)
              (Z.to_nat (wrap32 i_dataLength)) 0 0 =? 0)%N.
  - injection H as <-. unfold freshRead, isExt; simpl.
    repeat (split; [first [exact Hlen | reflexivity | eexists; reflexivity]|]).
    left. repeat split.
  - destruct (upcaseLoop ext (Ext i_data) (Z.to_nat (wrap32 i_dataLength)) 0
                (localBuffer r0)) as [lb|] eqn:Hlb; [|discriminate].
    injection H as <-. unfold freshRead, isExt; simpl.
    repeat (split; [first [exact Hlen | reflexivity | eexists; reflexivity]|]).
    right. apply upcaseLoop_spec in Hlb. destruct Hlb as (_ & _ & Hb).
    repeat split.
    + apply wrap32_small. exact Hlen.
    + destruct (Z.to_nat (wrap32 i_dataLength)) eqn:En.
      * unfold localBufferLength, MAX_READ_LENGTH. lia.
      * destruct Hb as [_ Hb]; [discriminate|]. lia.
Qed.

(** *** [clip] *)

Lemma clip_unchanged :
  forall ext r c m, clippingState r = c -> clip ext r c m = r.
Proof.
  intros ext r c m <-. unfold clip.
  rewrite ReadClippingType_eqb_refl. reflexivity.
Qed.

Lemma clip_clippingState :
  forall ext r c m, clippingState (clip ext r c m) = c.
Proof.
  intros ext r c m. unfold clip.
  destruct (ReadClippingType_eqb c (clippingState r)) eqn:E.
  - apply ReadClippingType_eqb_eq in E. symmetry. exact E.
  - reflexivity.
Qed.

Lemma clip_idempotent :
  forall ext r c m m', clip ext (clip ext r c m) c m' = clip ext r c m.
Proof. intros. apply clip_unchanged, clip_clippingState. Qed.

Lemma ReadClippingType_eqb_neq :
  forall a b, a <> b -> ReadClippingType_eqb a b = false.
Proof.
  intros a b H. destruct (ReadClippingType_eqb a b) eqn:E; [|reflexivity].
  apply ReadClippingType_eqb_eq in E. contradiction.
Qed.

(** A second [clip] starts over from the unclipped spans: what the first
    one left in the clipped view does not enter. *)
Lemma clip_clip :
  forall ext r a b m m',
    a <> b -> clippingState r <> b ->
    clip ext (clip ext r a m) b m' = clip ext r b m'.
Proof.
  intros ext r a b m m' Hab Hb.
  unfold clip at 2.
  destruct (ReadClippingType_eqb a (clippingState r)) eqn:E; [reflexivity|].
  unfold clip. cbn [clippingState].
  rewrite (ReadClippingType_eqb_neq b a) by congruence.
  rewrite (ReadClippingType_eqb_neq b (clippingState r)) by congruence.
  reflexivity.
Qed.

Lemma clip_back_to_NoClipping :
  forall ext r a m m',
    freshRead r -> clip ext (clip ext r a m) NoClipping m' = r.
Proof.
  intros ext r a m m' (Hu & Hd & Hf & Hdata & Hq & Hs & _).
  destruct (ReadClippingType_eqb a (clippingState r)) eqn:E.
  - apply ReadClippingType_eqb_eq in E.
    rewrite (clip_unchanged ext r a m) by congruence.
    apply clip_unchanged. exact Hs.
  - unfold clip at 2. rewrite E. unfold clip. cbn [clippingState].
    rewrite Hs in E.
    assert (Ea : ReadClippingType_eqb NoClipping a = false)
      by (destruct a; simpl in *; congruence).
    rewrite Ea. simpl. rewrite !padd_0, Z.sub_0_r, wrap32_small by exact Hu.
    destruct r; simpl in *. subst. reflexivity.
Qed.

Lemma leadingSentinels_le : forall q, (leadingSentinels q <= List.length q)%nat.
Proof.
  induction q as [|c t IH]; simpl; [lia|].
  destruct (Ascii.eqb c "#"); lia.
Qed.

Lemma clipBackLoop_spec :
  forall q n b,
    let t := trailingSentinels (map (fun i => q (Z.of_nat i)) (seq 0 n)) in
    clipBackLoop q n b = ((n - t)%nat, b + Z.of_nat t).
Proof.
  intros q n. induction n as [|n IH]; intros b t.
  - subst t. simpl. rewrite Z.add_0_r. reflexivity.
  - subst t. unfold trailingSentinels in *.
    rewrite seq_S, map_app. cbn [map]. rewrite rev_unit.
    cbn [clipBackLoop leadingSentinels Nat.add].
    destruct (Ascii.eqb (q (Z.of_nat n)) "#") eqn:E.
    + rewrite IH. f_equal. lia.
    + rewrite Z.add_0_r. reflexivity.
Qed.

Lemma clipFrontLoop_spec :
  forall q n f,
    clipFrontLoop q n (Z.of_nat f) =
    Z.of_nat (f + leadingSentinels (map (fun i => q (Z.of_nat i)) (seq f n))).
Proof.
  intros q n. induction n as [|n IH]; intros f.
  - simpl. f_equal. lia.
  - simpl. destruct (Ascii.eqb (q (Z.of_nat f)) "#") eqn:E.
    + replace (Z.of_nat f + 1) with (Z.of_nat (S f)) by lia.
      rewrite IH. f_equal. lia.
    + f_equal. lia.
Qed.

Lemma firstn_seq_le :
  forall k s n, (k <= n)%nat -> firstn k (seq s n) = seq s k.
Proof.
  induction k as [|k IH]; intros s n H; [reflexivity|].
  destruct n as [|n]; [lia|].
  simpl. f_equal. apply IH. lia.
Qed.

Lemma firstn_map_seq :
  forall (A : Type) (f : nat -> A) k n,
    (k <= n)%nat -> firstn k (map f (seq 0 n)) = map f (seq 0 k).
Proof.
  intros A f k n H. rewrite firstn_map, firstn_seq_le by exact H. reflexivity.
Qed.

Lemma clip_fresh_spec :
  forall ext r b,
    freshRead r ->
    let q := getUnclippedQualityBytes ext r in
    let r' := clip ext r b false in
    clippingState r' = b /\
    frontClippedLength r' = Z.of_nat (frontTrim b q) /\
    dataLength r' =
      Z.of_nat (List.length q - backTrim b q - frontTrim b q) /\
    data r' = padd (unclippedData r) (frontClippedLength r') /\
    quality r' = padd (unclippedQuality r) (frontClippedLength r') /\
    unclippedLength r' = unclippedLength r.
Proof.
  intros ext r b Hf q r'.
  destruct Hf as (Hu & Hd & Hfc & Hdata & Hq & Hs & _).
  assert (Hlen : List.length q = Z.to_nat (unclippedLength r))
    by apply span_length.
  assert (Hqdef : q = map (fun i => load ext (localBuffer r) (unclippedQuality r)
                                         (Z.of_nat i))
                          (seq 0 (Z.to_nat (unclippedLength r)))) by reflexivity.
  destruct Hu as [Hu0 Hu1].
  pose proof (leadingSentinels_le (rev q)) as Ht. rewrite length_rev in Ht.
  pose proof (leadingSentinels_le
                (firstn (List.length q - trailingSentinels q) q)) as Hl1.
  rewrite length_firstn in Hl1.
  pose proof (leadingSentinels_le q) as Hl2.
  fold (trailingSentinels q) in Ht.
  destruct b; subst r'.
  - rewrite clip_unchanged by exact Hs.
    unfold frontTrim, backTrim. simpl clipsFront. simpl clipsBack. cbv iota.
    rewrite Hfc, Hd, Hdata, Hq, !padd_0.
    repeat split; try assumption; try reflexivity. lia.
  - unfold clip. rewrite Hs. cbn [ReadClippingType_eqb clipsBack clipsFront andb].
    cbn [clippingState frontClippedLength dataLength data quality unclippedLength].
    unfold frontTrim, backTrim. cbn [clipsBack clipsFront].
    change 0 with (Z.of_nat 0) at 1 2 3 4.
    rewrite !clipFrontLoop_spec. cbn [Nat.add]. rewrite <- Hqdef.
    rewrite Nat.sub_0_r, firstn_all.
    repeat split; try reflexivity.
    rewrite wrap32_small by lia. lia.
  - unfold clip. rewrite Hs. cbn [ReadClippingType_eqb clipsBack clipsFront andb].
    rewrite clipBackLoop_spec. rewrite <- Hqdef.
    cbn [clippingState frontClippedLength dataLength data quality unclippedLength].
    unfold frontTrim, backTrim. cbn [clipsBack clipsFront].
    repeat split; try reflexivity.
    rewrite wrap32_small by lia. lia.
  - unfold clip. rewrite Hs. cbn [ReadClippingType_eqb clipsBack clipsFront andb].
    rewrite clipBackLoop_spec. rewrite <- Hqdef.
    cbn [clippingState frontClippedLength dataLength data quality unclippedLength].
    unfold frontTrim, backTrim. cbn [clipsBack clipsFront].
    change 0 with (Z.of_nat 0) at 1 2 3 4.
    rewrite !clipFrontLoop_spec. cbn [Nat.add].
    rewrite Nat2Z.id.
    assert (Hfirst :
      map (fun i => load ext (localBuffer r) (unclippedQuality r) (Z.of_nat i))
          (seq 0 (Z.to_nat (unclippedLength r) - trailingSentinels q)) =
      firstn (List.length q - trailingSentinels q) q).
    { rewrite <- Hlen. symmetry.
      rewrite <- (firstn_map_seq _
                    (fun i => load ext (localBuffer r) (unclippedQuality r) (Z.of_nat i))
                    (List.length q - trailingSentinels q) (List.length q)) by lia.
      f_equal. rewrite Hlen. exact Hqdef. }
    rewrite Hfirst.
    repeat split; try reflexivity.
    rewrite wrap32_small by lia. lia.
Qed.

(** C5: on a freshly initialized [Read], a second [clip] with the same mode
    changes nothing, and [clip] with mode [b] after [clip] with mode [a]
    leaves the very [Read] that [clip] with mode [b] alone leaves.  What
    [clip] trims is counted on the unclipped quality: the run of sentinels
    at the back when the mode clips the back, then the run of sentinels at
    the front of what remains when it clips the front. *)
Theorem clip_recomputes_from_baseline :
  forall ext r0 i_id i_idLength i_data i_quality i_dataLength
         oal omq osf ofc obc ofh obh orn ornl opn r,
    init ext r0 i_id i_idLength i_data i_quality i_dataLength
         oal omq osf ofc obc ofh obh orn ornl opn = Some r ->
    forall a b m,
      clip ext (clip ext r a m) a m = clip ext r a m /\
      clip ext (clip ext r a m) b m = clip ext r b m /\
      let q := getUnclippedQualityBytes ext r in
      let r' := clip ext r b false in
      clippingState r' = b /\
      frontClippedLength r' = Z.of_nat (frontTrim b q) /\
      dataLength r' =
        Z.of_nat (List.length q - backTrim b q - frontTrim b q) /\
      data r' = padd (unclippedData r) (frontClippedLength r') /\
      quality r' = padd (unclippedQuality r) (frontClippedLength r') /\
      unclippedLength r' = unclippedLength r.
Proof.
  intros ext r0 i_id i_idLength i_data i_quality i_dataLength
         oal omq osf ofc obc ofh obh orn ornl opn r Hinit a b m.
  apply init_freshRead in Hinit.
  split; [apply clip_idempotent|].
  split; [|apply clip_fresh_spec; exact Hinit].
  destruct (ReadClippingType_eqb a b) eqn:Eab.
  - apply ReadClippingType_eqb_eq in Eab. subst b. apply clip_idempotent.
  - assert (Hab : a <> b).
    { intro Heq. subst b. rewrite ReadClippingType_eqb_refl in Eab. discriminate. }
    destruct b.
    + rewrite clip_back_to_NoClipping by exact Hinit.
      symmetry. apply clip_unchanged. apply Hinit.
    + apply clip_clip; [exact Hab|].
      destruct Hinit as (_ & _ & _ & _ & _ & Hs & _). rewrite Hs. discriminate.
    + apply clip_clip; [exact Hab|].
      destruct Hinit as (_ & _ & _ & _ & _ & Hs & _). rewrite Hs. discriminate.
    + apply clip_clip; [exact Hab|].
      destruct Hinit as (_ & _ & _ & _ & _ & Hs & _). rewrite Hs. discriminate.
Qed.

(** *** The invariant *)

Lemma freshRead_ReadInvariant : forall r, freshRead r -> ReadInvariant r.
Proof.
  intros r (Hu & Hd & Hf & Hdata & Hq & _).
  unfold ReadInvariant. rewrite Hd, Hf, Hdata, Hq, !padd_0.
  destruct Hu. repeat split; try assumption; try reflexivity; lia.
Qed.

Lemma clipFrontLoop_bounds :
  forall q n, 0 <= clipFrontLoop q n 0 <= Z.of_nat n.
Proof.
  intros q n.
  pose proof (clipFrontLoop_spec q n O) as E. cbn [Nat.add Z.of_nat] in E.
  pose proof (leadingSentinels_le
                (map (fun i => q (Z.of_nat i)) (seq 0 n))) as H.
  rewrite length_map, length_seq in H. lia.
Qed.

Lemma clip_ReadInvariant :
  forall ext r c, ReadInvariant r -> ReadInvariant (clip ext r c false).
Proof.
  intros ext r c Hinv. unfold clip.
  destruct (ReadClippingType_eqb c (clippingState r)); [exact Hinv|].
  destruct Hinv as ([Hu0 Hu1] & _).
  cbn [andb].
  set (q := load ext (localBuffer r) (unclippedQuality r)).
  set (dl1 := if clipsBack c
              then let '(dl, _) := clipBackLoop q (Z.to_nat (unclippedLength r)) 0
                   in Z.of_nat dl
              else unclippedLength r).
  assert (Hdl1 : 0 <= dl1 <= unclippedLength r).
  { subst dl1. destruct (clipsBack c); [|lia].
    rewrite clipBackLoop_spec. lia. }
  set (front := if clipsFront c then clipFrontLoop q (Z.to_nat dl1) 0 else 0).
  assert (Hfront : 0 <= front <= dl1).
  { subst front. destruct (clipsFront c); [|lia].
    pose proof (clipFrontLoop_bounds q (Z.to_nat dl1)). lia. }
  unfold ReadInvariant. simpl.
  rewrite wrap32_small by lia.
  unfold unsignedRange. repeat split; try reflexivity; lia.
Qed.

Lemma becomeRC_finish_ReadInvariant :
  forall r ud uq dir lb off rcd rcq,
    ReadInvariant r ->
    ReadInvariant (becomeRC_finish r ud uq dir lb off rcd rcq).
Proof.
  intros r ud uq dir lb off rcd rcq ([Hu0 Hu1] & Hd & Hf & Hsum & _).
  unfold ReadInvariant, becomeRC_finish. simpl.
  rewrite (wrap32_small (unclippedLength r - dataLength r)) by lia.
  rewrite wrap32_small by lia.
  unfold unsignedRange. repeat split; try reflexivity; lia.
Qed.

Lemma becomeRC_inv :
  forall ext r r',
    becomeRC ext r = Some r' ->
    exists ud uq dir lb off rcd rcq,
      r' = becomeRC_finish r ud uq dir lb off rcd rcq.
Proof.
  intros ext r r' H. unfold becomeRC in H.
  destruct (currentReadDirection r).
  - destruct (isNull (rcData r)).
    + destruct (rcLoop _ _ _ _ _ _ _ _ _) as [lb|]; [|discriminate].
      injection H as <-. repeat eexists.
    + injection H as <-. repeat eexists.
  - injection H as <-. repeat eexists.
Qed.

Lemma becomeRC_ReadInvariant :
  forall ext r r',
    ReadInvariant r -> becomeRC ext r = Some r' -> ReadInvariant r'.
Proof.
  intros ext r r' Hinv H.
  apply becomeRC_inv in H.
  destruct H as (ud & uq & dir & lb & off & rcd & rcq & ->).
  apply becomeRC_finish_ReadInvariant. exact Hinv.
Qed.

(** C7, amended: [init] with any arguments establishes, and [clip] with any
    mode (original clipping not maintained) and [becomeRC] keep, that
    [frontClippedLength + dataLength <= unclippedLength] and that [data] and
    [quality] stand [frontClippedLength] bytes into the unclipped spans:
    in them, or at their end when nothing is left of the read. *)
Theorem operations_keep_ReadInvariant :
  forall ext,
    (forall r0 i_id i_idLength i_data i_quality i_dataLength
            oal omq osf ofc obc ofh obh orn ornl opn r,
       init ext r0 i_id i_idLength i_data i_quality i_dataLength
            oal omq osf ofc obc ofh obh orn ornl opn = Some r ->
       ReadInvariant r) /\
    (forall r c, ReadInvariant r -> ReadInvariant (clip ext r c false)) /\
    (forall r r',
       ReadInvariant r -> becomeRC ext r = Some r' -> ReadInvariant r').
Proof.
  intros ext. split; [|split].
  - intros. eapply freshRead_ReadInvariant, init_freshRead. eassumption.
  - intros r c H. apply clip_ReadInvariant. exact H.
  - intros r r' H H'. eapply becomeRC_ReadInvariant; eassumption.
Qed.

(** *** [becomeRC] *)

Lemma rcLoop_Some :
  forall ext ud uq len rd rq n i lb,
    0 <= rd -> 0 <= rq -> 0 <= i -> i + Z.of_nat n <= len ->
    rd + len <= localBufferLength -> rq + len <= localBufferLength ->
    exists lb', rcLoop ext ud uq len rd rq n i lb = Some lb'.
Proof.
  intros ext ud uq len rd rq n.
  induction n as [|n IH]; intros i lb Hrd Hrq Hi Hn H1 H2.
  - exists lb. reflexivity.
  - cbn [rcLoop]. rewrite store_Some by lia. rewrite store_Some by lia.
    apply IH; lia.
Qed.

Lemma rcLoop_frame :
  forall ext ud uq len rd rq n i lb lb',
    rcLoop ext ud uq len rd rq n i lb = Some lb' ->
    0 <= i -> i + Z.of_nat n <= len ->
    forall j, j < rd -> j < rq -> lb' j = lb j.
Proof.
  intros ext ud uq len rd rq n.
  induction n as [|n IH]; intros i lb lb' H Hi Hn j Hj1 Hj2.
  - simpl in H. injection H as <-. reflexivity.
  - cbn [rcLoop] in H.
    destruct (store lb (rd + i) _) as [lb1|] eqn:S1; [|discriminate].
    destruct (store lb1 (rq + (len - i - 1)) _) as [lb2|] eqn:S2; [|discriminate].
    apply store_inv in S1. destruct S1 as [_ ->].
    apply store_inv in S2. destruct S2 as [_ ->].
    rewrite (IH _ _ _ H) by lia.
    destruct (j =? rq + (len - i - 1)) eqn:E1; [apply Z.eqb_eq in E1; lia|].
    destruct (j =? rd + i) eqn:E2; [apply Z.eqb_eq in E2; lia|].
    reflexivity.
Qed.

Lemma rcLoop_bounds :
  forall ext ud uq len rd rq n i lb lb',
    rcLoop ext ud uq len rd rq (S n) i lb = Some lb' ->
    0 <= rd + i < localBufferLength /\
    0 <= rq + (len - i - 1) < localBufferLength.
Proof.
  intros ext ud uq len rd rq n i lb lb' H. cbn [rcLoop] in H.
  destruct (store lb (rd + i) _) as [lb1|] eqn:S1; [|discriminate].
  destruct (store lb1 (rq + (len - i - 1)) _) as [lb2|] eqn:S2; [|discriminate].
  apply store_inv in S1. apply store_inv in S2. tauto.
Qed.

Lemma freshRead_Layout : forall r, freshRead r -> Layout r.
Proof.
  intros r (Hu & _ & _ & _ & _ & _ & Hdir & Hrc & Hq & Heq & Hed & Hcase).
  unfold Layout. rewrite Hdir, Heq.
  split; [exact Hed|]. split; [exact Hq|].
  destruct Hcase as [(Hup & Hud & Hoff)|(Hup & Hud & Hoff & Hl)];
    rewrite Hup, Hud, Hoff; simpl.
  - split; [left; reflexivity|]. split; [reflexivity|]. split; reflexivity.
  - split; [right; repeat split; [lia | exact Hl]|].
    split; [reflexivity|]. split; reflexivity.
Qed.

Lemma clip_Layout :
  forall ext r c m, Layout r -> Layout (clip ext r c m).
Proof.
  intros ext r c m H. unfold clip.
  destruct (ReadClippingType_eqb c (clippingState r)); [exact H|].
  exact H.
Qed.

Lemma becomeRC_Layout :
  forall ext r r',
    ReadInvariant r -> Layout r -> becomeRC ext r = Some r' -> Layout r'.
Proof.
  intros ext r r' ([Hu0 Hu1] & _) (Hed & Heq & Hup & Hoff & Hdir) H.
  unfold becomeRC in H.
  destruct (currentReadDirection r) eqn:Edir.
  - destruct (isNull (rcData r)) eqn:Enull.
    + assert (Hrc : rcData r = Null) by (destruct (rcData r); simpl in *; congruence).
      specialize (Hoff Hrc).
      destruct (rcLoop _ _ _ _ _ _ _ _ _) as [lb|] eqn:Hloop; [|discriminate].
      injection H as <-.
      assert (Hoff0 : 0 <= localBufferAllocationOffset r <= unclippedLength r /\
                      (upcaseForwardRead r <> Null ->
                       localBufferAllocationOffset r = unclippedLength r)).
      { rewrite Hoff. destruct (upcaseForwardRead r); simpl; split; try lia;
          intro; congruence. }
      destruct Hoff0 as [Hoff0 Hoff1].
      assert (Hsmall : unclippedLength r = 0 \/
                       localBufferAllocationOffset r + unclippedLength r
                         + unclippedLength r <= localBufferLength).
      { destruct (Z.to_nat (unclippedLength r)) eqn:En; [left; lia|right].
        apply rcLoop_bounds in Hloop. destruct Hloop as [_ Hb].
        destruct Hup as [Hup|(Hup & _ & Hl)].
        - rewrite Hup in Hoff. simpl in Hoff. rewrite Hoff in *.
          rewrite Z.add_0_l, wrap32_small in Hb by lia. lia.
        - rewrite Hup in Hoff. simpl in Hoff. rewrite Hoff in *.
          rewrite wrap32_small in Hb
            by (unfold localBufferLength, MAX_READ_LENGTH in Hl; lia).
          lia. }
      assert (Hcap : localBufferLength < 2 ^ 32) by reflexivity.
      assert (Hw1 : wrap32 (localBufferAllocationOffset r + unclippedLength r) =
                    localBufferAllocationOffset r + unclippedLength r)
        by (apply wrap32_small; lia).
      assert (Hw2 : wrap32 (localBufferAllocationOffset r + unclippedLength r
                            + unclippedLength r) =
                    localBufferAllocationOffset r + unclippedLength r
                    + unclippedLength r)
        by (apply wrap32_small; lia).
      unfold Layout, becomeRC_finish. simpl. rewrite Hw1, Hw2.
      split; [exact Hed|]. split; [exact Heq|].
      split.
      * destruct Hup as [Hup|(Hup & Hle & Hl)]; [left; exact Hup|right].
        repeat split; [exact Hup | lia | exact Hl].
      * split; [intro; discriminate|].
        split; [discriminate|]. split; reflexivity.
    + injection H as <-.
      unfold Layout, becomeRC_finish. simpl.
      split; [exact Hed|]. split; [exact Heq|]. split; [exact Hup|].
      split; [exact Hoff|].
      split; [|split; reflexivity].
      destruct (rcData r); simpl in Enull; congruence.
  - injection H as <-.
    unfold Layout, becomeRC_finish. simpl.
    split; [exact Hed|]. split; [exact Heq|]. split; [exact Hup|].
    split; [exact Hoff|]. split; reflexivity.
Qed.

Lemma initialized_invariants :
  forall ext r, initialized ext r -> ReadInvariant r /\ Layout r.
Proof.
  intros ext r H. induction H as [? ? ? ? ? ? ? ? ? ? ? ? ? ? ? ? r H | r c H IH | r r' H IH H'].
  - apply init_freshRead in H.
    split; [apply freshRead_ReadInvariant | apply freshRead_Layout]; exact H.
  - destruct IH as [I L].
    split; [apply clip_ReadInvariant | apply clip_Layout]; assumption.
  - destruct IH as [I L].
    split; [eapply becomeRC_ReadInvariant | eapply becomeRC_Layout]; eassumption.
Qed.

(** The members [becomeRC] leaves alone or sets outright. *)
Lemma becomeRC_finish_upcaseForwardRead :
  forall r ud uq dir lb off rcd rcq,
    upcaseForwardRead (becomeRC_finish r ud uq dir lb off rcd rcq) = upcaseForwardRead r.
Proof. reflexivity. Qed.

Lemma becomeRC_finish_externalData :
  forall r ud uq dir lb off rcd rcq,
    externalData (becomeRC_finish r ud uq dir lb off rcd rcq) = externalData r.
Proof. reflexivity. Qed.

Lemma becomeRC_finish_externalQuality :
  forall r ud uq dir lb off rcd rcq,
    externalQuality (becomeRC_finish r ud uq dir lb off rcd rcq) = externalQuality r.
Proof. reflexivity. Qed.

Lemma becomeRC_finish_localBuffer :
  forall r ud uq dir lb off rcd rcq,
    localBuffer (becomeRC_finish r ud uq dir lb off rcd rcq) = lb.
Proof. reflexivity. Qed.

Lemma becomeRC_finish_localBufferAllocationOffset :
  forall r ud uq dir lb off rcd rcq,
    localBufferAllocationOffset (becomeRC_finish r ud uq dir lb off rcd rcq) = off.
Proof. reflexivity. Qed.

Lemma becomeRC_finish_rcData :
  forall r ud uq dir lb off rcd rcq,
    rcData (becomeRC_finish r ud uq dir lb off rcd rcq) = rcd.
Proof. reflexivity. Qed.

Lemma becomeRC_finish_rcQuality :
  forall r ud uq dir lb off rcd rcq,
    rcQuality (becomeRC_finish r ud uq dir lb off rcd rcq) = rcq.
Proof. reflexivity. Qed.

Lemma becomeRC_finish_currentReadDirection :
  forall r ud uq dir lb off rcd rcq,
    currentReadDirection (becomeRC_finish r ud uq dir lb off rcd rcq) = dir.
Proof. reflexivity. Qed.

Create Rewrite HintDb finish.
#[local] Hint Rewrite becomeRC_finish_upcaseForwardRead becomeRC_finish_externalData
  becomeRC_finish_externalQuality becomeRC_finish_localBuffer
  becomeRC_finish_localBufferAllocationOffset becomeRC_finish_rcData
  becomeRC_finish_rcQuality becomeRC_finish_currentReadDirection : finish.

Lemma front_twice :
  forall u d f,
    unsignedRange u -> 0 <= d -> 0 <= f -> f + d <= u ->
    wrap32 (wrap32 (u - d) - wrap32 (wrap32 (u - d) - f)) = f.
Proof.
  intros u d f [Hu0 Hu1] Hd Hf Hsum.
  rewrite (wrap32_small (u - d)) by lia.
  rewrite (wrap32_small (u - d - f)) by lia.
  rewrite wrap32_small by lia. lia.
Qed.

Lemma sameView_after_two :
  forall ext r ud1 uq1 dir1 lb1 off1 rcd1 rcq1 lb2 off2 rcd2 rcq2,
    ReadInvariant r ->
    span ext lb2 (data r) (dataLength r) =
      span ext (localBuffer r) (data r) (dataLength r) ->
    span ext lb2 (quality r) (dataLength r) =
      span ext (localBuffer r) (quality r) (dataLength r) ->
    span ext lb2 (unclippedData r) (unclippedLength r) =
      span ext (localBuffer r) (unclippedData r) (unclippedLength r) ->
    span ext lb2 (unclippedQuality r) (unclippedLength r) =
      span ext (localBuffer r) (unclippedQuality r) (unclippedLength r) ->
    sameView ext r
      (becomeRC_finish
         (becomeRC_finish r ud1 uq1 dir1 lb1 off1 rcd1 rcq1)
         (unclippedData r) (unclippedQuality r) (currentReadDirection r)
         lb2 off2 rcd2 rcq2).
Proof.
  intros ext r ud1 uq1 dir1 lb1 off1 rcd1 rcq1 lb2 off2 rcd2 rcq2
         (Hu & Hd & Hf & Hsum & Hdata & Hq) S1 S2 S3 S4.
  unfold sameView, getDataBytes, getQualityBytes, getUnclippedDataBytes,
    getUnclippedQualityBytes, becomeRC_finish.
  simpl. rewrite front_twice by assumption.
  rewrite <- Hdata, <- Hq.
  repeat split; assumption.
Qed.

Lemma becomeRC_second :
  forall ext r r1,
    ReadInvariant r -> Layout r -> becomeRC ext r = Some r1 ->
    exists r2, becomeRC ext r1 = Some r2 /\ sameView ext r r2.
Proof.
  intros ext r r1 Hinv Hlay H.
  pose proof Hinv as ([Hu0 Hu1] & Hd & Hf & Hsum & Hdata & Hq).
  destruct Hlay as (Hed & Heq & Hup & Hoff & Hdir).
  unfold becomeRC in H.
  destruct (currentReadDirection r) eqn:Edir.
  - destruct Hdir as [Hud Huq].
    destruct (isNull (rcData r)) eqn:Enull.
    + (* the reverse complement is computed now *)
      assert (Hrc : rcData r = Null) by (destruct (rcData r); simpl in *; congruence).
      specialize (Hoff Hrc).
      assert (Hcap : localBufferLength < 2 ^ 32) by reflexivity.
      assert (Hrq : wrap32 (localBufferAllocationOffset r + unclippedLength r) =
                    localBufferAllocationOffset r + unclippedLength r /\
                    0 <= localBufferAllocationOffset r).
      { rewrite Hoff. destruct Hup as [Hup|(Hup & _ & Hl)]; rewrite Hup; simpl.
        - split; [apply wrap32_small; lia | lia].
        - unfold localBufferLength, MAX_READ_LENGTH in Hl.
          split; [apply wrap32_small; lia | lia]. }
      destruct Hrq as [Hrq Hoff0]. rewrite Hrq in H.
      destruct (rcLoop ext (unclippedData r) (unclippedQuality r)
                  (unclippedLength r) (localBufferAllocationOffset r)
                  (localBufferAllocationOffset r + unclippedLength r)
                  (Z.to_nat (unclippedLength r)) 0 (localBuffer r))
        as [lb'|] eqn:Hloop; [|discriminate].
      injection H as <-.
      eexists.
      unfold becomeRC. autorewrite with finish. cbv iota.
      rewrite <- Hud, <- Huq, <- Edir.
      split; [reflexivity|].
      assert (Hframe : forall j, j < localBufferAllocationOffset r -> lb' j = localBuffer r j).
      { intros j Hj. eapply rcLoop_frame; [exact Hloop | lia | lia | lia | lia]. }
      destruct Heq as [aq Haq]. rewrite Haq in Huq.
      apply sameView_after_two; [exact Hinv | | | |].
      * rewrite Hdata, Hud.
        destruct Hup as [Hup|(Hup & Hle & _)]; rewrite Hup; simpl.
        -- destruct Hed as [a ->]. reflexivity.
        -- apply span_loc_agree. intros j Hj. apply Hframe. lia.
      * rewrite Hq, Huq. reflexivity.
      * rewrite Hud.
        destruct Hup as [Hup|(Hup & Hle & _)]; rewrite Hup; simpl.
        -- destruct Hed as [a ->]. reflexivity.
        -- apply span_loc_agree. intros j Hj. apply Hframe. lia.
      * rewrite Huq. reflexivity.
    + (* the cached reverse complement is taken *)
      injection H as <-. eexists.
      unfold becomeRC. autorewrite with finish. cbv iota.
      rewrite <- Hud, <- Huq, <- Edir.
      split; [reflexivity|].
      apply sameView_after_two; [exact Hinv | reflexivity ..].
  - destruct Hdir as (Hrc & Hud & Huq).
    injection H as <-. eexists.
    unfold becomeRC. autorewrite with finish. cbv iota.
    assert (Enull : isNull (rcData r) = false)
      by (destruct (rcData r); [contradiction | reflexivity | reflexivity]).
    rewrite Enull, <- Hud, <- Huq, <- Edir.
    split; [reflexivity|].
    apply sameView_after_two; [exact Hinv | reflexivity ..].
Qed.

Lemma becomeRC_defined :
  forall ext r,
    ReadInvariant r -> Layout r -> unclippedLength r <= MaxReadLength ->
    exists r1, becomeRC ext r = Some r1.
Proof.
  intros ext r ([Hu0 Hu1] & _) (_ & _ & Hup & Hoff & _) Hmax.
  unfold becomeRC.
  destruct (currentReadDirection r); [|eexists; reflexivity].
  destruct (isNull (rcData r)) eqn:Enull; [|eexists; reflexivity].
  assert (Hrc : rcData r = Null) by (destruct (rcData r); simpl in *; congruence).
  specialize (Hoff Hrc).
  assert (Hoff0 : 0 <= localBufferAllocationOffset r <= unclippedLength r).
  { rewrite Hoff. destruct (isNull (upcaseForwardRead r)); lia. }
  assert (Hcap : 3 * unclippedLength r <= localBufferLength)
    by (unfold MaxReadLength, localBufferLength in *; lia).
  assert (Hcap' : localBufferLength < 2 ^ 32) by reflexivity.
  rewrite (wrap32_small (localBufferAllocationOffset r + unclippedLength r)) by lia.
  destruct (rcLoop_Some ext (unclippedData r) (unclippedQuality r)
              (unclippedLength r) (localBufferAllocationOffset r)
              (localBufferAllocationOffset r + unclippedLength r)
              (Z.to_nat (unclippedLength r)) 0 (localBuffer r))
    as [lb' Hloop]; try lia.
  rewrite Hloop. eexists; reflexivity.
Qed.

(** C6: for a [Read] that [init], [clip] and [becomeRC] have made, in
    whatever clipping state and orientation, a second call of [becomeRC]
    leaves the pointers and the bytes of the clipped and unclipped data and
    quality, the lengths, the orientation and the recorded front and back
    (hard) clipping as they were before the first.  The first call goes
    through for every read of at most [MaxReadLength] bases; it does not
    only where the reverse complement would be stored outside the local
    buffer. *)
Theorem becomeRC_twice_restores :
  forall ext r,
    initialized ext r ->
    (forall r1,
       becomeRC ext r = Some r1 ->
       exists r2, becomeRC ext r1 = Some r2 /\ sameView ext r r2) /\
    (unclippedLength r <= MaxReadLength -> exists r1, becomeRC ext r = Some r1).
Proof.
  intros ext r Hinit.
  apply initialized_invariants in Hinit. destruct Hinit as [Hinv Hlay].
  split.
  - intros r1 H. eapply becomeRC_second; eassumption.
  - intros Hmax. apply becomeRC_defined; assumption.
Qed.

(** ** Proofs: boundary recovery *)

Local Open Scope nat_scope.

Lemma strnchr_Some :
  forall buf c n s p,
    strnchr buf s c n = Some p ->
    s <= p < s + n /\ byteAt buf p = c /\
    forall q, s <= q < p -> byteAt buf q <> c.
Proof.
  intros buf c n. induction n as [|n IH]; intros s p H; [discriminate|].
  cbn [strnchr] in H.
  destruct (Ascii.eqb (byteAt buf s) c) eqn:E.
  - injection H as <-. apply Ascii.eqb_eq in E.
    split; [lia|]. split; [exact E|]. intros q Hq. lia.
  - apply IH in H. destruct H as (Hr & Hc & Hq).
    split; [lia|]. split; [exact Hc|].
    intros q Hqr. destruct (Nat.eq_dec q s) as [->|Hne].
    + apply Ascii.eqb_neq. exact E.
    + apply Hq. lia.
Qed.

Lemma strnchr_None :
  forall buf c n s,
    strnchr buf s c n = None ->
    forall q, s <= q < s + n -> byteAt buf q <> c.
Proof.
  intros buf c n. induction n as [|n IH]; intros s H q Hq; [lia|].
  cbn [strnchr] in H.
  destruct (Ascii.eqb (byteAt buf s) c) eqn:E; [discriminate|].
  destruct (Nat.eq_dec q s) as [->|Hne].
  - apply Ascii.eqb_neq. exact E.
  - apply (IH (S s)); [exact H | lia].
Qed.

Lemma strnchr_first :
  forall buf c n s p,
    s <= p < s + n -> byteAt buf p = c ->
    (forall q, s <= q < p -> byteAt buf q <> c) ->
    strnchr buf s c n = Some p.
Proof.
  intros buf c n. induction n as [|n IH]; intros s p Hr Hc Hq; [lia|].
  cbn [strnchr].
  destruct (Ascii.eqb (byteAt buf s) c) eqn:E.
  - apply Ascii.eqb_eq in E.
    destruct (Nat.eq_dec p s) as [->|Hne]; [reflexivity|].
    exfalso. apply (Hq s); [lia | exact E].
  - apply IH; [|exact Hc|intros q Hqr; apply Hq; lia].
    destruct (Nat.eq_dec p s) as [->|Hne]; [|lia].
    apply Ascii.eqb_neq in E. contradiction.
Qed.

Lemma skipLoop_unfold :
  forall fuel buf buffer validBytes first,
    skipLoop (S fuel) buf buffer validBytes first =
    if validBytes <=? first - buffer then Some NoBoundary
    else
      match strnchr buf first LF (validBytes - (first - buffer)) with
      | None => Some NoBoundary
      | Some newLine =>
          if Ascii.eqb (byteAt buf first) "@" && recoveryTest buf (S newLine)
          then Some (Advance (first - buffer))
          else skipLoop fuel buf buffer validBytes (S newLine)
      end.
Proof.
  intros fuel buf buffer validBytes first. cbn [skipLoop].
  destruct (validBytes <=? first - buffer); [reflexivity|].
  destruct (strnchr buf first LF (validBytes - (first - buffer))) as [nl|];
    [|reflexivity].
  unfold recoveryTest.
  destruct (Ascii.eqb (byteAt buf first) "@"); [|reflexivity].
  cbn [negb andb].
  destruct (Ascii.eqb (byteAt buf (S nl + basesRun (skipn (S nl) buf))) CR);
    cbv zeta.
  - destruct (Ascii.eqb (byteAt buf (S (S nl + basesRun (skipn (S nl) buf)))) LF);
      [|reflexivity].
    destruct (Ascii.eqb (byteAt buf (S (S (S nl + basesRun (skipn (S nl) buf))))) "+");
      reflexivity.
  - destruct (Ascii.eqb (byteAt buf (S nl + basesRun (skipn (S nl) buf))) LF);
      [|reflexivity].
    destruct (Ascii.eqb (byteAt buf (S (S nl + basesRun (skipn (S nl) buf)))) "+");
      reflexivity.
Qed.

Lemma skipLoop_total :
  forall fuel buf buffer validBytes first,
    buffer <= first -> validBytes - (first - buffer) < fuel ->
    exists res, skipLoop fuel buf buffer validBytes first = Some res.
Proof.
  induction fuel as [|fuel IH]; intros buf buffer validBytes first Hb Hf; [lia|].
  rewrite skipLoop_unfold.
  destruct (validBytes <=? first - buffer) eqn:E; [eexists; reflexivity|].
  apply Nat.leb_gt in E.
  destruct (strnchr buf first LF (validBytes - (first - buffer))) as [nl|] eqn:Hs;
    [|eexists; reflexivity].
  destruct (Ascii.eqb (byteAt buf first) "@" && recoveryTest buf (S nl));
    [eexists; reflexivity|].
  apply strnchr_Some in Hs. destruct Hs as (Hr & _).
  apply IH; lia.
Qed.

Lemma skipPartialRecord_total :
  forall buf buffer validBytes,
    exists res, skipPartialRecord buf buffer validBytes = Some res.
Proof.
  intros buf buffer validBytes. unfold skipPartialRecord.
  destruct (Ascii.eqb (byteAt buf buffer) "@").
  - apply skipLoop_total; lia.
  - destruct (strnchr buf buffer LF validBytes) as [nl|] eqn:Hs;
      [|eexists; reflexivity].
    apply strnchr_Some in Hs. destruct Hs as (Hr & _).
    apply skipLoop_total; lia.
Qed.

Lemma skipLoop_Advance_inv :
  forall fuel buf buffer validBytes first n,
    skipLoop fuel buf buffer validBytes first = Some (Advance n) ->
    buffer <= first ->
    exists c nl,
      first <= c /\ n = c - buffer /\ c - buffer < validBytes /\
      byteAt buf c = "@"%char /\
      strnchr buf c LF (validBytes - (c - buffer)) = Some nl /\
      recoveryTest buf (S nl) = true.
Proof.
  induction fuel as [|fuel IH]; intros buf buffer validBytes first n H Hb;
    [discriminate|].
  rewrite skipLoop_unfold in H.
  destruct (validBytes <=? first - buffer) eqn:E; [discriminate|].
  apply Nat.leb_gt in E.
  destruct (strnchr buf first LF (validBytes - (first - buffer))) as [nl|] eqn:Hs;
    [|discriminate].
  destruct (Ascii.eqb (byteAt buf first) "@" && recoveryTest buf (S nl)) eqn:T.
  - injection H as <-. apply andb_true_iff in T. destruct T as [T1 T2].
    apply Ascii.eqb_eq in T1.
    exists first, nl. repeat split; try assumption; lia.
  - pose proof (strnchr_Some _ _ _ _ _ Hs) as (Hr & _).
    apply IH in H; [|lia].
    destruct H as (c & nl' & Hc & Hrest).
    exists c, nl'. split; [lia | exact Hrest].
Qed.

Lemma isRecoveryBase_supported :
  forall c, isRecoveryBase c = true -> isSupportedBase c = true.
Proof.
  intros c H. unfold isRecoveryBase in H.
  repeat (apply orb_true_iff in H; destruct H as [H|H]);
    apply Ascii.eqb_eq in H; subst c; reflexivity.
Qed.

Lemma basesRun_spec :
  forall l i, i < basesRun l -> isRecoveryBase (nth i l NUL) = true.
Proof.
  induction l as [|c t IH]; intros i Hi; simpl in Hi; [lia|].
  destruct (isRecoveryBase c) eqn:E; [|lia].
  destruct i as [|i]; [exact E|]. simpl. apply IH. lia.
Qed.

Lemma byteAt_skipn :
  forall buf s i, nth i (skipn s buf) NUL = byteAt buf (s + i).
Proof. intros. unfold byteAt. apply nth_skipn. Qed.

Lemma recoveryTest_baseLineAt :
  forall buf second,
    recoveryTest buf second = true -> baseLineAt isRecoveryBase buf second.
Proof.
  intros buf second H. unfold recoveryTest in H.
  exists (basesRun (skipn second buf)). split.
  - intros i Hi. rewrite <- byteAt_skipn. apply basesRun_spec. exact Hi.
  - destruct (Ascii.eqb (byteAt buf (second + basesRun (skipn second buf))) CR) eqn:E;
      apply andb_true_iff in H; destruct H as [H1 H2];
      apply Ascii.eqb_eq in H1; apply Ascii.eqb_eq in H2.
    + right. apply Ascii.eqb_eq in E.
      replace (second + basesRun (skipn second buf) + 1)
        with (S (second + basesRun (skipn second buf))) by lia.
      replace (second + basesRun (skipn second buf) + 2)
        with (S (S (second + basesRun (skipn second buf)))) by lia.
      auto.
    + left.
      replace (second + basesRun (skipn second buf) + 1)
        with (S (second + basesRun (skipn second buf))) by lia.
      auto.
Qed.

Lemma baseLineAt_wider :
  forall (isBase isBase' : ascii -> bool) buf second,
    (forall c, isBase c = true -> isBase' c = true) ->
    baseLineAt isBase buf second -> baseLineAt isBase' buf second.
Proof.
  intros isBase isBase' buf second Hsub (m & Hall & Hend).
  exists m. split; [|exact Hend].
  intros i Hi. apply Hsub, Hall. exact Hi.
Qed.

(** C3: boundary recovery always comes to a result.  When it settles on a
    candidate, that line starts with [@] and ends in the valid bytes, and
    the line behind it is made of the bases [A C G T N a c g t] only, which
    are among the supported base symbols, ends in a newline, with or
    without a carriage return before it, and is followed by a [+].  A
    candidate whose next line is not so, for the supported base symbols or
    for any alphabet that holds those nine, is never settled on: the loop
    goes on with the next line as the candidate. *)
Theorem recovery_accepts_only_base_lines :
  forall buf buffer validBytes,
    (exists res, skipPartialRecord buf buffer validBytes = Some res) /\
    (forall c, isRecoveryBase c = true -> isSupportedBase c = true) /\
    (forall n,
       skipPartialRecord buf buffer validBytes = Some (Advance n) ->
       n < validBytes /\
       byteAt buf (buffer + n) = "@"%char /\
       exists newLine,
         strnchr buf (buffer + n) LF (validBytes - n) = Some newLine /\
         baseLineAt isRecoveryBase buf (S newLine) /\
         baseLineAt isSupportedBase buf (S newLine)) /\
    (forall (isBase : ascii -> bool) fuel firstLineCandidate newLine,
       (forall c, isRecoveryBase c = true -> isBase c = true) ->
       strnchr buf firstLineCandidate LF
               (validBytes - (firstLineCandidate - buffer)) = Some newLine ->
       ~ baseLineAt isBase buf (S newLine) ->
       skipLoop (S fuel) buf buffer validBytes firstLineCandidate =
       skipLoop fuel buf buffer validBytes (S newLine)).
Proof.
  intros buf buffer validBytes.
  split; [apply skipPartialRecord_total|].
  split; [apply isRecoveryBase_supported|]. split.
  - intros n H.
    assert (Hinv : exists c nl,
               buffer <= c /\ n = c - buffer /\ c - buffer < validBytes /\
               byteAt buf c = "@"%char /\
               strnchr buf c LF (validBytes - (c - buffer)) = Some nl /\
               recoveryTest buf (S nl) = true).
    { unfold skipPartialRecord in H.
      destruct (Ascii.eqb (byteAt buf buffer) "@").
      - apply skipLoop_Advance_inv in H; [|lia]. exact H.
      - destruct (strnchr buf buffer LF validBytes) as [nl0|] eqn:Hs;
          [|discriminate].
        apply strnchr_Some in Hs. destruct Hs as (Hr & _).
        apply skipLoop_Advance_inv in H; [|lia].
        destruct H as (c & nl & Hc & Hrest).
        exists c, nl. split; [lia | exact Hrest]. }
    destruct Hinv as (c & nl & Hc & -> & Hv & Hat & Hs & Ht).
    replace (buffer + (c - buffer)) with c by lia.
    split; [exact Hv|]. split; [exact Hat|].
    exists nl. split; [exact Hs|].
    apply recoveryTest_baseLineAt in Ht.
    split; [exact Ht|].
    revert Ht. apply baseLineAt_wider. apply isRecoveryBase_supported.
  - intros isBase fuel first nl Hsub Hs Hno.
    rewrite skipLoop_unfold.
    pose proof (strnchr_Some _ _ _ _ _ Hs) as (Hr & _).
    assert (E : (validBytes <=? first - buffer) = false)
      by (apply Nat.leb_gt; lia).
    rewrite E, Hs.
    destruct (recoveryTest buf (S nl)) eqn:T.
    + exfalso. apply Hno.
      apply (baseLineAt_wider isRecoveryBase isBase); [exact Hsub|].
      apply recoveryTest_baseLineAt. exact T.
    + rewrite andb_false_r. reflexivity.
Qed.

(** *** Bytes of a buffer given in pieces *)

Lemma byteAt_app :
  forall pre x i, byteAt (pre ++ x) (List.length pre + i) = nth i x NUL.
Proof. intros. unfold byteAt. apply app_nth2_plus. Qed.

Lemma byteAt_app_0 :
  forall pre x, byteAt (pre ++ x) (List.length pre) = hd NUL x.
Proof.
  intros pre x. rewrite <- (Nat.add_0_r (List.length pre)), byteAt_app.
  destruct x; reflexivity.
Qed.

Lemma skipn_app_exact :
  forall (pre x : list ascii), skipn (List.length pre) (pre ++ x) = x.
Proof.
  intros pre x. rewrite skipn_app, skipn_all, Nat.sub_diag. reflexivity.
Qed.

Lemma recoveryTest_app :
  forall pre rest, recoveryTest (pre ++ rest) (List.length pre) = acceptsRest rest.
Proof.
  intros pre rest. unfold recoveryTest, acceptsRest.
  rewrite skipn_app_exact, byteAt_app.
  destruct (Ascii.eqb (nth (basesRun rest) rest NUL) CR).
  - rewrite <- !Nat.add_succ_r, !byteAt_app. reflexivity.
  - rewrite <- Nat.add_succ_r, !byteAt_app. reflexivity.
Qed.

Lemma noLF_nth :
  forall l i, noLF l = true -> i < List.length l -> nth i l NUL <> LF.
Proof.
  intros l i H Hi. unfold noLF in H. rewrite forallb_forall in H.
  specialize (H (nth i l NUL) (nth_In l NUL Hi)).
  apply negb_true_iff, Ascii.eqb_neq in H. exact H.
Qed.

Lemma strnchr_line :
  forall l pre rest n,
    noLF l = true -> List.length l < n ->
    strnchr (pre ++ l ++ LF :: rest) (List.length pre) LF n =
    Some (List.length pre + List.length l).
Proof.
  intros l pre rest n Hl Hn. apply strnchr_first.
  - lia.
  - rewrite byteAt_app. apply nth_middle.
  - intros q Hq.
    replace q with (List.length pre + (q - List.length pre)) by lia.
    rewrite byteAt_app, app_nth1 by lia.
    apply noLF_nth; [exact Hl | lia].
Qed.

(** *** One pass of the loop, on a buffer given in pieces *)

Lemma skipLoop_line :
  forall fuel pre l rest buffer validBytes,
    noLF l = true ->
    buffer <= List.length pre ->
    List.length pre - buffer + List.length l < validBytes ->
    skipLoop (S fuel) (pre ++ l ++ LF :: rest) buffer validBytes (List.length pre) =
    if Ascii.eqb (hd NUL (addLF l)) "@" && acceptsRest rest
    then Some (Advance (List.length pre - buffer))
    else skipLoop fuel (pre ++ l ++ LF :: rest) buffer validBytes
           (List.length pre + List.length l + 1).
Proof.
  intros fuel pre l rest buffer validBytes Hl Hb Hv.
  rewrite skipLoop_unfold.
  assert (E : (validBytes <=? List.length pre - buffer) = false)
    by (apply Nat.leb_gt; lia).
  rewrite E, strnchr_line by (assumption || lia).
  rewrite byteAt_app_0.
  replace (hd NUL (l ++ LF :: rest)) with (hd NUL (addLF l))
    by (destruct l; reflexivity).
  replace (pre ++ l ++ LF :: rest) with ((pre ++ l ++ [LF]) ++ rest) at 1
    by (rewrite <- !app_assoc; reflexivity).
  replace (S (List.length pre + List.length l))
    with (List.length (pre ++ l ++ [LF]))
    by (rewrite !length_app; simpl; lia).
  rewrite recoveryTest_app.
  rewrite !length_app. simpl List.length.
  replace (List.length pre + (List.length l + 1))
    with (List.length pre + List.length l + 1) by lia.
  reflexivity.
Qed.

Lemma skipLoop_end :
  forall fuel buf buffer validBytes first,
    validBytes <= first - buffer ->
    skipLoop (S fuel) buf buffer validBytes first = Some NoBoundary.
Proof.
  intros fuel buf buffer validBytes first H. rewrite skipLoop_unfold.
  apply Nat.leb_le in H. rewrite H. reflexivity.
Qed.

Lemma length_lines :
  forall ls : list (list ascii),
    List.length ls <= List.length (concat (map addLF ls)).
Proof.
  induction ls as [|l ls IH]; simpl; [lia|].
  unfold addLF at 1. rewrite !length_app. simpl. lia.
Qed.

Lemma skipLoop_lines :
  forall ls pre post buffer fuel buf,
    buf = pre ++ concat (map addLF ls) ++ post ->
    rejecting ls post ->
    buffer <= List.length pre ->
    skipLoop (List.length ls + fuel) buf buffer (List.length buf - buffer)
             (List.length pre) =
    skipLoop fuel buf buffer (List.length buf - buffer)
             (List.length pre + List.length (concat (map addLF ls))).
Proof.
  induction ls as [|l ls IH]; intros pre post buffer fuel buf Hbuf Hrej Hb.
  - simpl. rewrite Nat.add_0_r. reflexivity.
  - destruct Hrej as (Hl & Hrej1 & Hrej).
    assert (Ebuf : buf = pre ++ l ++ LF :: (concat (map addLF ls) ++ post)).
    { rewrite Hbuf. simpl. unfold addLF at 1. rewrite <- !app_assoc. reflexivity. }
    assert (Ebuf' : buf = (pre ++ l ++ [LF]) ++ concat (map addLF ls) ++ post).
    { rewrite Ebuf. rewrite <- !app_assoc. reflexivity. }
    assert (Hlen : List.length buf =
                   List.length pre + List.length l + 1
                   + List.length (concat (map addLF ls) ++ post)).
    { rewrite Ebuf. rewrite !length_app. simpl. rewrite !length_app. lia. }
    assert (T : Ascii.eqb (hd NUL (addLF l)) "@"
                && acceptsRest (concat (map addLF ls) ++ post) = false).
    { destruct Hrej1 as [H|H].
      - apply Ascii.eqb_neq in H. rewrite H. reflexivity.
      - rewrite H. apply andb_false_r. }
    cbn [List.length Nat.add].
    pose proof (skipLoop_line (List.length ls + fuel) pre l
                  (concat (map addLF ls) ++ post) buffer
                  (List.length buf - buffer) Hl Hb) as Hstep.
    rewrite <- Ebuf, T in Hstep. rewrite Hstep by lia.
    replace (List.length pre + List.length l + 1)
      with (List.length (pre ++ l ++ [LF]))
      by (rewrite !length_app; simpl; lia).
    rewrite (IH (pre ++ l ++ [LF]) post buffer fuel buf Ebuf' Hrej)
      by (rewrite !length_app; lia).
    f_equal. simpl. unfold addLF at 2. rewrite !length_app. simpl. lia.
Qed.

(** *** The test on the bytes behind a candidate line *)

Lemma acceptsRest_cons_base :
  forall c l, isRecoveryBase c = true -> acceptsRest (c :: l) = acceptsRest l.
Proof.
  intros c l H. unfold acceptsRest. cbn [basesRun]. rewrite H.
  cbn [nth]. destruct (Ascii.eqb (nth (basesRun l) l NUL) CR); reflexivity.
Qed.

Lemma acceptsRest_cons_other :
  forall c l,
    isRecoveryBase c = false -> c <> CR -> c <> LF ->
    acceptsRest (c :: l) = false.
Proof.
  intros c l H Hcr Hlf. unfold acceptsRest. cbn [basesRun]. rewrite H.
  cbn [nth]. apply Ascii.eqb_neq in Hcr, Hlf. rewrite Hcr, Hlf. reflexivity.
Qed.

Lemma isPrintable_not_line_end :
  forall c, isPrintable c = true -> c <> CR /\ c <> LF.
Proof. intros c H. split; intro; subst c; discriminate. Qed.

Lemma acceptsRest_line_end :
  forall crlf post,
    acceptsRest (lineEnd crlf ++ LF :: post) = Ascii.eqb (hd NUL post) "+".
Proof. intros [] [|c post]; reflexivity. Qed.

Lemma acceptsRest_bases :
  forall bases crlf rest,
    forallb isRecoveryBase bases = true ->
    acceptsRest (bases ++ lineEnd crlf ++ LF :: "+"%char :: rest) = true.
Proof.
  induction bases as [|c bases IH]; intros crlf rest H.
  - apply acceptsRest_line_end.
  - simpl in H. apply andb_true_iff in H. destruct H as [Hc H].
    simpl app. rewrite acceptsRest_cons_base by exact Hc. apply IH. exact H.
Qed.

Lemma acceptsRest_quality :
  forall q crlf post,
    forallb isPrintable q = true -> hd NUL post <> "+"%char ->
    acceptsRest (q ++ lineEnd crlf ++ LF :: post) = false.
Proof.
  induction q as [|c q IH]; intros crlf post H Hpost.
  - simpl app. rewrite acceptsRest_line_end. apply Ascii.eqb_neq. exact Hpost.
  - simpl in H. apply andb_true_iff in H. destruct H as [Hc H].
    simpl app. destruct (isRecoveryBase c) eqn:E.
    + rewrite acceptsRest_cons_base by exact E. apply IH; assumption.
    + apply isPrintable_not_line_end in Hc. destruct Hc.
      apply acceptsRest_cons_other; assumption.
Qed.

(** *** What lies behind a record *)

Lemma render_eq :
  forall r,
    render r =
    ("@"%char :: recId r ++ lineEnd (recCRLF r)) ++ LF ::
    (recBases r ++ lineEnd (recCRLF r)) ++ LF ::
    ("+"%char :: recPlus r ++ lineEnd (recCRLF r)) ++ LF ::
    (recQuality r ++ lineEnd (recCRLF r)) ++ [LF].
Proof.
  intros r. unfold render, recLines, addLF. cbn [map concat].
  rewrite app_nil_r, <- !app_assoc. reflexivity.
Qed.

Lemma hd_renderAll :
  forall rs, hd NUL (renderAll rs) = NUL \/ hd NUL (renderAll rs) = "@"%char.
Proof.
  intros [|r rs]; [left; reflexivity|right].
  unfold renderAll. cbn [map concat]. rewrite render_eq. reflexivity.
Qed.

Lemma acceptsRest_renderAll :
  forall rs, acceptsRest (renderAll rs) = false.
Proof.
  intros [|r rs]; [reflexivity|].
  unfold renderAll. cbn [map concat]. rewrite render_eq.
  cbn [app]. apply acceptsRest_cons_other; [reflexivity | discriminate ..].
Qed.

Lemma hd_renderAll_not_plus :
  forall rs, hd NUL (renderAll rs) <> "+"%char.
Proof.
  intros rs. destruct (hd_renderAll rs) as [H|H]; rewrite H; discriminate.
Qed.

Lemma noLF_app :
  forall a b, noLF (a ++ b) = noLF a && noLF b.
Proof. intros. apply forallb_app. Qed.

Lemma noLF_lineEnd : forall crlf, noLF (lineEnd crlf) = true.
Proof. intros []; reflexivity. Qed.

Lemma forallb_impl :
  forall (f g : ascii -> bool) l,
    (forall c, f c = true -> g c = true) ->
    forallb f l = true -> forallb g l = true.
Proof.
  intros f g l Hfg H. rewrite forallb_forall in *. auto.
Qed.

Lemma wellFormed_recoverable :
  forall r,
    wellFormedRecord r = true -> recoveryBasesOnly r = true -> recoverable r.
Proof.
  intros r H Hb. unfold wellFormedRecord in H.
  repeat (apply andb_true_iff in H; destruct H as [H ?]).
  unfold recoverable. repeat split; try assumption.
  intro E. rewrite E in *. discriminate.
Qed.

Lemma recoverable_lines_noLF :
  forall r, recoverable r -> forallb noLF (recLines r) = true.
Proof.
  intros r (Hid & Hplus & _ & Hb & Hq). unfold recLines. cbn [forallb].
  assert (Hbases : noLF (recBases r) = true).
  { revert Hb. apply forallb_impl. intros c Hc.
    destruct (Ascii.eqb c LF) eqn:E; [|reflexivity].
    apply Ascii.eqb_eq in E. subst c. discriminate. }
  assert (Hqual : noLF (recQuality r) = true).
  { revert Hq. apply forallb_impl. intros c Hc.
    destruct (Ascii.eqb c LF) eqn:E; [|reflexivity].
    apply Ascii.eqb_eq in E. subst c. discriminate. }
  change (noLF ("@"%char :: recId r ++ lineEnd (recCRLF r)))
    with (noLF (recId r ++ lineEnd (recCRLF r))).
  change (noLF ("+"%char :: recPlus r ++ lineEnd (recCRLF r)))
    with (noLF (recPlus r ++ lineEnd (recCRLF r))).
  rewrite !noLF_app, Hid, Hplus, Hbases, Hqual, noLF_lineEnd. reflexivity.
Qed.

(** The lines of a record behind its first are passed over, whatever
    follows the record in the file. *)
Lemma rejecting_record_tail :
  forall r rs,
    recoverable r ->
    rejecting
      [recBases r ++ lineEnd (recCRLF r);
       "+"%char :: recPlus r ++ lineEnd (recCRLF r);
       recQuality r ++ lineEnd (recCRLF r)]
      (renderAll rs).
Proof.
  intros r rs Hr.
  pose proof (recoverable_lines_noLF r Hr) as Hn.
  unfold recLines in Hn. cbn [forallb] in Hn.
  repeat (apply andb_true_iff in Hn; destruct Hn as [? Hn]).
  destruct Hr as (_ & _ & Hne & Hb & _).
  cbn [rejecting]. repeat split; try assumption.
  - left. destruct (recBases r) as [|c t]; [contradiction|].
    simpl in Hb. apply andb_true_iff in Hb. destruct Hb as [Hc _].
    simpl. intro E. rewrite E in Hc. discriminate.
  - left. simpl. discriminate.
  - right. simpl. apply acceptsRest_renderAll.
Qed.

Lemma render_app :
  forall r rest,
    render r ++ rest =
    ("@"%char :: recId r ++ lineEnd (recCRLF r)) ++ LF ::
    (recBases r ++ lineEnd (recCRLF r) ++ LF :: "+"%char ::
     (recPlus r ++ lineEnd (recCRLF r) ++ LF ::
      (recQuality r ++ lineEnd (recCRLF r) ++ LF :: rest))).
Proof.
  intros r rest. unfold render, recLines, addLF. cbn [map concat].
  rewrite app_nil_r. repeat (rewrite <- !app_assoc; cbn [app]). reflexivity.
Qed.

(** At the first line of a record the loop settles. *)
Lemma skipLoop_record_start :
  forall fuel pre r rest buffer validBytes,
    recoverable r ->
    buffer <= List.length pre ->
    List.length pre - buffer + List.length (render r) <= validBytes ->
    skipLoop (S fuel) (pre ++ render r ++ rest) buffer validBytes
             (List.length pre) =
    Some (Advance (List.length pre - buffer)).
Proof.
  intros fuel pre r rest buffer validBytes Hr Hb Hv.
  pose proof (recoverable_lines_noLF r Hr) as Hn.
  unfold recLines in Hn. cbn [forallb] in Hn.
  apply andb_true_iff in Hn. destruct Hn as [Hn _].
  destruct Hr as (_ & _ & _ & Hbases & _).
  assert (Hlen : List.length ("@"%char :: recId r ++ lineEnd (recCRLF r))
                 < List.length (render r)).
  { rewrite <- (app_nil_r (render r)), render_app.
    rewrite length_app. cbn [List.length]. lia. }
  rewrite render_app.
  rewrite skipLoop_line; [| exact Hn | exact Hb | lia].
  rewrite acceptsRest_bases by exact Hbases. reflexivity.
Qed.

Lemma skipLoop_finish :
  forall fuel pre after buffer buf,
    buf = pre ++ renderAll after ->
    Forall recoverable after ->
    buffer <= List.length pre ->
    skipLoop (S fuel) buf buffer (List.length buf - buffer) (List.length pre) =
    Some (match after with
          | [] => NoBoundary
          | _ :: _ => Advance (List.length pre - buffer)
          end).
Proof.
  intros fuel pre after buffer buf Hbuf Hall Hb.
  destruct after as [|r rs].
  - apply skipLoop_end. rewrite Hbuf. unfold renderAll. simpl.
    rewrite app_nil_r. lia.
  - inversion Hall as [|? ? Hr _]; subst.
    unfold renderAll. cbn [map concat]. fold (renderAll rs).
    apply skipLoop_record_start; [exact Hr | exact Hb |].
    rewrite !length_app. lia.
Qed.

(** Boundary recovery from a byte that is not the first of a record: the
    rest [cur2] of the line the byte lies in, the lines [todo] of the record
    that follow, and the records [after]. *)
Lemma recover_from :
  forall pre cur2 todo after buf,
    buf = pre ++ cur2 ++ LF :: concat (map addLF todo) ++ renderAll after ->
    noLF cur2 = true ->
    rejecting todo (renderAll after) ->
    (hd NUL (addLF cur2) = "@"%char ->
     acceptsRest (concat (map addLF todo) ++ renderAll after) = false) ->
    Forall recoverable after ->
    skipPartialRecord buf (List.length pre) (List.length buf - List.length pre) =
    Some (match after with
          | [] => NoBoundary
          | _ :: _ =>
              Advance (List.length cur2 + 1
                       + List.length (concat (map addLF todo)))
          end).
Proof.
  intros pre cur2 todo after buf Hbuf Hcur Hrej Hat Hall.
  assert (Hlen : List.length buf =
                 List.length pre + List.length cur2 + 1
                 + List.length (concat (map addLF todo))
                 + List.length (renderAll after)).
  { rewrite Hbuf. rewrite !length_app. cbn [List.length].
    rewrite !length_app. lia. }
  pose proof (length_lines todo) as Htodo.
  unfold skipPartialRecord.
  assert (Hhd : byteAt buf (List.length pre) = hd NUL (addLF cur2)).
  { rewrite Hbuf, byteAt_app_0. destruct cur2; reflexivity. }
  rewrite Hhd.
  destruct (Ascii.eqb (hd NUL (addLF cur2)) "@") eqn:E.
  - apply Ascii.eqb_eq in E. specialize (Hat E).
    assert (Hbuf' : buf = pre ++ concat (map addLF (cur2 :: todo))
                              ++ renderAll after).
    { rewrite Hbuf. cbn [map concat]. unfold addLF at 2.
      rewrite <- !app_assoc. reflexivity. }
    assert (Hrej' : rejecting (cur2 :: todo) (renderAll after)).
    { cbn [rejecting]. split; [exact Hcur|]. split; [right; exact Hat | exact Hrej]. }
    replace (S (List.length buf - List.length pre))
      with (List.length (cur2 :: todo)
            + S (List.length buf - List.length pre - List.length (cur2 :: todo)))
      by (cbn [List.length]; lia).
    rewrite (skipLoop_lines (cur2 :: todo) pre (renderAll after) (List.length pre)
               _ buf Hbuf' Hrej') by lia.
    rewrite <- length_app.
    rewrite (skipLoop_finish _ (pre ++ concat (map addLF (cur2 :: todo))) after)
      ; [ | rewrite <- app_assoc; exact Hbuf' | exact Hall
          | rewrite length_app; lia ].
    destruct after; [reflexivity|].
    f_equal. f_equal. rewrite length_app. cbn [map concat].
    unfold addLF at 1. rewrite !length_app. cbn [List.length]. lia.
  - rewrite Hbuf at 1. rewrite strnchr_line by (exact Hcur || lia).
    assert (Hbuf' : buf = (pre ++ cur2 ++ [LF]) ++ concat (map addLF todo)
                              ++ renderAll after).
    { rewrite Hbuf. rewrite <- !app_assoc. reflexivity. }
    replace (S (List.length pre + List.length cur2))
      with (List.length (pre ++ cur2 ++ [LF]))
      by (rewrite !length_app; cbn [List.length]; lia).
    replace (S (List.length buf - List.length pre))
      with (List.length todo
            + S (List.length buf - List.length pre - List.length todo))
      by lia.
    rewrite (skipLoop_lines todo (pre ++ cur2 ++ [LF]) (renderAll after)
               (List.length pre) _ buf Hbuf' Hrej)
      by (rewrite length_app; lia).
    rewrite <- length_app.
    rewrite (skipLoop_finish _ ((pre ++ cur2 ++ [LF]) ++ concat (map addLF todo)) after)
      ; [ | rewrite <- app_assoc; exact Hbuf' | exact Hall
          | rewrite !length_app; lia ].
    destruct after; [reflexivity|].
    f_equal. f_equal. rewrite !length_app. cbn [List.length]. lia.
Qed.

Lemma lines_split :
  forall ls x y,
    concat (map addLF ls) = x ++ y -> y <> [] ->
    exists done cur1 cur2 todo,
      ls = done ++ (cur1 ++ cur2) :: todo /\
      x = concat (map addLF done) ++ cur1 /\
      y = cur2 ++ LF :: concat (map addLF todo).
Proof.
  induction ls as [|l ls IH]; intros x y H Hy.
  - simpl in H. symmetry in H. apply app_eq_nil in H. destruct H. contradiction.
  - cbn [map concat] in H.
    assert (Hnext : forall m, x = addLF l ++ m -> concat (map addLF ls) = m ++ y ->
              exists done cur1 cur2 todo,
                l :: ls = done ++ (cur1 ++ cur2) :: todo /\
                x = concat (map addLF done) ++ cur1 /\
                y = cur2 ++ LF :: concat (map addLF todo)).
    { intros m Hx Hm. destruct (IH m y Hm Hy) as (done & c1 & c2 & todo & E1 & E2 & E3).
      exists (l :: done), c1, c2, todo. split; [rewrite E1; reflexivity|].
      split; [|exact E3]. rewrite Hx, E2. cbn [map concat].
      rewrite app_assoc. reflexivity. }
    apply app_eq_app in H. destruct H as [m [[H1 H2]|[H1 H2]]].
    + destruct m as [|a m].
      * rewrite app_nil_r in H1. simpl in H2. subst y.
        apply (Hnext []); [rewrite app_nil_r; symmetry; exact H1 | reflexivity].
      * destruct (exists_last (l:=a :: m)) as (m' & z & Em); [discriminate|].
        rewrite Em in H1, H2. unfold addLF in H1.
        rewrite app_assoc in H1. apply app_inj_tail in H1.
        destruct H1 as [Hl Hz]. subst z.
        exists [], x, m', ls. split; [rewrite Hl; reflexivity|].
        split; [reflexivity|]. rewrite H2, <- app_assoc. reflexivity.
    + apply (Hnext m); assumption.
Qed.

Lemma recoverable_all :
  forall rs,
    forallb wellFormedRecord rs = true ->
    forallb recoveryBasesOnly rs = true ->
    Forall recoverable rs.
Proof.
  induction rs as [|r rs IH]; intros H1 H2; [constructor|].
  simpl in H1, H2. apply andb_true_iff in H1, H2.
  destruct H1 as [H1 H1']. destruct H2 as [H2 H2'].
  constructor; [apply wellFormed_recoverable; assumption | apply IH; assumption].
Qed.

Lemma renderAll_app :
  forall a b, renderAll (a ++ b) = renderAll a ++ renderAll b.
Proof. intros. unfold renderAll. rewrite map_app, concat_app. reflexivity. Qed.

Lemma hd_addLF_suffix :
  forall (P : ascii -> bool) line cur1 cur2,
    cur1 ++ cur2 = line -> forallb P line = true -> P LF = true ->
    P (hd NUL (addLF cur2)) = true.
Proof.
  intros P line cur1 cur2 E H Hlf. rewrite <- E, forallb_app in H.
  apply andb_true_iff in H. destruct H as [_ H].
  destruct cur2 as [|c t]; [exact Hlf|].
  simpl in H. apply andb_true_iff in H. destruct H as [H _]. exact H.
Qed.

Lemma suffix_of_lineEnd :
  forall crlf m cur2,
    lineEnd crlf = m ++ cur2 -> hd NUL (addLF cur2) <> "@"%char.
Proof.
  intros [] m cur2 H; destruct m as [|a m]; simpl in H.
  - subst cur2. discriminate.
  - injection H as _ H. symmetry in H. apply app_eq_nil in H.
    destruct H as [_ ->]. discriminate.
  - subst cur2. discriminate.
  - discriminate.
Qed.

(** C1, amended: in a file of well-formed records whose bases are all among
    [A C G T N a c g t], boundary recovery from a byte [j] of a record, that
    byte not an [@] inside the identifier, advances to the first byte of
    that record when [j] is its first byte and to the first byte of the
    next record otherwise; it returns false exactly when the byte is not
    the first of its record and no record follows. *)
Theorem boundary_recovery_on_records :
  forall before r after j,
    forallb wellFormedRecord (r :: after) = true ->
    forallb recoveryBasesOnly (r :: after) = true ->
    j < List.length (render r) ->
    (1 <= j <= List.length (recId r) -> nth j (render r) NUL <> "@"%char) ->
    let file := renderAll (before ++ r :: after) in
    let k := List.length (renderAll before) + j in
    skipPartialRecord file k (List.length file - k) =
    Some (nextRecordStart r after j).
Proof.
  intros before r after j Hwf Hbases Hj Hat file k.
  unfold nextRecordStart.
  pose proof (recoverable_all _ Hwf Hbases) as Hall.
  inversion Hall as [|? ? Hr Hafter]; subst.
  assert (Hfile : file = renderAll before ++ render r ++ renderAll after).
  { subst file. rewrite renderAll_app. reflexivity. }
  destruct j as [|j'].
  - (* the first byte of the record *)
    subst k. rewrite Nat.add_0_r. cbn [Nat.eqb].
    unfold skipPartialRecord.
    assert (Hhd : byteAt file (List.length (renderAll before)) = "@"%char).
    { rewrite Hfile, byteAt_app_0, render_app. reflexivity. }
    rewrite Hhd. cbn [Ascii.eqb Bool.eqb andb].
    pose proof (skipLoop_record_start
                  (List.length file - List.length (renderAll before))
                  (renderAll before) r (renderAll after)
                  (List.length (renderAll before))
                  (List.length file - List.length (renderAll before))
                  Hr (Nat.le_refl _)) as Hs.
    rewrite <- Hfile in Hs. rewrite Hs.
    + rewrite Nat.sub_diag. reflexivity.
    + rewrite Hfile, !length_app. lia.
  - (* a byte inside the record *)
    cbn [Nat.eqb].
    set (j := S j') in *.
    assert (Hxy : render r = firstn j (render r) ++ skipn j (render r))
      by (symmetry; apply firstn_skipn).
    assert (Hx : List.length (firstn j (render r)) = j)
      by (rewrite length_firstn; lia).
    assert (Hy : skipn j (render r) <> []).
    { intro E. apply (f_equal (@List.length ascii)) in E.
      rewrite length_skipn in E. cbn [List.length] in E. lia. }
    remember (firstn j (render r)) as x eqn:Ex.
    remember (skipn j (render r)) as y eqn:Ey.
    destruct (lines_split (recLines r) x y Hxy Hy)
      as (done & cur1 & cur2 & todo & E1 & E2 & E3).
    pose proof (recoverable_lines_noLF r Hr) as Hn.
    rewrite E1, forallb_app in Hn. cbn [forallb] in Hn.
    apply andb_true_iff in Hn. destruct Hn as [_ Hn].
    apply andb_true_iff in Hn. destruct Hn as [Hn _].
    rewrite noLF_app in Hn. apply andb_true_iff in Hn. destruct Hn as [_ Hcur2].
    assert (Hnth : nth j (render r) NUL = hd NUL (addLF cur2)).
    { rewrite Hxy, <- Hx, <- (Nat.add_0_r (List.length x)), app_nth2_plus, E3.
      destruct cur2; reflexivity. }
    assert (Hbuf : file = (renderAll before ++ x) ++ cur2 ++ LF ::
                          concat (map addLF todo) ++ renderAll after).
    { rewrite Hfile, Hxy, E3. rewrite <- !app_assoc. cbn [app]. reflexivity. }
    assert (Hk : k = List.length (renderAll before ++ x))
      by (subst k; rewrite length_app; lia).
    assert (Hres : List.length (render r) - j =
                   List.length cur2 + 1 + List.length (concat (map addLF todo))).
    { rewrite Hxy, length_app, Hx, E3, length_app. cbn [List.length]. lia. }
    rewrite Hk, Hres.
    assert (Hxlen : List.length (concat (map addLF done) ++ cur1) = j)
      by (rewrite <- E2; exact Hx).
    pose proof (rejecting_record_tail r after Hr) as Htail.
    destruct Hr as (Hid & Hplus & Hne & Hb & Hq).
    unfold recLines in E1.
    destruct done as [|d0 [|d1 [|d2 [|d3 more]]]]; cbn [app] in E1;
      injection E1 as E1; subst.
    + (* in the first line *)
      apply recover_from; [exact Hbuf | exact Hcur2 | exact Htail | | exact Hafter].
      intro Habs. exfalso. rewrite <- Hnth in Habs.
      cbn [map concat app] in Hxlen.
      destruct (Nat.le_gt_cases j (List.length (recId r))) as [Hle|Hgt].
      * apply Hat; [lia | exact Habs].
      * rewrite Hnth in Habs. revert Habs.
        change ("@"%char :: recId r ++ lineEnd (recCRLF r))
          with (("@"%char :: recId r) ++ lineEnd (recCRLF r)) in E1.
        symmetry in E1.
        apply app_eq_app in E1. destruct E1 as [m [[H1 H2]|[H1 H2]]].
        -- apply (suffix_of_lineEnd (recCRLF r) m). exact H2.
        -- apply (f_equal (@List.length ascii)) in H1.
           rewrite length_app in H1. cbn [List.length] in H1.
           destruct m as [|a m]; [|cbn [List.length] in H1; lia].
           simpl in H2. subst cur2.
           apply (suffix_of_lineEnd (recCRLF r) []). reflexivity.
    + (* in the line of the bases *)
      destruct Htail as (_ & _ & Htail).
      apply recover_from; [exact Hbuf | exact Hcur2 | exact Htail | | exact Hafter].
      intro Habs. exfalso.
      assert (HP : negb (Ascii.eqb (hd NUL (addLF cur2)) "@") = true).
      { apply (hd_addLF_suffix (fun c => negb (Ascii.eqb c "@"))
                 (recBases r ++ lineEnd (recCRLF r)) cur1 cur2);
          [symmetry; assumption | | reflexivity].
        rewrite forallb_app. apply andb_true_iff. split.
        - revert Hb. apply forallb_impl. intros c Hc.
          destruct (Ascii.eqb c "@") eqn:E; [|reflexivity].
          apply Ascii.eqb_eq in E. subst c. discriminate.
        - destruct (recCRLF r); reflexivity. }
      rewrite Habs in HP. discriminate.
    + (* in the line of the plus *)
      destruct Htail as (_ & _ & _ & _ & Htail).
      apply recover_from; [exact Hbuf | exact Hcur2 | exact Htail | | exact Hafter].
      intros _. cbn [map concat]. unfold addLF.
      rewrite app_nil_r, <- !app_assoc. cbn [app].
      apply acceptsRest_quality; [exact Hq | apply hd_renderAll_not_plus].
    + (* in the line of the quality *)
      apply recover_from; [exact Hbuf | exact Hcur2 | exact I | | exact Hafter].
      intros _. cbn [map concat app]. apply acceptsRest_renderAll.
    + destruct more; discriminate.
Qed.

(** ** Proofs: the sequential parser *)

Lemma lineStartOK_table :
  forall i c,
    i < 4 ->
    isValidStartingCharacterForNextLine ((i + 3) mod 4) c = lineStartOK i c.
Proof.
  intros i c H.
  destruct i as [|[|[|[|i]]]]; try reflexivity. lia.
Qed.

Lemma scanLine_good :
  forall buf buffer validBytes isEOF i scan next,
    i < 4 ->
    goodLine buf buffer validBytes i scan = Some next ->
    exists len,
      scanLine buf buffer validBytes isEOF i scan = Returns (Line scan len next).
Proof.
  intros buf buffer validBytes eof i scan next Hi H.
  unfold goodLine in H. unfold scanLine.
  destruct (strnchr buf scan LF (validBytes - (scan - buffer))) as [nl|];
    [|discriminate].
  destruct (scan <? nl) eqn:E; [|discriminate].
  apply Nat.ltb_lt in E. cbn [andb] in H.
  destruct (lineStartOK i (byteAt buf scan)) eqn:Eok; [|discriminate].
  injection H as <-.
  assert (E0 : (nl - scan =? 0) = false) by (apply Nat.eqb_neq; lia).
  rewrite E0, lineStartOK_table, Eok by exact Hi. cbn [negb].
  eexists. reflexivity.
Qed.

Lemma scanLine_Line_inv :
  forall buf buffer validBytes isEOF i scan s len next,
    i < 4 ->
    scanLine buf buffer validBytes isEOF i scan = Returns (Line s len next) ->
    goodLine buf buffer validBytes i scan = Some next /\ s = scan.
Proof.
  intros buf buffer validBytes eof i scan s len next Hi H.
  unfold scanLine in H. unfold goodLine.
  destruct (strnchr buf scan LF (validBytes - (scan - buffer))) as [nl|] eqn:Hs.
  - destruct (nl - scan =? 0) eqn:E0; [discriminate|].
    apply Nat.eqb_neq in E0.
    rewrite lineStartOK_table in H by exact Hi.
    destruct (lineStartOK i (byteAt buf scan)); [|discriminate].
    cbn [negb] in H. injection H as <- _ <-.
    assert (E : (scan <? nl) = true) by (apply Nat.ltb_lt; lia).
    rewrite E. split; reflexivity.
  - destruct ((validBytes - (scan - buffer) =? 1) && Ascii.eqb (byteAt buf scan) CtrlZ
              && eof)%bool; [discriminate|].
    destruct eof; discriminate.
Qed.

Lemma goodLine_advances :
  forall buf buffer validBytes i scan next,
    goodLine buf buffer validBytes i scan = Some next -> scan < next.
Proof.
  intros buf buffer validBytes i scan next H. unfold goodLine in H.
  destruct (strnchr buf scan LF (validBytes - (scan - buffer))) as [nl|];
    [|discriminate].
  destruct (scan <? nl) eqn:E; [|discriminate].
  apply Nat.ltb_lt in E. cbn [andb] in H.
  destruct (lineStartOK i (byteAt buf scan)); [|discriminate].
  injection H as <-. unfold nextScan.
  destruct (Ascii.eqb (byteAt buf (S nl)) CR); lia.
Qed.

Lemma goodLines_advances :
  forall buf buffer validBytes n i scan scan',
    goodLines buf buffer validBytes n i scan = Some scan' ->
    scan + n <= scan'.
Proof.
  intros buf buffer validBytes n.
  induction n as [|n IH]; intros i scan scan' H.
  - simpl in H. injection H as <-. lia.
  - cbn [goodLines] in H.
    destruct (goodLine buf buffer validBytes i scan) as [next|] eqn:E;
      [|discriminate].
    apply goodLine_advances in E. apply IH in H. lia.
Qed.

Lemma scanLines_Some_inv :
  forall buf buffer validBytes isEOF n i scan ls scan',
    i + n <= 4 ->
    scanLines buf buffer validBytes isEOF n i scan = Returns (Some (ls, scan')) ->
    goodLines buf buffer validBytes n i scan = Some scan' /\
    List.length ls = n.
Proof.
  intros buf buffer validBytes eof n.
  induction n as [|n IH]; intros i scan ls scan' Hi H.
  - simpl in H. injection H as <- <-. split; reflexivity.
  - cbn [scanLines] in H.
    destruct (scanLine buf buffer validBytes eof i scan) as [[s len next|]| |] eqn:E;
      cbn [bind] in H; try discriminate.
    destruct (scanLines buf buffer validBytes eof n (S i) next)
      as [[[ls' sc]|]| |] eqn:E'; cbn [bind] in H; try discriminate.
    injection H as <- <-.
    apply scanLine_Line_inv in E; [|lia]. destruct E as [E _].
    apply IH in E'; [|lia]. destruct E' as [E' Hl].
    cbn [goodLines]. rewrite E. split; [exact E' | simpl; lia].
Qed.

Lemma scanLines_good :
  forall buf buffer validBytes isEOF n i scan scan',
    i + n <= 4 ->
    goodLines buf buffer validBytes n i scan = Some scan' ->
    exists ls,
      scanLines buf buffer validBytes isEOF n i scan = Returns (Some (ls, scan')).
Proof.
  intros buf buffer validBytes eof n.
  induction n as [|n IH]; intros i scan scan' Hi H.
  - simpl in H. injection H as <-. eexists. reflexivity.
  - cbn [goodLines] in H.
    destruct (goodLine buf buffer validBytes i scan) as [next|] eqn:E;
      [|discriminate].
    destruct (scanLine_good buf buffer validBytes eof i scan next) as [len Hl];
      [lia | exact E |].
    destruct (IH (S i) next scan') as [ls Hls]; [lia | exact H |].
    cbn [scanLines]. rewrite Hl. cbn [bind]. rewrite Hls. cbn [bind].
    eexists. reflexivity.
Qed.

(** A line that ends the process does so for the whole record, when the
    lines before it are good. *)
Lemma scanLines_exit :
  forall buf buffer validBytes isEOF k n i scan scan' d,
    i + k < 4 -> k < n ->
    goodLines buf buffer validBytes k i scan = Some scan' ->
    scanLine buf buffer validBytes isEOF (i + k) scan' = SoftExit d ->
    scanLines buf buffer validBytes isEOF n i scan = SoftExit d.
Proof.
  intros buf buffer validBytes eof k.
  induction k as [|k IH]; intros n i scan scan' d Hi Hn Hg Hs.
  - simpl in Hg. injection Hg as <-. rewrite Nat.add_0_r in Hs.
    destruct n as [|n]; [lia|]. cbn [scanLines]. rewrite Hs. reflexivity.
  - cbn [goodLines] in Hg.
    destruct (goodLine buf buffer validBytes i scan) as [next|] eqn:E;
      [|discriminate].
    destruct (scanLine_good buf buffer validBytes eof i scan next) as [len Hl];
      [lia | exact E |].
    destruct n as [|n]; [lia|]. cbn [scanLines]. rewrite Hl. cbn [bind].
    rewrite (IH n (S i) next scan' d); [reflexivity | lia | lia | exact Hg |].
    replace (S i + k) with (i + S k) by lia. exact Hs.
Qed.

Lemma init_Some :
  forall ext r0 i_id i_idLength i_data i_quality i_dataLength
         oal omq osf ofc obc ofh obh orn ornl opn,
    (wrap32 i_dataLength <= localBufferLength)%Z ->
    exists r,
      init ext r0 i_id i_idLength i_data i_quality i_dataLength
           oal omq osf ofc obc ofh obh orn ornl opn = Some r.
Proof.
  intros ext r0 i_id i_idLength i_data i_quality i_dataLength
         oal omq osf ofc obc ofh obh orn ornl opn Hlen.
  pose proof (wrap32_range i_dataLength) as Hr.
  unfold init.
  destruct (anyLowerCaseLoop ext (localBuffer r0) (Ext i_data)
              (Z.to_nat (wrap32 i_dataLength)) 0%Z 0 =? 0)%N;
    [eexists; reflexivity|].
  destruct (upcaseLoop_Some ext i_data (Z.to_nat (wrap32 i_dataLength)) 0%Z
              (localBuffer r0)) as [lb Hlb];
    [lia | rewrite Z2Nat.id; lia |].
  rewrite Hlb. eexists; reflexivity.
Qed.

Lemma scanLine_length :
  forall buf buffer validBytes isEOF i scan s len next,
    scanLine buf buffer validBytes isEOF i scan = Returns (Line s len next) ->
    len <= validBytes.
Proof.
  intros buf buffer validBytes eof i scan s len next H. unfold scanLine in H.
  destruct (strnchr buf scan LF (validBytes - (scan - buffer))) as [nl|] eqn:Hs.
  - apply strnchr_Some in Hs. destruct Hs as (Hr & _).
    destruct (nl - scan =? 0); [discriminate|].
    destruct (negb _); [discriminate|].
    injection H as _ <- _.
    destruct (Ascii.eqb (byteAt buf (scan + (nl - scan) - 1)) CR); lia.
  - destruct ((validBytes - (scan - buffer) =? 1) && Ascii.eqb (byteAt buf scan) CtrlZ
              && eof)%bool; [discriminate|].
    destruct eof; discriminate.
Qed.

Lemma scanLines_lengths :
  forall buf buffer validBytes isEOF n i scan ls scan',
    scanLines buf buffer validBytes isEOF n i scan = Returns (Some (ls, scan')) ->
    Forall (fun l => snd l <= validBytes) ls.
Proof.
  intros buf buffer validBytes eof n.
  induction n as [|n IH]; intros i scan ls scan' H.
  - simpl in H. injection H as <- _. constructor.
  - cbn [scanLines] in H.
    destruct (scanLine buf buffer validBytes eof i scan) as [[s len next|]| |] eqn:E;
      cbn [bind] in H; try discriminate.
    destruct (scanLines buf buffer validBytes eof n (S i) next)
      as [[[ls' sc]|]| |] eqn:E'; cbn [bind] in H; try discriminate.
    injection H as <- _.
    constructor; [simpl; eapply scanLine_length; exact E | eapply IH; exact E'].
Qed.

Lemma scanLines_None_inv :
  forall buf buffer validBytes isEOF n i scan,
    scanLines buf buffer validBytes isEOF n i scan = Returns None ->
    isEOF = true.
Proof.
  intros buf buffer validBytes eof n.
  induction n as [|n IH]; intros i scan H; [discriminate|].
  cbn [scanLines] in H.
  destruct (scanLine buf buffer validBytes eof i scan) as [[s len next|]| |] eqn:E;
    cbn [bind] in H; try discriminate.
  - destruct (scanLines buf buffer validBytes eof n (S i) next)
      as [[[ls' sc]|]| |] eqn:E'; cbn [bind] in H; try discriminate.
    eapply IH. exact E'.
  - unfold scanLine in E.
    destruct (strnchr buf scan LF (validBytes - (scan - buffer))) as [nl|].
    + destruct (nl - scan =? 0); [discriminate|].
      destruct (negb _); discriminate.
    + destruct eof; [reflexivity|].
      rewrite andb_false_r in E. discriminate.
Qed.

Lemma scanLines_not_Undefined :
  forall buf buffer validBytes isEOF n i scan,
    scanLines buf buffer validBytes isEOF n i scan <> Undefined.
Proof.
  intros buf buffer validBytes eof n.
  induction n as [|n IH]; intros i scan H; [discriminate|].
  cbn [scanLines] in H.
  destruct (scanLine buf buffer validBytes eof i scan) as [[s len next|]| |] eqn:E;
    cbn [bind] in H; try discriminate.
  - destruct (scanLines buf buffer validBytes eof n (S i) next)
      as [[[ls' sc]|]| |] eqn:E'; cbn [bind] in H; try discriminate.
    eapply IH. exact E'.
  - unfold scanLine in E.
    destruct (strnchr buf scan LF (validBytes - (scan - buffer))) as [nl|].
    + destruct (nl - scan =? 0); [discriminate|].
      destruct (negb _); discriminate.
    + destruct ((validBytes - (scan - buffer) =? 1)
                && Ascii.eqb (byteAt buf scan) CtrlZ && eof)%bool; [discriminate|].
      destruct eof; discriminate.
Qed.

(** [getReadFromBuffer] by the outcome of the scan of the four lines. *)
Lemma getReadFromBuffer_good :
  forall buf buffer validBytes readToUpdate isEOF clipping scan,
    goodLines buf buffer validBytes 4 0 buffer = Some scan ->
    (exists r,
       getReadFromBuffer buf buffer validBytes readToUpdate isEOF clipping =
       Returns (scan - buffer, r)) \/
    (getReadFromBuffer buf buffer validBytes readToUpdate isEOF clipping = Undefined /\
     (localBufferLength < Z.of_nat validBytes)%Z).
Proof.
  intros buf buffer validBytes read eof clipping scan H.
  destruct (scanLines_good buf buffer validBytes eof 4 0 buffer scan) as [ls Hls];
    [lia | exact H |].
  pose proof (scanLines_lengths _ _ _ _ _ _ _ _ _ Hls) as Hlen.
  unfold getReadFromBuffer, nLinesPerFastqQuery. rewrite Hls. cbn [bind].
  destruct (Z_le_gt_dec (Z.of_nat validBytes) localBufferLength) as [Hle|Hgt].
  - left.
    assert (Hl1 : snd (nth 1 ls (0, 0)) <= validBytes).
    { destruct ls as [|a [|b ls]]; simpl; try lia.
      inversion Hlen as [|? ? _ Hlen']. inversion Hlen' as [|? ? Hb _].
      exact Hb. }
    set (len := Z.of_nat (snd (nth 1 ls (0, 0)))).
    assert (Hw : (wrap32 len <= localBufferLength)%Z).
    { assert (Hc : (localBufferLength < 2 ^ 32)%Z) by reflexivity.
      rewrite wrap32_small; subst len; lia. }
    match goal with
    | |- context [init ?e ?r ?a ?b ?c ?d ?l ?o1 ?o2 ?o3 ?o4 ?o5 ?o6 ?o7 ?o8 ?o9 ?o10] =>
        destruct (init_Some e r a b c d l o1 o2 o3 o4 o5 o6 o7 o8 o9 o10 Hw)
          as [r' Hr']; rewrite Hr'
    end.
    cbn [liftRead bind]. eexists. reflexivity.
  - match goal with
    | |- context [init ?e ?r ?a ?b ?c ?d ?l ?o1 ?o2 ?o3 ?o4 ?o5 ?o6 ?o7 ?o8 ?o9 ?o10] =>
        destruct (init e r a b c d l o1 o2 o3 o4 o5 o6 o7 o8 o9 o10) as [r'|]
    end.
    + left. cbn [liftRead bind]. eexists. reflexivity.
    + right. cbn [liftRead bind]. split; [reflexivity | lia].
Qed.

Lemma getReadFromBuffer_exit :
  forall buf buffer validBytes readToUpdate isEOF clipping i scan d,
    i < 4 ->
    goodLines buf buffer validBytes i 0 buffer = Some scan ->
    scanLine buf buffer validBytes isEOF i scan = SoftExit d ->
    getReadFromBuffer buf buffer validBytes readToUpdate isEOF clipping = SoftExit d.
Proof.
  intros buf buffer validBytes read eof clipping i scan d Hi Hg Hs.
  unfold getReadFromBuffer, nLinesPerFastqQuery.
  rewrite (scanLines_exit buf buffer validBytes eof i 4 0 buffer scan d);
    [reflexivity | lia | lia | exact Hg | exact Hs].
Qed.

(** C2, amended: of each of the four lines of a record the sequential
    parser checks that it ends in a newline among the valid bytes, that it
    is not empty and how it starts: line 1 with [@], line 2 with a supported
    base symbol, line 3 with [+], line 4 with a printable character.  It
    takes the record when the four lines pass (short of a store outside the
    local buffer of the [Read], which only a buffer longer than it allows);
    the first line that fails ends the process; and it returns false
    only at the end of the input. *)
Theorem sequential_parser_checks_line_starts :
  forall buf buffer validBytes readToUpdate isEOF clipping,
    let result :=
      getReadFromBuffer buf buffer validBytes readToUpdate isEOF clipping in
    (forall n r,
       result = Returns (n, r) ->
       (n = 0 /\ isEOF = true /\ r = readToUpdate) \/
       (0 < n /\
        goodLines buf buffer validBytes 4 0 buffer = Some (buffer + n))) /\
    (forall scan,
       goodLines buf buffer validBytes 4 0 buffer = Some scan ->
       (exists r, result = Returns (scan - buffer, r)) \/
       (result = Undefined /\ (localBufferLength < Z.of_nat validBytes)%Z)) /\
    (forall i scan,
       i < 4 ->
       goodLines buf buffer validBytes i 0 buffer = Some scan ->
       let newLine := strnchr buf scan LF (validBytes - (scan - buffer)) in
       (newLine = None -> isEOF = false ->
        result = SoftExit RecordLargerThanBuffer) /\
       (newLine = None -> isEOF = true ->
        (validBytes - (scan - buffer) =? 1) && Ascii.eqb (byteAt buf scan) CtrlZ
          = false ->
        result = SoftExit NoNewlineAtEnd) /\
       (newLine = Some scan -> result = SoftExit BlankLine) /\
       (forall nl,
          newLine = Some nl -> nl <> scan ->
          lineStartOK i (byteAt buf scan) = false ->
          result = SoftExit InvalidStartingCharacter)).
Proof.
  intros buf buffer validBytes read eof clipping result.
  split; [|split].
  - intros n r H. subst result. unfold getReadFromBuffer, nLinesPerFastqQuery in H.
    destruct (scanLines buf buffer validBytes eof 4 0 buffer)
      as [[[ls scan]|]| |] eqn:E; cbn [bind] in H; try discriminate.
    + right.
      match type of H with
      | context [init ?e ?r ?a ?b ?c ?d ?l ?o1 ?o2 ?o3 ?o4 ?o5 ?o6 ?o7 ?o8 ?o9 ?o10] =>
          destruct (init e r a b c d l o1 o2 o3 o4 o5 o6 o7 o8 o9 o10) as [r'|]
      end; cbn [liftRead bind] in H; [|discriminate].
      injection H as <- _.
      apply scanLines_Some_inv in E; [|lia]. destruct E as [E _].
      pose proof (goodLines_advances _ _ _ _ _ _ _ E) as Ha.
      split; [lia|]. rewrite E. f_equal. lia.
    + left. injection H as <- <-.
      apply scanLines_None_inv in E. auto.
  - intros scan H. subst result. apply getReadFromBuffer_good. exact H.
  - intros i scan Hi Hg newLine. subst result newLine.
    repeat split.
    + intros Hs Heof. apply (getReadFromBuffer_exit _ _ _ _ _ _ i scan); try assumption.
      unfold scanLine. rewrite Hs, Heof, andb_false_r. reflexivity.
    + intros Hs Heof Hz. apply (getReadFromBuffer_exit _ _ _ _ _ _ i scan); try assumption.
      unfold scanLine. rewrite Hs, Hz, Heof. reflexivity.
    + intros Hs. apply (getReadFromBuffer_exit _ _ _ _ _ _ i scan); try assumption.
      unfold scanLine. rewrite Hs, Nat.sub_diag. reflexivity.
    + intros nl Hs Hne Hbad.
      apply (getReadFromBuffer_exit _ _ _ _ _ _ i scan); try assumption.
      unfold scanLine. rewrite Hs.
      pose proof (strnchr_Some _ _ _ _ _ Hs) as (Hr & _).
      assert (E0 : (nl - scan =? 0) = false) by (apply Nat.eqb_neq; lia).
      rewrite E0, lineStartOK_table, Hbad by exact Hi. reflexivity.
Qed.

(** ** Proofs: the paired readers *)

Lemma getNextRead_false_iff :
  forall clipping d readToUpdate,
    (exists r d', getNextRead clipping d readToUpdate = Returns (false, r, d')) <->
    getData d = None /\ getData (nextBatch d) = None.
Proof.
  intros clipping d read. unfold getNextRead. split.
  - intros (r & d' & H).
    destruct (getData d) as [[[buf buffer] valid]|].
    + destruct (getReadFromBuffer buf buffer valid read (isEOF d) clipping)
        as [[n r']| |]; cbn [bind] in H; discriminate.
    + destruct (getData (nextBatch d)) as [[[buf buffer] valid]|];
        [|split; reflexivity].
      destruct (getReadFromBuffer buf buffer valid read (isEOF (nextBatch d)) clipping)
        as [[n r']| |]; cbn [bind] in H; discriminate.
  - intros [H1 H2]. rewrite H1, H2. eexists. eexists. reflexivity.
Qed.

(** C9, amended: when the record a call of the interleaved reader reads
    first takes up all the valid bytes, as the last one of an odd number of
    records does, the call returns false, the cursor where it was: the
    record is ignored, and the process does not end.  So it is whenever the
    valid bytes are four good lines and no more, and fit the local buffer
    of a [Read]. *)
Theorem odd_record_is_ignored :
  forall clipping d read0 read1 buf buffer validBytes,
    getData (batchInUse d) = Some (buf, buffer, validBytes) ->
    (forall r0,
       getReadFromBuffer buf buffer validBytes read0 (isEOF (batchInUse d)) clipping
         = Returns (validBytes, r0) ->
       PairedInterleaved_getNextReadPair clipping d read0 read1 =
       Returns (false, r0, read1, batchInUse d)) /\
    (goodLines buf buffer validBytes 4 0 buffer = Some (buffer + validBytes) ->
     (Z.of_nat validBytes <= localBufferLength)%Z ->
     exists r0,
       PairedInterleaved_getNextReadPair clipping d read0 read1 =
       Returns (false, r0, read1, batchInUse d)).
Proof.
  intros clipping d read0 read1 buf buffer validBytes Hd.
  assert (Hfirst : forall r0,
    getReadFromBuffer buf buffer validBytes read0 (isEOF (batchInUse d)) clipping
      = Returns (validBytes, r0) ->
    PairedInterleaved_getNextReadPair clipping d read0 read1 =
    Returns (false, r0, read1, batchInUse d)).
  { intros r0 Hp.
    unfold PairedInterleaved_getNextReadPair. unfold batchInUse in *.
    destruct (getData d) as [[[b o] v]|] eqn:E; cbv iota in Hd, Hp |- *.
    - rewrite E in Hd. injection Hd as -> -> ->. rewrite Hp. cbn [bind].
      rewrite Nat.eqb_refl. reflexivity.
    - rewrite Hd, Hp. cbn [bind]. rewrite Nat.eqb_refl. reflexivity. }
  split; [exact Hfirst|].
  intros Hgood Hfit.
  destruct (getReadFromBuffer_good buf buffer validBytes read0
              (isEOF (batchInUse d)) clipping (buffer + validBytes) Hgood)
    as [[r0 Hr0]|[_ Hbig]]; [|lia].
  exists r0. apply Hfirst. rewrite Hr0. f_equal. f_equal. lia.
Qed.

Lemma reinit_first_check :
  forall ext read,
    ((idLength read <? 2)%Z
     || negb (Ascii.eqb (idByte ext read (idLength read - 2)) "/")
     || (negb (Ascii.eqb (idByte ext read (idLength read - 1)) "1")
         && negb (Ascii.eqb (idByte ext read (idLength read - 1)) "2")))%bool =
    (negb (idEndsWith ext read "/" "1") && negb (idEndsWith ext read "/" "2"))%bool.
Proof.
  intros ext read. unfold idEndsWith.
  destruct (idLength read <? 2)%Z;
    destruct (Ascii.eqb (idByte ext read (idLength read - 2)) "/");
    destruct (Ascii.eqb (idByte ext read (idLength read - 1)) "1");
    destruct (Ascii.eqb (idByte ext read (idLength read - 1)) "2");
    reflexivity.
Qed.

Lemma reinit_second_check :
  forall ext read,
    (negb (idEndsWith ext read "/" "1") && negb (idEndsWith ext read "/" "2"))%bool
      = false ->
    Ascii.eqb (idByte ext read (idLength read - 1)) "2" =
    idEndsWith ext read "/" "2".
Proof.
  intros ext read. unfold idEndsWith.
  destruct (idLength read <? 2)%Z;
    destruct (Ascii.eqb (idByte ext read (idLength read - 2)) "/");
    destruct (Ascii.eqb (idByte ext read (idLength read - 1)) "1") eqn:E1;
    destruct (Ascii.eqb (idByte ext read (idLength read - 1)) "2") eqn:E2;
    cbn; intro H; try reflexivity; try discriminate.
Qed.


(** [reinit] once boundary recovery has found a record and the record at
    the cursor has been read. *)
Lemma PairedInterleaved_reinit_peek :
  forall clipping startingOffset d x d1 buf buffer bytes n read,
    getData d = Some x ->
    (if negb (startingOffset =? 0)%Z then skipPartialRecordIn d
     else Returns (true, d)) = Returns (true, d1) ->
    getData d1 = Some (buf, buffer, bytes) ->
    getReadFromBuffer buf buffer bytes Read_new (isEOF d1) clipping
      = Returns (n, read) ->
    PairedInterleaved_reinit clipping startingOffset d =
    if (negb (idEndsWith (bufferMemory buf) read "/" "1")
        && negb (idEndsWith (bufferMemory buf) read "/" "2"))%bool
    then SoftExit NotSlash1OrSlash2
    else if idEndsWith (bufferMemory buf) read "/" "2" then
      match getData (advance n d1) with
      | None => SoftExit EndsWithFirstHalf
      | Some (buf2, buffer2, bytes2) =>
          '(_, read') <-
             getReadFromBuffer buf2 buffer2 bytes2 read
                               (isEOF (advance n d1)) clipping ;;
          if idEndsWith (bufferMemory buf2) read' "/" "1"
          then Returns (advance n d1)
          else SoftExit FirstOfPairNotSlash1
      end
    else Returns d1.
Proof.
  intros clipping startingOffset d x d1 buf buffer bytes n read Hd Hrec Hd1 Hp.
  unfold PairedInterleaved_reinit. rewrite Hd, Hrec. cbn [bind negb].
  rewrite Hd1, Hp. cbn [bind].
  rewrite reinit_first_check.
  destruct (negb (idEndsWith (bufferMemory buf) read "/" "1")
            && negb (idEndsWith (bufferMemory buf) read "/" "2"))%bool eqn:E;
    [reflexivity|].
  rewrite (reinit_second_check _ _ E).
  destruct (idEndsWith (bufferMemory buf) read "/" "2"); [|reflexivity].
  destruct (getData (advance n d1)) as [[[buf2 buffer2] bytes2]|]; [|reflexivity].
  destruct (getReadFromBuffer buf2 buffer2 bytes2 read (isEOF (advance n d1)) clipping)
    as [[m read']| |]; cbn [bind]; try reflexivity.
  destruct (idEndsWith (bufferMemory buf2) read' "/" "1"); reflexivity.
Qed.

(** A call of [getNextReadPair] once both records have been read. *)
Lemma PairedInterleaved_pair :
  forall clipping d read0 read1 buf buffer validBytes n0 r0 n1 r1,
    getData (batchInUse d) = Some (buf, buffer, validBytes) ->
    getReadFromBuffer buf buffer validBytes read0 (isEOF (batchInUse d)) clipping
      = Returns (n0, r0) ->
    n0 <> validBytes ->
    getReadFromBuffer buf (buffer + n0) (validBytes - n0) read1
                      (isEOF (batchInUse d)) clipping
      = Returns (n1, r1) ->
    PairedInterleaved_getNextReadPair clipping d read0 read1 =
    if idEndsWith (bufferMemory buf) r0 "/" "1" then
      if idEndsWith (bufferMemory buf) r1 "/" "2"
      then Returns (true, r0, r1, advance (n0 + n1) (batchInUse d))
      else SoftExit SecondNotSlash2
    else SoftExit FirstNotSlash1.
Proof.
  intros clipping d read0 read1 buf buffer validBytes n0 r0 n1 r1 Hd H0 Hne H1.
  apply Nat.eqb_neq in Hne.
  unfold PairedInterleaved_getNextReadPair. unfold batchInUse in *.
  destruct (getData d) as [[[b o] v]|] eqn:E; cbv iota in Hd, H0, H1 |- *.
  - rewrite E in Hd. injection Hd as -> -> ->.
    rewrite H0. cbn [bind]. rewrite Hne, H1. cbn [bind].
    destruct (idEndsWith (bufferMemory buf) r0 "/" "1"); [|reflexivity].
    destruct (idEndsWith (bufferMemory buf) r1 "/" "2"); reflexivity.
  - rewrite Hd, H0. cbn [bind]. rewrite Hne, H1. cbn [bind].
    destruct (idEndsWith (bufferMemory buf) r0 "/" "1"); [|reflexivity].
    destruct (idEndsWith (bufferMemory buf) r1 "/" "2"); reflexivity.
Qed.


Lemma init_id :
  forall ext r0 i_id i_idLength i_data i_quality i_dataLength
         oal omq osf ofc obc ofh obh orn ornl opn r,
    init ext r0 i_id i_idLength i_data i_quality i_dataLength
         oal omq osf ofc obc ofh obh orn ornl opn = Some r ->
    id r = i_id /\ idLength r = wrap32 i_idLength.
Proof.
  intros ext r0 i_id i_idLength i_data i_quality i_dataLength
         oal omq osf ofc obc ofh obh orn ornl opn r H.
  unfold init in H.
  destruct (anyLowerCaseLoop ext (localBuffer r0) (Ext i_data)
              (Z.to_nat (wrap32 i_dataLength)) 0%Z 0 =? 0)%N.
  - injection H as <-. split; reflexivity.
  - destruct (upcaseLoop ext (Ext i_data) (Z.to_nat (wrap32 i_dataLength)) 0%Z
                (localBuffer r0)) as [lb|]; [|discriminate].
    injection H as <-. split; reflexivity.
Qed.

Lemma clip_id :
  forall ext r c m,
    id (clip ext r c m) = id r /\ idLength (clip ext r c m) = idLength r.
Proof.
  intros ext r c m. unfold clip.
  destruct (ReadClippingType_eqb c (clippingState r)); split; reflexivity.
Qed.







(** ** Proofs: further operations of [Read] *)

Local Close Scope nat_scope.

Lemma load_padd :
  forall ext lb p f i, load ext lb (padd p f) i = load ext lb p (f + i).
Proof.
  intros ext lb [|a|o] f i; simpl; [reflexivity | f_equal; lia | f_equal; lia].
Qed.

Lemma skipn_map_seq :
  forall (A : Type) (g : nat -> A) k s n,
    skipn k (map g (seq s n)) = map g (seq (s + k) (n - k)).
Proof.
  intros A g k. induction k as [|k IH]; intros s n.
  - rewrite Nat.add_0_r, Nat.sub_0_r. reflexivity.
  - destruct n as [|n]; [reflexivity|].
    cbn [seq map skipn]. rewrite IH. f_equal. f_equal; lia.
Qed.

(** The bytes of a clipped view, cut out of those of the unclipped span. *)
Lemma span_sub :
  forall ext lb p f n u,
    0 <= f -> 0 <= n -> f + n <= u ->
    span ext lb (padd p f) n =
    firstn (Z.to_nat n) (skipn (Z.to_nat f) (span ext lb p u)).
Proof.
  intros ext lb p f n u Hf Hn Hu. unfold span.
  rewrite skipn_map_seq, firstn_map, firstn_seq_le by lia.
  cbn [Nat.add].
  apply nth_ext with (d := NUL) (d' := NUL).
  - rewrite !length_map, !length_seq. reflexivity.
  - intros i Hi. rewrite length_map, length_seq in Hi.
    rewrite (nth_indep _ NUL (load ext lb (padd p f) (Z.of_nat 0))) by
      (rewrite length_map, length_seq; exact Hi).
    rewrite (map_nth (fun i => load ext lb (padd p f) (Z.of_nat i))).
    rewrite (nth_indep _ NUL (load ext lb p (Z.of_nat 0))) by
      (rewrite length_map, length_seq; exact Hi).
    rewrite (map_nth (fun i => load ext lb p (Z.of_nat i))).
    rewrite !seq_nth by exact Hi.
    rewrite load_padd. f_equal. lia.
Qed.

Lemma rev_map_seq :
  forall (A : Type) (g : nat -> A) n,
    rev (map g (seq 0 n)) = map (fun i => g (n - 1 - i)%nat) (seq 0 n).
Proof.
  intros A g n. induction n as [|n IH]; [reflexivity|].
  rewrite seq_S at 1. rewrite map_app, rev_app_distr. cbn [map rev app Nat.add].
  rewrite IH. cbn [seq map]. f_equal; [f_equal; lia|].
  rewrite <- seq_shift, map_map.
  apply map_ext_in. intros i Hi. apply in_seq in Hi. f_equal. lia.
Qed.

(** Cutting a view out of a list and turning it round is cutting it out
    of the list turned round, from the other end. *)
Lemma rev_view :
  forall (A : Type) (l : list A) f d,
    (f + d <= List.length l)%nat ->
    rev (firstn d (skipn f l)) =
    firstn d (skipn (List.length l - d - f) (rev l)).
Proof.
  intros A l f d H.
  rewrite <- (firstn_skipn f l) at 3.
  rewrite <- (firstn_skipn d (skipn f l)) at 2.
  rewrite !rev_app_distr, <- app_assoc.
  assert (H1 : List.length (rev (skipn d (skipn f l))) = (List.length l - d - f)%nat).
  { rewrite length_rev, !length_skipn. lia. }
  rewrite <- H1, skipn_app, skipn_all, Nat.sub_diag. cbn [skipn app].
  assert (H2 : List.length (rev (firstn d (skipn f l))) = d).
  { rewrite length_rev, length_firstn, length_skipn. lia. }
  rewrite <- H2 at 2. rewrite firstn_app, firstn_all, Nat.sub_diag.
  cbn [firstn]. rewrite app_nil_r. reflexivity.
Qed.

Lemma trailing2sLoop_spec :
  forall q dl n c,
    trailing2sLoop q dl n c =
    c + Z.of_nat (leadingSentinels
                    (map (fun i => q (dl - 1 - c - Z.of_nat i)) (seq 0 n))).
Proof.
  intros q dl n. induction n as [|n IH]; intros c.
  - simpl. lia.
  - cbn [trailing2sLoop seq map leadingSentinels].
    replace (dl - 1 - c - Z.of_nat 0) with (dl - 1 - c) by lia.
    destruct (Ascii.eqb (q (dl - 1 - c)) "#"); [|lia].
    rewrite IH, <- seq_shift, map_map.
    rewrite Nat2Z.inj_succ.
    replace (map (fun i => q (dl - 1 - (c + 1) - Z.of_nat i)) (seq 0 n))
      with (map (fun x => q (dl - 1 - c - Z.of_nat (S x))) (seq 0 n)); [lia|].
    apply map_ext. intros i. f_equal. lia.
Qed.

Lemma countOfTrailing2s_trailingSentinels :
  forall ext r,
    countOfTrailing2sInQuality ext r =
    Z.of_nat (trailingSentinels (getQualityBytes ext r)).
Proof.
  intros ext r. unfold countOfTrailing2sInQuality, getQualityBytes, span.
  rewrite trailing2sLoop_spec. cbn [Z.add]. f_equal.
  unfold trailingSentinels. rewrite rev_map_seq. f_equal.
  apply map_ext_in. intros i Hi. apply in_seq in Hi. f_equal.
  destruct (Z_le_gt_dec 0 (dataLength r)) as [H|H].
  - rewrite !Nat2Z.inj_sub by lia. rewrite Z2Nat.id by lia. simpl. lia.
  - replace (Z.to_nat (dataLength r)) with O in Hi by lia. lia.
Qed.

(** The count of trailing sentinels the accessor reports is the number of
    [#] at the end of the quality of the clipped view, and never more than
    the length of that view. *)
Theorem countOfTrailing2sInQuality_counts :
  forall ext r,
    countOfTrailing2sInQuality ext r =
      Z.of_nat (trailingSentinels (getQualityBytes ext r)) /\
    0 <= countOfTrailing2sInQuality ext r <= Z.max 0 (dataLength r).
Proof.
  intros ext r. rewrite countOfTrailing2s_trailingSentinels.
  split; [reflexivity|].
  pose proof (leadingSentinels_le (rev (getQualityBytes ext r))) as H.
  rewrite length_rev in H. unfold getQualityBytes in H at 2.
  rewrite span_length in H. fold (trailingSentinels (getQualityBytes ext r)) in H.
  lia.
Qed.

Lemma leadingSentinels_skipn :
  forall l, leadingSentinels (skipn (leadingSentinels l) l) = O.
Proof.
  induction l as [|c t IH]; [reflexivity|].
  cbn [leadingSentinels]. destruct (Ascii.eqb c "#") eqn:E.
  - exact IH.
  - cbn [skipn leadingSentinels]. rewrite E. reflexivity.
Qed.

Lemma leadingSentinels_firstn :
  forall l m, leadingSentinels l = O -> leadingSentinels (firstn m l) = O.
Proof.
  intros [|c t] [|m] H; try reflexivity.
  cbn [firstn leadingSentinels] in *.
  destruct (Ascii.eqb c "#"); [discriminate | reflexivity].
Qed.

Lemma trailingSentinels_trimmed :
  forall q,
    trailingSentinels (firstn (List.length q - trailingSentinels q) q) = O.
Proof.
  intros q. unfold trailingSentinels.
  pose proof (leadingSentinels_le (rev q)) as Hle. rewrite length_rev in Hle.
  replace (rev (firstn (List.length q - leadingSentinels (rev q)) q))
    with (skipn (leadingSentinels (rev q)) (rev q)).
  - apply leadingSentinels_skipn.
  - rewrite skipn_rev. reflexivity.
Qed.

Lemma trailingSentinels_skipn :
  forall l k, trailingSentinels l = O -> trailingSentinels (skipn k l) = O.
Proof.
  intros l k H. unfold trailingSentinels in *.
  destruct (Nat.le_gt_cases k (List.length l)) as [Hk|Hk].
  - replace (rev (skipn k l))
      with (firstn (List.length l - k) (rev l)).
    + apply leadingSentinels_firstn. exact H.
    + rewrite firstn_rev. do 2 f_equal. lia.
  - rewrite skipn_all2 by lia. reflexivity.
Qed.

Lemma clip_localBuffer :
  forall ext r c m, localBuffer (clip ext r c m) = localBuffer r.
Proof.
  intros ext r c m. unfold clip.
  destruct (ReadClippingType_eqb c (clippingState r)); reflexivity.
Qed.

Lemma firstn_skipn_swap :
  forall (A : Type) (l : list A) f m,
    firstn m (skipn f l) = skipn f (firstn (f + m) l).
Proof.
  intros A l f. revert l. induction f as [|f IH]; intros l m; [reflexivity|].
  destruct l as [|x l]; [rewrite firstn_nil; reflexivity|].
  cbn [skipn Nat.add firstn]. apply IH.
Qed.

(** After [init], clipping in a mode that clips the back leaves a view
    whose quality does not end in the sentinel, whatever the mode does at
    the front; and [ClipBack] shortens the view by exactly the count of
    trailing sentinels the accessor reports before. *)
Theorem clip_back_leaves_no_trailing_sentinel :
  forall ext r0 i_id i_idLength i_data i_quality i_dataLength
         oal omq osf ofc obc ofh obh orn ornl opn r c,
    init ext r0 i_id i_idLength i_data i_quality i_dataLength
         oal omq osf ofc obc ofh obh orn ornl opn = Some r ->
    clipsBack c = true ->
    countOfTrailing2sInQuality ext (clip ext r c false) = 0 /\
    dataLength (clip ext r ClipBack false) + countOfTrailing2sInQuality ext r =
      dataLength r.
Proof.
  intros ext r0 i_id i_idLength i_data i_quality i_dataLength
         oal omq osf ofc obc ofh obh orn ornl opn r c Hinit Hc.
  apply init_freshRead in Hinit.
  pose proof Hinit as ([Hu0 Hu1] & Hd & Hfc & Hdata & Hq & _).
  set (q := getUnclippedQualityBytes ext r).
  assert (Hlen : List.length q = Z.to_nat (unclippedLength r)) by apply span_length.
  pose proof (leadingSentinels_le (rev q)) as Ht. rewrite length_rev in Ht.
  fold (trailingSentinels q) in Ht.
  assert (Hview : getQualityBytes ext r = q).
  { unfold getQualityBytes, q, getUnclippedQualityBytes. rewrite Hq, Hd. reflexivity. }
  split.
  - destruct (clip_fresh_spec ext r c Hinit) as (_ & Hf' & Hd' & _ & Hq' & _).
    fold q in Hf', Hd'.
    rewrite countOfTrailing2s_trailingSentinels.
    unfold getQualityBytes. rewrite clip_localBuffer, Hq', Hf', Hd'.
    assert (Hfront : (frontTrim c q <= List.length q - backTrim c q)%nat).
    { unfold frontTrim. destruct (clipsFront c); [|lia].
      pose proof (leadingSentinels_le (firstn (List.length q - backTrim c q) q)) as H.
      rewrite length_firstn in H. lia. }
    assert (Hback : backTrim c q = trailingSentinels q)
      by (unfold backTrim; rewrite Hc; reflexivity).
    rewrite (span_sub ext (localBuffer r) (unclippedQuality r) _ _ (unclippedLength r))
      by lia.
    fold (getUnclippedQualityBytes ext r). fold q.
    rewrite !Nat2Z.id, firstn_skipn_swap.
    replace (frontTrim c q + (List.length q - backTrim c q - frontTrim c q))%nat
      with (List.length q - trailingSentinels q)%nat by lia.
    rewrite trailingSentinels_skipn; [reflexivity|].
    apply trailingSentinels_trimmed.
  - destruct (clip_fresh_spec ext r ClipBack Hinit) as (_ & _ & Hd' & _).
    fold q in Hd'. rewrite Hd', countOfTrailing2s_trailingSentinels, Hview.
    unfold frontTrim, backTrim. cbn [clipsFront clipsBack]. lia.
Qed.

(** *** What [becomeRC] stores *)

Lemma load_below :
  forall ext lb lb' p len rd k,
    belowStores p len rd -> 0 <= k < len ->
    (forall j, j < rd -> lb' j = lb j) ->
    load ext lb' p k = load ext lb p k.
Proof.
  intros ext lb lb' [|a|o] len rd k Hp Hk H; simpl in *; try reflexivity.
  apply H. lia.
Qed.

Lemma rcLoop_spec :
  forall ext ud uq len rd rq n i lb lb',
    rcLoop ext ud uq len rd rq n i lb = Some lb' ->
    0 <= i -> i + Z.of_nat n <= len -> rd + len <= rq ->
    belowStores ud len rd -> belowStores uq len rd ->
    (forall j, i <= j < i + Z.of_nat n ->
       lb' (rd + j) = COMPLEMENT (load ext lb ud (len - j - 1))) /\
    (forall j, i <= j < i + Z.of_nat n ->
       lb' (rq + (len - j - 1)) = load ext lb uq j) /\
    (forall a,
       ~ (rd + i <= a < rd + i + Z.of_nat n) ->
       ~ (rq + (len - i - Z.of_nat n) <= a < rq + (len - i)) ->
       lb' a = lb a).
Proof.
  intros ext ud uq len rd rq n.
  induction n as [|n IH]; intros i lb lb' H Hi Hn Hrq Hud Huq.
  - simpl in H. injection H as <-.
    split; [|split]; intros; try lia; reflexivity.
  - cbn [rcLoop] in H.
    destruct (store lb (rd + i) _) as [lb1|] eqn:S1; [|discriminate].
    destruct (store lb1 (rq + (len - i - 1)) _) as [lb2|] eqn:S2; [|discriminate].
    apply store_inv in S1. destruct S1 as [_ E1].
    apply store_inv in S2. destruct S2 as [_ E2].
    destruct (IH (i + 1) lb2 lb' H) as (Hd & Hq & Hfr); try assumption; try lia.
    assert (Hlow : forall j, j < rd -> lb2 j = lb j).
    { intros j Hj. rewrite E2, E1.
      destruct (j =? rq + (len - i - 1)) eqn:A; [apply Z.eqb_eq in A; lia|].
      destruct (j =? rd + i) eqn:B; [apply Z.eqb_eq in B; lia|]. reflexivity. }
    assert (Hlow1 : forall j, j < rd -> lb1 j = lb j).
    { intros j Hj. rewrite E1.
      destruct (j =? rd + i) eqn:B; [apply Z.eqb_eq in B; lia|]. reflexivity. }
    split; [|split].
    + intros j Hj. destruct (Z.eq_dec j i) as [->|Hne].
      * rewrite Hfr by lia. rewrite E2, E1.
        destruct (rd + i =? rq + (len - i - 1)) eqn:A; [apply Z.eqb_eq in A; lia|].
        rewrite Z.eqb_refl. reflexivity.
      * rewrite Hd by lia. f_equal.
        apply (load_below ext lb lb2 ud len rd); [exact Hud | lia | exact Hlow].
    + intros j Hj. destruct (Z.eq_dec j i) as [->|Hne].
      * rewrite Hfr by lia. rewrite E2, Z.eqb_refl.
        apply (load_below ext lb lb1 uq len rd); [exact Huq | lia | exact Hlow1].
      * rewrite Hq by lia.
        apply (load_below ext lb lb2 uq len rd); [exact Huq | lia | exact Hlow].
    + intros a Ha1 Ha2. rewrite Hfr by lia. rewrite E2, E1.
      destruct (a =? rq + (len - i - 1)) eqn:A; [apply Z.eqb_eq in A; lia|].
      destruct (a =? rd + i) eqn:B; [apply Z.eqb_eq in B; lia|]. reflexivity.
Qed.

Lemma span_nth_ext :
  forall ext lb lb' p p' n (g : Z -> ascii),
    (forall k, 0 <= k < n -> load ext lb p k = g k) ->
    (forall k, 0 <= k < n -> load ext lb' p' k = g k) ->
    span ext lb p n = span ext lb' p' n.
Proof.
  intros ext lb lb' p p' n g H1 H2. unfold span.
  apply map_ext_in. intros i Hi. apply in_seq in Hi.
  rewrite H1, H2 by lia. reflexivity.
Qed.

Lemma span_rev :
  forall ext lb lb' p p' n,
    0 <= n ->
    (forall k, 0 <= k < n -> load ext lb' p' k = load ext lb p (n - k - 1)) ->
    span ext lb' p' n = rev (span ext lb p n).
Proof.
  intros ext lb lb' p p' n Hn H. unfold span. rewrite rev_map_seq.
  apply map_ext_in. intros i Hi. apply in_seq in Hi.
  rewrite H by lia. f_equal. lia.
Qed.

Lemma span_reverseComplement :
  forall ext lb lb' p p' n,
    0 <= n ->
    (forall k, 0 <= k < n ->
       load ext lb' p' k = COMPLEMENT (load ext lb p (n - k - 1))) ->
    span ext lb' p' n = reverseComplement (span ext lb p n).
Proof.
  intros ext lb lb' p p' n Hn H. unfold reverseComplement, span.
  rewrite rev_map_seq, map_map.
  apply map_ext_in. intros i Hi. apply in_seq in Hi.
  rewrite H by lia. do 2 f_equal. lia.
Qed.

Lemma becomeRC_unclipped :
  forall ext r r1,
    ReadInvariant r -> Layout r -> RCInvariant ext r ->
    becomeRC ext r = Some r1 ->
    RCInvariant ext r1 /\
    match currentReadDirection r with
    | FORWARD =>
        currentReadDirection r1 = RC /\
        getUnclippedDataBytes ext r1 = reverseComplement (getUnclippedDataBytes ext r) /\
        getUnclippedQualityBytes ext r1 = rev (getUnclippedQualityBytes ext r)
    | RC =>
        currentReadDirection r1 = FORWARD /\
        getUnclippedDataBytes ext r = reverseComplement (getUnclippedDataBytes ext r1) /\
        getUnclippedQualityBytes ext r = rev (getUnclippedQualityBytes ext r1)
    end.
Proof.
  intros ext r r1 Hinv Hlay Hrci H.
  pose proof Hinv as ([Hu0 Hu1] & Hd & Hf & Hsum & Hdata & Hq).
  destruct Hlay as (Hed & Heq & Hup & Hoff & Hdir).
  unfold becomeRC in H.
  unfold getUnclippedDataBytes, getUnclippedQualityBytes.
  destruct (currentReadDirection r) eqn:Edir.
  - destruct Hdir as [Hud Huq]. fold (forwardData r) in Hud.
    destruct (isNull (rcData r)) eqn:Enull.
    + assert (Hrc : rcData r = Null) by (destruct (rcData r); simpl in *; congruence).
      specialize (Hoff Hrc).
      assert (Hrq : wrap32 (localBufferAllocationOffset r + unclippedLength r) =
                    localBufferAllocationOffset r + unclippedLength r /\
                    0 <= localBufferAllocationOffset r).
      { rewrite Hoff. destruct Hup as [Hup|(Hup & _ & Hl)]; rewrite Hup; simpl.
        - split; [apply wrap32_small; lia | lia].
        - unfold localBufferLength, MAX_READ_LENGTH in Hl.
          split; [apply wrap32_small; lia | lia]. }
      destruct Hrq as [Hrq Hoff0]. rewrite Hrq in H.
      set (rd := localBufferAllocationOffset r) in *.
      set (u := unclippedLength r) in *.
      destruct (rcLoop ext (unclippedData r) (unclippedQuality r) u rd (rd + u)
                  (Z.to_nat u) 0 (localBuffer r)) as [lb'|] eqn:Hloop; [|discriminate].
      injection H as <-.
      assert (Bud : belowStores (unclippedData r) u rd).
      { rewrite Hud. unfold forwardData.
        destruct Hup as [Hup|(Hup & _ & _)]; rewrite Hup; simpl.
        - destruct Hed as [a ->]. exact I.
        - subst rd. rewrite Hoff, Hup. simpl. lia. }
      assert (Buq : belowStores (unclippedQuality r) u rd).
      { rewrite Huq. destruct Heq as [a ->]. exact I. }
      destruct (rcLoop_spec ext _ _ _ _ _ _ _ _ _ Hloop) as (Sd & Sq & Sfr);
        try assumption; try lia.
      rewrite Z2Nat.id in Sd, Sq, Sfr by lia.
      assert (Hlow : forall j, j < rd -> lb' j = localBuffer r j)
        by (intros j Hj; apply Sfr; lia).
      assert (Hdata' :
        span ext lb' (Loc rd) u =
        reverseComplement (span ext (localBuffer r) (unclippedData r) u)).
      { apply span_reverseComplement; [lia|]. intros k Hk. simpl.
        rewrite Sd by lia. reflexivity. }
      assert (Hqual' :
        span ext lb' (Loc (rd + u)) u =
        rev (span ext (localBuffer r) (unclippedQuality r) u)).
      { apply span_rev; [lia|]. intros k Hk. simpl.
        replace (rd + u + k) with (rd + u + (u - (u - k - 1) - 1)) by lia.
        rewrite Sq by lia. reflexivity. }
      assert (Hsame : forall p, belowStores p u rd ->
                span ext lb' p u = span ext (localBuffer r) p u).
      { intros p Hp. apply (span_nth_ext _ _ _ _ _ _ (load ext (localBuffer r) p)).
        - intros k Hk. apply (load_below ext _ _ p u rd); assumption.
        - reflexivity. }
      split; [|split; [reflexivity | split; assumption]].
      unfold RCInvariant, forwardData. autorewrite with finish.
      cbn [unclippedLength becomeRC_finish]. fold (forwardData r). fold u.
      intros _. rewrite <- Hud, <- Huq, (Hsame _ Bud), (Hsame _ Buq).
      split; assumption.
    + injection H as <-.
      assert (Hrc : rcData r <> Null) by (destruct (rcData r); simpl in *; congruence).
      destruct (Hrci Hrc) as [Hd1 Hq1].
      split; [|split; [reflexivity|]].
      * unfold RCInvariant, forwardData. autorewrite with finish.
        cbn [unclippedLength becomeRC_finish]. fold (forwardData r).
        intros _. split; assumption.
      * cbn [unclippedData unclippedQuality localBuffer unclippedLength becomeRC_finish].
        rewrite Hud, Huq. split; assumption.
  - destruct Hdir as (Hrc & Hud & Huq).
    injection H as <-.
    destruct (Hrci Hrc) as [Hd1 Hq1].
    split; [|split; [reflexivity|]].
    + unfold RCInvariant, forwardData. autorewrite with finish.
      cbn [unclippedLength becomeRC_finish]. fold (forwardData r).
      intros _. split; assumption.
    + cbn [unclippedData unclippedQuality localBuffer unclippedLength becomeRC_finish].
      fold (forwardData r). rewrite Hud, Huq. split; assumption.
Qed.

Lemma initialized_RCInvariant :
  forall ext r, initialized ext r -> RCInvariant ext r.
Proof.
  intros ext r H. induction H as [r0 i_id i_idLength i_data i_quality i_dataLength
                                   oal omq osf ofc obc ofh obh orn ornl opn r Hi
                                 | r c Hr IH | r r' Hr IH Hb].
  - apply init_freshRead in Hi.
    destruct Hi as (_ & _ & _ & _ & _ & _ & _ & Hrc & _).
    intros Hn. contradiction.
  - unfold RCInvariant, forwardData, clip in *.
    destruct (ReadClippingType_eqb c (clippingState r)); exact IH.
  - destruct (initialized_invariants ext r Hr) as [Hinv Hlay].
    apply (becomeRC_unclipped ext r r' Hinv Hlay IH Hb).
Qed.

Lemma views_reverse :
  forall ext a b,
    ReadInvariant a -> ReadInvariant b ->
    unclippedLength a = unclippedLength b ->
    dataLength a = dataLength b ->
    frontClippedLength a =
      unclippedLength b - dataLength b - frontClippedLength b ->
    getUnclippedDataBytes ext a = reverseComplement (getUnclippedDataBytes ext b) ->
    getUnclippedQualityBytes ext a = rev (getUnclippedQualityBytes ext b) ->
    getDataBytes ext a = reverseComplement (getDataBytes ext b) /\
    getQualityBytes ext a = rev (getQualityBytes ext b).
Proof.
  intros ext a b ([Ha0 Ha1] & Hda & Hfa & Hsa & Hpa & Hqa)
         ([Hb0 Hb1] & Hdb & Hfb & Hsb & Hpb & Hqb) Hu Hd Hf HU HQ.
  unfold getDataBytes, getQualityBytes, getUnclippedDataBytes,
    getUnclippedQualityBytes, reverseComplement in *.
  rewrite Hpa, Hqa, Hpb, Hqb.
  rewrite (span_sub ext _ (unclippedData a) _ _ (unclippedLength a)) by lia.
  rewrite (span_sub ext _ (unclippedQuality a) _ _ (unclippedLength a)) by lia.
  rewrite (span_sub ext _ (unclippedData b) _ _ (unclippedLength b)) by lia.
  rewrite (span_sub ext _ (unclippedQuality b) _ _ (unclippedLength b)) by lia.
  rewrite HU, HQ.
  assert (L1 : List.length (span ext (localBuffer b) (unclippedData b)
                              (unclippedLength b)) = Z.to_nat (unclippedLength b))
    by apply span_length.
  assert (L2 : List.length (span ext (localBuffer b) (unclippedQuality b)
                              (unclippedLength b)) = Z.to_nat (unclippedLength b))
    by apply span_length.
  rewrite !rev_view by lia.
  rewrite L1, L2, skipn_map, firstn_map, Hd.
  replace (Z.to_nat (frontClippedLength a))
    with (Z.to_nat (unclippedLength b) - Z.to_nat (dataLength b)
          - Z.to_nat (frontClippedLength b))%nat by lia.
  split; reflexivity.
Qed.

(** [becomeRC] turns the view of a [Read] that [init], [clip] and
    [becomeRC] have made into its reverse complement: of a read and the read
    [becomeRC] leaves, one is forward and the other reverse, and the bases
    of the reverse one, clipped and unclipped, are the complements of the
    bases of the forward one in the opposite order, its quality the quality
    of the forward one in the opposite order. *)
Theorem becomeRC_is_reverse_complement :
  forall ext r r1,
    initialized ext r -> becomeRC ext r = Some r1 ->
    let fwd := match currentReadDirection r with FORWARD => r | RC => r1 end in
    let rc := match currentReadDirection r with FORWARD => r1 | RC => r end in
    currentReadDirection fwd = FORWARD /\
    currentReadDirection rc = RC /\
    getDataBytes ext rc = reverseComplement (getDataBytes ext fwd) /\
    getQualityBytes ext rc = rev (getQualityBytes ext fwd) /\
    getUnclippedDataBytes ext rc =
      reverseComplement (getUnclippedDataBytes ext fwd) /\
    getUnclippedQualityBytes ext rc = rev (getUnclippedQualityBytes ext fwd).
Proof.
  intros ext r r1 Hr Hb.
  destruct (initialized_invariants ext r Hr) as [Hinv Hlay].
  pose proof (initialized_RCInvariant ext r Hr) as Hrci.
  assert (Hinv1 : ReadInvariant r1)
    by (eapply becomeRC_ReadInvariant; eassumption).
  destruct (becomeRC_unclipped ext r r1 Hinv Hlay Hrci Hb) as [_ Hun].
  destruct (becomeRC_inv ext r r1 Hb) as (ud & uq & dir & lb & off & rcd & rcq & E).
  assert (Hu : unclippedLength r1 = unclippedLength r) by (rewrite E; reflexivity).
  assert (Hd : dataLength r1 = dataLength r) by (rewrite E; reflexivity).
  pose proof Hinv as ([Hu0 Hu1] & Hd0 & Hf0 & Hsum & _).
  assert (Hf : frontClippedLength r1 =
               unclippedLength r - dataLength r - frontClippedLength r).
  { rewrite E. cbn [frontClippedLength becomeRC_finish].
    rewrite (wrap32_small (unclippedLength r - dataLength r)) by lia.
    apply wrap32_small. lia. }
  destruct (currentReadDirection r) eqn:Edir; cbv zeta.
  - destruct Hun as (Hdir1 & HU & HQ).
    destruct (views_reverse ext r1 r Hinv1 Hinv Hu Hd Hf HU HQ) as [V1 V2].
    repeat split; assumption.
  - destruct Hun as (Hdir1 & HU & HQ).
    destruct (views_reverse ext r r1 Hinv Hinv1 (eq_sym Hu) (eq_sym Hd)) as [V1 V2];
      [lia | exact HU | exact HQ |].
    repeat split; assumption.
Qed.

(** *** [computeReverseCompliment] *)

Lemma complementLoop_spec :
  forall lb d dl out n i m,
    0 <= i -> i + Z.of_nat n <= dl -> apartFrom d dl out ->
    let m' := complementLoop lb d dl out n i m in
    (forall j, i <= j < i + Z.of_nat n ->
       m' (out + j) = COMPLEMENT (load m lb d (dl - j - 1))) /\
    (forall a, ~ (out + i <= a < out + i + Z.of_nat n) -> m' a = m a).
Proof.
  intros lb d dl out n. induction n as [|n IH]; intros i m Hi Hn Hd m'.
  - subst m'. simpl. split; intros; [lia | reflexivity].
  - subst m'. cbn [complementLoop].
    set (m1 := fun a => if a =? out + i
                        then COMPLEMENT (load m lb d (dl - i - 1)) else m a).
    destruct (IH (i + 1) m1) as [Hs Hfr]; try assumption; try lia.
    assert (Hsrc : forall k, 0 <= k < dl -> load m1 lb d k = load m lb d k).
    { intros k Hk. destruct d as [|a|o]; simpl in *; try reflexivity.
      subst m1. cbv beta.
      destruct (a + k =? out + i) eqn:E; [apply Z.eqb_eq in E; lia | reflexivity]. }
    split.
    + intros j Hj. destruct (Z.eq_dec j i) as [->|Hne].
      * rewrite Hfr by lia. subst m1. cbv beta. rewrite Z.eqb_refl. reflexivity.
      * rewrite Hs by lia. rewrite Hsrc by lia. reflexivity.
    + intros a Ha. rewrite Hfr by lia. subst m1. cbv beta.
      destruct (a =? out + i) eqn:E; [apply Z.eqb_eq in E; lia | reflexivity].
Qed.

(** [computeReverseCompliment] leaves, in the [dataLength] bytes of the
    output buffer, the reverse complement of the clipped bases, and every
    other byte of the memory of the caller as it was, provided the output
    buffer and the bases do not overlap. *)
Theorem computeReverseCompliment_writes_reverse_complement :
  forall ext r outputBuffer,
    apartFrom (data r) (dataLength r) outputBuffer ->
    let m := computeReverseCompliment ext r outputBuffer in
    map (fun i => m (outputBuffer + Z.of_nat i)) (seq 0 (Z.to_nat (dataLength r))) =
      reverseComplement (getDataBytes ext r) /\
    forall a,
      ~ (outputBuffer <= a < outputBuffer + dataLength r) -> m a = ext a.
Proof.
  intros ext r out Hd m. subst m. unfold computeReverseCompliment.
  destruct (Z_le_gt_dec 0 (dataLength r)) as [H0|H0].
  - destruct (complementLoop_spec (localBuffer r) (data r) (dataLength r) out
                (Z.to_nat (dataLength r)) 0 ext) as [Hs Hfr];
      try lia; try assumption.
    rewrite Z2Nat.id in Hs, Hfr by lia.
    split.
    + unfold reverseComplement, getDataBytes, span.
      rewrite rev_map_seq, map_map.
      apply map_ext_in. intros i Hi. apply in_seq in Hi.
      rewrite Hs by lia. do 2 f_equal. lia.
    + intros a Ha. apply Hfr. lia.
  - unfold reverseComplement, getDataBytes, span.
    replace (Z.to_nat (dataLength r)) with O by lia.
    split; reflexivity.
Qed.

(** *** [clip] keeping the clipping recorded at [init] *)

Lemma init_original_clipping :
  forall ext r0 i_id i_idLength i_data i_quality i_dataLength
         oal omq osf ofc obc ofh obh orn ornl opn r,
    init ext r0 i_id i_idLength i_data i_quality i_dataLength
         oal omq osf ofc obc ofh obh orn ornl opn = Some r ->
    originalFrontClipping r = wrap32 ofc /\ originalBackClipping r = wrap32 obc.
Proof.
  intros ext r0 i_id i_idLength i_data i_quality i_dataLength
         oal omq osf ofc obc ofh obh orn ornl opn r H.
  unfold init in H.
  destruct (anyLowerCaseLoop ext (localBuffer r0) (Ext i_data)
              (Z.to_nat (wrap32 i_dataLength)) 0%Z 0 =? 0)%N.
  - injection H as <-. split; reflexivity.
  - destruct (upcaseLoop ext (Ext i_data) (Z.to_nat (wrap32 i_dataLength)) 0%Z
                (localBuffer r0)) as [lb|]; [|discriminate].
    injection H as <-. split; reflexivity.
Qed.

(** After [init], [clip] with [maintainOriginalClipping] set trims at each
    end it clips the larger of the run of sentinels there and the clipping
    recorded at [init] for that end, so no base the record came clipped of
    is brought back; this as long as what is to be trimmed at both ends
    fits the read, and then the view stays inside the unclipped span. *)
Theorem clip_maintains_original_clipping :
  forall ext r0 i_id i_idLength i_data i_quality i_dataLength
         oal omq osf ofc obc ofh obh orn ornl opn r c,
    init ext r0 i_id i_idLength i_data i_quality i_dataLength
         oal omq osf ofc obc ofh obh orn ornl opn = Some r ->
    let q := getUnclippedQualityBytes ext r in
    let back :=
      if clipsBack c
      then Z.max (Z.of_nat (trailingSentinels q)) (originalBackClipping r)
      else 0 in
    let kept := unclippedLength r - back in
    let front :=
      if clipsFront c
      then Z.max (Z.of_nat (leadingSentinels (firstn (Z.to_nat kept) q)))
                 (originalFrontClipping r)
      else 0 in
    (if clipsFront c then originalFrontClipping r else 0) + back
      <= unclippedLength r ->
    let r' := clip ext r c true in
    clippingState r' = c /\
    frontClippedLength r' = front /\
    dataLength r' = kept - front /\
    ReadInvariant r'.
Proof.
  intros ext r0 i_id i_idLength i_data i_quality i_dataLength
         oal omq osf ofc obc ofh obh orn ornl opn r c Hinit q back kept front Hfit r'.
  destruct (init_original_clipping _ _ _ _ _ _ _ _ _ _ _ _ _ _ _ _ _ _ Hinit)
    as [Hof Hob].
  pose proof (wrap32_range ofc) as Rf. pose proof (wrap32_range obc) as Rb.
  rewrite <- Hof in Rf. rewrite <- Hob in Rb.
  apply init_freshRead in Hinit.
  pose proof (freshRead_ReadInvariant r Hinit) as Hinv.
  destruct Hinit as ([Hu0 Hu1] & Hd & Hfc & Hdata & Hq & Hs & _).
  assert (Hlen : List.length q = Z.to_nat (unclippedLength r)) by apply span_length.
  assert (Hqdef : q = map (fun i => load ext (localBuffer r) (unclippedQuality r)
                                         (Z.of_nat i))
                          (seq 0 (Z.to_nat (unclippedLength r)))) by reflexivity.
  pose proof (leadingSentinels_le (rev q)) as Ht. rewrite length_rev in Ht.
  fold (trailingSentinels q) in Ht.
  pose proof (leadingSentinels_le (firstn (Z.to_nat kept) q)) as Hl.
  rewrite length_firstn in Hl.
  assert (Hback : 0 <= back <= unclippedLength r).
  { subst back. destruct (clipsBack c), (clipsFront c); lia. }
  assert (Hfront : 0 <= front <= kept).
  { subst front kept. destruct (clipsFront c); lia. }
  assert (Hloop : forall n : nat,
            (n <= Z.to_nat (unclippedLength r))%nat ->
            clipFrontLoop (load ext (localBuffer r) (unclippedQuality r)) n 0 =
            Z.of_nat (leadingSentinels (firstn n q))).
  { intros n Hn. change 0 with (Z.of_nat 0). rewrite clipFrontLoop_spec.
    cbn [Nat.add]. rewrite Hqdef, firstn_map_seq by exact Hn. reflexivity. }
  destruct c; subst r' back front kept; cbn [clipsBack clipsFront] in *.
  - rewrite clip_unchanged by exact Hs.
    split; [exact Hs | split; [lia | split; [lia | exact Hinv]]].
  - unfold clip. rewrite Hs. cbn [ReadClippingType_eqb clipsBack clipsFront].
    rewrite Hloop by lia.
    rewrite Z.sub_0_r in *.
    unfold ReadInvariant, unsignedRange.
    cbn [clippingState frontClippedLength dataLength data quality unclippedLength
         unclippedData unclippedQuality].
    rewrite wrap32_small by lia.
    repeat split; try reflexivity; lia.
  - unfold clip. rewrite Hs. cbn [ReadClippingType_eqb clipsBack clipsFront andb].
    rewrite clipBackLoop_spec, <- Hqdef. cbn [Z.add].
    unfold ReadInvariant, unsignedRange.
    destruct (Z.of_nat (trailingSentinels q) <? originalBackClipping r) eqn:E;
      [apply Z.ltb_lt in E | apply Z.ltb_ge in E];
      cbn [clippingState frontClippedLength dataLength data quality unclippedLength
           unclippedData unclippedQuality];
      rewrite ?Z.sub_0_r, ?padd_0;
      rewrite ?(wrap32_small (Z.of_nat (Z.to_nat (unclippedLength r) - trailingSentinels q)
                              - (originalBackClipping r - Z.of_nat (trailingSentinels q))))
        by lia;
      rewrite ?wrap32_small by lia;
      repeat split; try reflexivity; try lia.
  - unfold clip. rewrite Hs. cbn [ReadClippingType_eqb clipsBack clipsFront andb].
    rewrite clipBackLoop_spec, <- Hqdef. cbn [Z.add].
    unfold ReadInvariant, unsignedRange.
    destruct (Z.of_nat (trailingSentinels q) <? originalBackClipping r) eqn:E;
      [apply Z.ltb_lt in E | apply Z.ltb_ge in E].
    + rewrite (wrap32_small (Z.of_nat (Z.to_nat (unclippedLength r) - trailingSentinels q)
                              - (originalBackClipping r - Z.of_nat (trailingSentinels q))))
        by lia.
      rewrite Hloop by lia.
      replace (Z.max (Z.of_nat (trailingSentinels q)) (originalBackClipping r))
        with (originalBackClipping r) in * by lia.
      replace (Z.of_nat (Z.to_nat (unclippedLength r) - trailingSentinels q)
               - (originalBackClipping r - Z.of_nat (trailingSentinels q)))
        with (unclippedLength r - originalBackClipping r) by lia.
      cbn [clippingState frontClippedLength dataLength data quality unclippedLength
           unclippedData unclippedQuality].
      rewrite wrap32_small by lia.
      repeat split; try reflexivity; lia.
    + rewrite Nat2Z.id. rewrite Hloop by lia.
      replace (Z.max (Z.of_nat (trailingSentinels q)) (originalBackClipping r))
        with (Z.of_nat (trailingSentinels q)) in * by lia.
      replace (Z.to_nat (unclippedLength r - Z.of_nat (trailingSentinels q)))
        with (Z.to_nat (unclippedLength r) - trailingSentinels q)%nat in * by lia.
      cbn [clippingState frontClippedLength dataLength data quality unclippedLength
           unclippedData unclippedQuality].
      rewrite wrap32_small by lia.
      repeat split; try reflexivity; lia.
Qed.

(** *** [getFrontClippedLength] *)

Lemma Layout_unclippedData :
  forall r, Layout r -> unclippedData r <> Null.
Proof.
  intros r (Hed & _ & Hup & _ & Hdir).
  destruct (currentReadDirection r).
  - destruct Hdir as [-> _].
    destruct Hup as [->|(-> & _)]; simpl; [|discriminate].
    destruct Hed as [a ->]. discriminate.
  - destruct Hdir as (Hrc & -> & _). exact Hrc.
Qed.

(** For a [Read] that [init], [clip] and [becomeRC] have made,
    [getFrontClippedLength], which takes the distance from [unclippedData]
    to [data], returns what the member [frontClippedLength] holds. *)
Theorem getFrontClippedLength_is_the_member :
  forall ext r,
    initialized ext r -> getFrontClippedLength r = frontClippedLength r.
Proof.
  intros ext r H.
  destruct (initialized_invariants ext r H) as [Hinv Hlay].
  pose proof (Layout_unclippedData r Hlay) as Hnn.
  destruct Hinv as ([Hu0 Hu1] & Hd & Hf & Hsum & Hdata & _).
  unfold getFrontClippedLength. rewrite Hdata.
  destruct (unclippedData r) as [|a|o]; [contradiction | |]; simpl;
    rewrite <- (wrap32_small (frontClippedLength r)) at 2 by lia;
    f_equal; lia.
Qed.

(** ** Proofs: the sequential parser on records *)

Local Open Scope nat_scope.

Lemma last_app_nonempty :
  forall (l m : list ascii), m <> [] -> last (l ++ m) NUL = last m NUL.
Proof.
  intros l m Hm. destruct (exists_last Hm) as (m' & x & ->).
  rewrite app_assoc, !last_last. reflexivity.
Qed.

Lemma nth_last :
  forall (l : list ascii), nth (List.length l - 1) l NUL = last l NUL.
Proof.
  intros l. destruct l as [|c t]; [reflexivity|].
  destruct (exists_last (l := c :: t)) as (m & x & E); [discriminate|].
  rewrite E, length_app, last_last. cbn [List.length].
  replace (List.length m + 1 - 1) with (List.length m) by lia.
  apply nth_middle.
Qed.

(** One good line of the buffer, as [scanLine] takes it. *)
Lemma scanLine_line :
  forall buf pre l rest buffer validBytes isEOF i scan,
    buf = pre ++ l ++ LF :: rest -> scan = List.length pre ->
    i < 4 -> noLF l = true -> l <> [] ->
    lineStartOK i (hd NUL l) = true ->
    buffer <= scan ->
    scan - buffer + List.length l < validBytes ->
    scanLine buf buffer validBytes isEOF i scan =
    Returns (Line scan
               (List.length l - (if Ascii.eqb (last l NUL) CR then 1 else 0))
               (scan + List.length l
                + (if Ascii.eqb (hd NUL rest) CR then 2 else 1))).
Proof.
  intros buf pre l rest buffer validBytes eof i scan -> -> Hi Hl Hne Hok Hb Hv.
  unfold scanLine.
  rewrite strnchr_line by (try exact Hl; lia).
  replace (List.length pre + List.length l - List.length pre)
    with (List.length l) by lia.
  assert (Hlen : List.length l <> 0) by (destruct l; [contradiction | discriminate]).
  assert (Hhd : hd NUL (l ++ LF :: rest) = hd NUL l)
    by (destruct l; [contradiction | reflexivity]).
  apply Nat.eqb_neq in Hlen. rewrite Hlen.
  rewrite lineStartOK_table by exact Hi.
  rewrite byteAt_app_0, Hhd, Hok. cbn [negb].
  apply Nat.eqb_neq in Hlen.
  do 2 f_equal.
  - f_equal.
    replace (List.length pre + List.length l - 1)
      with (List.length pre + (List.length l - 1)) by lia.
    rewrite byteAt_app, app_nth1 by lia.
    rewrite nth_last. reflexivity.
  - f_equal.
    replace (S (List.length pre + List.length l))
      with (List.length pre + (List.length l + 1)) by lia.
    rewrite byteAt_app, app_nth2_plus. destruct rest; reflexivity.
Qed.

(** The bytes of a piece of the buffer, through the memory a [Read] points
    into. *)
Lemma span_buffer :
  forall lb x l y,
    span (bufferMemory (x ++ l ++ y)) lb (Ext (Z.of_nat (List.length x)))
         (Z.of_nat (List.length l)) = l.
Proof.
  intros lb x l y. unfold span. rewrite Nat2Z.id.
  apply nth_ext with (d := NUL) (d' := NUL).
  - rewrite length_map, length_seq. reflexivity.
  - intros i Hi. rewrite length_map, length_seq in Hi.
    rewrite (nth_indep _ NUL
               (load (bufferMemory (x ++ l ++ y)) lb
                     (Ext (Z.of_nat (List.length x))) (Z.of_nat 0)))
      by (rewrite length_map, length_seq; exact Hi).
    rewrite (map_nth (fun i => load (bufferMemory (x ++ l ++ y)) lb
                                 (Ext (Z.of_nat (List.length x))) (Z.of_nat i))).
    rewrite seq_nth by exact Hi. cbn [load Nat.add].
    unfold bufferMemory.
    destruct (Z.of_nat (List.length x) + Z.of_nat i <? 0)%Z eqn:E;
      [apply Z.ltb_lt in E; lia|].
    replace (Z.to_nat (Z.of_nat (List.length x) + Z.of_nat i))
      with (List.length x + i) by lia.
    rewrite byteAt_app, app_nth1 by exact Hi. reflexivity.
Qed.

Lemma anyLowerCaseLoop_anyLowerCase :
  forall ext lb a len,
    (0 <= len)%Z ->
    (anyLowerCaseLoop ext lb (Ext a) (Z.to_nat len) 0 0 =? 0)%N =
    negb (anyLowerCase (span ext lb (Ext a) len)).
Proof.
  intros ext lb a len Hlen.
  destruct (anyLowerCase (span ext lb (Ext a) len)) eqn:E; cbn [negb].
  - apply N.eqb_neq. intros H0.
    apply anyLowerCaseLoop_zero in H0. destruct H0 as [_ H0].
    unfold anyLowerCase in E. apply existsb_exists in E.
    destruct E as (c & Hin & Hc). unfold span in Hin.
    apply in_map_iff in Hin. destruct Hin as (i & <- & Hi). apply in_seq in Hi.
    cbn [load] in Hc. rewrite H0 in Hc by lia. discriminate.
  - apply N.eqb_eq. apply anyLowerCaseLoop_zero. split; [reflexivity|].
    intros j Hj. unfold anyLowerCase in E.
    destruct (N.eq_dec (IS_LOWER_CASE (ext (a + j)%Z)) 0) as [H0|H0]; [exact H0|].
    exfalso. apply Bool.not_true_iff_false in E. apply E.
    apply existsb_exists. exists (ext (a + j)%Z). split.
    + unfold span. apply in_map_iff. exists (Z.to_nat j). split.
      * cbn [load]. f_equal. lia.
      * apply in_seq. lia.
    + apply N.eqb_neq in H0. rewrite H0. reflexivity.
Qed.

(** The bytes [init] leaves behind the unclipped spans. *)
Lemma init_bytes :
  forall ext r0 i_id i_idLength i_data i_quality i_dataLength
         oal omq osf ofc obc ofh obh orn ornl opn,
    let len := wrap32 i_dataLength in
    let src := span ext (localBuffer r0) (Ext i_data) len in
    (anyLowerCase src = true -> (len <= localBufferLength)%Z) ->
    exists r,
      init ext r0 i_id i_idLength i_data i_quality i_dataLength
           oal omq osf ofc obc ofh obh orn ornl opn = Some r /\
      getUnclippedDataBytes ext r = basesKept src /\
      getUnclippedQualityBytes ext r =
        span ext (localBuffer r0) (Ext i_quality) len.
Proof.
  intros ext r0 i_id i_idLength i_data i_quality i_dataLength
         oal omq osf ofc obc ofh obh orn ornl opn len src Hfit.
  pose proof (wrap32_range i_dataLength) as Hr. fold len in Hr.
  unfold init. fold len.
  rewrite anyLowerCaseLoop_anyLowerCase by lia. fold src.
  unfold basesKept.
  destruct (anyLowerCase src) eqn:E; cbn [negb].
  - specialize (Hfit eq_refl).
    destruct (upcaseLoop_Some ext i_data (Z.to_nat len) 0%Z (localBuffer r0))
      as [lb Hlb]; [lia | lia |].
    rewrite Hlb. eexists. split; [reflexivity|].
    unfold getUnclippedDataBytes, getUnclippedQualityBytes.
    cbn [unclippedData unclippedQuality unclippedLength localBuffer].
    apply upcaseLoop_spec in Hlb. destruct Hlb as (Hup & _ & _).
    split.
    + subst src. unfold span. rewrite map_map.
      apply map_ext_in. intros i Hi. apply in_seq in Hi. cbn [load].
      rewrite Hup by lia. reflexivity.
    + apply span_ext_independent.
  - eexists. split; [reflexivity|]. split; reflexivity.
Qed.

Lemma clip_unclipped :
  forall ext r c m,
    unclippedData (clip ext r c m) = unclippedData r /\
    unclippedQuality (clip ext r c m) = unclippedQuality r /\
    unclippedLength (clip ext r c m) = unclippedLength r /\
    currentReadDirection (clip ext r c m) = currentReadDirection r.
Proof.
  intros ext r c m. unfold clip.
  destruct (ReadClippingType_eqb c (clippingState r)); repeat split; reflexivity.
Qed.

Lemma length_render :
  forall r,
    List.length (render r) =
    List.length (recId r) + List.length (recBases r) + List.length (recPlus r)
    + List.length (recQuality r) + 4 * List.length (lineEnd (recCRLF r)) + 6.
Proof.
  intros r. rewrite render_eq.
  repeat (rewrite ?length_app; cbn [List.length]). lia.
Qed.

Lemma last_lineEnd :
  forall l crlf,
    (crlf = false -> last l NUL <> CR) ->
    (if Ascii.eqb (last (l ++ lineEnd crlf) NUL) CR then 1 else 0) =
    List.length (lineEnd crlf).
Proof.
  intros l [|] H; cbn [lineEnd].
  - rewrite last_last. reflexivity.
  - rewrite app_nil_r. specialize (H eq_refl).
    apply Ascii.eqb_neq in H. rewrite H. reflexivity.
Qed.

Lemma forallb_last :
  forall (P : ascii -> bool) l d, l <> [] -> forallb P l = true -> P (last l d) = true.
Proof.
  intros P l d Hne H. destruct (exists_last Hne) as (m & x & ->).
  rewrite last_last. rewrite forallb_app in H.
  apply andb_prop in H. destruct H as [_ H]. cbn in H.
  rewrite andb_true_r in H. exact H.
Qed.

Lemma isSupportedBase_not_line_end :
  forall c, isSupportedBase c = true -> c <> CR /\ c <> LF.
Proof.
  intros c H. split; intros ->; vm_compute in H; discriminate.
Qed.

Lemma forallb_noLF :
  forall (P : ascii -> bool) l,
    (forall c, P c = true -> c <> LF) -> forallb P l = true -> noLF l = true.
Proof.
  intros P l HP H. unfold noLF. apply forallb_forall. intros c Hc.
  rewrite forallb_forall in H. specialize (HP c (H c Hc)).
  apply Ascii.eqb_neq in HP. rewrite HP. reflexivity.
Qed.

(** The sequential parser at the start of a record, the rest of the buffer
    behind it. *)
Lemma parse_record :
  forall pre r post validBytes readToUpdate isEOF clipping buf,
    buf = pre ++ render r ++ post ->
    parsesBack r = true ->
    hd NUL post <> CR ->
    List.length (render r) <= validBytes ->
    (Z.of_nat (List.length (render r)) < 2 ^ 32)%Z ->
    (anyLowerCase (recBases r) = true ->
     (Z.of_nat (List.length (recBases r)) <= localBufferLength)%Z) ->
    exists rd,
      getReadFromBuffer buf (List.length pre) validBytes readToUpdate isEOF clipping
        = Returns (List.length (render r), rd) /\
      readOf (bufferMemory buf) r clipping rd.
Proof.
  intros pre r post validBytes readToUpdate eof clipping buf Hbuf Hpb Hpost Hv H32 Hfit.
  unfold parsesBack, wellFormedRecord in Hpb.
  repeat (apply andb_prop in Hpb; destruct Hpb as [Hpb ?]).
  rename H into Hcr, H0 into Hql, H1 into Hqp, H2 into Hbs, H3 into Hbne, H4 into Hpl.
  rename Hpb into Hid.
  apply Nat.eqb_eq in Hql.
  assert (Hbases : recBases r <> []).
  { destruct (recBases r); [discriminate | discriminate]. }
  assert (Hqual : recQuality r <> []).
  { destruct (recQuality r); [|discriminate].
    destruct (recBases r); [contradiction | discriminate]. }
  pose proof (length_render r) as Hlen.
  set (le := lineEnd (recCRLF r)) in *.
  set (l0 := "@"%char :: recId r ++ le).
  set (l1 := recBases r ++ le).
  set (l2 := "+"%char :: recPlus r ++ le).
  set (l3 := recQuality r ++ le).
  set (p0 := List.length pre).
  set (p1 := p0 + List.length l0 + 1).
  set (p2 := p1 + List.length l1 + 1).
  set (p3 := p2 + List.length l2 + 1).
  assert (L0 : List.length l0 = 1 + List.length (recId r) + List.length le)
    by (subst l0; cbn [List.length]; rewrite length_app; lia).
  assert (L1 : List.length l1 = List.length (recBases r) + List.length le)
    by (subst l1; rewrite length_app; lia).
  assert (L2 : List.length l2 = 1 + List.length (recPlus r) + List.length le)
    by (subst l2; cbn [List.length]; rewrite length_app; lia).
  assert (L3 : List.length l3 = List.length (recQuality r) + List.length le)
    by (subst l3; rewrite length_app; lia).
  assert (E0 : buf = pre ++ l0 ++ LF :: (l1 ++ LF :: l2 ++ LF :: l3 ++ LF :: post)).
  { rewrite Hbuf, render_eq. subst l0 l1 l2 l3.
    repeat (rewrite <- ?app_assoc; cbn [app]). reflexivity. }
  assert (E1 : buf = (pre ++ l0 ++ [LF]) ++ l1 ++ LF :: (l2 ++ LF :: l3 ++ LF :: post)).
  { rewrite E0. repeat (rewrite <- ?app_assoc; cbn [app]). reflexivity. }
  assert (E2 : buf = (pre ++ l0 ++ LF :: l1 ++ [LF]) ++ l2 ++ LF :: (l3 ++ LF :: post)).
  { rewrite E0. repeat (rewrite <- ?app_assoc; cbn [app]). reflexivity. }
  assert (E3 : buf = (pre ++ l0 ++ LF :: l1 ++ LF :: l2 ++ [LF]) ++ l3 ++ LF :: post).
  { rewrite E0. repeat (rewrite <- ?app_assoc; cbn [app]). reflexivity. }
  assert (P1 : p1 = List.length (pre ++ l0 ++ [LF]))
    by (subst p1 p0; rewrite !length_app; cbn [List.length]; lia).
  assert (P2 : p2 = List.length (pre ++ l0 ++ LF :: l1 ++ [LF])).
  { subst p2 p1 p0. repeat (rewrite ?length_app; cbn [List.length]). lia. }
  assert (P3 : p3 = List.length (pre ++ l0 ++ LF :: l1 ++ LF :: l2 ++ [LF])).
  { subst p3 p2 p1 p0. repeat (rewrite ?length_app; cbn [List.length]). lia. }
  assert (Hle : forall c, In c le -> c <> LF).
  { intros c Hc. subst le. destruct (recCRLF r); cbn in Hc; [|contradiction].
    destruct Hc as [<-|[]]. discriminate. }
  assert (N0 : noLF l0 = true).
  { subst l0. change ("@"%char :: recId r ++ le) with (["@"%char] ++ recId r ++ le).
    rewrite !noLF_app, Hid. subst le. rewrite noLF_lineEnd. reflexivity. }
  assert (N1 : noLF l1 = true).
  { subst l1. rewrite noLF_app. subst le. rewrite noLF_lineEnd, andb_true_r.
    apply (forallb_noLF isSupportedBase); [|exact Hbs].
    intros c Hc. apply isSupportedBase_not_line_end. exact Hc. }
  assert (N2 : noLF l2 = true).
  { subst l2. change ("+"%char :: recPlus r ++ le) with (["+"%char] ++ recPlus r ++ le).
    rewrite !noLF_app, Hpl. subst le. rewrite noLF_lineEnd. reflexivity. }
  assert (N3 : noLF l3 = true).
  { subst l3. rewrite noLF_app. subst le. rewrite noLF_lineEnd, andb_true_r.
    apply (forallb_noLF isPrintable); [|exact Hqp].
    intros c Hc. apply isPrintable_not_line_end. exact Hc. }
  assert (NE1 : l1 <> []).
  { subst l1. destruct (recBases r); [contradiction | discriminate]. }
  assert (NE3 : l3 <> []).
  { subst l3. destruct (recQuality r); [contradiction | discriminate]. }
  assert (S1 : lineStartOK 1 (hd NUL l1) = true).
  { subst l1. destruct (recBases r) as [|c t]; [contradiction|].
    cbn in Hbs. apply andb_prop in Hbs. destruct Hbs as [Hc _]. exact Hc. }
  assert (S3 : lineStartOK 3 (hd NUL l3) = true).
  { subst l3. destruct (recQuality r) as [|c t]; [contradiction|].
    cbn in Hqp. apply andb_prop in Hqp. destruct Hqp as [Hc _]. exact Hc. }
  assert (C1 : hd NUL (l1 ++ LF :: l2 ++ LF :: l3 ++ LF :: post) <> CR).
  { subst l1. destruct (recBases r) as [|c t]; [contradiction|].
    cbn in Hbs. apply andb_prop in Hbs. destruct Hbs as [Hc _].
    apply isSupportedBase_not_line_end in Hc. apply Hc. }
  assert (C3 : hd NUL (l3 ++ LF :: post) <> CR).
  { subst l3. destruct (recQuality r) as [|c t]; [contradiction|].
    cbn in Hqp. apply andb_prop in Hqp. destruct Hqp as [Hc _].
    apply isPrintable_not_line_end in Hc. apply Hc. }
  assert (C2 : Ascii.eqb (hd NUL (l2 ++ LF :: l3 ++ LF :: post)) CR = false)
    by reflexivity.
  apply Ascii.eqb_neq in C1, C3. pose proof Hpost as C4. apply Ascii.eqb_neq in C4.
  assert (T0 : (if Ascii.eqb (last l0 NUL) CR then 1 else 0) = List.length le).
  { subst l0. change ("@"%char :: recId r ++ le) with (("@"%char :: recId r) ++ le).
    apply last_lineEnd. intros Hcrlf. rewrite Hcrlf in Hcr. cbn [orb] in Hcr.
    apply negb_true_iff in Hcr. apply Ascii.eqb_neq in Hcr.
    destruct (recId r) as [|c t]; [discriminate|].
    change (last ("@"%char :: c :: t) NUL) with (last (c :: t) NUL). exact Hcr. }
  assert (T1 : (if Ascii.eqb (last l1 NUL) CR then 1 else 0) = List.length le).
  { subst l1. apply last_lineEnd. intros _.
    pose proof (forallb_last isSupportedBase _ NUL Hbases Hbs) as Hc.
    apply isSupportedBase_not_line_end in Hc. apply Hc. }
  unfold getReadFromBuffer, nLinesPerFastqQuery. cbn [scanLines].
  rewrite (scanLine_line buf pre l0 _ p0 validBytes eof 0 p0 E0 eq_refl)
    by first [reflexivity | assumption | discriminate | lia].
  cbn [bind]. rewrite C1.
  replace (p0 + List.length l0 + 1) with p1 by reflexivity.
  rewrite (scanLine_line buf _ l1 _ p0 validBytes eof 1 p1 E1 P1)
    by first [assumption | lia].
  cbn [bind]. rewrite C2.
  replace (p1 + List.length l1 + 1) with p2 by reflexivity.
  rewrite (scanLine_line buf _ l2 _ p0 validBytes eof 2 p2 E2 P2)
    by first [reflexivity | assumption | discriminate | lia].
  cbn [bind]. rewrite C3.
  replace (p2 + List.length l2 + 1) with p3 by reflexivity.
  rewrite (scanLine_line buf _ l3 _ p0 validBytes eof 3 p3 E3 P3)
    by first [assumption | lia].
  cbn [bind nth fst snd]. rewrite C4, T0, T1.
  replace (List.length l0 - List.length le) with (1 + List.length (recId r)) by lia.
  replace (List.length l1 - List.length le) with (List.length (recBases r)) by lia.
  replace (p3 + List.length l3 + 1 - p0) with (List.length (render r))
    by (subst p3 p2 p1; lia).
  set (ext := bufferMemory buf).
  assert (W : wrap32 (Z.of_nat (List.length (recBases r))) =
              Z.of_nat (List.length (recBases r))) by (apply wrap32_small; lia).
  assert (Bsrc : forall lb,
            span ext lb (Ext (Z.of_nat p1)) (Z.of_nat (List.length (recBases r)))
            = recBases r).
  { intros lb. subst ext l1. rewrite P1, E1, <- (app_assoc (recBases r)).
    apply span_buffer. }
  assert (Qsrc : forall lb,
            span ext lb (Ext (Z.of_nat p3)) (Z.of_nat (List.length (recBases r)))
            = recQuality r).
  { intros lb. subst ext l3. rewrite P3, E3, <- (app_assoc (recQuality r)), <- Hql.
    apply span_buffer. }
  assert (Isrc : forall lb,
            span ext lb (Ext (Z.of_nat p0 + 1)) (Z.of_nat (List.length (recId r)))
            = recId r).
  { intros lb. subst ext l0 p0. rewrite E0.
    replace (Z.of_nat (List.length pre) + 1)%Z
      with (Z.of_nat (List.length (pre ++ ["@"%char])))
      by (rewrite length_app; cbn [List.length]; lia).
    replace (pre ++ ("@"%char :: recId r ++ le) ++
             LF :: l1 ++ LF :: l2 ++ LF :: l3 ++ LF :: post)
      with ((pre ++ ["@"%char]) ++ recId r ++
            (le ++ LF :: l1 ++ LF :: l2 ++ LF :: l3 ++ LF :: post))
      by (repeat (rewrite <- ?app_assoc; cbn [app]); reflexivity).
    apply span_buffer. }
  destruct (init_bytes ext readToUpdate (Ext (Z.of_nat p0 + 1))
              (Z.of_nat (1 + List.length (recId r)) - 1)
              (Z.of_nat p1) (Z.of_nat p3) (Z.of_nat (List.length (recBases r)))
              (-1) (-1) 0 0 0 0 0 Null 0 0)%Z as (r1 & Hinit & HU & HQ).
  { rewrite W, Bsrc. exact Hfit. }
  rewrite W, Bsrc in HU. rewrite W, Qsrc in HQ.
  rewrite Hinit. cbn [liftRead bind].
  exists (clip ext r1 clipping false). split; [reflexivity|].
  pose proof (init_freshRead _ _ _ _ _ _ _ _ _ _ _ _ _ _ _ _ _ _ Hinit) as Hfresh.
  destruct (init_id _ _ _ _ _ _ _ _ _ _ _ _ _ _ _ _ _ _ Hinit) as [Hid1 Hil1].
  destruct (clip_id ext r1 clipping false) as [Cid Cil].
  destruct (clip_unclipped ext r1 clipping false) as (Cud & Cuq & Cul & Cdir).
  destruct (clip_fresh_spec ext r1 clipping Hfresh) as (Fs & Ff & Fd & Fdata & Fq & _).
  rewrite HQ in Ff, Fd.
  destruct Hfresh as ([Hu0 Hu1] & _ & _ & _ & _ & _ & Hdir & _).
  assert (Hul : Z.to_nat (unclippedLength r1) = List.length (recQuality r)).
  { rewrite <- HQ. symmetry. apply span_length. }
  assert (Hfront : frontTrim clipping (recQuality r)
                   <= List.length (recQuality r) - backTrim clipping (recQuality r)).
  { unfold frontTrim. destruct (clipsFront clipping); [|lia].
    pose proof (leadingSentinels_le
                  (firstn (List.length (recQuality r)
                           - backTrim clipping (recQuality r)) (recQuality r))) as H.
    rewrite length_firstn in H. lia. }
  unfold readOf. rewrite <- Hql.
  unfold getIdBytes, getUnclippedDataBytes, getUnclippedQualityBytes,
    getDataBytes, getQualityBytes.
  rewrite clip_localBuffer, !Cil, Cid, Cud, Cuq, Cul, Cdir, Hid1, !Hil1, Fs, Ff, Fd,
    Fdata, Fq, Ff.
  rewrite (span_sub ext _ (unclippedData r1) _ _ (unclippedLength r1)) by lia.
  rewrite (span_sub ext _ (unclippedQuality r1) _ _ (unclippedLength r1)) by lia.
  fold (getUnclippedDataBytes ext r1). fold (getUnclippedQualityBytes ext r1).
  rewrite HU, HQ, !Nat2Z.id.
  replace (Z.of_nat (1 + List.length (recId r)) - 1)%Z
    with (Z.of_nat (List.length (recId r))) by lia.
  rewrite wrap32_small by lia. rewrite Isrc.
  repeat split; try reflexivity. exact Hdir.
Qed.
(** At the start of a record that parses back, with the whole of it among
    the valid bytes, the sequential parser consumes exactly the bytes of the
    record and leaves the [Read] of the record: its identifier without the
    [@], its bases (in capitals, by the table, when one is lower case), its
    quality, and the view clipped in the mode asked for.  The third line
    and the line ends leave no trace. *)
Theorem sequential_parser_reads_record :
  forall pre r post validBytes readToUpdate isEOF clipping,
    parsesBack r = true ->
    hd NUL post <> CR ->
    List.length (render r) <= validBytes ->
    (Z.of_nat (List.length (render r)) < 2 ^ 32)%Z ->
    (anyLowerCase (recBases r) = true ->
     (Z.of_nat (List.length (recBases r)) <= localBufferLength)%Z) ->
    let buf := pre ++ render r ++ post in
    exists rd,
      getReadFromBuffer buf (List.length pre) validBytes readToUpdate isEOF clipping
        = Returns (List.length (render r), rd) /\
      readOf (bufferMemory buf) r clipping rd.
Proof.
  intros pre r post validBytes readToUpdate eof clipping Hpb Hpost Hv H32 Hfit buf.
  apply (parse_record pre r post); try assumption. reflexivity.
Qed.

Lemma length_render_pos : forall r, 0 < List.length (render r).
Proof. intros r. rewrite length_render. lia. Qed.

Lemma renderAll_split :
  forall before r after,
    renderAll (before ++ r :: after) =
    renderAll before ++ render r ++ renderAll after.
Proof.
  intros before r after. rewrite renderAll_app. reflexivity.
Qed.

Lemma hd_renderAll_not_CR :
  forall rs, hd NUL (renderAll rs) <> CR.
Proof.
  intros rs. destruct (hd_renderAll rs) as [-> | ->]; discriminate.
Qed.

(** [getNextRead] with the cursor at the start of a record of a file held
    in one batch. *)
Lemma getNextRead_record :
  forall before r after readToUpdate clipping file d,
    file = renderAll (before ++ r :: after) ->
    d = advance (List.length (renderAll before)) (wholeFile file) ->
    parsesBack r = true ->
    (Z.of_nat (List.length (render r)) < 2 ^ 32)%Z ->
    (anyLowerCase (recBases r) = true ->
     (Z.of_nat (List.length (recBases r)) <= localBufferLength)%Z) ->
    exists rd,
      getNextRead clipping d readToUpdate =
        Returns (true, rd, advance (List.length (render r)) d) /\
      readOf (bufferMemory file) r clipping rd.
Proof.
  intros before r after readToUpdate clipping file d Hfile Hd Hpb H32 Hfit.
  pose proof (renderAll_split before r after) as Hsplit. rewrite <- Hfile in Hsplit.
  pose proof (length_render_pos r) as Hpos.
  assert (Hlen : List.length file =
                 List.length (renderAll before) + List.length (render r)
                 + List.length (renderAll after))
    by (rewrite Hsplit, !length_app; lia).
  destruct (parse_record (renderAll before) r (renderAll after)
              (List.length file - List.length (renderAll before))
              readToUpdate true clipping file Hsplit Hpb
              (hd_renderAll_not_CR after))
    as (rd & Hparse & Hread); try assumption; try lia.
  exists rd. split; [|exact Hread].
  subst d. unfold getNextRead, wholeFile, advance, getData, isEOF.
  cbn [batchOffset batchValid batchBytes batchEOF Nat.add].
  assert (Hlt : (List.length (renderAll before) <? List.length file) = true)
    by (apply Nat.ltb_lt; lia).
  rewrite Hlt, Hparse. reflexivity.
Qed.

(** Reading a file of records held in one batch: with the cursor at the
    start of a record that parses back, whatever records stand before and
    behind it, [getNextRead] returns true with the [Read] of that record
    and moves the cursor to the record behind; with the cursor at the end
    of the file it returns false and leaves the [Read] as it was. *)
Theorem getNextRead_reads_records_in_order :
  forall before r after readToUpdate clipping,
    parsesBack r = true ->
    (Z.of_nat (List.length (render r)) < 2 ^ 32)%Z ->
    (anyLowerCase (recBases r) = true ->
     (Z.of_nat (List.length (recBases r)) <= localBufferLength)%Z) ->
    let file := renderAll (before ++ r :: after) in
    let d := advance (List.length (renderAll before)) (wholeFile file) in
    let atEnd := advance (List.length file) (wholeFile file) in
    (exists rd,
       getNextRead clipping d readToUpdate =
         Returns (true, rd,
                  advance (List.length (renderAll (before ++ [r]))) (wholeFile file)) /\
       readOf (bufferMemory file) r clipping rd) /\
    getNextRead clipping atEnd readToUpdate = Returns (false, readToUpdate, atEnd).
Proof.
  intros before r after readToUpdate clipping Hpb H32 Hfit file d atEnd.
  split.
  - destruct (getNextRead_record before r after readToUpdate clipping file d
                eq_refl eq_refl Hpb H32 Hfit) as (rd & Hn & Hread).
    exists rd. split; [|exact Hread]. rewrite Hn. do 2 f_equal.
    subst d. unfold wholeFile, advance. cbn [batchOffset batchValid batchBytes batchEOF].
    rewrite renderAll_app, length_app. unfold renderAll at 3. cbn [map concat].
    rewrite app_nil_r, Nat.add_0_l. reflexivity.
  - subst atEnd. unfold getNextRead, wholeFile, advance, getData, nextBatch.
    cbn [batchOffset batchValid batchBytes batchEOF Nat.add].
    rewrite Nat.ltb_irrefl. reflexivity.
Qed.

(** ** Proofs: re-initialised readers *)

(** Boundary recovery from byte [j] of a record of a file of records. *)
Lemma recovery_from_offset :
  forall before r after j,
    forallb wellFormedRecord (r :: after) = true ->
    forallb recoveryBasesOnly (r :: after) = true ->
    j < List.length (render r) ->
    (1 <= j <= List.length (recId r) -> nth j (render r) NUL <> "@"%char) ->
    let file := renderAll (before ++ r :: after) in
    let k := List.length (renderAll before) + j in
    skipPartialRecord file k (List.length file - k) =
    Some (nextRecordStart r after j).
Proof.
  intros before r after j Hwf Hbases Hj Hat file k.
  unfold nextRecordStart.
  pose proof (recoverable_all _ Hwf Hbases) as Hall.
  inversion Hall as [|? ? Hr Hafter]; subst.
  assert (Hfile : file = renderAll before ++ render r ++ renderAll after).
  { subst file. rewrite renderAll_app. reflexivity. }
  destruct j as [|j'].
  - (* the first byte of the record *)
    subst k. rewrite Nat.add_0_r. cbn [Nat.eqb].
    unfold skipPartialRecord.
    assert (Hhd : byteAt file (List.length (renderAll before)) = "@"%char).
    { rewrite Hfile, byteAt_app_0, render_app. reflexivity. }
    rewrite Hhd. cbn [Ascii.eqb Bool.eqb andb].
    pose proof (skipLoop_record_start
                  (List.length file - List.length (renderAll before))
                  (renderAll before) r (renderAll after)
                  (List.length (renderAll before))
                  (List.length file - List.length (renderAll before))
                  Hr (Nat.le_refl _)) as Hs.
    rewrite <- Hfile in Hs. rewrite Hs.
    + rewrite Nat.sub_diag. reflexivity.
    + rewrite Hfile, !length_app. lia.
  - (* a byte inside the record *)
    cbn [Nat.eqb].
    set (j := S j') in *.
    assert (Hxy : render r = firstn j (render r) ++ skipn j (render r))
      by (symmetry; apply firstn_skipn).
    assert (Hx : List.length (firstn j (render r)) = j)
      by (rewrite length_firstn; lia).
    assert (Hy : skipn j (render r) <> []).
    { intro E. apply (f_equal (@List.length ascii)) in E.
      rewrite length_skipn in E. cbn [List.length] in E. lia. }
    remember (firstn j (render r)) as x eqn:Ex.
    remember (skipn j (render r)) as y eqn:Ey.
    destruct (lines_split (recLines r) x y Hxy Hy)
      as (done & cur1 & cur2 & todo & E1 & E2 & E3).
    pose proof (recoverable_lines_noLF r Hr) as Hn.
    rewrite E1, forallb_app in Hn. cbn [forallb] in Hn.
    apply andb_true_iff in Hn. destruct Hn as [_ Hn].
    apply andb_true_iff in Hn. destruct Hn as [Hn _].
    rewrite noLF_app in Hn. apply andb_true_iff in Hn. destruct Hn as [_ Hcur2].
    assert (Hnth : nth j (render r) NUL = hd NUL (addLF cur2)).
    { rewrite Hxy, <- Hx, <- (Nat.add_0_r (List.length x)), app_nth2_plus, E3.
      destruct cur2; reflexivity. }
    assert (Hbuf : file = (renderAll before ++ x) ++ cur2 ++ LF ::
                          concat (map addLF todo) ++ renderAll after).
    { rewrite Hfile, Hxy, E3. rewrite <- !app_assoc. cbn [app]. reflexivity. }
    assert (Hk : k = List.length (renderAll before ++ x))
      by (subst k; rewrite length_app; lia).
    assert (Hres : List.length (render r) - j =
                   List.length cur2 + 1 + List.length (concat (map addLF todo))).
    { rewrite Hxy, length_app, Hx, E3, length_app. cbn [List.length]. lia. }
    rewrite Hk, Hres.
    assert (Hxlen : List.length (concat (map addLF done) ++ cur1) = j)
      by (rewrite <- E2; exact Hx).
    pose proof (rejecting_record_tail r after Hr) as Htail.
    destruct Hr as (Hid & Hplus & Hne & Hb & Hq).
    unfold recLines in E1.
    destruct done as [|d0 [|d1 [|d2 [|d3 more]]]]; cbn [app] in E1;
      injection E1 as E1; subst.
    + (* in the first line *)
      apply recover_from; [exact Hbuf | exact Hcur2 | exact Htail | | exact Hafter].
      intro Habs. exfalso. rewrite <- Hnth in Habs.
      cbn [map concat app] in Hxlen.
      destruct (Nat.le_gt_cases j (List.length (recId r))) as [Hle|Hgt].
      * apply Hat; [lia | exact Habs].
      * rewrite Hnth in Habs. revert Habs.
        change ("@"%char :: recId r ++ lineEnd (recCRLF r))
          with (("@"%char :: recId r) ++ lineEnd (recCRLF r)) in E1.
        symmetry in E1.
        apply app_eq_app in E1. destruct E1 as [m [[H1 H2]|[H1 H2]]].
        -- apply (suffix_of_lineEnd (recCRLF r) m). exact H2.
        -- apply (f_equal (@List.length ascii)) in H1.
           rewrite length_app in H1. cbn [List.length] in H1.
           destruct m as [|a m]; [|cbn [List.length] in H1; lia].
           simpl in H2. subst cur2.
           apply (suffix_of_lineEnd (recCRLF r) []). reflexivity.
    + (* in the line of the bases *)
      destruct Htail as (_ & _ & Htail).
      apply recover_from; [exact Hbuf | exact Hcur2 | exact Htail | | exact Hafter].
      intro Habs. exfalso.
      assert (HP : negb (Ascii.eqb (hd NUL (addLF cur2)) "@") = true).
      { apply (hd_addLF_suffix (fun c => negb (Ascii.eqb c "@"))
                 (recBases r ++ lineEnd (recCRLF r)) cur1 cur2);
          [symmetry; assumption | | reflexivity].
        rewrite forallb_app. apply andb_true_iff. split.
        - revert Hb. apply forallb_impl. intros c Hc.
          destruct (Ascii.eqb c "@") eqn:E; [|reflexivity].
          apply Ascii.eqb_eq in E. subst c. discriminate.
        - destruct (recCRLF r); reflexivity. }
      rewrite Habs in HP. discriminate.
    + (* in the line of the plus *)
      destruct Htail as (_ & _ & _ & _ & Htail).
      apply recover_from; [exact Hbuf | exact Hcur2 | exact Htail | | exact Hafter].
      intros _. cbn [map concat]. unfold addLF.
      rewrite app_nil_r, <- !app_assoc. cbn [app].
      apply acceptsRest_quality; [exact Hq | apply hd_renderAll_not_plus].
    + (* in the line of the quality *)
      apply recover_from; [exact Hbuf | exact Hcur2 | exact I | | exact Hafter].
      intros _. cbn [map concat app]. apply acceptsRest_renderAll.
    + destruct more; discriminate.
Qed.

Lemma advance_advance :
  forall m n text,
    advance n (advance m (wholeFile text)) = advance (m + n) (wholeFile text).
Proof.
  intros m n text. unfold advance, wholeFile.
  cbn [batchOffset batchValid batchBytes batchEOF].
  rewrite Nat.add_0_l. reflexivity.
Qed.

Lemma getData_advance :
  forall m text,
    m < List.length text ->
    getData (advance m (wholeFile text)) = Some (text, m, List.length text - m).
Proof.
  intros m text H. unfold getData, advance, wholeFile.
  cbn [batchOffset batchValid batchBytes batchEOF Nat.add].
  apply Nat.ltb_lt in H. rewrite H. reflexivity.
Qed.

(** In a file of well-formed records whose bases are all among the nine
    symbols boundary recovery steps over (A, C, G, T, N, a, c, g, t), a
    reader re-initialised with a starting offset that is not zero, at a
    byte inside a record that is neither its first byte nor an [@] of its
    identifier, stands at the start of the record behind; and the first
    [getNextRead] returns the [Read] of that record, when it parses back
    and its upper case copy, if one is made, fits the local buffer.  The
    record the reader was started in is left to the reader of the range
    before.  Records with other bases, which recovery may pass over, are
    not spoken of. *)
Theorem reinit_then_getNextRead_reads_next_record :
  forall before r next after j startingOffset readToUpdate clipping,
    forallb wellFormedRecord (r :: next :: after) = true ->
    forallb recoveryBasesOnly (r :: next :: after) = true ->
    0 < j < List.length (render r) ->
    (j <= List.length (recId r) -> nth j (render r) NUL <> "@"%char) ->
    startingOffset <> 0%Z ->
    parsesBack next = true ->
    (Z.of_nat (List.length (render next)) < 2 ^ 32)%Z ->
    (anyLowerCase (recBases next) = true ->
     (Z.of_nat (List.length (recBases next)) <= localBufferLength)%Z) ->
    let file := renderAll (before ++ r :: next :: after) in
    let d := advance (List.length (renderAll before) + j) (wholeFile file) in
    let d' := advance (List.length (renderAll (before ++ [r]))) (wholeFile file) in
    FASTQReader_reinit startingOffset d = Returns d' /\
    exists rd,
      getNextRead clipping d' readToUpdate =
        Returns (true, rd, advance (List.length (render next)) d') /\
      readOf (bufferMemory file) next clipping rd.
Proof.
  intros before r next after j startingOffset readToUpdate clipping
         Hwf Hbases Hj Hat Hso Hpb H32 Hfit file d d'.
  pose proof (recovery_from_offset before r (next :: after) j Hwf Hbases
                (proj2 Hj) (fun H => Hat (proj2 H))) as Hskip.
  cbv zeta in Hskip. fold file in Hskip.
  unfold nextRecordStart in Hskip.
  replace (j =? 0) with false in Hskip by (symmetry; apply Nat.eqb_neq; lia).
  assert (Hlen : List.length file =
                 List.length (renderAll before) + List.length (render r)
                 + List.length (renderAll (next :: after))).
  { subst file. rewrite renderAll_split, !length_app. lia. }
  assert (Hd' : d' = advance (List.length (render r) - j) d).
  { subst d d'. rewrite advance_advance. f_equal.
    rewrite renderAll_app, length_app. unfold renderAll at 2. cbn [map concat].
    rewrite app_nil_r. lia. }
  split.
  - unfold FASTQReader_reinit, skipPartialRecordIn. subst d.
    rewrite getData_advance by lia.
    apply Z.eqb_neq in Hso. rewrite Hso. cbn [negb].
    rewrite Hskip. cbn [bind]. rewrite Hd'. reflexivity.
  - apply (getNextRead_record (before ++ [r]) next after readToUpdate clipping file d');
      try assumption; try reflexivity.
    subst file. rewrite <- app_assoc. reflexivity.
Qed.
(** ** Proofs: the paired readers on records *)

Lemma idEndsWith_endsIn :
  forall ext r c1 c2,
    (0 <= idLength r)%Z ->
    idEndsWith ext r c1 c2 = endsIn (getIdBytes ext r) c1 c2.
Proof.
  intros ext r c1 c2 H0. unfold idEndsWith, endsIn, getIdBytes, span, idByte.
  destruct (Z.to_nat (idLength r)) as [|[|k]] eqn:E.
  - replace (idLength r <? 2)%Z with true by (symmetry; apply Z.ltb_lt; lia).
    reflexivity.
  - replace (idLength r <? 2)%Z with true by (symmetry; apply Z.ltb_lt; lia).
    reflexivity.
  - replace (idLength r <? 2)%Z with false by (symmetry; apply Z.ltb_ge; lia).
    rewrite !seq_S, !map_app, !rev_app_distr. cbn [map rev app negb andb Nat.add].
    replace (Z.of_nat k) with (idLength r - 2)%Z by lia.
    replace (Z.of_nat (S k)) with (idLength r - 1)%Z by lia.
    reflexivity.
Qed.

Lemma readOf_idEndsWith :
  forall ext r clipping rd c1 c2,
    readOf ext r clipping rd ->
    idEndsWith ext rd c1 c2 = endsIn (recId r) c1 c2.
Proof.
  intros ext r clipping rd c1 c2 (Hl & Hid & _).
  rewrite idEndsWith_endsIn by lia. rewrite Hid. reflexivity.
Qed.

(** The interleaved reader with the cursor at the start of two records
    that parse back: the identifier of the first has to end in [/1] and
    that of the second in [/2], or the process ends; when they do, the call
    returns true with the [Read]s of the two records and moves the cursor
    past both. *)
Theorem interleaved_reader_pairs_records :
  forall before r1 r2 after read0 read1 clipping,
    parsesBack r1 = true -> parsesBack r2 = true ->
    (Z.of_nat (List.length (render r1)) < 2 ^ 32)%Z ->
    (Z.of_nat (List.length (render r2)) < 2 ^ 32)%Z ->
    (anyLowerCase (recBases r1) = true ->
     (Z.of_nat (List.length (recBases r1)) <= localBufferLength)%Z) ->
    (anyLowerCase (recBases r2) = true ->
     (Z.of_nat (List.length (recBases r2)) <= localBufferLength)%Z) ->
    let file := renderAll (before ++ r1 :: r2 :: after) in
    let ext := bufferMemory file in
    let d := advance (List.length (renderAll before)) (wholeFile file) in
    let result := PairedInterleaved_getNextReadPair clipping d read0 read1 in
    (endsIn (recId r1) "/" "1" = false -> result = SoftExit FirstNotSlash1) /\
    (endsIn (recId r1) "/" "1" = true -> endsIn (recId r2) "/" "2" = false ->
     result = SoftExit SecondNotSlash2) /\
    (endsIn (recId r1) "/" "1" = true -> endsIn (recId r2) "/" "2" = true ->
     exists rd1 rd2,
       result =
         Returns (true, rd1, rd2,
                  advance (List.length (render r1) + List.length (render r2)) d) /\
       readOf ext r1 clipping rd1 /\ readOf ext r2 clipping rd2).
Proof.
  intros before r1 r2 after read0 read1 clipping P1 P2 S1 S2 F1 F2 file ext d result.
  pose proof (length_render_pos r1) as Hp1. pose proof (length_render_pos r2) as Hp2.
  assert (Hsplit : file = renderAll before ++ render r1 ++ renderAll (r2 :: after))
    by (subst file; apply renderAll_split).
  assert (Hsplit2 : file = (renderAll before ++ render r1) ++ render r2 ++ renderAll after).
  { rewrite Hsplit. unfold renderAll at 2. cbn [map concat].
    fold (renderAll after). rewrite <- app_assoc. reflexivity. }
  assert (Hlen : List.length file =
                 List.length (renderAll before) + List.length (render r1)
                 + List.length (render r2) + List.length (renderAll after))
    by (rewrite Hsplit2, !length_app; lia).
  assert (Hd : getData d =
               Some (file, List.length (renderAll before),
                     List.length file - List.length (renderAll before)))
    by (subst d; apply getData_advance; lia).
  assert (Hin : batchInUse d = d) by (unfold batchInUse; rewrite Hd; reflexivity).
  destruct (parse_record (renderAll before) r1 (renderAll (r2 :: after))
              (List.length file - List.length (renderAll before))
              read0 (isEOF d) clipping file Hsplit P1 (hd_renderAll_not_CR _))
    as (rd1 & Hparse1 & Hread1); try assumption; try lia.
  destruct (parse_record (renderAll before ++ render r1) r2 (renderAll after)
              (List.length file - List.length (renderAll before)
               - List.length (render r1))
              read1 (isEOF d) clipping file Hsplit2 P2 (hd_renderAll_not_CR _))
    as (rd2 & Hparse2 & Hread2); try assumption; try lia.
  rewrite length_app in Hparse2.
  assert (Hpair := PairedInterleaved_pair clipping d read0 read1 file
                     (List.length (renderAll before))
                     (List.length file - List.length (renderAll before))
                     (List.length (render r1)) rd1 (List.length (render r2)) rd2).
  rewrite Hin in Hpair. specialize (Hpair Hd Hparse1).
  assert (Hne : List.length (render r1)
                <> List.length file - List.length (renderAll before)) by lia.
  specialize (Hpair Hne Hparse2).
  rewrite (readOf_idEndsWith _ _ _ _ _ _ Hread1),
          (readOf_idEndsWith _ _ _ _ _ _ Hread2) in Hpair.
  subst result. rewrite Hpair.
  split; [|split].
  - intros ->. reflexivity.
  - intros -> ->. reflexivity.
  - intros -> ->. exists rd1, rd2.
    split; [reflexivity | split; assumption].
Qed.

Lemma getNextRead_atEnd :
  forall clipping text readToUpdate,
    let atEnd := advance (List.length text) (wholeFile text) in
    getNextRead clipping atEnd readToUpdate = Returns (false, readToUpdate, atEnd).
Proof.
  intros clipping text readToUpdate atEnd. subst atEnd.
  unfold getNextRead, wholeFile, advance, getData, nextBatch.
  cbn [batchOffset batchValid batchBytes batchEOF Nat.add].
  rewrite Nat.ltb_irrefl. reflexivity.
Qed.

(** The reader of two files, each held in one batch, the cursors at the
    start of a record that parses back or at the end of the file: with a
    record in each file the call returns true with the [Read]s of the two
    records and moves each cursor by its record; at the end of both files
    it returns false; with a record in one file and the other at its end,
    as when the files differ in their number of records, the process
    ends. *)
Theorem paired_reader_reads_both_files :
  forall before0 r0 after0 before1 r1 after1 read0 read1 clipping,
    parsesBack r0 = true -> parsesBack r1 = true ->
    (Z.of_nat (List.length (render r0)) < 2 ^ 32)%Z ->
    (Z.of_nat (List.length (render r1)) < 2 ^ 32)%Z ->
    (anyLowerCase (recBases r0) = true ->
     (Z.of_nat (List.length (recBases r0)) <= localBufferLength)%Z) ->
    (anyLowerCase (recBases r1) = true ->
     (Z.of_nat (List.length (recBases r1)) <= localBufferLength)%Z) ->
    let file0 := renderAll (before0 ++ r0 :: after0) in
    let file1 := renderAll (before1 ++ r1 :: after1) in
    let d0 := advance (List.length (renderAll before0)) (wholeFile file0) in
    let d1 := advance (List.length (renderAll before1)) (wholeFile file1) in
    let end0 := advance (List.length file0) (wholeFile file0) in
    let end1 := advance (List.length file1) (wholeFile file1) in
    (exists rd0 rd1,
       PairedFASTQReader_getNextReadPair clipping d0 d1 read0 read1 =
         Returns (true, rd0, rd1,
                  advance (List.length (render r0)) d0,
                  advance (List.length (render r1)) d1) /\
       readOf (bufferMemory file0) r0 clipping rd0 /\
       readOf (bufferMemory file1) r1 clipping rd1) /\
    PairedFASTQReader_getNextReadPair clipping d0 end1 read0 read1 =
      SoftExit FilesDontMatch /\
    PairedFASTQReader_getNextReadPair clipping end0 d1 read0 read1 =
      SoftExit FilesDontMatch /\
    PairedFASTQReader_getNextReadPair clipping end0 end1 read0 read1 =
      Returns (false, read0, read1, end0, end1).
Proof.
  intros before0 r0 after0 before1 r1 after1 read0 read1 clipping
         P0 P1 S0 S1 F0 F1 file0 file1 d0 d1 end0 end1.
  destruct (getNextRead_record before0 r0 after0 read0 clipping file0 d0
              eq_refl eq_refl P0 S0 F0) as (rd0 & H0 & Hr0).
  destruct (getNextRead_record before1 r1 after1 read1 clipping file1 d1
              eq_refl eq_refl P1 S1 F1) as (rd1 & H1 & Hr1).
  pose proof (getNextRead_atEnd clipping file0 read0) as E0.
  pose proof (getNextRead_atEnd clipping file1 read1) as E1.
  cbv zeta in E0, E1. fold end0 in E0. fold end1 in E1.
  unfold PairedFASTQReader_getNextReadPair.
  rewrite H0, H1, E0, E1. cbn [bind Bool.eqb negb].
  split; [|split; [|split]]; try reflexivity.
  exists rd0, rd1. split; [reflexivity | split; assumption].
Qed.

(** The interleaved reader re-initialised with the cursor at the start of a
    record that parses back: a record whose identifier ends in [/1] is
    where reading starts; one whose identifier ends in [/2] is the second
    half of a pair and is passed over, provided a record follows and its
    identifier ends in [/1]; in every other case the process ends. *)
Theorem interleaved_reinit_on_records :
  forall before r after clipping,
    parsesBack r = true ->
    (Z.of_nat (List.length (render r)) < 2 ^ 32)%Z ->
    (anyLowerCase (recBases r) = true ->
     (Z.of_nat (List.length (recBases r)) <= localBufferLength)%Z) ->
    let file := renderAll (before ++ r :: after) in
    let d := advance (List.length (renderAll before)) (wholeFile file) in
    let result := PairedInterleaved_reinit clipping 0 d in
    (endsIn (recId r) "/" "1" = true -> result = Returns d) /\
    (endsIn (recId r) "/" "1" = false -> endsIn (recId r) "/" "2" = false ->
     result = SoftExit NotSlash1OrSlash2) /\
    (endsIn (recId r) "/" "2" = true -> after = [] ->
     result = SoftExit EndsWithFirstHalf) /\
    (endsIn (recId r) "/" "2" = true ->
     forall r2 rest,
       after = r2 :: rest ->
       parsesBack r2 = true ->
       (Z.of_nat (List.length (render r2)) < 2 ^ 32)%Z ->
       (anyLowerCase (recBases r2) = true ->
        (Z.of_nat (List.length (recBases r2)) <= localBufferLength)%Z) ->
       result =
         if endsIn (recId r2) "/" "1"
         then Returns (advance (List.length (render r)) d)
         else SoftExit FirstOfPairNotSlash1).
Proof.
  intros before r after clipping P S F file d result.
  pose proof (length_render_pos r) as Hp.
  assert (Hsplit : file = renderAll before ++ render r ++ renderAll after)
    by (subst file; apply renderAll_split).
  assert (Hlen : List.length file =
                 List.length (renderAll before) + List.length (render r)
                 + List.length (renderAll after))
    by (rewrite Hsplit, !length_app; lia).
  assert (Hd : getData d =
               Some (file, List.length (renderAll before),
                     List.length file - List.length (renderAll before)))
    by (subst d; apply getData_advance; lia).
  destruct (parse_record (renderAll before) r (renderAll after)
              (List.length file - List.length (renderAll before))
              Read_new (isEOF d) clipping file Hsplit P (hd_renderAll_not_CR _))
    as (rd & Hparse & Hread); try assumption; try lia.
  pose proof (PairedInterleaved_reinit_peek clipping 0%Z d _ d file _ _ _ rd
                Hd eq_refl Hd Hparse) as Hpeek.
  rewrite !(readOf_idEndsWith _ _ _ _ _ _ Hread) in Hpeek.
  fold result in Hpeek.
  assert (Hadv : advance (List.length (render r)) d =
                 advance (List.length (renderAll before) + List.length (render r))
                         (wholeFile file))
    by (subst d; apply advance_advance).
  split; [|split; [|split]].
  - intros H1. rewrite Hpeek, H1.
    replace (endsIn (recId r) "/" "2") with false; [reflexivity|].
    symmetry. unfold endsIn in *. destruct (rev (recId r)) as [|b [|a l]];
      try reflexivity.
    apply andb_prop in H1. destruct H1 as [_ H1]. apply Ascii.eqb_eq in H1.
    subst b. rewrite andb_false_r. reflexivity.
  - intros H1 H2. rewrite Hpeek, H1, H2. reflexivity.
  - intros H2 ->.
    assert (H1 : endsIn (recId r) "/" "1" = false).
    { unfold endsIn in *. destruct (rev (recId r)) as [|b [|a l]]; try reflexivity.
      apply andb_prop in H2. destruct H2 as [_ H2]. apply Ascii.eqb_eq in H2.
      subst b. rewrite andb_false_r. reflexivity. }
    rewrite Hpeek, H1, H2. cbn [negb andb].
    rewrite Hadv. unfold getData, advance, wholeFile.
    cbn [batchOffset batchValid batchBytes batchEOF Nat.add].
    replace (List.length (renderAll before) + List.length (render r)
             <? List.length file) with false; [reflexivity|].
    symmetry. apply Nat.ltb_ge.
    change (renderAll []) with (@nil ascii) in Hlen. cbn [List.length] in Hlen. lia.
  - intros H2 r2 rest -> P2 S2 F2.
    assert (H1 : endsIn (recId r) "/" "1" = false).
    { unfold endsIn in *. destruct (rev (recId r)) as [|b [|a l]]; try reflexivity.
      apply andb_prop in H2. destruct H2 as [_ H2]. apply Ascii.eqb_eq in H2.
      subst b. rewrite andb_false_r. reflexivity. }
    pose proof (length_render_pos r2) as Hp2.
    assert (Hsplit2 : file = (renderAll before ++ render r) ++ render r2 ++ renderAll rest).
    { rewrite Hsplit. unfold renderAll at 2. cbn [map concat].
      fold (renderAll rest). rewrite <- app_assoc. reflexivity. }
    assert (Hlen2 : List.length file =
                    List.length (renderAll before) + List.length (render r)
                    + List.length (render r2) + List.length (renderAll rest))
      by (rewrite Hsplit2, !length_app; lia).
    assert (Hd2 : getData (advance (List.length (render r)) d) =
                  Some (file, List.length (renderAll before) + List.length (render r),
                        List.length file
                        - (List.length (renderAll before) + List.length (render r))))
      by (rewrite Hadv; apply getData_advance; lia).
    destruct (parse_record (renderAll before ++ render r) r2 (renderAll rest)
                (List.length file
                 - (List.length (renderAll before) + List.length (render r)))
                rd (isEOF (advance (List.length (render r)) d)) clipping file
                Hsplit2 P2 (hd_renderAll_not_CR _))
      as (rd2 & Hparse2 & Hread2); try assumption; try lia.
    rewrite length_app in Hparse2.
    rewrite Hpeek, H1, H2. cbn [negb andb].
    rewrite Hd2, Hparse2. cbn [bind].
    rewrite (readOf_idEndsWith _ _ _ _ _ _ Hread2). reflexivity.
Qed.

(** ** Proofs: the writer *)

Lemma upToNUL_noNUL : forall l, noNUL l = true -> upToNUL l = l.
Proof.
  induction l as [|c t IH]; intros H; [reflexivity|].
  cbn [noNUL forallb] in H. apply andb_prop in H. destruct H as [Hc Ht].
  cbn [upToNUL]. apply negb_true_iff in Hc. rewrite Hc, (IH Ht). reflexivity.
Qed.

Lemma forallb_noNUL :
  forall (P : ascii -> bool) l,
    P NUL = false -> forallb P l = true -> noNUL l = true.
Proof.
  intros P l HP H. unfold noNUL. apply forallb_forall. intros c Hc.
  rewrite forallb_forall in H. specialize (H c Hc).
  destruct (Ascii.eqb c NUL) eqn:E; [|reflexivity].
  apply Ascii.eqb_eq in E. subst c. congruence.
Qed.

Lemma parsesBack_parts :
  forall r,
    parsesBack r = true ->
    noLF (recId r) = true /\ noLF (recPlus r) = true /\
    forallb isSupportedBase (recBases r) = true /\
    forallb isPrintable (recQuality r) = true /\
    List.length (recQuality r) = List.length (recBases r) /\
    recBases r <> [].
Proof.
  intros r H. unfold parsesBack, wellFormedRecord in H.
  apply andb_prop in H. destruct H as [H _].
  apply andb_prop in H. destruct H as [H Hlen].
  apply andb_prop in H. destruct H as [H Hq].
  apply andb_prop in H. destruct H as [H Hb].
  apply andb_prop in H. destruct H as [H Hne].
  apply andb_prop in H. destruct H as [Hid Hpl].
  apply Nat.eqb_eq in Hlen.
  repeat split; try assumption.
  intros E. rewrite E in Hne. discriminate.
Qed.

(** What [writeRead] stores when the text fits the room left: the lines of
    the record of the [Read], be its clipped view empty or not. *)
Lemma writeRead_text :
  forall flushBuffer ext w rd,
    let R := recordOf ext rd in
    noNUL (getIdBytes ext rd) = true ->
    noNUL (getDataBytes ext rd) = true ->
    noNUL (getQualityBytes ext rd) = true ->
    (0 <= idLength rd)%Z -> (0 <= dataLength rd)%Z ->
    (idLength rd + 2 * (dataLength rd + 2) + 10 < 2 ^ 31)%Z ->
    bufferSize w = Z.of_nat (List.length (buffer w)) ->
    (bufferSize w < 2 ^ 64)%Z ->
    (0 <= bufferOffset w)%Z ->
    (idLength rd + 2 * (dataLength rd + 2) + 10 < bufferSize w - bufferOffset w)%Z ->
    exists post,
      writeRead flushBuffer ext w rd =
        Some (true,
              mkFASTQWriter
                (firstn (Z.to_nat (bufferOffset w)) (buffer w) ++ render R ++ NUL :: post)
                (bufferSize w)
                (bufferOffset w + Z.of_nat (List.length (render R)))) /\
      (Z.of_nat (List.length (render R)) =
       idLength rd + 2 * dataLength rd + 6)%Z.
Proof.
  intros flushBuffer ext w rd R Hid Hbs Hqp Hil Hdl H31 Hsize H64 Hoff Hroom.
  assert (LI : List.length (getIdBytes ext rd) = Z.to_nat (idLength rd))
    by apply span_length.
  assert (LD : List.length (getDataBytes ext rd) = Z.to_nat (dataLength rd))
    by apply span_length.
  assert (LQ : List.length (getQualityBytes ext rd) = Z.to_nat (dataLength rd))
    by apply span_length.
  assert (Htext : recordText ext rd = Some (render R)).
  { unfold recordText.
    replace (idLength rd <? 2 ^ 31)%Z with true by (symmetry; apply Z.ltb_lt; lia).
    replace (dataLength rd <? 2 ^ 31)%Z with true by (symmetry; apply Z.ltb_lt; lia).
    cbn [andb]. f_equal.
    rewrite (upToNUL_noNUL _ Hid).
    rewrite (upToNUL_noNUL _ Hbs), (upToNUL_noNUL _ Hqp).
    rewrite render_eq. subst R.
    cbn [recordOf recId recBases recPlus recQuality recCRLF lineEnd].
    rewrite !app_nil_r. cbn [app]. rewrite <- ?app_assoc. cbn [app]. reflexivity. }
  assert (Hlen : (Z.of_nat (List.length (render R)) =
                  idLength rd + 2 * dataLength rd + 6)%Z).
  { rewrite length_render. subst R.
    cbn [recordOf recId recBases recPlus recQuality recCRLF lineEnd List.length].
    rewrite LI, LD, LQ. lia. }
  eexists. split; [|exact Hlen].
  unfold writeRead. rewrite Htext.
  rewrite (wrap32_small (dataLength rd + 2)) by lia.
  rewrite (wrap32_small (2 * (dataLength rd + 2))) by lia.
  rewrite (wrap32_small (idLength rd + 2 * (dataLength rd + 2))) by lia.
  rewrite (wrap32_small (idLength rd + 2 * (dataLength rd + 2) + 10)) by lia.
  assert (W : wrap64 (bufferSize w - bufferOffset w) = (bufferSize w - bufferOffset w)%Z)
    by (unfold wrap64; apply Z.mod_small; lia).
  rewrite W.
  replace (bufferSize w - bufferOffset w <=? idLength rd + 2 * (dataLength rd + 2) + 10)%Z
    with false by (symmetry; apply Z.leb_gt; lia).
  rewrite W. unfold snprintf.
  replace (Z.of_nat (List.length (render R)) <? 2 ^ 31)%Z with true
    by (symmetry; apply Z.ltb_lt; lia).
  cbn [negb].
  replace (bufferSize w - bufferOffset w =? 0)%Z with false
    by (symmetry; apply Z.eqb_neq; lia).
  rewrite firstn_all2 by lia.
  rewrite length_app. cbn [List.length].
  replace (0 <=? bufferOffset w)%Z with true by (symmetry; apply Z.leb_le; lia).
  replace (bufferOffset w + Z.of_nat (List.length (render R) + 1)
           <=? Z.of_nat (List.length (buffer w)))%Z
    with true by (symmetry; apply Z.leb_le; lia).
  cbn [andb].
  replace (wrap64 (bufferOffset w + Z.of_nat (List.length (render R))))
    with (bufferOffset w + Z.of_nat (List.length (render R)))%Z
    by (unfold wrap64; symmetry; apply Z.mod_small; lia).
  rewrite <- app_assoc. cbn [app]. reflexivity.
Qed.

(** What [writeRead] stores of a [Read] that makes a record that parses
    back. *)
Lemma writeRead_stores :
  forall flushBuffer ext w rd,
    let R := recordOf ext rd in
    parsesBack R = true ->
    noNUL (getIdBytes ext rd) = true ->
    (0 <= idLength rd)%Z -> (0 <= dataLength rd)%Z ->
    (idLength rd + 2 * (dataLength rd + 2) + 10 < 2 ^ 31)%Z ->
    bufferSize w = Z.of_nat (List.length (buffer w)) ->
    (bufferSize w < 2 ^ 64)%Z ->
    (0 <= bufferOffset w)%Z ->
    (idLength rd + 2 * (dataLength rd + 2) + 10 < bufferSize w - bufferOffset w)%Z ->
    exists post,
      writeRead flushBuffer ext w rd =
        Some (true,
              mkFASTQWriter
                (firstn (Z.to_nat (bufferOffset w)) (buffer w) ++ render R ++ NUL :: post)
                (bufferSize w)
                (bufferOffset w + Z.of_nat (List.length (render R)))) /\
      (Z.of_nat (List.length (render R)) =
       idLength rd + 2 * dataLength rd + 6)%Z.
Proof.
  intros flushBuffer ext w rd R Hpb Hid Hil Hdl H31 Hsize H64 Hoff Hroom.
  destruct (parsesBack_parts R Hpb) as (_ & _ & Hbs & Hqp & _).
  cbn [R recordOf recBases recQuality] in Hqp, Hbs.
  apply writeRead_text; try assumption.
  - apply (forallb_noNUL isSupportedBase); [reflexivity | exact Hbs].
  - apply (forallb_noNUL isPrintable); [reflexivity | exact Hqp].
Qed.

(** A [Read] written by [writeRead] reads back when its identifier and its
    clipped view make a record that parses back: no NUL and no newline in
    the identifier, nor a carriage return at its end, at least one base
    left in the view, the bases and the quality bytes among those the
    parser lets a line start with.  Then, when the text of the record fits
    the room left in the buffer, [writeRead] stores, at the offset and with
    nothing before it changed, the four lines of the record of the [Read]
    (its identifier and the bases and the quality of its clipped view), and
    moves the offset by their length; and the sequential parser, set on
    these bytes, returns the [Read] of this very record.  What was clipped
    of the [Read] is not written. *)
Theorem writeRead_round_trip :
  forall flushBuffer ext w rd,
    let R := recordOf ext rd in
    parsesBack R = true ->
    noNUL (getIdBytes ext rd) = true ->
    (0 <= idLength rd)%Z -> (0 <= dataLength rd)%Z ->
    (idLength rd + 2 * (dataLength rd + 2) + 10 < 2 ^ 31)%Z ->
    (anyLowerCase (getDataBytes ext rd) = true ->
     (dataLength rd <= localBufferLength)%Z) ->
    bufferSize w = Z.of_nat (List.length (buffer w)) ->
    (bufferSize w < 2 ^ 64)%Z ->
    (0 <= bufferOffset w)%Z ->
    (idLength rd + 2 * (dataLength rd + 2) + 10 < bufferSize w - bufferOffset w)%Z ->
    exists w',
      writeRead flushBuffer ext w rd = Some (true, w') /\
      bufferSize w' = bufferSize w /\
      bufferOffset w' = (bufferOffset w + Z.of_nat (List.length (render R)))%Z /\
      firstn (Z.to_nat (bufferOffset w)) (buffer w') =
        firstn (Z.to_nat (bufferOffset w)) (buffer w) /\
      firstn (List.length (render R)) (skipn (Z.to_nat (bufferOffset w)) (buffer w')) =
        render R /\
      forall readToUpdate isEOF clipping,
        exists rd',
          getReadFromBuffer (buffer w') (Z.to_nat (bufferOffset w))
                            (List.length (render R)) readToUpdate isEOF clipping
            = Returns (List.length (render R), rd') /\
          readOf (bufferMemory (buffer w')) R clipping rd'.
Proof.
  intros flushBuffer ext w rd R Hpb Hid Hil Hdl H31 Hfit Hsize H64 Hoff Hroom.
  destruct (writeRead_stores flushBuffer ext w rd Hpb Hid Hil Hdl H31 Hsize H64
              Hoff Hroom) as (post & Hw & Hlen).
  fold R in Hw, Hlen.
  set (pre := firstn (Z.to_nat (bufferOffset w)) (buffer w)) in *.
  assert (Lpre : List.length pre = Z.to_nat (bufferOffset w)).
  { subst pre. rewrite length_firstn. lia. }
  eexists. split; [exact Hw|].
  cbn [bufferSize bufferOffset buffer].
  split; [reflexivity|]. split; [reflexivity|].
  split; [|split].
  - rewrite <- Lpre, firstn_app, Nat.sub_diag, firstn_all. cbn [firstn].
    apply app_nil_r.
  - rewrite <- Lpre, skipn_app, skipn_all, Nat.sub_diag. cbn [skipn app].
    rewrite firstn_app, Nat.sub_diag, firstn_all. cbn [firstn]. apply app_nil_r.
  - intros readToUpdate eof clipping. rewrite <- Lpre.
    apply (parse_record pre R (NUL :: post)); try reflexivity; try assumption;
      try lia.
    + discriminate.
    + intros Hlow. subst R. cbn [recordOf recBases] in *.
      specialize (Hfit Hlow).
      assert (LD : List.length (getDataBytes ext rd) = Z.to_nat (dataLength rd))
        by apply span_length.
      lia.
Qed.

(** A [Read] whose clipped view is empty, as clipping leaves a read whose
    quality is all sentinels, does not read back: [writeRead] writes its
    identifier line, an empty line for the bases, the line of the [+] and
    an empty line for the quality, and the sequential parser, set on these
    bytes, ends the process at the blank line. *)
Theorem writeRead_of_empty_view_reads_back_as_blank_line :
  forall flushBuffer ext w rd,
    dataLength rd = 0%Z ->
    noNUL (getIdBytes ext rd) = true ->
    noLF (getIdBytes ext rd) = true ->
    (0 <= idLength rd)%Z ->
    (idLength rd + 14 < 2 ^ 31)%Z ->
    bufferSize w = Z.of_nat (List.length (buffer w)) ->
    (bufferSize w < 2 ^ 64)%Z ->
    (0 <= bufferOffset w)%Z ->
    (idLength rd + 14 < bufferSize w - bufferOffset w)%Z ->
    let text := "@"%char :: getIdBytes ext rd ++ [LF; LF; "+"%char; LF; LF] in
    exists w',
      writeRead flushBuffer ext w rd = Some (true, w') /\
      bufferOffset w' = (bufferOffset w + Z.of_nat (List.length text))%Z /\
      firstn (Z.to_nat (bufferOffset w)) (buffer w') =
        firstn (Z.to_nat (bufferOffset w)) (buffer w) /\
      firstn (List.length text) (skipn (Z.to_nat (bufferOffset w)) (buffer w')) = text /\
      forall readToUpdate isEOF clipping,
        getReadFromBuffer (buffer w') (Z.to_nat (bufferOffset w))
                          (List.length text) readToUpdate isEOF clipping
          = SoftExit BlankLine.
Proof.
  intros flushBuffer ext w rd Hdl Hid Hlf Hil H31 Hsize H64 Hoff Hroom text.
  assert (HD : getDataBytes ext rd = []).
  { unfold getDataBytes, span. rewrite Hdl. reflexivity. }
  assert (HQ : getQualityBytes ext rd = []).
  { unfold getQualityBytes, span. rewrite Hdl. reflexivity. }
  destruct (writeRead_text flushBuffer ext w rd) as (post & Hw & Hlen);
    try assumption; try (rewrite ?HD, ?HQ; reflexivity); try lia.
  assert (Htext : render (recordOf ext rd) = text).
  { rewrite render_eq. unfold recordOf.
    cbn [recId recBases recPlus recQuality recCRLF lineEnd].
    rewrite HD, HQ, !app_nil_r. subst text. cbn [app].
    rewrite <- ?app_assoc. reflexivity. }
  rewrite Htext in Hw, Hlen.
  set (pre := firstn (Z.to_nat (bufferOffset w)) (buffer w)) in *.
  assert (Lpre : List.length pre = Z.to_nat (bufferOffset w)).
  { subst pre. rewrite length_firstn. lia. }
  eexists. split; [exact Hw|].
  cbn [bufferSize bufferOffset buffer].
  split; [reflexivity|].
  split; [|split].
  - rewrite <- Lpre, firstn_app, Nat.sub_diag, firstn_all. cbn [firstn].
    apply app_nil_r.
  - rewrite <- Lpre, skipn_app, skipn_all, Nat.sub_diag. cbn [skipn app].
    rewrite firstn_app, Nat.sub_diag, firstn_all. cbn [firstn]. apply app_nil_r.
  - intros readToUpdate eof clipping. rewrite <- Lpre.
    set (l0 := "@"%char :: getIdBytes ext rd).
    assert (E0 : pre ++ text ++ NUL :: post =
                 pre ++ l0 ++ LF :: (LF :: "+"%char :: LF :: LF :: NUL :: post)).
    { subst text l0. cbn [app]. rewrite <- ?app_assoc. reflexivity. }
    assert (E1 : pre ++ text ++ NUL :: post =
                 (pre ++ l0 ++ [LF]) ++ [] ++ LF :: ("+"%char :: LF :: LF :: NUL :: post)).
    { rewrite E0. cbn [app]. rewrite <- !app_assoc. reflexivity. }
    assert (Ltext : List.length text = List.length l0 + 5).
    { subst text l0. cbn [List.length]. rewrite length_app. cbn [List.length]. lia. }
    unfold getReadFromBuffer, nLinesPerFastqQuery. cbn [scanLines].
    rewrite (scanLine_line _ pre l0 _ (List.length pre) (List.length text) eof 0
               (List.length pre) E0 eq_refl);
      [ | lia
        | subst l0;
          change ("@"%char :: getIdBytes ext rd) with (["@"%char] ++ getIdBytes ext rd);
          rewrite noLF_app, Hlf; reflexivity
        | discriminate | reflexivity | lia | lia ].
    cbn [bind hd].
    replace (Ascii.eqb LF CR) with false by reflexivity.
    unfold scanLine.
    replace (List.length pre + List.length l0 + 1)
      with (List.length (pre ++ l0 ++ [LF]))
      by (rewrite !length_app; cbn [List.length]; lia).
    rewrite E1, strnchr_line; [ | reflexivity | ].
    + cbn [List.length]. rewrite Nat.add_0_r, Nat.sub_diag. reflexivity.
    + cbn [List.length]. rewrite !length_app. cbn [List.length]. lia.
Qed.

(** ** Proofs: the clipping a CIGAR string records *)

Local Open Scope Z_scope.

Lemma holdsAt_cigarAt :
  forall m a s k,
    holdsAt m a s -> (k < List.length s)%nat ->
    cigarAt m a (Z.of_nat k) = nth k s NUL.
Proof. intros m a s k H Hk. apply H. exact Hk. Qed.

Lemma holdsAt_app :
  forall m a s t,
    holdsAt m a (s ++ t) ->
    holdsAt m a s /\ holdsAt m (a + Z.of_nat (List.length s)) t.
Proof.
  intros m a s t H. split.
  - intros k Hk. rewrite H by (rewrite length_app; lia).
    apply app_nth1. exact Hk.
  - intros k Hk.
    replace (a + Z.of_nat (List.length s) + Z.of_nat k)
      with (a + Z.of_nat (List.length s + k)) by lia.
    rewrite H by (rewrite length_app; lia).
    apply app_nth2_plus.
Qed.

Lemma frontDigits_run :
  forall m a cigarSize d fuel i,
    (List.length d <= fuel)%nat ->
    0 <= i -> i + Z.of_nat (List.length d) < cigarSize ->
    holdsAt m (a + i) d -> forallb isDigit d = true ->
    (List.length d = fuel \/
     isDigit (cigarAt m a (i + Z.of_nat (List.length d))) = false) ->
    frontDigits m a cigarSize fuel i = i + Z.of_nat (List.length d).
Proof.
  intros m a cigarSize d. induction d as [|c d IH]; intros fuel i Hf Hi Hn Hh Hd Hstop.
  - cbn [List.length] in *. rewrite Z.add_0_r in *.
    destruct fuel as [|fuel]; [reflexivity|].
    destruct Hstop as [E|E]; [discriminate|].
    cbn [frontDigits]. rewrite E, andb_false_r. reflexivity.
  - cbn [List.length forallb] in *. apply andb_prop in Hd. destruct Hd as [Hc Hd].
    destruct fuel as [|fuel]; [lia|].
    cbn [frontDigits].
    assert (Hat : cigarAt m a i = c).
    { unfold cigarAt. specialize (Hh O ltac:(cbn; lia)).
      cbn in Hh. rewrite Z.add_0_r in Hh. exact Hh. }
    rewrite Hat, Hc.
    replace (i <? cigarSize) with true by (symmetry; apply Z.ltb_lt; lia).
    cbn [andb]. rewrite (IH fuel (i + 1)); try lia; try assumption.
    + intros k Hk. specialize (Hh (S k) ltac:(cbn; lia)).
      cbn [nth] in Hh. rewrite <- Hh. f_equal. lia.
    + destruct Hstop as [E|E]; [left; injection E as E; exact E | right].
      rewrite <- E. do 2 f_equal. lia.
Qed.

Lemma toEnd_run :
  forall m a cigarSize s i,
    0 <= i -> i + Z.of_nat (List.length s) = cigarSize ->
    holdsAt m (a + i) s -> forallb inCigar s = true ->
    toEnd m a cigarSize (List.length s) i = cigarSize.
Proof.
  intros m a cigarSize s. induction s as [|c s IH]; intros i Hi Hn Hh Hs.
  - cbn in *. lia.
  - cbn [List.length forallb] in *. apply andb_prop in Hs. destruct Hs as [Hc Hs].
    cbn [toEnd].
    assert (Hat : cigarAt m a i = c).
    { unfold cigarAt. specialize (Hh O ltac:(cbn; lia)).
      cbn in Hh. rewrite Z.add_0_r in Hh. exact Hh. }
    rewrite Hat. unfold inCigar in Hc. apply andb_prop in Hc. destruct Hc as [H1 H2].
    rewrite H1, H2.
    replace (i <? cigarSize) with true by (symmetry; apply Z.ltb_lt; lia).
    cbn [andb]. apply IH; try lia; try assumption.
    intros k Hk. specialize (Hh (S k) ltac:(cbn; lia)).
    cbn [nth] in Hh. rewrite <- Hh. f_equal. lia.
Qed.

Lemma digitsDown_run :
  forall m a k j,
    (forall t, (j < t <= j + k)%nat -> isDigit (cigarAt m a (Z.of_nat t)) = true) ->
    isDigit (cigarAt m a (Z.of_nat j)) = false ->
    digitsDown m a (j + k) = Some j.
Proof.
  intros m a k. induction k as [|k IH]; intros j Hd Hj.
  - rewrite Nat.add_0_r. destruct j; cbn [digitsDown]; rewrite Hj; reflexivity.
  - replace (j + S k)%nat with (S (j + k)) by lia.
    cbn [digitsDown]. rewrite Hd by lia.
    apply IH; [|exact Hj]. intros t Ht. apply Hd. lia.
Qed.

Lemma digitsDown_through :
  forall m a i,
    (forall t, (t <= i)%nat -> isDigit (cigarAt m a (Z.of_nat t)) = true) ->
    digitsDown m a i = None.
Proof.
  intros m a i. induction i as [|i IH]; intros Hd.
  - cbn [digitsDown]. rewrite Hd by lia. reflexivity.
  - cbn [digitsDown]. rewrite Hd by lia. apply IH. intros t Ht. apply Hd. lia.
Qed.

Lemma digitsDown_stop :
  forall m a i,
    isDigit (cigarAt m a (Z.of_nat i)) = false -> digitsDown m a i = Some i.
Proof.
  intros m a i H. destruct i; cbn [digitsDown]; rewrite H; reflexivity.
Qed.

Lemma backDigits_run :
  forall m a start d fuel n,
    (List.length d < fuel)%nat ->
    0 <= start -> 0 <= n -> start + n + Z.of_nat (List.length d) < 2 ^ 32 ->
    holdsAt m (a + start + n) d -> forallb isDigit d = true ->
    isDigit (cigarAt m a (start + n + Z.of_nat (List.length d))) = false ->
    backDigits m a start fuel n = Some (n + Z.of_nat (List.length d)).
Proof.
  intros m a start d. induction d as [|c d IH]; intros fuel n Hf Hs Hn H32 Hh Hd Hstop.
  - cbn [List.length] in *. rewrite Z.add_0_r in *.
    destruct fuel as [|fuel]; [lia|].
    cbn [backDigits]. rewrite wrap32_small by lia. rewrite Hstop. reflexivity.
  - cbn [List.length forallb] in *. apply andb_prop in Hd. destruct Hd as [Hc Hd].
    destruct fuel as [|fuel]; [lia|].
    cbn [backDigits]. rewrite wrap32_small by lia.
    assert (Hat : cigarAt m a (start + n) = c).
    { unfold cigarAt. specialize (Hh O ltac:(cbn; lia)).
      cbn in Hh. rewrite Z.add_0_r in Hh.
      replace (a + (start + n)) with (a + start + n) by lia. exact Hh. }
    rewrite Hat, Hc. rewrite (IH fuel (n + 1)); try lia; try assumption.
    + f_equal. lia.
    + intros k Hk. specialize (Hh (S k) ltac:(cbn; lia)).
      cbn [nth] in Hh. rewrite <- Hh. f_equal. lia.
    + rewrite <- Hstop. do 2 f_equal. lia.
Qed.

Lemma copied_holds :
  forall m a start d,
    0 <= start -> start + Z.of_nat (List.length d) < 2 ^ 32 ->
    holdsAt m (a + start) d ->
    copied m a start (Z.of_nat (List.length d)) = d.
Proof.
  intros m a start d Hs H32 Hh. unfold copied. rewrite Nat2Z.id.
  apply nth_ext with (d := NUL) (d' := NUL).
  - rewrite length_map, length_seq. reflexivity.
  - intros k Hk. rewrite length_map, length_seq in Hk.
    rewrite (nth_indep _ NUL (cigarAt m a (wrap32 (start + Z.of_nat 0))))
      by (rewrite length_map, length_seq; exact Hk).
    rewrite (map_nth (fun k => cigarAt m a (wrap32 (start + Z.of_nat k)))).
    rewrite seq_nth by exact Hk. cbn [Nat.add].
    rewrite wrap32_small by lia. unfold cigarAt.
    rewrite Z.add_assoc. apply Hh. exact Hk.
Qed.

Lemma isDigit_not_space :
  forall c, isDigit c = true -> isSpace c = false.
Proof.
  intros c H. unfold isDigit in H. unfold isSpace.
  apply andb_prop in H. destruct H as [H1 H2].
  apply Nat.leb_le in H1. apply Nat.leb_le in H2.
  destruct (Ascii.eqb c " ") eqn:E.
  - apply Ascii.eqb_eq in E. subst c. cbn in H1. lia.
  - cbn [orb]. apply andb_false_iff. right. apply Nat.leb_gt. lia.
Qed.

Lemma digitsValue_bounds :
  forall d acc, 0 <= acc -> acc <= digitsValue d acc.
Proof.
  induction d as [|c d IH]; intros acc Hacc; cbn [digitsValue]; [lia|].
  destruct (isDigit c) eqn:E; [|lia].
  unfold isDigit in E. apply andb_prop in E. destruct E as [E1 E2].
  apply Nat.leb_le in E1. apply Nat.leb_le in E2.
  etransitivity; [|apply IH; lia]. lia.
Qed.

Lemma atoi_digits :
  forall d,
    forallb isDigit d = true -> decimal d < 2 ^ 31 ->
    atoi d = Some (decimal d).
Proof.
  intros d Hd Hv. unfold atoi, decimal in *.
  pose proof (digitsValue_bounds d 0 ltac:(lia)) as H0.
  assert (Hskip : skipSpace d = d).
  { destruct d as [|c t]; [reflexivity|].
    cbn [forallb] in Hd. apply andb_prop in Hd. destruct Hd as [Hc _].
    cbn [skipSpace]. rewrite (isDigit_not_space c Hc). reflexivity. }
  rewrite Hskip.
  assert (Hsign : match d with
                  | c :: t =>
                      if Ascii.eqb c "-" then - digitsValue t 0
                      else if Ascii.eqb c "+" then digitsValue t 0
                      else digitsValue (c :: t) 0
                  | [] => 0
                  end = digitsValue d 0).
  { destruct d as [|c t]; [reflexivity|].
    cbn [forallb] in Hd. apply andb_prop in Hd. destruct Hd as [Hc _].
    destruct (Ascii.eqb c "-") eqn:E1;
      [apply Ascii.eqb_eq in E1; subst c; discriminate|].
    destruct (Ascii.eqb c "+") eqn:E2;
      [apply Ascii.eqb_eq in E2; subst c; discriminate|].
    reflexivity. }
  rewrite Hsign.
  replace (- 2 ^ 31 <=? digitsValue d 0) with true by (symmetry; apply Z.leb_le; lia).
  replace (digitsValue d 0 <? 2 ^ 31) with true by (symmetry; apply Z.ltb_lt; lia).
  reflexivity.
Qed.

Lemma nth_last_cons :
  forall (body rest : list ascii) c,
    nth (List.length body) (c :: body ++ rest) NUL = last (c :: body) NUL.
Proof.
  induction body as [|b body IH]; intros rest c; [reflexivity|].
  change (nth (List.length (b :: body)) (c :: (b :: body) ++ rest) NUL)
    with (nth (List.length body) (b :: body ++ rest) NUL).
  rewrite IH. reflexivity.
Qed.

Lemma isDigit_inCigar :
  forall c, isDigit c = true -> inCigar c = true.
Proof.
  intros c H. unfold inCigar.
  destruct (Ascii.eqb c "009") eqn:E1;
    [apply Ascii.eqb_eq in E1; subst c; discriminate|].
  destruct (Ascii.eqb c NUL) eqn:E2;
    [apply Ascii.eqb_eq in E2; subst c; discriminate|].
  reflexivity.
Qed.

Lemma decimal_nonneg : forall d, 0 <= decimal d.
Proof. intros d. apply (digitsValue_bounds d 0). lia. Qed.

(** [ExtractClipping] on a string that starts with a clip and ends with
    one, whatever lies behind the string. *)
Lemma ExtractClipping_clips :
  forall m a c d1 body d2 cigarSize,
    holdsAt m a (d1 ++ c :: body ++ d2 ++ [c]) ->
    cigarSize = Z.of_nat (List.length (d1 ++ c :: body ++ d2 ++ [c])) ->
    cigarSize < 2 ^ 32 ->
    forallb isDigit d1 = true -> forallb isDigit d2 = true ->
    (List.length d1 <= 20)%nat -> (List.length d2 <= 20)%nat ->
    decimal d1 < 2 ^ 31 -> decimal d2 < 2 ^ 31 ->
    isDigit c = false -> inCigar c = true ->
    forallb inCigar body = true ->
    isDigit (last (c :: body) NUL) = false ->
    d1 ++ body <> [] ->
    ExtractClipping m a cigarSize c =
    Some (decimal d1, decimal d2,
          Z.of_nat (List.length d1) + 1, Z.of_nat (List.length d2) + 1).
Proof.
  intros m a c d1 body d2 cigarSize Hh Hsize H32 D1 D2 L1 L2 V1 V2 Hc Hcin Hbody
         Hlast Hne.
  pose proof (decimal_nonneg d1) as N1. pose proof (decimal_nonneg d2) as N2.
  set (j := (List.length d1 + List.length body)%nat).
  assert (Hlen : cigarSize = Z.of_nat j + Z.of_nat (List.length d2) + 2).
  { rewrite Hsize. subst j.
    repeat (rewrite ?length_app; cbn [List.length]). lia. }
  assert (Hj : (0 < j)%nat).
  { subst j. destruct d1; destruct body; cbn [List.length]; try lia.
    contradiction Hne. reflexivity. }
  destruct (holdsAt_app _ _ _ _ Hh) as [Hd1 Hrest].
  assert (Hd2 : holdsAt m (a + (Z.of_nat j + 1)) d2).
  { replace (d1 ++ c :: body ++ d2 ++ [c])
      with ((d1 ++ c :: body) ++ d2 ++ [c]) in Hh
      by (rewrite <- app_assoc; reflexivity).
    destruct (holdsAt_app _ _ _ _ Hh) as [_ H2].
    destruct (holdsAt_app _ _ _ _ H2) as [H3 _].
    replace (a + (Z.of_nat j + 1))
      with (a + Z.of_nat (List.length (d1 ++ c :: body))); [exact H3|].
    subst j. rewrite length_app. cbn [List.length]. lia. }
  assert (Hat1 : cigarAt m a (Z.of_nat (List.length d1)) = c).
  { rewrite (holdsAt_cigarAt _ _ _ _ Hh)
      by (repeat (rewrite ?length_app; cbn [List.length]); lia).
    apply nth_middle. }
  assert (Hatj : cigarAt m a (Z.of_nat j) = last (c :: body) NUL).
  { rewrite (holdsAt_cigarAt _ _ _ _ Hh)
      by (subst j; repeat (rewrite ?length_app; cbn [List.length]); lia).
    subst j. rewrite app_nth2_plus. apply nth_last_cons. }
  assert (Hatd2 : forall t, (t < List.length d2)%nat ->
                    isDigit (cigarAt m a (Z.of_nat (j + 1 + t))) = true).
  { intros t Ht. unfold cigarAt.
    replace (a + Z.of_nat (j + 1 + t)) with (a + (Z.of_nat j + 1) + Z.of_nat t) by lia.
    rewrite Hd2 by exact Ht.
    rewrite forallb_forall in D2. apply D2. apply nth_In. exact Ht. }
  assert (Hatend : cigarAt m a (Z.of_nat j + 1 + Z.of_nat (List.length d2)) = c).
  { replace (Z.of_nat j + 1 + Z.of_nat (List.length d2))
      with (Z.of_nat (j + 1 + List.length d2)) by lia.
    rewrite (holdsAt_cigarAt _ _ _ _ Hh)
      by (subst j; repeat (rewrite ?length_app; cbn [List.length]); lia).
    subst j.
    replace (d1 ++ c :: body ++ d2 ++ [c])
      with ((d1 ++ c :: body ++ d2) ++ [c])
      by (repeat (rewrite <- ?app_assoc; cbn [app]); reflexivity).
    replace (List.length d1 + List.length body + 1 + List.length d2)%nat
      with (List.length (d1 ++ c :: body ++ d2))
      by (repeat (rewrite ?length_app; cbn [List.length]); lia).
    apply nth_middle. }
  unfold ExtractClipping.
  replace (2 ^ 32 <=? cigarSize) with false by (symmetry; apply Z.leb_gt; lia).
  rewrite (frontDigits_run m a cigarSize d1 20 0); try assumption; try lia;
    [ | rewrite Z.add_0_r; exact Hd1
      | right; rewrite Z.add_0_l, Hat1; exact Hc ].
  rewrite Z.add_0_l, Hat1, Ascii.eqb_refl.
  rewrite copied_holds by (try lia; rewrite Z.add_0_r; exact Hd1).
  rewrite atoi_digits by assumption.
  replace (Z.to_nat (cigarSize - Z.of_nat (List.length d1)))
    with (List.length (c :: body ++ d2 ++ [c]))
    by (rewrite Hsize, length_app; lia).
  rewrite (toEnd_run m a cigarSize (c :: body ++ d2 ++ [c]));
    [ | lia | rewrite Hsize, length_app; lia | exact Hrest | ].
  2:{ cbn [forallb]. rewrite Hcin, !forallb_app, Hbody. cbn [forallb andb].
      rewrite Hcin, andb_true_r.
      apply forallb_forall. intros x Hx. apply isDigit_inCigar.
      rewrite forallb_forall in D2. apply D2. exact Hx. }
  replace (1 <? cigarSize) with true by (symmetry; apply Z.ltb_lt; lia).
  replace (cigarSize - 1) with (Z.of_nat j + 1 + Z.of_nat (List.length d2)) by lia.
  rewrite Hatend, Ascii.eqb_refl. cbn [andb].
  unfold backwards.
  replace (Z.to_nat (cigarSize - 2)) with (j + List.length d2)%nat by lia.
  rewrite (digitsDown_run m a (List.length d2) j).
  2:{ intros t Ht. replace t with (j + 1 + (t - j - 1))%nat by lia.
      apply Hatd2. lia. }
  2:{ rewrite Hatj. exact Hlast. }
  replace (0 <? Z.of_nat j) with true by (symmetry; apply Z.ltb_lt; lia).
  rewrite (wrap32_small (Z.of_nat j + 1)) by lia.
  rewrite (backDigits_run m a (Z.of_nat j + 1) d2 21 0); try assumption; try lia.
  2:{ rewrite Z.add_0_r. replace (a + (Z.of_nat j + 1)) with (a + (Z.of_nat j + 1))
        by reflexivity. exact Hd2. }
  2:{ rewrite Z.add_0_r, Hatend. exact Hc. }
  rewrite Z.add_0_l.
  rewrite copied_holds by (try lia; exact Hd2).
  rewrite atoi_digits by assumption.
  rewrite !wrap32_small by lia. reflexivity.
Qed.

(** A string that starts with a clip and ends with one, the clips of the
    letter asked for: [ExtractClipping] returns the lengths the two clips
    give in decimal digits, and for each the number of bytes it takes up,
    digits and letter.  Between the clips anything may stand that is no tab
    and no NUL, as long as it does not end in a digit. *)
Theorem ExtractClipping_reads_front_and_back_clip :
  forall m cigarBuffer clippingChar front body back,
    let cigar := clipText front clippingChar ++ body ++ clipText back clippingChar in
    holdsAt m cigarBuffer cigar ->
    Z.of_nat (List.length cigar) < 2 ^ 32 ->
    forallb isDigit front = true -> forallb isDigit back = true ->
    (List.length front <= 20)%nat -> (List.length back <= 20)%nat ->
    decimal front < 2 ^ 31 -> decimal back < 2 ^ 31 ->
    isDigit clippingChar = false -> inCigar clippingChar = true ->
    forallb inCigar body = true ->
    isDigit (last (clippingChar :: body) NUL) = false ->
    front ++ body <> [] ->
    ExtractClipping m cigarBuffer (Z.of_nat (List.length cigar)) clippingChar =
    Some (decimal front, decimal back,
          Z.of_nat (List.length front) + 1, Z.of_nat (List.length back) + 1).
Proof.
  intros m a c d1 body d2 cigar Hh H32 D1 D2 L1 L2 V1 V2 Hc Hcin Hbody Hlast Hne.
  assert (E : cigar = d1 ++ c :: body ++ d2 ++ [c]).
  { subst cigar. unfold clipText. rewrite <- app_assoc. reflexivity. }
  rewrite E in *.
  apply (ExtractClipping_clips m a c d1 body d2); try assumption. reflexivity.
Qed.

(** A string that is one clip in whole: the scan back over the digits of
    the clip does not end at the start of the string, for its index, an
    [unsigned], is never below zero; it wraps, and the scan goes on at
    [cigarBuffer[4294967295]].  When the byte there is no digit, the clip
    is returned as the front clipping and as the back clipping, both. *)
Theorem ExtractClipping_whole_clip :
  forall m cigarBuffer clippingChar digits,
    holdsAt m cigarBuffer (clipText digits clippingChar) ->
    digits <> [] ->
    forallb isDigit digits = true ->
    (List.length digits <= 20)%nat ->
    decimal digits < 2 ^ 31 ->
    isDigit clippingChar = false -> inCigar clippingChar = true ->
    isDigit (cigarAt m cigarBuffer (2 ^ 32 - 1)) = false ->
    ExtractClipping m cigarBuffer
                    (Z.of_nat (List.length (clipText digits clippingChar)))
                    clippingChar =
    Some (decimal digits, decimal digits,
          Z.of_nat (List.length digits) + 1, Z.of_nat (List.length digits) + 1).
Proof.
  intros m a c d Hh Hne D L V Hc Hcin Hfar.
  pose proof (decimal_nonneg d) as N.
  unfold clipText in *.
  set (n := List.length d) in *.
  assert (Hn : (0 < n)%nat) by (subst n; destruct d; [contradiction|cbn; lia]).
  assert (Hsize : Z.of_nat (List.length (d ++ [c])) = Z.of_nat n + 1)
    by (rewrite length_app; cbn [List.length]; lia).
  destruct (holdsAt_app _ _ _ _ Hh) as [Hd Hrest].
  assert (Hatc : cigarAt m a (Z.of_nat n) = c).
  { rewrite (holdsAt_cigarAt _ _ _ _ Hh) by (rewrite length_app; cbn; lia).
    apply nth_middle. }
  assert (Hatd : forall t, (t < n)%nat -> isDigit (cigarAt m a (Z.of_nat t)) = true).
  { intros t Ht. unfold cigarAt. rewrite Hd by exact Ht.
    rewrite forallb_forall in D. apply D. apply nth_In. exact Ht. }
  rewrite Hsize. unfold ExtractClipping.
  replace (2 ^ 32 <=? Z.of_nat n + 1) with false by (symmetry; apply Z.leb_gt; lia).
  rewrite (frontDigits_run m a (Z.of_nat n + 1) d 20 0); try assumption; try lia;
    [ | rewrite Z.add_0_r; exact Hd
      | right; rewrite Z.add_0_l; fold n; rewrite Hatc; exact Hc ].
  fold n. rewrite Z.add_0_l, Hatc, Ascii.eqb_refl.
  unfold n at 1. rewrite copied_holds by (try lia; rewrite Z.add_0_r; exact Hd).
  rewrite atoi_digits by assumption.
  replace (Z.to_nat (Z.of_nat n + 1 - Z.of_nat n)) with (List.length [c])
    by (cbn [List.length]; lia).
  rewrite (toEnd_run m a (Z.of_nat n + 1) [c]);
    [ | lia | cbn [List.length]; lia | exact Hrest
      | cbn [forallb]; rewrite Hcin; reflexivity ].
  replace (1 <? Z.of_nat n + 1) with true by (symmetry; apply Z.ltb_lt; lia).
  replace (Z.of_nat n + 1 - 1) with (Z.of_nat n) by lia.
  rewrite Hatc, Ascii.eqb_refl. cbn [andb].
  unfold backwards.
  rewrite digitsDown_through
    by (intros t Ht; apply Hatd; lia).
  rewrite digitsDown_stop by (rewrite Z2Nat.id by lia; exact Hfar).
  rewrite Z2Nat.id by lia.
  replace (0 <? 2 ^ 32 - 1) with true by reflexivity.
  replace (wrap32 (2 ^ 32 - 1 + 1)) with 0 by reflexivity.
  rewrite (backDigits_run m a 0 d 21 0); try assumption; try lia.
  2:{ rewrite !Z.add_0_r. exact Hd. }
  2:{ rewrite !Z.add_0_l. fold n. rewrite Hatc. exact Hc. }
  rewrite Z.add_0_l.
  rewrite copied_holds by (try lia; rewrite Z.add_0_r; exact Hd).
  rewrite atoi_digits by assumption.
  rewrite !wrap32_small by lia. reflexivity.
Qed.

Lemma cigarLength_run :
  forall m a s fuel i term,
    holdsAt m (a + i) (s ++ [term]) ->
    forallb inCigar s = true -> inCigar term = false ->
    (List.length s < fuel)%nat ->
    cigarLength m a fuel i = i + Z.of_nat (List.length s).
Proof.
  intros m a s. induction s as [|c s IH]; intros fuel i term Hh Hs Ht Hlt.
  - cbn [List.length] in *. rewrite Z.add_0_r.
    destruct fuel as [|fuel]; [lia|]. cbn [cigarLength].
    assert (Hat : cigarAt m a i = term).
    { unfold cigarAt. specialize (Hh O ltac:(cbn; lia)).
      cbn in Hh. rewrite Z.add_0_r in Hh. exact Hh. }
    rewrite Hat. unfold inCigar in Ht.
    destruct (Ascii.eqb term NUL); cbn [negb andb]; [reflexivity|].
    destruct (Ascii.eqb term "009"); cbn [negb andb] in *; [reflexivity|discriminate].
  - cbn [List.length forallb] in *. apply andb_prop in Hs. destruct Hs as [Hc Hs].
    destruct fuel as [|fuel]; [lia|]. cbn [cigarLength].
    assert (Hat : cigarAt m a i = c).
    { unfold cigarAt. specialize (Hh O ltac:(cbn; lia)).
      cbn in Hh. rewrite Z.add_0_r in Hh. exact Hh. }
    rewrite Hat. unfold inCigar in Hc. apply andb_prop in Hc. destruct Hc as [H1 H2].
    rewrite H1, H2. cbn [andb].
    rewrite (IH fuel (i + 1) term); try lia; try assumption.
    intros k Hk. specialize (Hh (S k) ltac:(cbn in *; lia)).
    cbn [app nth] in Hh. rewrite <- Hh. f_equal. lia.
Qed.

(** A CIGAR string with hard clips at both ends and soft clips inside
    them, ended by a tab or a NUL: [computeClippingFromCigar] returns the
    four lengths, the hard clipping taken off first and the soft clipping
    read from what is left between. *)
Theorem computeClippingFromCigar_hard_and_soft :
  forall m cigarBuffer hardFront softFront body softBack hardBack term,
    let inner :=
      clipText softFront "S" ++ body ++ clipText softBack "S" in
    let cigar := clipText hardFront "H" ++ inner ++ clipText hardBack "H" in
    holdsAt m cigarBuffer (cigar ++ [term]) ->
    inCigar term = false ->
    (List.length cigar < 1000)%nat ->
    forallb isDigit hardFront = true -> forallb isDigit softFront = true ->
    forallb isDigit softBack = true -> forallb isDigit hardBack = true ->
    (List.length hardFront <= 20)%nat -> (List.length softFront <= 20)%nat ->
    (List.length softBack <= 20)%nat -> (List.length hardBack <= 20)%nat ->
    decimal hardFront < 2 ^ 31 -> decimal softFront < 2 ^ 31 ->
    decimal softBack < 2 ^ 31 -> decimal hardBack < 2 ^ 31 ->
    forallb inCigar body = true ->
    isDigit (last ("S"%char :: body) NUL) = false ->
    softFront ++ body <> [] ->
    computeClippingFromCigar m cigarBuffer =
    Clipping (decimal softFront) (decimal softBack)
             (decimal hardFront) (decimal hardBack).
Proof.
  intros m a hf sf body sb hb term inner cigar Hh Hterm Hlen
         Dhf Dsf Dsb Dhb Lhf Lsf Lsb Lhb Vhf Vsf Vsb Vhb Hbody Hlast Hne.
  assert (Einner : inner = sf ++ "S"%char :: body ++ sb ++ ["S"%char]).
  { subst inner. unfold clipText. rewrite <- app_assoc. reflexivity. }
  assert (Ecigar : cigar = hf ++ "H"%char :: inner ++ hb ++ ["H"%char]).
  { subst cigar. unfold clipText. rewrite <- app_assoc. reflexivity. }
  assert (Hdig : forall d, forallb isDigit d = true -> forallb inCigar d = true).
  { intros d Hd. apply forallb_forall. intros x Hx. apply isDigit_inCigar.
    rewrite forallb_forall in Hd. apply Hd. exact Hx. }
  assert (Hinner : forallb inCigar inner = true).
  { rewrite Einner, forallb_app. cbn [forallb].
    rewrite !forallb_app. cbn [forallb].
    rewrite (Hdig sf Dsf), (Hdig sb Dsb), Hbody. reflexivity. }
  assert (Hall : forallb inCigar cigar = true).
  { rewrite Ecigar, forallb_app. cbn [forallb].
    rewrite !forallb_app. cbn [forallb].
    rewrite (Hdig hf Dhf), (Hdig hb Dhb), Hinner. reflexivity. }
  destruct (holdsAt_app _ _ _ _ Hh) as [Hcig _].
  unfold computeClippingFromCigar.
  rewrite (cigarLength_run m a cigar 1000 0 term); try assumption;
    [ | rewrite Z.add_0_r; exact Hh ].
  rewrite Z.add_0_l.
  replace (Z.of_nat (List.length cigar) =? 1000) with false
    by (symmetry; apply Z.eqb_neq; lia).
  assert (Hlast1 : isDigit (last ("H"%char :: inner) NUL) = false).
  { rewrite Einner.
    replace ("H"%char :: sf ++ "S"%char :: body ++ sb ++ ["S"%char])
      with (("H"%char :: sf ++ "S"%char :: body ++ sb) ++ ["S"%char])
      by (cbn [app]; repeat (rewrite <- ?app_assoc; cbn [app]); reflexivity).
    rewrite last_last. reflexivity. }
  assert (Hhard : ExtractClipping m a (Z.of_nat (List.length cigar)) "H" =
                  Some (decimal hf, decimal hb,
                        Z.of_nat (List.length hf) + 1, Z.of_nat (List.length hb) + 1)).
  { apply (ExtractClipping_clips m a "H" hf inner hb); try assumption;
      try reflexivity.
    - rewrite <- Ecigar. exact Hcig.
    - rewrite <- Ecigar. reflexivity.
    - lia.
    - rewrite Einner. intro E. apply (f_equal (@List.length ascii)) in E.
      rewrite !length_app in E. cbn [List.length] in E. lia. }
  rewrite Hhard.
  assert (Hsub : holdsAt m (a + (Z.of_nat (List.length hf) + 1)) inner).
  { rewrite Ecigar in Hcig.
    replace (hf ++ "H"%char :: inner ++ hb ++ ["H"%char])
      with ((hf ++ ["H"%char]) ++ inner ++ hb ++ ["H"%char]) in Hcig
      by (rewrite <- app_assoc; reflexivity).
    destruct (holdsAt_app _ _ _ _ Hcig) as [_ H2].
    destruct (holdsAt_app _ _ _ _ H2) as [H3 _].
    rewrite length_app in H3. cbn [List.length] in H3.
    replace (a + (Z.of_nat (List.length hf) + 1))
      with (a + Z.of_nat (List.length hf + 1)) by lia.
    exact H3. }
  assert (Hsize : wrap64 (wrap64 (Z.of_nat (List.length cigar)
                                  - (Z.of_nat (List.length hf) + 1))
                          - (Z.of_nat (List.length hb) + 1))
                  = Z.of_nat (List.length inner)).
  { assert (E : Z.of_nat (List.length cigar) =
                Z.of_nat (List.length hf) + 1 + Z.of_nat (List.length inner)
                + Z.of_nat (List.length hb) + 1).
    { rewrite Ecigar. repeat (rewrite ?length_app; cbn [List.length]). lia. }
    unfold wrap64. rewrite E.
    replace (Z.of_nat (List.length hf) + 1 + Z.of_nat (List.length inner)
             + Z.of_nat (List.length hb) + 1 - (Z.of_nat (List.length hf) + 1))
      with (Z.of_nat (List.length inner) + Z.of_nat (List.length hb) + 1) by lia.
    rewrite (Z.mod_small (Z.of_nat (List.length inner)
                          + Z.of_nat (List.length hb) + 1)) by lia.
    replace (Z.of_nat (List.length inner) + Z.of_nat (List.length hb) + 1
             - (Z.of_nat (List.length hb) + 1))
      with (Z.of_nat (List.length inner)) by lia.
    apply Z.mod_small. lia. }
  rewrite Hsize.
  assert (Hil : (List.length inner < 1000)%nat).
  { rewrite Ecigar in Hlen. repeat (rewrite ?length_app in Hlen; cbn [List.length] in Hlen).
    lia. }
  assert (Hsoft : ExtractClipping m (a + (Z.of_nat (List.length hf) + 1))
                                  (Z.of_nat (List.length inner)) "S" =
                  Some (decimal sf, decimal sb,
                        Z.of_nat (List.length sf) + 1, Z.of_nat (List.length sb) + 1)).
  { apply (ExtractClipping_clips m _ "S" sf body sb); try assumption;
      try reflexivity.
    - rewrite <- Einner. exact Hsub.
    - rewrite <- Einner. reflexivity.
    - lia. }
  rewrite Hsoft.
  reflexivity.
Qed.

(** ** Proofs: reads with memory of their own *)

Lemma span_agree :
  forall m m' lb lb' x n,
    (forall i, 0 <= i < n -> m' (x + i) = m (x + i)) ->
    span m' lb' (Ext x) n = span m lb (Ext x) n.
Proof.
  intros m m' lb lb' x n H. unfold span. apply map_ext_in.
  intros i Hi. apply in_seq in Hi. cbn [load]. apply H. lia.
Qed.

Lemma existsb_false_In :
  forall (A : Type) (f : A -> bool) l x,
    existsb f l = false -> In x l -> f x = false.
Proof.
  intros A f l x H Hin. destruct (f x) eqn:E; [|reflexivity].
  rewrite <- H. symmetry. apply existsb_exists. exists x. split; assumption.
Qed.

Lemma apart_inBlock :
  forall o n a, apart o n = true -> inBlock a o = true -> inBlock a n = false.
Proof.
  intros [x k] [y l] a H Hin. unfold apart, inBlock in *. cbn [fst snd] in *.
  apply andb_prop in Hin. destruct Hin as [H1 H2].
  apply Z.leb_le in H1. apply Z.ltb_lt in H2.
  apply andb_false_iff.
  apply orb_prop in H. destruct H as [H|H]; apply Z.leb_le in H.
  - left. apply Z.leb_gt. lia.
  - right. apply Z.ltb_ge. lia.
Qed.

(** A string apart from the blocks written to reads the same before and
    after. *)
Lemma span_old :
  forall news p n m m' lb,
    forallb (fun o => forallb (apart o) news) (blockOf p n) = true ->
    (forall a, existsb (inBlock a) news = false -> m' a = m a) ->
    span m' lb p n = span m lb p n.
Proof.
  intros news p n m m' lb H Hframe. destruct p as [|x|o]; try reflexivity.
  cbn [blockOf forallb] in H. rewrite andb_true_r in H.
  apply span_agree. intros i Hi. apply Hframe.
  destruct (existsb (inBlock (x + i)) news) eqn:E; [|reflexivity].
  apply existsb_exists in E. destruct E as (blk & Hin & Hb).
  rewrite forallb_forall in H. specialize (H blk Hin).
  rewrite (apart_inBlock (x, n) blk (x + i) H) in Hb; [discriminate|].
  unfold inBlock. cbn [fst snd].
  apply andb_true_intro. split; [apply Z.leb_le | apply Z.ltb_lt]; lia.
Qed.

Lemma ownCopy_Some :
  forall m lb b src n,
    0 <= n < 2 ^ 32 - 1 ->
    ownCopy m lb b src n = Some (poke (memcpy m lb b src n) b n NUL).
Proof.
  intros m lb b src n H. unfold ownCopy.
  rewrite wrap32_small by lia.
  replace (n <? n + 1) with true by (symmetry; apply Z.ltb_lt; lia).
  reflexivity.
Qed.

Lemma ownCopy_bytes :
  forall m lb lb' b src n,
    0 <= n ->
    span (poke (memcpy m lb b src n) b n NUL) lb' (Ext b) n = span m lb src n.
Proof.
  intros m lb lb' b src n H. unfold span. apply map_ext_in.
  intros i Hi. apply in_seq in Hi. cbn [load]. unfold poke, memcpy.
  replace (b + Z.of_nat i =? b + n) with false by (symmetry; apply Z.eqb_neq; lia).
  replace (b <=? b + Z.of_nat i) with true by (symmetry; apply Z.leb_le; lia).
  replace (b + Z.of_nat i <? b + n) with true by (symmetry; apply Z.ltb_lt; lia).
  cbn [andb]. f_equal. lia.
Qed.

Lemma ownCopy_frame :
  forall m lb b src n a,
    0 <= n ->
    a < b \/ b + n < a ->
    poke (memcpy m lb b src n) b n NUL a = m a.
Proof.
  intros m lb b src n a Hn H. unfold poke, memcpy.
  replace (a =? b + n) with false by (symmetry; apply Z.eqb_neq; lia).
  destruct (b <=? a) eqn:E1; [|reflexivity].
  destruct (a <? b + n) eqn:E2; [|reflexivity].
  apply Z.leb_le in E1. apply Z.ltb_lt in E2. lia.
Qed.

Lemma memcpy_bytes :
  forall m lb lb' b src n,
    span (memcpy m lb b src n) lb' (Ext b) n = span m lb src n.
Proof.
  intros m lb lb' b src n. unfold span. apply map_ext_in.
  intros i Hi. apply in_seq in Hi. cbn [load]. unfold memcpy.
  replace (b <=? b + Z.of_nat i) with true by (symmetry; apply Z.leb_le; lia).
  replace (b + Z.of_nat i <? b + n) with true by (symmetry; apply Z.ltb_lt; lia).
  cbn [andb]. f_equal. lia.
Qed.

Lemma memcpy_frame :
  forall m lb b src n a,
    a < b \/ b + n <= a -> memcpy m lb b src n a = m a.
Proof.
  intros m lb b src n a H. unfold memcpy.
  destruct (b <=? a) eqn:E1; [|reflexivity].
  destruct (a <? b + n) eqn:E2; [|reflexivity].
  apply Z.leb_le in E1. apply Z.ltb_lt in E2. lia.
Qed.

Lemma not_inBlock :
  forall a x k, inBlock a (x, k) = false -> a < x \/ x + k <= a.
Proof.
  intros a x k H. unfold inBlock in H. cbn [fst snd] in H.
  apply andb_false_iff in H. destruct H as [H|H].
  - apply Z.leb_gt in H. lia.
  - apply Z.ltb_ge in H. lia.
Qed.

Lemma length_basesKept :
  forall l, List.length (basesKept l) = List.length l.
Proof.
  intros l. unfold basesKept. destruct (anyLowerCase l); [apply length_map | reflexivity].
Qed.

Lemma anyLowerCase_basesKept :
  (forall c, IS_LOWER_CASE (TO_UPPER_CASE c) = 0%N) ->
  forall l, anyLowerCase (basesKept l) = false.
Proof.
  intros Hup l. unfold basesKept. destruct (anyLowerCase l) eqn:E; [|exact E].
  unfold anyLowerCase. destruct (existsb _ (map TO_UPPER_CASE l)) eqn:E'; [|reflexivity].
  apply existsb_exists in E'. destruct E' as (c & Hin & Hc).
  apply in_map_iff in Hin. destruct Hin as (c0 & <- & _).
  rewrite Hup in Hc. discriminate.
Qed.

(** [init] of bases none of which is lower case: the [Read] points at the
    strings it was given. *)
Lemma init5_no_lower_case :
  forall ext r0 idp idLen a_data a_qual len,
    0 <= len < 2 ^ 32 ->
    anyLowerCase (span ext (localBuffer r0) (Ext a_data) len) = false ->
    exists r1,
      init5 ext r0 idp idLen a_data a_qual len = Some r1 /\
      id r1 = idp /\ idLength r1 = wrap32 idLen /\
      unclippedData r1 = Ext a_data /\ unclippedQuality r1 = Ext a_qual /\
      unclippedLength r1 = len /\ localBuffer r1 = localBuffer r0.
Proof.
  intros ext r0 idp idLen a_data a_qual len Hlen Hno.
  unfold init5, init. rewrite (wrap32_small len) by lia.
  rewrite anyLowerCaseLoop_anyLowerCase by lia. rewrite Hno. cbn [negb].
  eexists. split; [reflexivity|]. repeat split.
Qed.

(** What [set] leaves, for a [Read] whose unclipped bases have no lower
    case letter among them. *)
Lemma set_spec :
  forall ext baseRead newId newData newQuality newAux,
    let b := theRead baseRead in
    let q := getUnclippedQualityBytes ext b in
    let front := frontTrim (clippingState b) q in
    let len := (List.length q - backTrim (clippingState b) q - front)%nat in
    0 <= idLength b < 2 ^ 32 - 1 ->
    0 <= unclippedLength b < 2 ^ 32 - 1 ->
    anyLowerCase (getUnclippedDataBytes ext b) = false ->
    fresh (ownBlocks baseRead newId newData newQuality newAux)
          (stringsOf baseRead) = true ->
    exists ext' copy,
      set ext baseRead newId newData newQuality newAux = Some (ext', copy) /\
      id (theRead (asRead copy)) = Ext newId /\
      unclippedData (theRead (asRead copy)) = Ext newData /\
      unclippedQuality (theRead (asRead copy)) = Ext newQuality /\
      getIdBytes ext' (theRead (asRead copy)) = getIdBytes ext b /\
      getUnclippedDataBytes ext' (theRead (asRead copy)) = getUnclippedDataBytes ext b /\
      getUnclippedQualityBytes ext' (theRead (asRead copy)) = q /\
      getDataBytes ext' (theRead (asRead copy)) =
        firstn len (skipn front (getUnclippedDataBytes ext b)) /\
      getQualityBytes ext' (theRead (asRead copy)) = firstn len (skipn front q) /\
      clippingState (theRead (asRead copy)) = clippingState b /\
      frontClippedLength (theRead (asRead copy)) = Z.of_nat front /\
      dataLength (theRead (asRead copy)) = Z.of_nat len /\
      currentReadDirection (theRead (asRead copy)) = FORWARD /\
      readGroup (asRead copy) = readGroup baseRead /\
      getAuxiliaryBytes ext' (asRead copy) = getAuxiliaryBytes ext baseRead /\
      (forall a,
         existsb (inBlock a) (ownBlocks baseRead newId newData newQuality newAux) = false ->
         ext' a = ext a).
Proof.
  intros ext baseRead newId newData newQuality newAux b q front len
         Hidl Hul Hno Hfresh.
  set (lb := localBuffer b).
  set (il := idLength b) in *.
  set (ul := unclippedLength b) in *.
  set (news := ownBlocks baseRead newId newData newQuality newAux) in *.
  set (I := getIdBytes ext b).
  set (D := getUnclippedDataBytes ext b) in *.
  assert (Hid : getIdBytes ext b = I) by reflexivity.
  assert (HU : getUnclippedDataBytes ext b = D) by reflexivity.
  assert (HQ : getUnclippedQualityBytes ext b = q) by reflexivity.
  assert (LU : List.length D = Z.to_nat ul) by apply span_length.
  assert (LQ : List.length q = Z.to_nat ul) by apply span_length.
  (* what the arrays being fresh says *)
  unfold fresh in Hfresh. apply andb_prop in Hfresh. destruct Hfresh as [Hpw Hold].
  unfold stringsOf in Hold. rewrite !forallb_app in Hold.
  apply andb_prop in Hold. destruct Hold as [Oid Hold].
  apply andb_prop in Hold. destruct Hold as [Odata Hold].
  apply andb_prop in Hold. destruct Hold as [Oqual Oaux].
  fold b il news in Oid. fold b ul news in Odata, Oqual. fold news in Oaux.
  assert (In1 : In (newId, il + 1) news) by (left; reflexivity).
  assert (In2 : In (newData, ul + 1) news) by (right; left; reflexivity).
  assert (In3 : In (newQuality, ul + 1) news) by (right; right; left; reflexivity).
  assert (A12 : newId + (il + 1) <= newData \/ newData + (ul + 1) <= newId).
  { unfold news, ownBlocks in Hpw. fold b il ul in Hpw.
    cbn [pairwiseApart app forallb] in Hpw.
    apply andb_prop in Hpw. destruct Hpw as [Hpw _].
    apply andb_prop in Hpw. destruct Hpw as [Hpw _].
    unfold apart in Hpw. cbn [fst snd] in Hpw.
    apply orb_prop in Hpw. rewrite !Z.leb_le in Hpw. exact Hpw. }
  assert (A13 : newId + (il + 1) <= newQuality \/ newQuality + (ul + 1) <= newId).
  { unfold news, ownBlocks in Hpw. fold b il ul in Hpw.
    cbn [pairwiseApart app forallb] in Hpw.
    apply andb_prop in Hpw. destruct Hpw as [Hpw _].
    apply andb_prop in Hpw. destruct Hpw as [_ Hpw].
    apply andb_prop in Hpw. destruct Hpw as [Hpw _].
    unfold apart in Hpw. cbn [fst snd] in Hpw.
    apply orb_prop in Hpw. rewrite !Z.leb_le in Hpw. exact Hpw. }
  assert (A23 : newData + (ul + 1) <= newQuality \/ newQuality + (ul + 1) <= newData).
  { unfold news, ownBlocks in Hpw. fold b il ul in Hpw.
    cbn [pairwiseApart app forallb] in Hpw.
    apply andb_prop in Hpw. destruct Hpw as [_ Hpw].
    apply andb_prop in Hpw. destruct Hpw as [Hpw _].
    apply andb_prop in Hpw. destruct Hpw as [Hpw _].
    unfold apart in Hpw. cbn [fst snd] in Hpw.
    apply orb_prop in Hpw. rewrite !Z.leb_le in Hpw. exact Hpw. }
  (* the three copies *)
  unfold set. fold b lb il ul.
  rewrite ownCopy_Some by lia.
  set (m1 := poke (memcpy ext lb newId (id b) il) newId il NUL).
  rewrite ownCopy_Some by lia.
  set (m2 := poke (memcpy m1 lb newData (unclippedData b) ul) newData ul NUL).
  rewrite ownCopy_Some by lia.
  set (m3 := poke (memcpy m2 lb newQuality (unclippedQuality b) ul) newQuality ul NUL).
  assert (F1 : forall a, existsb (inBlock a) news = false -> m1 a = ext a).
  { intros a Ha. apply ownCopy_frame; [lia|].
    pose proof (not_inBlock _ _ _ (existsb_false_In _ _ _ _ Ha In1)). lia. }
  assert (F2 : forall a, existsb (inBlock a) news = false -> m2 a = ext a).
  { intros a Ha. rewrite <- (F1 a Ha). apply ownCopy_frame; [lia|].
    pose proof (not_inBlock _ _ _ (existsb_false_In _ _ _ _ Ha In2)). lia. }
  assert (F3 : forall a, existsb (inBlock a) news = false -> m3 a = ext a).
  { intros a Ha. rewrite <- (F2 a Ha). apply ownCopy_frame; [lia|].
    pose proof (not_inBlock _ _ _ (existsb_false_In _ _ _ _ Ha In3)). lia. }
  assert (S1 : forall lb', span m3 lb' (Ext newId) il = I).
  { intros lb'. rewrite <- Hid. unfold getIdBytes. fold b lb il.
    rewrite <- (ownCopy_bytes ext lb lb' newId (id b) il) by lia. fold m1.
    apply span_agree. intros i Hi.
    unfold m3. rewrite ownCopy_frame by lia.
    unfold m2. rewrite ownCopy_frame by lia. reflexivity. }
  assert (S2 : forall lb', span m3 lb' (Ext newData) ul = D).
  { intros lb'. rewrite <- HU. unfold getUnclippedDataBytes. fold b lb ul.
    rewrite <- (span_old news (unclippedData b) ul ext m1 lb Odata F1).
    rewrite <- (ownCopy_bytes m1 lb lb' newData (unclippedData b) ul) by lia. fold m2.
    apply span_agree. intros i Hi.
    unfold m3. rewrite ownCopy_frame by lia. reflexivity. }
  assert (S3 : forall lb', span m3 lb' (Ext newQuality) ul = q).
  { intros lb'. rewrite <- HQ. unfold getUnclippedQualityBytes. fold b lb ul.
    rewrite <- (span_old news (unclippedQuality b) ul ext m2 lb Oqual F2).
    rewrite <- (ownCopy_bytes m2 lb lb' newQuality (unclippedQuality b) ul) by lia.
    reflexivity. }
  (* [init] and [clip] on the copies *)
  destruct (init5_no_lower_case m3 Read_new (Ext newId) il newData newQuality ul)
    as (r1 & Hinit & I1 & I2 & I3 & I4 & I5 & I6).
  { lia. }
  { rewrite S2. exact Hno. }
  rewrite Hinit.
  rewrite wrap32_small in I2 by lia.
  pose proof Hinit as Hfr. unfold init5 in Hfr. apply init_freshRead in Hfr.
  set (rd := clip m3 r1 (clippingState b) false).
  destruct (clip_id m3 r1 (clippingState b) false) as [Cid Cil].
  destruct (clip_unclipped m3 r1 (clippingState b) false) as (Cud & Cuq & Cul & Cdir).
  destruct (clip_fresh_spec m3 r1 (clippingState b) Hfr) as (Fs & Ff & Fd & Fdata & Fq & _).
  pose proof (clip_localBuffer m3 r1 (clippingState b) false) as Clb.
  fold rd in Cid, Cil, Cud, Cuq, Cul, Cdir, Fs, Ff, Fd, Fdata, Fq, Clb.
  assert (HQ1 : getUnclippedQualityBytes m3 r1 = q).
  { unfold getUnclippedQualityBytes. rewrite I4, I5. apply S3. }
  rewrite HQ1 in Ff, Fd. fold front in Ff, Fd. fold len in Fd.
  destruct Hfr as (_ & _ & _ & _ & _ & _ & Hdir1 & _).
  assert (Hfront : (front <= List.length q - backTrim (clippingState b) q)%nat).
  { subst front. unfold frontTrim. destruct (clipsFront (clippingState b)); [|lia].
    pose proof (leadingSentinels_le
                  (firstn (List.length q - backTrim (clippingState b) q) q)) as H.
    rewrite length_firstn in H. lia. }
  (* the views of the copy in a memory that agrees with [m3] on the arrays *)
  assert (Views : forall m4,
            (forall a, inBlock a (newId, il + 1) = true -> m4 a = m3 a) ->
            (forall a, inBlock a (newData, ul + 1) = true -> m4 a = m3 a) ->
            (forall a, inBlock a (newQuality, ul + 1) = true -> m4 a = m3 a) ->
            getIdBytes m4 rd = I /\
            getUnclippedDataBytes m4 rd = D /\
            getUnclippedQualityBytes m4 rd = q /\
            getDataBytes m4 rd = firstn len (skipn front D) /\
            getQualityBytes m4 rd = firstn len (skipn front q)).
  { intros m4 G1 G2 G3.
    assert (T1 : forall lb', span m4 lb' (Ext newId) il = I).
    { intros lb'. rewrite <- (S1 lb'). apply span_agree. intros i Hi. apply G1.
      unfold inBlock. cbn [fst snd].
      apply andb_true_intro. split; [apply Z.leb_le | apply Z.ltb_lt]; lia. }
    assert (T2 : forall lb', span m4 lb' (Ext newData) ul = D).
    { intros lb'. rewrite <- (S2 lb'). apply span_agree. intros i Hi. apply G2.
      unfold inBlock. cbn [fst snd].
      apply andb_true_intro. split; [apply Z.leb_le | apply Z.ltb_lt]; lia. }
    assert (T3 : forall lb', span m4 lb' (Ext newQuality) ul = q).
    { intros lb'. rewrite <- (S3 lb'). apply span_agree. intros i Hi. apply G3.
      unfold inBlock. cbn [fst snd].
      apply andb_true_intro. split; [apply Z.leb_le | apply Z.ltb_lt]; lia. }
    unfold getIdBytes, getUnclippedDataBytes, getUnclippedQualityBytes,
      getDataBytes, getQualityBytes.
    rewrite Cid, Cil, Cud, Cuq, Cul, Fdata, Fq, Ff, Fd, I1, I2, I3, I4, I5.
    rewrite (span_sub m4 _ (Ext newData) _ _ ul) by lia.
    rewrite (span_sub m4 _ (Ext newQuality) _ _ ul) by lia.
    rewrite T1, T2, T3, !Nat2Z.id.
    repeat split; reflexivity. }
  cbn zeta.
  unfold getAuxiliaryBytes.
  destruct (hasAuxiliaryData baseRead) eqn:Haux.
  - unfold hasAuxiliaryData in Haux. rewrite Haux.
    apply andb_prop in Haux. destruct Haux as [Hnn Hpos]. apply Z.ltb_lt in Hpos.
    set (al := auxiliaryDataLength baseRead) in *.
    set (m4 := memcpy m3 lb newAux (auxiliaryData baseRead) al).
    assert (In4 : In (newAux, al) news).
    { unfold news, ownBlocks, hasAuxiliaryData. rewrite Hnn. fold al.
      replace (0 <? al) with true by (symmetry; apply Z.ltb_lt; lia).
      right; right; right; left; reflexivity. }
    assert (Hpw' : apart (newId, il + 1) (newAux, al) = true /\
                   apart (newData, ul + 1) (newAux, al) = true /\
                   apart (newQuality, ul + 1) (newAux, al) = true).
    { unfold news, ownBlocks, hasAuxiliaryData in Hpw. fold b il ul al in Hpw.
      rewrite Hnn in Hpw.
      replace (0 <? al) with true in Hpw by (symmetry; apply Z.ltb_lt; lia).
      cbn [pairwiseApart app forallb andb] in Hpw.
      repeat (apply andb_prop in Hpw; destruct Hpw as [? Hpw]).
      repeat match goal with
             | H : _ && _ = true |- _ => apply andb_prop in H; destruct H
             end.
      repeat split; assumption. }
    destruct Hpw' as (A14 & A24 & A34).
    assert (G : forall blk a,
              apart blk (newAux, al) = true -> inBlock a blk = true -> m4 a = m3 a).
    { intros blk a Hap Hin. apply memcpy_frame. apply not_inBlock.
      apply (apart_inBlock blk _ a Hap Hin). }
    destruct (Views m4 (fun a => G _ a A14) (fun a => G _ a A24) (fun a => G _ a A34))
      as (V1 & V2 & V3 & V4 & V5).
    exists m4, (mkReadWithOwnMemory
                  (mkReadAndAuxiliaryData rd (readGroup baseRead) (Ext newAux) al)
                  newId newData newQuality (Some newAux)).
    unfold hasAuxiliaryData.
    cbn [asRead theRead readGroup auxiliaryData auxiliaryDataLength isNull negb andb].
    replace (0 <? al) with true by (symmetry; apply Z.ltb_lt; lia).
    split; [reflexivity|].
    split; [rewrite Cid; exact I1|].
    split; [rewrite Cud; exact I3|].
    split; [rewrite Cuq; exact I4|].
    do 5 (split; [assumption|]).
    split; [exact Fs|].
    split; [exact Ff|].
    split; [exact Fd|].
    split; [rewrite Cdir; exact Hdir1|].
    split; [reflexivity|].
    split.
    + unfold m4. rewrite memcpy_bytes. fold lb.
      apply (span_old news _ _ ext m3 lb Oaux F3).
    + intros a Ha. unfold m4. rewrite memcpy_frame; [apply F3; exact Ha|].
      apply not_inBlock. apply (existsb_false_In _ _ _ _ Ha In4).
  - unfold hasAuxiliaryData in Haux. rewrite Haux.
    destruct (Views m3 (fun a _ => eq_refl) (fun a _ => eq_refl) (fun a _ => eq_refl))
      as (V1 & V2 & V3 & V4 & V5).
    exists m3, (mkReadWithOwnMemory
                  (mkReadAndAuxiliaryData rd (readGroup baseRead) Null 0)
                  newId newData newQuality None).
    unfold hasAuxiliaryData.
    cbn [asRead theRead readGroup auxiliaryData auxiliaryDataLength isNull negb andb].
    split; [reflexivity|].
    split; [rewrite Cid; exact I1|].
    split; [rewrite Cud; exact I3|].
    split; [rewrite Cuq; exact I4|].
    do 5 (split; [assumption|]).
    split; [exact Fs|].
    split; [exact Ff|].
    split; [exact Fd|].
    split; [rewrite Cdir; exact Hdir1|].
    split; [reflexivity|].
    split; [reflexivity | exact F3].
Qed.

(** A [Read] that the parser made of a record, copied by
    [ReadWithOwnMemory::set] into fresh arrays: the copy shows the same
    identifier, bases and quality, clipped and unclipped, in the same
    clipping mode, with the same read group and auxiliary data, and its
    strings are its own arrays; no byte outside these arrays is changed.
    The table of capitals is taken to have no lower case letter in it. *)
Theorem set_copies_a_read_of_the_parser :
  forall ext baseRead r clipping newId newData newQuality newAux,
    readOf ext r clipping (theRead baseRead) ->
    (forall c, IS_LOWER_CASE (TO_UPPER_CASE c) = 0%N) ->
    idLength (theRead baseRead) < 2 ^ 32 - 1 ->
    0 <= unclippedLength (theRead baseRead) < 2 ^ 32 - 1 ->
    fresh (ownBlocks baseRead newId newData newQuality newAux)
          (stringsOf baseRead) = true ->
    exists ext' copy,
      set ext baseRead newId newData newQuality newAux = Some (ext', copy) /\
      id (theRead (asRead copy)) = Ext newId /\
      unclippedData (theRead (asRead copy)) = Ext newData /\
      unclippedQuality (theRead (asRead copy)) = Ext newQuality /\
      getIdBytes ext' (theRead (asRead copy)) = getIdBytes ext (theRead baseRead) /\
      getUnclippedDataBytes ext' (theRead (asRead copy)) =
        getUnclippedDataBytes ext (theRead baseRead) /\
      getUnclippedQualityBytes ext' (theRead (asRead copy)) =
        getUnclippedQualityBytes ext (theRead baseRead) /\
      getDataBytes ext' (theRead (asRead copy)) = getDataBytes ext (theRead baseRead) /\
      getQualityBytes ext' (theRead (asRead copy)) =
        getQualityBytes ext (theRead baseRead) /\
      clippingState (theRead (asRead copy)) = clippingState (theRead baseRead) /\
      frontClippedLength (theRead (asRead copy)) =
        frontClippedLength (theRead baseRead) /\
      currentReadDirection (theRead (asRead copy)) = FORWARD /\
      readGroup (asRead copy) = readGroup baseRead /\
      getAuxiliaryBytes ext' (asRead copy) = getAuxiliaryBytes ext baseRead /\
      (forall a,
         existsb (inBlock a) (ownBlocks baseRead newId newData newQuality newAux) = false ->
         ext' a = ext a).
Proof.
  intros ext baseRead r clipping newId newData newQuality newAux
         Hread Hup Hidl Hul Hfresh.
  destruct Hread as (Hil & Hid & HU & HQ & Hcs & Hdir & Hfc & Hdl & HD & HQv).
  assert (LU : List.length (recBases r) = List.length (recQuality r)).
  { rewrite <- (length_basesKept (recBases r)), <- HU, <- HQ.
    unfold getUnclippedDataBytes, getUnclippedQualityBytes.
    rewrite !span_length. reflexivity. }
  destruct (set_spec ext baseRead newId newData newQuality newAux)
    as (ext' & copy & Hset & P1 & P2 & P3 & V1 & V2 & V3 & V4 & V5 & Cs & Cf & _
        & Cdir & Crg & Caux & Cframe).
  - lia.
  - exact Hul.
  - rewrite HU. apply anyLowerCase_basesKept. exact Hup.
  - exact Hfresh.
  - exists ext', copy.
    rewrite HQ, Hcs in V4, V5, Cf. rewrite HU in V4. rewrite <- LU in V4, V5.
    rewrite HD, HQv, Hfc.
    repeat (split; [assumption|]). exact Cframe.
Qed.

(** What [ReadWithOwnMemory::set] makes of any [Read] whose unclipped
    bases have no lower case letter among them: a forward read of the
    unclipped strings, clipped in the mode of the original by the sentinels
    in the unclipped quality, the run at its back and then the run at its
    front.  Neither the direction of the original nor a view of it that was
    not clipped so is kept. *)
Theorem set_makes_a_forward_read_clipped_anew :
  forall ext baseRead newId newData newQuality newAux,
    let b := theRead baseRead in
    let q := getUnclippedQualityBytes ext b in
    let front := frontTrim (clippingState b) q in
    let len := (List.length q - backTrim (clippingState b) q - front)%nat in
    0 <= idLength b < 2 ^ 32 - 1 ->
    0 <= unclippedLength b < 2 ^ 32 - 1 ->
    anyLowerCase (getUnclippedDataBytes ext b) = false ->
    fresh (ownBlocks baseRead newId newData newQuality newAux)
          (stringsOf baseRead) = true ->
    exists ext' copy,
      set ext baseRead newId newData newQuality newAux = Some (ext', copy) /\
      currentReadDirection (theRead (asRead copy)) = FORWARD /\
      clippingState (theRead (asRead copy)) = clippingState b /\
      getUnclippedDataBytes ext' (theRead (asRead copy)) = getUnclippedDataBytes ext b /\
      getUnclippedQualityBytes ext' (theRead (asRead copy)) = q /\
      frontClippedLength (theRead (asRead copy)) = Z.of_nat front /\
      dataLength (theRead (asRead copy)) = Z.of_nat len /\
      getDataBytes ext' (theRead (asRead copy)) =
        firstn len (skipn front (getUnclippedDataBytes ext b)) /\
      getQualityBytes ext' (theRead (asRead copy)) = firstn len (skipn front q).
Proof.
  intros ext baseRead newId newData newQuality newAux b q front len
         Hidl Hul Hno Hfresh.
  destruct (set_spec ext baseRead newId newData newQuality newAux Hidl Hul Hno Hfresh)
    as (ext' & copy & Hset & _ & _ & _ & _ & V2 & V3 & V4 & V5 & Cs & Cf & Cd
        & Cdir & _).
  exists ext', copy. repeat (split; [assumption|]). assumption.
Qed.


(** ** Proofs: file specifiers on the command line *)

Lemma nth_error_firstn_In :
  forall (A : Type) (l : list A) k n (x : A),
    nth_error l k = Some x -> (k < n)%nat -> In x (firstn n l).
Proof.
  intros A l k n x H Hk.
  apply nth_error_In with (n := k).
  rewrite nth_error_firstn.
  destruct (Nat.ltb_spec k n); [exact H | lia].
Qed.

Ltac caseOnTests :=
  repeat match goal with
         | H : context [if ?b then _ else _] |- _ => destruct b eqn:?
         | H : context [match nth_error ?l ?k with _ => _ end] |- _ =>
             destruct (nth_error l k) eqn:?
         | H : Done _ _ _ = Done _ _ _ |- _ => first [discriminate H | inversion H; subst; clear H]
         | H : Exits _ = Done _ _ _ |- _ => discriminate H
         | H : BehindTheArray = Done _ _ _ |- _ => discriminate H
         end.

Ltac arithOfTests :=
  repeat match goal with
         | H : (_ =? _) = false |- _ => apply Z.eqb_neq in H
         | H : (_ =? _) = true |- _ => apply Z.eqb_eq in H
         | H : (_ <? _) = false |- _ => apply Z.ltb_ge in H
         | H : (_ <? _) = true |- _ => apply Z.ltb_lt in H
         end.

(** Whenever [generateFromCommandLine] returns true it has named a file
    among the arguments it counts as consumed, at least one of them; a
    second file only for a paired FASTQ input, and for every such input.
    It consumes no more than the [nArgs] arguments it was given, but for a
    paired input of one argument whose type is inferred to be FASTQ: there
    it consumes two, and the second file is whatever the array holds
    behind the one. *)
Theorem generateFromCommandLine_names_consumed_arguments :
  forall args nArgs snapFile paired isInput consumed file,
    0 <= nArgs ->
    generateFromCommandLine args nArgs snapFile paired isInput
      = Done true consumed file ->
    1 <= consumed /\
    (exists name,
        fileName file = Some name /\ In name (firstn (Z.to_nat consumed) args)) /\
    (forall second,
        secondFileName file = Some second ->
        In second (firstn (Z.to_nat consumed) args) /\
        paired = true /\ fileType file = FASTQFile) /\
    (paired = true -> fileType file = FASTQFile -> secondFileName file <> None) /\
    (consumed <= nArgs \/
     (paired = true /\ isInput = true /\ nArgs = 1 /\ consumed = 2 /\
      fileType file = FASTQFile /\
      fileName file = nth_error args 0 /\ secondFileName file = nth_error args 1)).
Proof.
  intros args nArgs snapFile paired isInput consumed file Hn H.
  unfold generateFromCommandLine in H.
  caseOnTests; arithOfTests; cbn [fileName secondFileName fileType andb] in *;
    (split; [lia|]);
    (split; [eexists; split; [reflexivity|];
             eapply nth_error_firstn_In; [eassumption | cbn; lia]|]);
    (split; [intros second Hs;
             first [discriminate Hs
                   | injection Hs as <-;
                     split; [eapply nth_error_firstn_In; [eassumption | cbn; lia]
                            | split; reflexivity]]|]);
    (split; [intros; first [discriminate | congruence]|]);
    try (left; cbn [andb] in *; lia);
    (destruct (Z_le_gt_dec 2 nArgs);
     [left; lia
     |right; destruct isInput; [|discriminate]; repeat split; lia]).
Qed.

Lemma stringEndsWith_last :
  forall s suffix,
    stringEndsWith s suffix = true -> (0 < String.length suffix)%nat ->
    String.get (String.length s - 1) s
    = String.get (String.length suffix - 1) suffix.
Proof.
  intros s suffix H Hpos. unfold stringEndsWith in H.
  apply andb_prop in H. destruct H as [Hle Heq].
  apply Nat.leb_le in Hle. apply String.eqb_eq in Heq.
  set (n := String.length suffix) in *.
  assert (E : String.get (n - 1) (substring (String.length s - n) n s)
              = String.get (n - 1 + (String.length s - n)) s)
    by (apply substring_correct1; lia).
  rewrite Heq in E. rewrite E. f_equal. lia.
Qed.

Lemma fastqName_no_other_type :
  forall s, fastqName s = true ->
            stringEndsWith s ".sam" = false /\ stringEndsWith s ".bam" = false.
Proof.
  intros s H. unfold fastqName in H.
  assert (Hq : exists c, String.get (String.length s - 1) s = Some c /\ c <> "m"%char).
  { repeat (apply orb_prop in H; destruct H as [H|H]);
      apply stringEndsWith_last in H; try (cbn; lia);
      cbn in H; eexists; (split; [exact H | discriminate]). }
  destruct Hq as (c & Hc & Hm).
  split.
  - destruct (stringEndsWith s ".sam") eqn:E; [|reflexivity].
    apply stringEndsWith_last in E; [|cbn; lia]. cbn in E. congruence.
  - destruct (stringEndsWith s ".bam") eqn:E; [|reflexivity].
    apply stringEndsWith_last in E; [|cbn; lia]. cbn in E. congruence.
Qed.

Lemma no_dash_not_stdio :
  forall s, charAt s 0 <> "-"%char -> String.eqb s "-" = false.
Proof.
  intros s H. apply String.eqb_neq. intros ->. apply H. reflexivity.
Qed.

(** A paired input of one argument, the name of a FASTQ file by its
    ending: [generateFromCommandLine] loads [args[1]], behind the argument
    it was given.  When the array ends there the load is behind the array;
    when it goes on, the next element becomes the second file, whatever it
    is, and two arguments count as consumed. *)
Theorem generateFromCommandLine_reads_behind_one_argument :
  forall a0 rest snapFile,
    charAt a0 0 <> "-"%char ->
    fastqName a0 = true ->
    generateFromCommandLine (a0 :: rest) 1 snapFile true true =
    match rest with
    | [] => BehindTheArray
    | a1 :: _ =>
        Done true 2
              (mkSNAPFile (Some a0) (Some a1) FASTQFile
                         (stringEndsWith a0 ".gz" || stringEndsWith a0 ".gzip")
                         (String.eqb a1 "-"))
    end.
Proof.
  intros a0 rest snapFile Hdash Hfq.
  destruct (fastqName_no_other_type a0 Hfq) as [Hsam Hbam].
  pose proof (no_dash_not_stdio a0 Hdash) as Hstdio.
  unfold generateFromCommandLine. cbn [Z.eqb nth_error].
  apply Ascii.eqb_neq in Hdash. rewrite Ascii.eqb_sym in Hdash.
  rewrite Hdash. cbn [andb negb]. rewrite Hsam, Hbam.
  unfold fastqName in Hfq. rewrite Hfq, Hstdio.
  destruct rest as [|a1 rest]; [reflexivity|].
  destruct (String.eqb a1 "-"); reflexivity.
Qed.

(** [generateFromCommandLine] returns false only when there is no argument,
    or when the first one starts with [-], has more to it, and either is the
    only one or is none of the six file type specifiers; it has then
    consumed nothing, named no file and left the file type as it was.  A
    plain file name never makes it return false. *)
Theorem generateFromCommandLine_false_only_for_options :
  forall args nArgs snapFile paired isInput consumed file,
    generateFromCommandLine args nArgs snapFile paired isInput
      = Done false consumed file ->
    consumed = 0 /\
    fileName file = None /\ secondFileName file = None /\
    fileType file = fileType snapFile /\
    (nArgs = 0 \/
     exists a0,
       nth_error args 0 = Some a0 /\
       charAt a0 0 = "-"%char /\ charAt a0 1 <> NUL /\
       (nArgs = 1 \/ ~ In a0 fileTypeSpecifiers)).
Proof.
  intros args nArgs snapFile paired isInput consumed file H.
  unfold generateFromCommandLine in H.
  destruct (nArgs =? 0) eqn:E0.
  { inversion H; subst. apply Z.eqb_eq in E0.
    repeat split. left. exact E0. }
  destruct (nth_error args 0) as [a0|] eqn:Ea0; [|discriminate].
  destruct (Ascii.eqb "-" (charAt a0 0) && negb (Ascii.eqb NUL (charAt a0 1))) eqn:Edash.
  - apply andb_prop in Edash. destruct Edash as [D0 D1].
    apply Ascii.eqb_eq in D0. apply negb_true_iff in D1. apply Ascii.eqb_neq in D1.
    destruct (1 =? nArgs) eqn:E1.
    { inversion H; subst. apply Z.eqb_eq in E1.
      repeat split. right. exists a0. repeat split; try congruence. left. lia. }
    destruct (nth_error args 1) as [a1|] eqn:Ea1; [|discriminate].
    destruct (String.eqb a0 "-fastq") eqn:S1;
      [cbn [orb] in H; caseOnTests|].
    destruct (String.eqb a0 "-compressedFastq") eqn:S2;
      [cbn [orb] in H; caseOnTests|].
    cbn [orb] in H.
    destruct (String.eqb a0 "-sam") eqn:S3; [discriminate|].
    destruct (String.eqb a0 "-bam") eqn:S4; [discriminate|].
    destruct (String.eqb a0 "-pairedInterleavedFastq") eqn:S5;
      [cbn [orb] in H; caseOnTests|].
    destruct (String.eqb a0 "-pairedCompressedInterleavedFastq") eqn:S6;
      [cbn [orb] in H; caseOnTests|].
    cbn [orb] in H. inversion H; subst.
    repeat split. right. exists a0. repeat split; try congruence.
    right. apply String.eqb_neq in S1, S2, S3, S4, S5, S6.
    unfold fileTypeSpecifiers. cbn [In]. intuition congruence.
  - caseOnTests.
Qed.

End Snap.

(** ** The theorems at concrete inputs *)

(** The second record of the concrete case, as the sequential parser hands
    it to [init]: the identifier at byte 17, the bases at 20, the quality
    at 27 of the text of the two records. *)
Lemma clip_recomputes_from_baseline_witness :
  let ext := bufferMemory (renderAll twoRecords) in
  exists r,
    init5 sample_IS_LOWER_CASE sample_TO_UPPER_CASE ext Read_new
          (Ext 17) 2 20 27 4 = Some r /\
    clip ext (clip ext r ClipFront false) ClipBack false
      = clip ext r ClipBack false /\
    dataLength (clip ext r ClipBack false) = 0.
Proof.
  intros ext.
  destruct (init5 sample_IS_LOWER_CASE sample_TO_UPPER_CASE ext Read_new
                  (Ext 17) 2 20 27 4) as [r|] eqn:E;
    [|vm_compute in E; discriminate].
  exists r. split; [reflexivity|].
  destruct (clip_recomputes_from_baseline
              sample_IS_LOWER_CASE sample_TO_UPPER_CASE ext Read_new
              (Ext 17) 2 20 27 4 (-1) (-1) 0 0 0 0 0 Null 0 0 r E
              ClipFront ClipBack false) as (_ & H2 & _ & _ & H3 & _).
  split; [exact H2|].
  rewrite H3. vm_compute in E. injection E as <-. reflexivity.
Defined.

(** A record with lower case bases: the view moves to an upper case copy
    in the local buffer. *)
Lemma init_resets_derived_state_witness :
  let ext := bufferMemory lowerCaseRecord in
  ~ noLowerCase sample_IS_LOWER_CASE ext 4 (wrap32 4) /\
  exists r,
    init5 sample_IS_LOWER_CASE sample_TO_UPPER_CASE ext Read_new
          (Ext 1) 2 4 11 4 = Some r /\
    data r = Loc 0 /\
    getDataBytes ext r = list_ascii_of_string "ACGT".
Proof.
  intros ext.
  assert (Hlow : ~ noLowerCase sample_IS_LOWER_CASE ext 4 (wrap32 4)).
  { intro H. specialize (H 0 ltac:(vm_compute; split; congruence)).
    vm_compute in H. discriminate. }
  split; [exact Hlow|].
  destruct (init_resets_derived_state
              sample_IS_LOWER_CASE sample_TO_UPPER_CASE ext Read_new
              (Ext 1) 2 4 11 4 (-1) (-1) 0 0 0 0 0 Null 0 0) as [Htot Hall].
  destruct Htot as [r Hr]; [right; vm_compute; discriminate|].
  exists r. split; [exact Hr|].
  destruct (Hall r Hr) as (_ & _ & _ & _ & _ & _ & _ & _ & _ & _ & _ & _ & _ & Hup).
  destruct (Hup Hlow) as (Hd & _ & _ & _ & Hbytes).
  split; [exact Hd|]. rewrite Hbytes. reflexivity.
Defined.

(** The first record of the concrete case, clipped and turned. *)
Lemma becomeRC_twice_restores_witness :
  let ext := bufferMemory (renderAll twoRecords) in
  exists r r1 r2,
    init5 sample_IS_LOWER_CASE sample_TO_UPPER_CASE ext Read_new
          (Ext 1) 2 4 11 4 = Some r /\
    unclippedLength r <= MaxReadLength /\
    becomeRC sample_COMPLEMENT ext r = Some r1 /\
    becomeRC sample_COMPLEMENT ext r1 = Some r2 /\
    sameView ext r r2.
Proof.
  intros ext.
  destruct (init5 sample_IS_LOWER_CASE sample_TO_UPPER_CASE ext Read_new
                  (Ext 1) 2 4 11 4) as [r|] eqn:E;
    [|vm_compute in E; discriminate].
  assert (Hlen : unclippedLength r <= MaxReadLength).
  { pose proof E as E'. vm_compute in E'. injection E' as <-.
    vm_compute. discriminate. }
  destruct (becomeRC_twice_restores
              sample_IS_LOWER_CASE sample_TO_UPPER_CASE sample_COMPLEMENT ext r)
    as (Hsecond & Hfirst).
  - eapply initialized_init. exact E.
  - destruct (Hfirst Hlen) as [r1 H1].
    destruct (Hsecond r1 H1) as (r2 & H2 & Hv).
    exists r, r1, r2. repeat split; try assumption; apply Hv.
Defined.

(** The second record of the concrete case, its quality all sentinels,
    clipped at the front. *)
Lemma operations_keep_ReadInvariant_witness :
  let ext := bufferMemory (renderAll twoRecords) in
  exists r,
    init5 sample_IS_LOWER_CASE sample_TO_UPPER_CASE ext Read_new
          (Ext 17) 2 20 27 4 = Some r /\
    ReadInvariant r /\
    ReadInvariant (clip ext r ClipFront false).
Proof.
  intros ext.
  destruct (init5 sample_IS_LOWER_CASE sample_TO_UPPER_CASE ext Read_new
                  (Ext 17) 2 20 27 4) as [r|] eqn:E;
    [|vm_compute in E; discriminate].
  destruct (operations_keep_ReadInvariant
              sample_IS_LOWER_CASE sample_TO_UPPER_CASE sample_COMPLEMENT ext)
    as (Hinit & Hclip & _).
  exists r. split; [reflexivity|].
  assert (Hr : ReadInvariant r) by (eapply Hinit; exact E).
  split; [exact Hr | apply Hclip; exact Hr].
Defined.

(** C7 as stated fails: clipped at the front, the second record of the
    concrete case has nothing left, and [data] and [quality] stand at the
    end of the unclipped spans, not in them. *)
Lemma half_open_span_fails :
  let ext := bufferMemory (renderAll twoRecords) in
  exists r,
    init5 sample_IS_LOWER_CASE sample_TO_UPPER_CASE ext Read_new
          (Ext 17) 2 20 27 4 = Some r /\
    let r' := clip ext r ClipFront false in
    dataLength r' = 0 /\
    frontClippedLength r' = unclippedLength r' /\
    data r' = padd (unclippedData r') (unclippedLength r') /\
    ~ HalfOpenInvariant r'.
Proof.
  intros ext.
  destruct (init5 sample_IS_LOWER_CASE sample_TO_UPPER_CASE ext Read_new
                  (Ext 17) 2 20 27 4) as [r|] eqn:E;
    [|vm_compute in E; discriminate].
  exists r. split; [reflexivity|].
  vm_compute in E. injection E as <-.
  repeat split; try reflexivity.
  intros (_ & H & _). vm_compute in H. discriminate.
Qed.

(** Boundary recovery from byte 5 of the concrete case, inside the bases of
    the first record, ends at byte 16, where the second record starts. *)
Lemma boundary_recovery_on_records_witness :
  let r1 := sampleRecord "r1" "ACGT" "!!!!" in
  let r2 := sampleRecord "r2" "NNNN" "####" in
  forallb wellFormedRecord [r1; r2] = true /\
  forallb recoveryBasesOnly [r1; r2] = true /\
  (5 < List.length (render r1))%nat /\
  skipPartialRecord (renderAll [r1; r2]) 5 27 = Some (Advance 11).
Proof.
  intros r1 r2.
  split; [reflexivity|]. split; [reflexivity|].
  split; [vm_compute; lia|].
  apply (boundary_recovery_on_records [] r1 [r2] 5).
  - reflexivity.
  - reflexivity.
  - vm_compute. lia.
  - intros [_ H]. vm_compute in H. lia.
Defined.

(** C1 as stated fails, twice over.  From the [@] inside the identifier
    [a@b], at byte 2, boundary recovery settles where it stands, in the
    middle of the record, though the next record starts 15 bytes on.  From
    byte 5 of three records of which the second has a lower case [n] among
    its bases, it passes over the second record, which starts 11 bytes on
    and which the sequential parser takes, and settles on the third. *)
Lemma boundary_recovery_misses :
  (forallb wellFormedRecord atInIdentifier = true /\
   nextRecordStart (sampleRecord "a@b" "ACGT" "!!!!")
                   [sampleRecord "r2" "ACGT" "!!!!"] 2 = Advance 15 /\
   skipPartialRecord (renderAll atInIdentifier) 2
                     (List.length (renderAll atInIdentifier) - 2)
     = Some (Advance 0)) /\
  (forallb wellFormedRecord lowerCaseN = true /\
   nextRecordStart (sampleRecord "r1" "ACGT" "!!!!")
                   [sampleRecord "r2" "ACGn" "!!!!";
                    sampleRecord "r3" "ACGT" "!!!!"] 5 = Advance 11 /\
   skipPartialRecord (renderAll lowerCaseN) 5
                     (List.length (renderAll lowerCaseN) - 5)
     = Some (Advance 27) /\
   exists r,
     getReadFromBuffer sample_IS_LOWER_CASE sample_TO_UPPER_CASE
       (renderAll lowerCaseN) 16 32 Read_new true ClipBack = Returns (16%nat, r)).
Proof.
  split.
  - repeat split; vm_compute; reflexivity.
  - split; [reflexivity|]. split; [reflexivity|]. split; [vm_compute; reflexivity|].
    vm_compute. eexists. reflexivity.
Qed.

(** Boundary recovery from byte 5 of the concrete case settles on a line
    that starts with [@] and is followed by a line of bases and a [+]. *)
Lemma recovery_accepts_only_base_lines_witness :
  let buf := renderAll twoRecords in
  skipPartialRecord buf 5 27 = Some (Advance 11) /\
  byteAt buf (5 + 11) = "@"%char /\
  exists newLine,
    strnchr buf (5 + 11) LF (27 - 11) = Some newLine /\
    baseLineAt isSupportedBase buf (S newLine).
Proof.
  intros buf.
  assert (H : skipPartialRecord buf 5 27 = Some (Advance 11))
    by (vm_compute; reflexivity).
  split; [exact H|].
  destruct (recovery_accepts_only_base_lines buf 5 27) as (_ & _ & Hacc & _).
  destruct (Hacc 11%nat H) as (_ & Hat & nl & Hs & _ & Hline).
  split; [exact Hat|]. exists nl. split; [exact Hs | exact Hline].
Defined.

(** The first record of the concrete case passes the four checks and is
    taken. *)
Lemma sequential_parser_checks_line_starts_witness :
  let buf := renderAll twoRecords in
  goodLines buf 0 32 4 0 0 = Some 16%nat /\
  exists r,
    getReadFromBuffer sample_IS_LOWER_CASE sample_TO_UPPER_CASE
      buf 0 32 Read_new true ClipBack = Returns (16%nat, r).
Proof.
  intros buf.
  assert (H : goodLines buf 0 32 4 0 0 = Some 16%nat) by (vm_compute; reflexivity).
  split; [exact H|].
  destruct (sequential_parser_checks_line_starts
              sample_IS_LOWER_CASE sample_TO_UPPER_CASE
              buf 0%nat 32%nat Read_new true ClipBack) as (_ & Hgood & _).
  destruct (Hgood 16%nat H) as [Hr|[_ Hbig]].
  - exact Hr.
  - exfalso. vm_compute in Hbig. discriminate.
Defined.

(** C2 as stated fails: a record whose second line goes on with bytes that
    are no base symbols, and whose fourth line is shorter than the second,
    is taken, the process going on. *)
Lemma only_line_starts_are_checked :
  forallb isSupportedBase (list_ascii_of_string "A!!!") = false /\
  List.length (list_ascii_of_string "!!") <> List.length (list_ascii_of_string "A!!!") /\
  exists r,
    getReadFromBuffer sample_IS_LOWER_CASE sample_TO_UPPER_CASE
      unevenRecord 0 (List.length unevenRecord) Read_new false NoClipping
      = Returns (13%nat, r) /\
    getDataBytes (bufferMemory unevenRecord) r = list_ascii_of_string "A!!!".
Proof.
  split; [reflexivity|]. split; [vm_compute; discriminate|].
  vm_compute. eexists. split; reflexivity.
Qed.


(** C8 fails on the code: two files of one record and of two, each with a
    Ctrl-Z behind its last line.  The first call returns the pair a/1 a/2.
    In the second the reader of the first file stands at its Ctrl-Z: it
    returns true, with no record read and its cursor where it was, and the
    call returns true, with the record a/1 once more beside b/2; the
    process does not end.  In the third both readers stand at a Ctrl-Z:
    the call returns true again, nothing read and nothing moved, and so
    does every call after it; none returns false. *)
Lemma paired_reader_at_trailing_CtrlZ :
  let ext0 := bufferMemory oneRecordCtrlZ in
  let ext1 := bufferMemory twoRecordsCtrlZ in
  ('(w1, a0, a1, d0, d1) <-
      PairedFASTQReader_getNextReadPair sample_IS_LOWER_CASE sample_TO_UPPER_CASE
        ClipBack (wholeFile oneRecordCtrlZ) (wholeFile twoRecordsCtrlZ)
        Read_new Read_new ;;
   '(w2, b0, b1, e0, e1) <-
      PairedFASTQReader_getNextReadPair sample_IS_LOWER_CASE sample_TO_UPPER_CASE
        ClipBack d0 d1 a0 a1 ;;
   '(w3, c0, c1, f0, f1) <-
      PairedFASTQReader_getNextReadPair sample_IS_LOWER_CASE sample_TO_UPPER_CASE
        ClipBack e0 e1 b0 b1 ;;
   Returns (w1, getIdBytes ext0 a0, getIdBytes ext1 a1,
            w2, getIdBytes ext0 b0, getIdBytes ext1 b1, e0, e1,
            w3, getIdBytes ext0 c0, getIdBytes ext1 c1, f0, f1))
  = Returns (true, list_ascii_of_string "a/1", list_ascii_of_string "a/2",
             true, list_ascii_of_string "a/1", list_ascii_of_string "b/2",
             advance 17 (wholeFile oneRecordCtrlZ),
             advance 34 (wholeFile twoRecordsCtrlZ),
             true, list_ascii_of_string "a/1", list_ascii_of_string "b/2",
             advance 17 (wholeFile oneRecordCtrlZ),
             advance 34 (wholeFile twoRecordsCtrlZ)).
Proof. vm_compute. reflexivity. Qed.

(** The third record of three, read alone. *)
Lemma odd_record_is_ignored_witness :
  let d := advance 34 (wholeFile oddSample) in
  getData (batchInUse d) = Some (oddSample, 34%nat, 17%nat) /\
  goodLines oddSample 34 17 4 0 34 = Some (34 + 17)%nat /\
  exists r0,
    PairedInterleaved_getNextReadPair sample_IS_LOWER_CASE sample_TO_UPPER_CASE
      ClipBack d Read_new Read_new = Returns (false, r0, Read_new, d).
Proof.
  intros d.
  split; [reflexivity|].
  assert (Hgood : goodLines oddSample 34 17 4 0 34 = Some (34 + 17)%nat)
    by (vm_compute; reflexivity).
  split; [exact Hgood|].
  destruct (odd_record_is_ignored sample_IS_LOWER_CASE sample_TO_UPPER_CASE
              ClipBack d Read_new Read_new oddSample 34%nat 17%nat)
    as [_ Hodd]; [reflexivity|].
  apply Hodd; [exact Hgood | vm_compute; discriminate].
Defined.


(** C9 as stated fails: over three interleaved records the reader, set up
    from the start of the file, returns the first pair and then false; the
    process does not end. *)
Lemma odd_count_returns_false :
  (d <- PairedInterleaved_reinit sample_IS_LOWER_CASE sample_TO_UPPER_CASE
          ClipBack 0 (wholeFile oddSample) ;;
   '(first, a0, a1, d') <-
      PairedInterleaved_getNextReadPair sample_IS_LOWER_CASE sample_TO_UPPER_CASE
        ClipBack d Read_new Read_new ;;
   '(second, _, _, _) <-
      PairedInterleaved_getNextReadPair sample_IS_LOWER_CASE sample_TO_UPPER_CASE
        ClipBack d' a0 a1 ;;
   Returns (first, second))
  = Returns (true, false).
Proof. vm_compute. reflexivity. Qed.

(** ** Further theorems at concrete inputs *)

(** The second record of the concrete case, its quality all sentinels,
    clipped at the back. *)
Lemma clip_back_leaves_no_trailing_sentinel_witness :
  let ext := bufferMemory (renderAll twoRecords) in
  exists r,
    init5 sample_IS_LOWER_CASE sample_TO_UPPER_CASE ext Read_new
          (Ext 17) 2 20 27 4 = Some r /\
    countOfTrailing2sInQuality ext r = 4 /\
    countOfTrailing2sInQuality ext (clip ext r ClipBack false) = 0 /\
    dataLength (clip ext r ClipBack false) + countOfTrailing2sInQuality ext r =
      dataLength r.
Proof.
  intros ext.
  destruct (init5 sample_IS_LOWER_CASE sample_TO_UPPER_CASE ext Read_new
                  (Ext 17) 2 20 27 4) as [r|] eqn:E;
    [|vm_compute in E; discriminate].
  exists r. split; [reflexivity|].
  split.
  - vm_compute in E. injection E as <-. reflexivity.
  - apply (clip_back_leaves_no_trailing_sentinel
             sample_IS_LOWER_CASE sample_TO_UPPER_CASE ext Read_new
             (Ext 17) 2 20 27 4 (-1) (-1) 0 0 0 0 0 Null 0 0 r ClipBack E).
    reflexivity.
Defined.

(** The first record of the concrete case, turned: forward [ACGT] with
    quality [!!!!], reverse [ACGT] again, the complements in the opposite
    order. *)
Lemma becomeRC_is_reverse_complement_witness :
  let ext := bufferMemory (renderAll twoRecords) in
  exists r r1,
    init5 sample_IS_LOWER_CASE sample_TO_UPPER_CASE ext Read_new
          (Ext 1) 2 4 11 4 = Some r /\
    becomeRC sample_COMPLEMENT ext r = Some r1 /\
    currentReadDirection r1 = RC /\
    getDataBytes ext r1 = reverseComplement sample_COMPLEMENT (getDataBytes ext r) /\
    getQualityBytes ext r1 = rev (getQualityBytes ext r).
Proof.
  intros ext.
  destruct (init5 sample_IS_LOWER_CASE sample_TO_UPPER_CASE ext Read_new
                  (Ext 1) 2 4 11 4) as [r|] eqn:E;
    [|vm_compute in E; discriminate].
  destruct (becomeRC sample_COMPLEMENT ext r) as [r1|] eqn:E1;
    [|vm_compute in E; injection E as <-; vm_compute in E1; discriminate].
  assert (Hdir : currentReadDirection r = FORWARD)
    by (pose proof E as E'; vm_compute in E'; injection E' as <-; reflexivity).
  pose proof (becomeRC_is_reverse_complement
                sample_IS_LOWER_CASE sample_TO_UPPER_CASE sample_COMPLEMENT ext r r1
                (initialized_init _ _ _ _ _ _ _ _ _ _ _ _ _ _ _ _ _ _ _ _ _ E) E1)
    as H.
  cbv zeta in H. rewrite Hdir in H.
  destruct H as (_ & H2 & H3 & H4 & _).
  exists r, r1. repeat split; assumption.
Defined.

(** The reverse complement of the first record of the concrete case,
    written to the bytes from 100 on. *)
Lemma computeReverseCompliment_writes_reverse_complement_witness :
  let ext := bufferMemory (renderAll twoRecords) in
  exists r,
    init5 sample_IS_LOWER_CASE sample_TO_UPPER_CASE ext Read_new
          (Ext 1) 2 4 11 4 = Some r /\
    apartFrom (data r) (dataLength r) 100 /\
    map (fun i => computeReverseCompliment sample_COMPLEMENT ext r 100
                    (100 + Z.of_nat i)) (seq 0 (Z.to_nat (dataLength r)))
      = reverseComplement sample_COMPLEMENT (getDataBytes ext r).
Proof.
  intros ext.
  destruct (init5 sample_IS_LOWER_CASE sample_TO_UPPER_CASE ext Read_new
                  (Ext 1) 2 4 11 4) as [r|] eqn:E;
    [|vm_compute in E; discriminate].
  assert (Hapart : apartFrom (data r) (dataLength r) 100).
  { pose proof E as E'. vm_compute in E'. injection E' as <-.
    right. vm_compute. discriminate. }
  exists r. split; [reflexivity|]. split; [exact Hapart|].
  apply (computeReverseCompliment_writes_reverse_complement
           sample_COMPLEMENT ext r 100 Hapart).
Defined.

(** The first record of the concrete case, recorded as clipped of one base
    at each end: no sentinel in its quality, and yet one base is trimmed at
    each end. *)
Lemma clip_maintains_original_clipping_witness :
  let ext := bufferMemory (renderAll twoRecords) in
  exists r,
    init sample_IS_LOWER_CASE sample_TO_UPPER_CASE ext Read_new
         (Ext 1) 2 4 11 4 (-1) (-1) 0 1 1 0 0 Null 0 0 = Some r /\
    frontClippedLength (clip ext r ClipFrontAndBack true) = 1 /\
    dataLength (clip ext r ClipFrontAndBack true) = 2 /\
    ReadInvariant (clip ext r ClipFrontAndBack true).
Proof.
  intros ext.
  destruct (init sample_IS_LOWER_CASE sample_TO_UPPER_CASE ext Read_new
                 (Ext 1) 2 4 11 4 (-1) (-1) 0 1 1 0 0 Null 0 0) as [r|] eqn:E;
    [|vm_compute in E; discriminate].
  exists r. split; [reflexivity|].
  destruct (clip_maintains_original_clipping
              sample_IS_LOWER_CASE sample_TO_UPPER_CASE ext Read_new
              (Ext 1) 2 4 11 4 (-1) (-1) 0 1 1 0 0 Null 0 0 r ClipFrontAndBack E)
    as (_ & Hf & Hd & Hinv).
  - vm_compute in E. injection E as <-. vm_compute. discriminate.
  - rewrite Hf, Hd.
    split; [|split; [|exact Hinv]];
      vm_compute in E; injection E as <-; reflexivity.
Defined.

(** The second record of the concrete case, clipped at the front. *)
Lemma getFrontClippedLength_is_the_member_witness :
  let ext := bufferMemory (renderAll twoRecords) in
  exists r,
    init5 sample_IS_LOWER_CASE sample_TO_UPPER_CASE ext Read_new
          (Ext 17) 2 20 27 4 = Some r /\
    getFrontClippedLength (clip ext r ClipFront false) =
      frontClippedLength (clip ext r ClipFront false).
Proof.
  intros ext.
  destruct (init5 sample_IS_LOWER_CASE sample_TO_UPPER_CASE ext Read_new
                  (Ext 17) 2 20 27 4) as [r|] eqn:E;
    [|vm_compute in E; discriminate].
  exists r. split; [reflexivity|].
  apply (getFrontClippedLength_is_the_member
           sample_IS_LOWER_CASE sample_TO_UPPER_CASE sample_COMPLEMENT ext).
  apply initialized_clip. eapply initialized_init. exact E.
Defined.

(** The second record of the pair, behind the first: lower case bases and
    two sentinels at the end of the quality. *)
Lemma sequential_parser_reads_record_witness :
  let buf := renderAll samplePair in
  let ext := bufferMemory buf in
  exists rd,
    getReadFromBuffer sample_IS_LOWER_CASE sample_TO_UPPER_CASE buf 17 17
                      Read_new true ClipBack = Returns (17%nat, rd) /\
    getIdBytes ext rd = list_ascii_of_string "a/2" /\
    getUnclippedDataBytes ext rd = list_ascii_of_string "ACGT" /\
    getDataBytes ext rd = list_ascii_of_string "AC" /\
    getQualityBytes ext rd = list_ascii_of_string "!!".
Proof.
  intros buf ext.
  destruct (sequential_parser_reads_record
              sample_IS_LOWER_CASE sample_TO_UPPER_CASE
              (render (sampleRecord "a/1" "ACGT" "!!!!"))
              (sampleRecord "a/2" "acgt" "!!##") [] 17 Read_new true ClipBack)
    as (rd & Hp & Hr).
  - reflexivity.
  - discriminate.
  - apply Nat.leb_le. reflexivity.
  - reflexivity.
  - intros _. vm_compute. discriminate.
  - exists rd. split; [exact Hp|].
    destruct Hr as (_ & Hid & Hu & _ & _ & _ & _ & _ & Hd & Hq).
    repeat split; assumption.
Defined.

(** The file of the pair, read record by record. *)
Lemma getNextRead_reads_records_in_order_witness :
  let file := renderAll samplePair in
  let ext := bufferMemory file in
  (exists rd,
     getNextRead sample_IS_LOWER_CASE sample_TO_UPPER_CASE ClipBack
                 (advance 17 (wholeFile file)) Read_new
       = Returns (true, rd, advance 34 (wholeFile file)) /\
     getIdBytes ext rd = list_ascii_of_string "a/2" /\
     getDataBytes ext rd = list_ascii_of_string "AC") /\
  getNextRead sample_IS_LOWER_CASE sample_TO_UPPER_CASE ClipBack
              (advance 34 (wholeFile file)) Read_new
    = Returns (false, Read_new, advance 34 (wholeFile file)).
Proof.
  intros file ext.
  destruct (getNextRead_reads_records_in_order
              sample_IS_LOWER_CASE sample_TO_UPPER_CASE
              [sampleRecord "a/1" "ACGT" "!!!!"]
              (sampleRecord "a/2" "acgt" "!!##") [] Read_new ClipBack)
    as [(rd & Hn & Hr) Hend].
  - reflexivity.
  - reflexivity.
  - intros _. vm_compute. discriminate.
  - split; [|exact Hend].
    exists rd. split; [exact Hn|].
    destruct Hr as (_ & Hid & _ & _ & _ & _ & _ & _ & Hd & _).
    split; assumption.
Defined.

(** A reader started at byte 6 of the file of the pair, among the bases of
    the first record. *)
Lemma reinit_then_getNextRead_reads_next_record_witness :
  let file := renderAll samplePair in
  let ext := bufferMemory file in
  FASTQReader_reinit 6 (advance 6 (wholeFile file))
    = Returns (advance 17 (wholeFile file)) /\
  exists rd,
    getNextRead sample_IS_LOWER_CASE sample_TO_UPPER_CASE ClipBack
                (advance 17 (wholeFile file)) Read_new
      = Returns (true, rd, advance 17 (advance 17 (wholeFile file))) /\
    getIdBytes ext rd = list_ascii_of_string "a/2".
Proof.
  intros file ext.
  destruct (reinit_then_getNextRead_reads_next_record
              sample_IS_LOWER_CASE sample_TO_UPPER_CASE
              [] (sampleRecord "a/1" "ACGT" "!!!!")
              (sampleRecord "a/2" "acgt" "!!##") [] 6 6 Read_new ClipBack)
    as (Hre & rd & Hn & Hr).
  - reflexivity.
  - reflexivity.
  - split; [apply Nat.ltb_lt | apply Nat.ltb_lt]; reflexivity.
  - intros H. apply Nat.leb_le in H. vm_compute in H. discriminate.
  - discriminate.
  - reflexivity.
  - reflexivity.
  - intros _. vm_compute. discriminate.
  - split; [exact Hre|].
    exists rd. split; [exact Hn|]. apply Hr.
Defined.

(** The pair, read by the interleaved reader. *)
Lemma interleaved_reader_pairs_records_witness :
  let file := renderAll samplePair in
  let ext := bufferMemory file in
  exists rd1 rd2,
    PairedInterleaved_getNextReadPair sample_IS_LOWER_CASE sample_TO_UPPER_CASE
      ClipBack (wholeFile file) Read_new Read_new
      = Returns (true, rd1, rd2, advance 34 (wholeFile file)) /\
    getIdBytes ext rd1 = list_ascii_of_string "a/1" /\
    getIdBytes ext rd2 = list_ascii_of_string "a/2".
Proof.
  intros file ext.
  destruct (interleaved_reader_pairs_records
              sample_IS_LOWER_CASE sample_TO_UPPER_CASE
              [] (sampleRecord "a/1" "ACGT" "!!!!")
              (sampleRecord "a/2" "acgt" "!!##") [] Read_new Read_new ClipBack)
    as (_ & _ & Hpair).
  - reflexivity.
  - reflexivity.
  - reflexivity.
  - reflexivity.
  - intros H. vm_compute in H. discriminate.
  - intros _. vm_compute. discriminate.
  - destruct (Hpair eq_refl eq_refl) as (rd1 & rd2 & Hres & H1 & H2).
    exists rd1, rd2. split; [exact Hres|].
    split; [apply H1 | apply H2].
Defined.

(** The two records of the pair, one in each of two files. *)
Lemma paired_reader_reads_both_files_witness :
  let file0 := renderAll [sampleRecord "a/1" "ACGT" "!!!!"] in
  let file1 := renderAll [sampleRecord "a/2" "acgt" "!!##"] in
  (exists rd0 rd1,
     PairedFASTQReader_getNextReadPair sample_IS_LOWER_CASE sample_TO_UPPER_CASE
       ClipBack (wholeFile file0) (wholeFile file1) Read_new Read_new
       = Returns (true, rd0, rd1, advance 17 (wholeFile file0),
                  advance 17 (wholeFile file1)) /\
     getIdBytes (bufferMemory file0) rd0 = list_ascii_of_string "a/1" /\
     getIdBytes (bufferMemory file1) rd1 = list_ascii_of_string "a/2") /\
  PairedFASTQReader_getNextReadPair sample_IS_LOWER_CASE sample_TO_UPPER_CASE
    ClipBack (wholeFile file0) (advance 17 (wholeFile file1)) Read_new Read_new
    = SoftExit FilesDontMatch.
Proof.
  intros file0 file1.
  destruct (paired_reader_reads_both_files
              sample_IS_LOWER_CASE sample_TO_UPPER_CASE
              [] (sampleRecord "a/1" "ACGT" "!!!!") []
              [] (sampleRecord "a/2" "acgt" "!!##") [] Read_new Read_new ClipBack)
    as ((rd0 & rd1 & Hres & H0 & H1) & Hmis & _).
  - reflexivity.
  - reflexivity.
  - reflexivity.
  - reflexivity.
  - intros H. vm_compute in H. discriminate.
  - intros _. vm_compute. discriminate.
  - split; [|exact Hmis].
    exists rd0, rd1. split; [exact Hres|].
    split; [apply H0 | apply H1].
Defined.

(** The interleaved reader set up on the second record of the pair alone:
    the second half of a pair, and nothing behind it. *)
Lemma interleaved_reinit_on_records_witness :
  let file := renderAll samplePair in
  PairedInterleaved_reinit sample_IS_LOWER_CASE sample_TO_UPPER_CASE ClipBack 0
    (wholeFile file) = Returns (wholeFile file) /\
  PairedInterleaved_reinit sample_IS_LOWER_CASE sample_TO_UPPER_CASE ClipBack 0
    (advance 17 (wholeFile file)) = SoftExit EndsWithFirstHalf.
Proof.
  intros file. split.
  - destruct (interleaved_reinit_on_records
                sample_IS_LOWER_CASE sample_TO_UPPER_CASE
                [] (sampleRecord "a/1" "ACGT" "!!!!")
                [sampleRecord "a/2" "acgt" "!!##"] ClipBack)
      as (H1 & _).
    + reflexivity.
    + reflexivity.
    + intros H. vm_compute in H. discriminate.
    + apply H1. reflexivity.
  - destruct (interleaved_reinit_on_records
                sample_IS_LOWER_CASE sample_TO_UPPER_CASE
                [sampleRecord "a/1" "ACGT" "!!!!"]
                (sampleRecord "a/2" "acgt" "!!##") [] ClipBack)
      as (_ & _ & H3 & _).
    + reflexivity.
    + reflexivity.
    + intros _. vm_compute. discriminate.
    + apply H3; reflexivity.
Defined.

(** The first record of the concrete case, written to the sample writer
    and read back from its buffer. *)
Lemma writeRead_round_trip_witness :
  let ext := bufferMemory (renderAll twoRecords) in
  exists rd w' rd',
    init5 sample_IS_LOWER_CASE sample_TO_UPPER_CASE ext Read_new
          (Ext 1) 2 4 11 4 = Some rd /\
    writeRead (fun w => w) ext sampleWriter rd = Some (true, w') /\
    bufferOffset w' = 20 /\
    getReadFromBuffer sample_IS_LOWER_CASE sample_TO_UPPER_CASE
                      (buffer w') 4 16 Read_new false ClipBack
      = Returns (16%nat, rd') /\
    getIdBytes (bufferMemory (buffer w')) rd' = list_ascii_of_string "r1" /\
    getDataBytes (bufferMemory (buffer w')) rd' = list_ascii_of_string "ACGT".
Proof.
  intros ext.
  destruct (init5 sample_IS_LOWER_CASE sample_TO_UPPER_CASE ext Read_new
                  (Ext 1) 2 4 11 4) as [rd|] eqn:E;
    [|vm_compute in E; discriminate].
  assert (Hrd : rd = ltac:(let t := eval vm_compute in
                   (match init5 sample_IS_LOWER_CASE sample_TO_UPPER_CASE ext Read_new
                                (Ext 1) 2 4 11 4 with
                    | Some r => r | None => Read_new end) in exact t)).
  { pose proof E as E'. vm_compute in E'. injection E' as <-. reflexivity. }
  destruct (writeRead_round_trip
              sample_IS_LOWER_CASE sample_TO_UPPER_CASE (fun w => w) ext
              sampleWriter rd)
    as (w' & Hw & _ & Hoff & _ & _ & Hparse).
  - rewrite Hrd. reflexivity.
  - rewrite Hrd. reflexivity.
  - rewrite Hrd. discriminate.
  - rewrite Hrd. discriminate.
  - rewrite Hrd. reflexivity.
  - intros _. rewrite Hrd. discriminate.
  - reflexivity.
  - reflexivity.
  - discriminate.
  - rewrite Hrd. reflexivity.
  - destruct (Hparse Read_new false ClipBack) as (rd' & Hp & Hr).
    exists rd, w', rd'. split; [reflexivity|]. split; [exact Hw|].
    assert (Hlen : List.length (render (recordOf ext rd)) = 16%nat)
      by (rewrite Hrd; reflexivity).
    rewrite Hlen in Hoff, Hp.
    split; [exact Hoff|]. split; [exact Hp|].
    destruct Hr as (_ & Hid & _ & _ & _ & _ & _ & _ & Hd & _).
    rewrite Hid, Hd, Hrd. split; reflexivity.
Defined.


(** The CIGAR string 5S90M7S: five bases clipped at the front, seven at
    the back, each clip two bytes long. *)
Lemma ExtractClipping_reads_front_and_back_clip_witness :
  ExtractClipping (bufferMemory (list_ascii_of_string "5S90M7S")) 0 7 "S" =
  Some (5, 7, 2, 2).
Proof.
  apply (ExtractClipping_reads_front_and_back_clip
           (bufferMemory (list_ascii_of_string "5S90M7S")) 0 "S"
           (list_ascii_of_string "5") (list_ascii_of_string "90M")
           (list_ascii_of_string "7")).
  - intros k Hk. do 7 (destruct k; [reflexivity|]). cbn in Hk. lia.
  - reflexivity.
  - reflexivity.
  - reflexivity.
  - cbn. lia.
  - cbn. lia.
  - reflexivity.
  - reflexivity.
  - reflexivity.
  - reflexivity.
  - reflexivity.
  - reflexivity.
  - discriminate.
Defined.

(** The CIGAR string 100S, a read clipped in whole, in a buffer with
    nothing but NUL 4294967295 bytes on: 100 bases are clipped at the
    front and 100 at the back. *)
Lemma ExtractClipping_whole_clip_witness :
  ExtractClipping (bufferMemory (list_ascii_of_string "100S")) 0 4 "S" =
  Some (100, 100, 4, 4).
Proof.
  apply (ExtractClipping_whole_clip
           (bufferMemory (list_ascii_of_string "100S")) 0 "S"
           (list_ascii_of_string "100")).
  - intros k Hk. do 4 (destruct k; [reflexivity|]). cbn in Hk. lia.
  - discriminate.
  - reflexivity.
  - cbn. lia.
  - reflexivity.
  - reflexivity.
  - reflexivity.
  - unfold cigarAt, bufferMemory, byteAt.
    change (0 + (2 ^ 32 - 1) <? 0) with false. cbv iota.
    rewrite nth_overflow; [reflexivity|].
    change (List.length (list_ascii_of_string "100S")) with 4%nat. lia.
Defined.

(** The CIGAR field 3H5S90M7S2H of a SAM line, a tab behind it. *)
Lemma computeClippingFromCigar_hard_and_soft_witness :
  computeClippingFromCigar
    (bufferMemory (list_ascii_of_string "3H5S90M7S2H" ++ ["009"%char; "*"%char])) 0 =
  Clipping 5 7 3 2.
Proof.
  apply (computeClippingFromCigar_hard_and_soft
           (bufferMemory (list_ascii_of_string "3H5S90M7S2H" ++ ["009"%char; "*"%char])) 0
           (list_ascii_of_string "3") (list_ascii_of_string "5")
           (list_ascii_of_string "90M") (list_ascii_of_string "7")
           (list_ascii_of_string "2") "009").
  - intros k Hk. do 12 (destruct k; [reflexivity|]). cbn in Hk. lia.
  - reflexivity.
  - cbn. lia.
  - reflexivity.
  - reflexivity.
  - reflexivity.
  - reflexivity.
  - cbn. lia.
  - cbn. lia.
  - cbn. lia.
  - cbn. lia.
  - reflexivity.
  - reflexivity.
  - reflexivity.
  - reflexivity.
  - reflexivity.
  - reflexivity.
  - discriminate.
Defined.

(** The second record of the sample pair as the parser reads it, clipped
    at the back, the first line of the buffer for its auxiliary data,
    copied to arrays behind the buffer. *)
Lemma set_copies_a_read_of_the_parser_witness :
  let ext := bufferMemory (renderAll samplePair) in
  let rd :=
    clip ext
         (match init5 sample_IS_LOWER_CASE sample_TO_UPPER_CASE ext Read_new
                      (Ext 18) 3 22 29 4 with
          | Some r => r
          | None => Read_new
          end) ClipBack false in
  let baseRead := mkReadAndAuxiliaryData rd Null (Ext 0) 5 in
  exists ext' copy,
    set sample_IS_LOWER_CASE sample_TO_UPPER_CASE ext baseRead 100 110 120 130
      = Some (ext', copy) /\
    getIdBytes ext' (theRead (asRead copy)) = list_ascii_of_string "a/2" /\
    getDataBytes ext' (theRead (asRead copy)) = list_ascii_of_string "AC" /\
    getQualityBytes ext' (theRead (asRead copy)) = list_ascii_of_string "!!" /\
    getAuxiliaryBytes ext' (asRead copy) = list_ascii_of_string "@a/1" ++ [LF].
Proof.
  intros ext rd baseRead.
  destruct (set_copies_a_read_of_the_parser
              sample_IS_LOWER_CASE sample_TO_UPPER_CASE ext baseRead
              (sampleRecord "a/2" "acgt" "!!##") ClipBack 100 110 120 130)
    as (ext' & copy & Hset & _ & _ & _ & Hid & _ & _ & Hd & Hq & _ & _ & _ & _ & Haux & _).
  - vm_compute. repeat split.
  - intros c. destruct c as [[] [] [] [] [] [] [] []]; reflexivity.
  - reflexivity.
  - split; [discriminate | reflexivity].
  - reflexivity.
  - exists ext', copy. split; [exact Hset|].
    rewrite Hid, Hd, Hq, Haux. repeat split.
Defined.

(** A record with the bases AACC and the quality !!##, read, clipped at the
    back and turned into its reverse complement: the read shows TT, its
    copy GGTT, forward. *)
Lemma set_makes_a_forward_read_clipped_anew_witness :
  let ext := bufferMemory (renderAll [sampleRecord "r" "AACC" "!!##"]) in
  let b0 :=
    clip ext
         (match init5 sample_IS_LOWER_CASE sample_TO_UPPER_CASE ext Read_new
                      (Ext 1) 1 3 10 4 with
          | Some r => r
          | None => Read_new
          end) ClipBack false in
  let b :=
    match becomeRC sample_COMPLEMENT ext b0 with
    | Some r => r
    | None => Read_new
    end in
  let baseRead := mkReadAndAuxiliaryData b Null Null 0 in
  exists ext' copy,
    set sample_IS_LOWER_CASE sample_TO_UPPER_CASE ext baseRead 100 110 120 130
      = Some (ext', copy) /\
    currentReadDirection b = RC /\
    getDataBytes ext b = list_ascii_of_string "TT" /\
    currentReadDirection (theRead (asRead copy)) = FORWARD /\
    getDataBytes ext' (theRead (asRead copy)) = list_ascii_of_string "GGTT".
Proof.
  intros ext b0 b baseRead.
  assert (H := set_makes_a_forward_read_clipped_anew
                 sample_IS_LOWER_CASE sample_TO_UPPER_CASE ext baseRead
                 100 110 120 130).
  cbv zeta in H.
  destruct H as (ext' & copy & Hset & Hdir & _ & _ & _ & _ & _ & Hd & _).
  - split; [discriminate | reflexivity].
  - split; [discriminate | reflexivity].
  - reflexivity.
  - reflexivity.
  - exists ext', copy. split; [exact Hset|].
    split; [reflexivity|]. split; [reflexivity|]. split; [exact Hdir|].
    rewrite Hd. reflexivity.
Defined.

(** Two FASTQ files for a paired alignment, an option behind them. *)
Lemma generateFromCommandLine_names_consumed_arguments_witness :
  let args := ["a_1.fq"; "a_2.fq"; "-o"; "out.sam"]%string in
  let file := mkSNAPFile (Some "a_1.fq"%string) (Some "a_2.fq"%string)
                         FASTQFile false false in
  generateFromCommandLine args 4 (mkSNAPFile None None UnknownFileType false false)
                          true true = Done true 2 file /\
  In "a_1.fq"%string (firstn 2 args) /\ 2 <= 4.
Proof.
  intros args file.
  split; [reflexivity|].
  destruct (generateFromCommandLine_names_consumed_arguments
              args 4 (mkSNAPFile None None UnknownFileType false false)
              true true 2 file)
    as (_ & (name & Hname & Hin) & _ & _ & [H|H]).
  - lia.
  - reflexivity.
  - injection Hname as <-. split; [exact Hin | exact H].
  - destruct H as (_ & _ & H & _). discriminate H.
Defined.

(** One FASTQ file for a paired alignment, the comma that ends the
    arguments of the run behind it: the comma becomes the second file. *)
Lemma generateFromCommandLine_reads_behind_one_argument_witness :
  generateFromCommandLine ["reads.fq"; ","]%string 1
                          (mkSNAPFile None None UnknownFileType false false)
                          true true =
  Done true 2
        (mkSNAPFile (Some "reads.fq"%string) (Some ","%string) FASTQFile false false).
Proof.
  apply (generateFromCommandLine_reads_behind_one_argument
           "reads.fq" [","%string]
           (mkSNAPFile None None UnknownFileType false false)).
  - discriminate.
  - reflexivity.
Defined.

(** An option and its value where a file could stand. *)
Lemma generateFromCommandLine_false_only_for_options_witness :
  ~ In "-t"%string fileTypeSpecifiers.
Proof.
  destruct (generateFromCommandLine_false_only_for_options
              ["-t"; "8"]%string 2
              (mkSNAPFile None None UnknownFileType false false) false true
              0 (mkSNAPFile None None UnknownFileType false false))
    as (_ & _ & _ & _ & [H|(a0 & Ha0 & _ & _ & [H|H])]).
  - reflexivity.
  - discriminate H.
  - discriminate H.
  - injection Ha0 as <-. exact H.
Defined.

(** The second record of the concrete case, its quality all sentinels, read
    and clipped at the back, written to the sample writer and read back. *)
Lemma writeRead_of_empty_view_reads_back_as_blank_line_witness :
  let ext := bufferMemory (renderAll twoRecords) in
  let rd :=
    clip ext
         (match init5 sample_IS_LOWER_CASE sample_TO_UPPER_CASE ext Read_new
                      (Ext 17) 2 20 27 4 with
          | Some r => r
          | None => Read_new
          end) ClipBack false in
  exists w',
    writeRead (fun w => w) ext sampleWriter rd = Some (true, w') /\
    firstn 8 (skipn 4 (buffer w')) =
      list_ascii_of_string "@r2" ++ [LF; LF; "+"%char; LF; LF] /\
    getReadFromBuffer sample_IS_LOWER_CASE sample_TO_UPPER_CASE
                      (buffer w') 4 8 Read_new false ClipBack
      = SoftExit BlankLine.
Proof.
  intros ext rd.
  destruct (writeRead_of_empty_view_reads_back_as_blank_line
              sample_IS_LOWER_CASE sample_TO_UPPER_CASE (fun w => w) ext
              sampleWriter rd)
    as (w' & Hw & _ & _ & Htext & Hparse).
  - reflexivity.
  - reflexivity.
  - reflexivity.
  - discriminate.
  - reflexivity.
  - reflexivity.
  - reflexivity.
  - discriminate.
  - reflexivity.
  - exists w'. split; [exact Hw|]. split; [exact Htext|].
    apply (Hparse Read_new false ClipBack).
Defined.
